(* ===== verification/_CoqProject ===== *)
-Q . S2P
Prelude.v
Ext.v
Config.v
Asset.v
Objects.v
Parameters.v
Governance.v
Blocks.v
Names.v
Operations.v
Validation.v
Fees.v
Ledger.v
Authority.v
Database.v
Vesting.v
Balance.v
CallOrder.v
Market.v
Matching.v
OrderBook.v
Feeds.v
Evaluator.v
MarketEval.v
AssetEval.v
BitassetEval.v
TransferEval.v
GovernanceEval.v
AccountEval.v
ContractEval.v
ConfidentialEval.v
ProposalEval.v
WithdrawEval.v
Elections.v
Budget.v
Maintenance.v
Update.v
Transactions.v
SignedBlocks.v
WitnessSchedule.v
ApplyBlock.v
Genesis.v
ForkDatabase.v
BlockLog.v
PushBlock.v
Production.v
UndoDatabase.v
UndoSessions.v
Exchange.v
Indices.v
Supply.v
MarketSupply.v
MatchSupply.v
EvalSupply.v
Frame.v
GovernanceSupply.v
OperationSupply.v
BitassetSupply.v
CreateSupply.v
AccountSupply.v
ChainSupply.v
BudgetSupply.v
MaintenanceSupply.v
BlockSupply.v
Sample.v
SampleSupply.v
GenesisSupply.v
AuthorityTheory.v
Conservation.v
MaintenanceTheory.v
Pricing.v
TargetRatio.v
FeedMedian.v
VestingTheory.v
Slots.v
BlockTheory.v
ForkTree.v
ForkSwitch.v
ProductionTheory.v
ExpiryTheory.v
