(* ===== verification/Prelude.v ===== *)
(** * NESTchain core: a verification library

    NESTchain is a chain of the Graphene family. Its core, src/libraries/chain, is
    a ledger: accounts hold balances of assets, the core asset among them; limit
    orders, margin positions, force settlements and collateral bids lock amounts
    up; market issued assets are backed by the collateral of margin positions and
    valued by published price feeds; fees flow to asset issuers, fee pools and,
    over vesting balances, to the referral program; votes elect witnesses,
    committee members and workers, whom a budget pays. Transactions change the
    ledger by operations, once their authority is verified; blocks apply
    transactions, run the maintenance and remove what expires; a fork database
    and undo sessions let the node change its mind about the last blocks. This
    library models all of these layers and proves what makes them correct.

    ** The shape of the model

    The database of the node ([graphene::db::object_database]) is the record
    [database] of Database.v, with one finite map for each object index and the
    ordered indices computed from the maps. A function that modifies the
    database is a computation of the monad [M database] defined here: it takes a
    database to a value and a new database, or to the [error] that stands for
    the exception the C++ function throws. An error carries no database, because
    the undo session of the caller restores the old one. Pure functions that may
    throw return [res]. Integers are [Z]; the place where the C++ code stores
    one in a type of fixed width is a function of the class [Ext] (Ext.v), since
    the sources of [fc::safe], [fc::uint128] and [boost] are not part of the
    repository; [ext_std] is the concrete instance used by the examples. The
    state around the database is added layer by layer: [chain] (ApplyBlock.v)
    joins the schedule of witnesses and the dynamic global properties, [node]
    (PushBlock.v) the fork database and the stack of saved states, and
    Production.v the pending transactions.

    ** The files of the model

    - Prelude.v: results, the monad, the rules of the partial-correctness
      assertions [post] and [rpost], sums over finite maps, sorting.
    - Ext.v: the arithmetic of the libraries, as a class with laws; [safe].
    - Config.v: the constants of config.hpp and hardfork.d.
    - Asset.v: protocol/asset.hpp and asset.cpp.
    - Objects.v, Governance.v, Ledger.v: the objects of the indices; Parameters.v:
      the chain parameters and fee schedules; Blocks.v, SignedBlocks.v: block
      headers, their identifiers and the Merkle root of the transactions.
    - Names.v: the names of accounts and the symbols of assets, with the grammar
      of names.
    - Operations.v: the operations and the authorities they require; Validation.v:
      their [validate]; Fees.v: their fees (protocol/*.hpp, protocol/*.cpp).
    - Authority.v: the signatures of a transaction (protocol/transaction.cpp).
    - Database.v: the object database, its indices and their orders.
    - Vesting.v, Balance.v: vesting_balance_object.cpp, db_balance.cpp and the fees
      of account_object.cpp.
    - CallOrder.v: [get_max_debt_to_cover] of market_object.cpp.
    - Market.v, Matching.v, OrderBook.v: db_market.cpp and
      [check_for_blackswan] of db_update.cpp.
    - Feeds.v: the feeds of asset_object.cpp.
    - Evaluator.v: evaluator.hpp, evaluator.cpp and is_authorized_asset.cpp; the
      class [Evaluator] is the interface every evaluator implements.
    - MarketEval.v, AssetEval.v, BitassetEval.v, TransferEval.v, GovernanceEval.v,
      WithdrawEval.v, AccountEval.v, ContractEval.v, ConfidentialEval.v,
      ProposalEval.v: the evaluators, one file for one or two *_evaluator.cpp.
    - Transactions.v: [apply_operation] with the dispatch to the evaluators,
      [push_proposal] and [_apply_transaction] of db_block.cpp, and the expiry of
      transactions and proposals of db_update.cpp.
    - Elections.v, Budget.v, Maintenance.v: db_maint.cpp.
    - Update.v: the market part of db_update.cpp.
    - WitnessSchedule.v: db_witness_schedule.cpp and the dynamic global properties.
    - ApplyBlock.v: [apply_block] of db_block.cpp; Genesis.v: [init_genesis] of
      db_init.cpp.
    - UndoDatabase.v: db/undo_database.cpp; ForkDatabase.v: fork_database.cpp;
      BlockLog.v: block_database.cpp, with the proof that its files hold a map.
    - PushBlock.v, Production.v: [push_block], [push_transaction],
      [generate_block] and the pending transactions (db_block.cpp, db_with.hpp).

    ** Interfaces

    What the code takes from a library, or one part from another, is a class:
    [Ext], [Packing], [KeyAddresses], [ContractMachine], [TransactionCrypto],
    [BlockHash], [MerkleHash], [BlockSigner], [BlockProducer], [BlockPacking],
    [BlockFormat], [NthElement] and [HashOrder] are parameters that stand for code outside
    src/, with the laws the proofs use. [Evaluator] and [Votable] are interfaces
    of the code itself. [ChainState] is what switching forks needs of the chain;
    ForkSwitch.v gives the instance for the chain of ApplyBlock.v.
    [ConservingEvaluator] and [PlainEvaluator] (EvalSupply.v) are what an
    evaluator promises to the proof that transactions conserve supplies; each
    evaluator has its instance.

    ** The proofs

    - Supply.v: the specification of the books. [holdings] adds up the places an
      asset can be in, the way [verify_asset_supplies] of
      tests/common/database_fixture.cpp does; [conserved] says they add up to the
      supply of every asset; [wf] is the invariant of the object graph.
      MarketSupply.v, MatchSupply.v, EvalSupply.v, OperationSupply.v,
      BitassetSupply.v, CreateSupply.v, GovernanceSupply.v, AccountSupply.v,
      ChainSupply.v, BudgetSupply.v, MaintenanceSupply.v, BlockSupply.v and
      GenesisSupply.v follow the difference through every
      computation, Frame.v what a computation leaves alone; Conservation.v and
      GenesisSupply.v state the results: genesis makes a balanced state, and
      operations, transactions, the maintenance and blocks keep it so.
    - AuthorityTheory.v: a transaction passes exactly when the keys that signed
      satisfy the authorities it requires, up to the depth limit.
    - MaintenanceTheory.v, FeedMedian.v, Slots.v: elections, the next maintenance,
      the median feed, the schedule and the last irreversible block.
    - Exchange.v, Pricing.v, TargetRatio.v: rounding, the order of prices, derived
      prices, fees paid in another asset, and the debt a margin call covers.
      VestingTheory.v: what may be withdrawn.
    - UndoSessions.v: the undo database refines a machine that saves whole copies, in
      runs where unique keys do not clash. ForkTree.v, ForkSwitch.v: the fork database
      is a tree, and pushing a block is all or nothing, the exceptions of [pop_block]
      during a switch apart. BlockTheory.v, ProductionTheory.v, ExpiryTheory.v: what an
      accepted block satisfied, that produced blocks are accepted, that what has
      expired is gone, and that the loops over proposals and the book end.
    - Indices.v: ordered indices. Sample.v, SampleSupply.v: concrete databases and a
      chain with a block, on which the properties are run.

    ** Bounds and fuel

    A loop of the code is a [Fixpoint] on a number of passes, and a run that
    would need more ends in [OutOfFuel]. The loops that halve a 128 bit rational
    get 128 passes, those over an index one more than the number of its objects;
    the loops of margin calls a multiple of the number of limit and margin
    orders; the loop of [calculate_fee] two, which suffice
    (Pricing.calculate_fee_least); the labels of a name one more than its length
    (Names.is_valid_name_grammar); the loops over the fork database one more than
    the number of items ever made (ForkTree.v); the Merkle root the number of its
    leaves (BlockTheory.v); the search for the last block the number of entries of
    the index; nested proposals and the loop over expired ones are
    bounded by what [ExpiryTheory.proposal_loops_end] shows to be enough; the
    loops of genesis that reserve identifiers one more than the number reserved.
    Matching limit orders, a global settlement and the cancellation of bids never
    need more passes than there are orders (ExpiryTheory.book_loops_end). For the
    loops of margin calls no number of passes is proved to be enough: a position
    with a target ratio is filled in part and goes back into an index ordered by
    a rounded price. What is shown of them is about the runs that return.

    ** Simplifications

    Bids on settled assets, the end of an annual membership and other parts that
    depend on the time of a hard fork are modelled with both branches; the
    theorems on supplies ask for a time after the hard forks ([modern] of
    EvalSupply.v). The state of genesis is not [modern], because its next
    maintenance is not yet set, so the theorem on blocks applies from the first
    maintenance on. An update of a margin position does not look at the asset its
    collateral is of, and that this is the backing asset of the debt is lost when
    the asset gets another one; the evaluator asks for a supply of zero then, and
    that there are no positions at a supply of zero is an invariant of debts, which
    is not stated. The theorems on supplies hold in one of two regimes ([Regime] of
    Supply.v): margin positions are updated, the collateral of every position is
    the backing asset of its debt, and the updates of bitasset options keep the
    backing asset that is recorded for their asset; or no margin position is
    updated and the options change as they like. Empty entries of
    the operation log before hard fork 483 and the reason of a failed proposal
    are left out; transactions that expire together are removed in the order of
    their identifiers; an exception other than [fc::exception] in a destructor
    ends the process; a block has fewer than 2^32 transactions.

    ** Not modelled

    Opening, closing and replaying the files of the node, the hash that is the
    chain id, debug updates, observers and notifications (db_notify.cpp), and the
    network, wallet, plugins and applications around the chain library, which do
    input and output and keep no state of the ledger. The submodules fc and wren
    are not part of the repository: cryptography, serialisation and the machine
    of smart contracts are parameters. Log output, and [assert] of debug builds,
    are left out. *)

From stdpp Require Export base option list gmap strings sorting.
From Stdlib Require Export ZArith Lia.

#[export] Set Default Proof Using "Type".
#[export] Set Default Goal Selector "!".
#[export] Set Warnings "-clear-no-such-hyp,-notation-for-abbreviation".
Open Scope Z_scope.

(** Tests on integers are kept when a goal is simplified. *)
#[global] Arguments Z.eqb _ _ : simpl never.
#[global] Arguments Z.ltb _ _ : simpl never.
#[global] Arguments Z.leb _ _ : simpl never.
#[global] Arguments Z.add _ _ : simpl never.
#[global] Arguments Z.sub _ _ : simpl never.
#[global] Arguments Z.mul _ _ : simpl never.
#[global] Arguments Z.opp _ : simpl never.

(** ** Fixed widths *)
Definition u16 (z : Z) : Z := z mod 2 ^ 16.
Definition u32 (z : Z) : Z := z mod 2 ^ 32.
Definition u64 (z : Z) : Z := z mod 2 ^ 64.
(** An [int64_t] with the bits of a [uint64_t]. *)
Definition i64_of_u64 (z : Z) : Z := if z <=? 2 ^ 63 - 1 then z else z - 2 ^ 64.

(** ** Results: values or the exception the C++ code throws *)

(** The exceptions the modelled code raises.  [AssertFailure] is
    [fc::assert_exception] (FC_ASSERT / GRAPHENE_ASSERT / FC_THROW),
    [Overflow] the exception of [fc::safe] arithmetic, [BadRational] the one of
    [boost::rational], [NotFound] the failed lookup of [object_database::get],
    [Undefined] marks a step whose behaviour C++ leaves undefined, [PartialState]
    an exception that is caught by code which then goes on from a half changed
    state, and [OutOfFuel] is not an exception of the code: it marks a loop whose bound was
    too small. *)
Inductive error :=
  | AssertFailure
  | Overflow
  | BadRational
  | NotFound
  | UniquenessViolated
  | InsufficientFeeds
  | InsufficientFee
  | UnfilledMarginCall
  | BlackSwan
  | MissingActiveAuth
  | MissingOwnerAuth
  | MissingOtherAuth
  | IrrelevantSignature
  | DuplicateSignature
  | Undefined
  | PartialState
  | OutOfFuel.

#[export] Instance error_eq_dec : EqDecision error.
Proof. solve_decision. Defined.

Inductive res (A : Type) :=
  | Ok (a : A)
  | Err (e : error).
Arguments Ok {A} a.
Arguments Err {A} e.

Definition rbind {A B} (r : res A) (k : A → res B) : res B :=
  match r with Ok a => k a | Err e => Err e end.

Definition of_option {A} (e : error) (o : option A) : res A :=
  match o with Some a => Ok a | None => Err e end.

Definition require_r {A} (b : bool) (k : res A) : res A :=
  if b then k else Err AssertFailure.

(** ** The state-and-exception monad

    A computation takes the state of the object database; an exception carries
    no state because the undo session of the caller discards it. *)
Definition M (S A : Type) : Type := S → res (A * S).

Definition ret {S A} (a : A) : M S A := λ s, Ok (a, s).
Definition fail {S A} (e : error) : M S A := λ _, Err e.
Definition bind {S A B} (m : M S A) (k : A → M S B) : M S B :=
  λ s, match m s with Ok (a, s') => k a s' | Err e => Err e end.
Definition lift {S A} (r : res A) : M S A :=
  λ s, match r with Ok a => Ok (a, s) | Err e => Err e end.
Definition gets {S A} (f : S → A) : M S A := λ s, Ok (f s, s).
Definition put {S} (f : S → S) : M S unit := λ s, Ok (tt, f s).
Definition require {S A} (b : bool) (k : M S A) : M S A :=
  if b then k else fail AssertFailure.

(** A [for] loop over the elements of a container. *)
Fixpoint for_each {S A} (f : A → M S unit) (l : list A) : M S unit :=
  match l with
  | [] => ret tt
  | x :: l' => bind (f x) (λ _, for_each f l')
  end.

Declare Scope prog_scope.
Delimit Scope prog_scope with prog.
Notation "'let?' x := r 'in' k" := (rbind r (λ x, k))
  (at level 10, x name, r at level 100, k at level 200) : prog_scope.
Notation "'require?' b 'in' k" := (require_r b k)
  (at level 10, b at level 100, k at level 200) : prog_scope.
Notation "'let!' x := m 'in' k" := (bind m (λ x, k))
  (at level 10, x name, m at level 100, k at level 200) : prog_scope.
Notation "'do!' m 'in' k" := (bind m (λ _, k))
  (at level 10, m at level 100, k at level 200) : prog_scope.
Notation "'require!' b 'in' k" := (require b k)
  (at level 10, b at level 100, k at level 200) : prog_scope.
Open Scope prog_scope.

(** ** Partial-correctness assertions on one run

    [post m s Q]: whenever [m] run from [s] returns normally, [Q] holds of the
    value and the new state. [rpost r Q] is the same for a pure result. *)
Definition rpost {A} (r : res A) (Q : A → Prop) : Prop :=
  ∀ a, r = Ok a → Q a.
Definition post {S A} (m : M S A) (s : S) (Q : A → S → Prop) : Prop :=
  ∀ a s', m s = Ok (a, s') → Q a s'.

Section results.
Context {A B : Type}.

Lemma rbind_ok (r : res A) (k : A → res B) b :
  rbind r k = Ok b ↔ ∃ a, r = Ok a ∧ k a = Ok b.
Proof. destruct r; simpl; naive_solver. Qed.

Lemma require_r_ok (b : bool) (k : res A) a :
  require_r b k = Ok a ↔ b = true ∧ k = Ok a.
Proof. destruct b; simpl; naive_solver. Qed.

Lemma of_option_ok e (o : option A) a : of_option e o = Ok a ↔ o = Some a.
Proof. destruct o; simpl; naive_solver. Qed.

Lemma rpost_bind (r : res A) (k : A → res B) Q :
  rpost r (λ a, rpost (k a) Q) → rpost (rbind r k) Q.
Proof. intros H b (a & Ha & Hk)%rbind_ok. by apply (H a). Qed.

Lemma rpost_require (b : bool) (k : res A) Q :
  (b = true → rpost k Q) → rpost (require_r b k) Q.
Proof. intros H a [Hb Hk]%require_r_ok. by apply H. Qed.

Lemma rpost_ok (a : A) (Q : A → Prop) : Q a → rpost (Ok a) Q.
Proof. intros H a' [= <-]. done. Qed.

Lemma rpost_mono (r : res A) (Q Q' : A → Prop) :
  rpost r Q → (∀ a, Q a → Q' a) → rpost r Q'.
Proof. intros H HQ a Ha. by apply HQ, H. Qed.
End results.

Section computations.
Context {S A B : Type}.

Lemma bind_ok (m : M S A) (k : A → M S B) s b s' :
  bind m k s = Ok (b, s') ↔ ∃ a s1, m s = Ok (a, s1) ∧ k a s1 = Ok (b, s').
Proof. unfold bind. destruct (m s) as [[]|]; naive_solver. Qed.

Lemma lift_ok (r : res A) (s : S) a s' :
  lift r s = Ok (a, s') ↔ r = Ok a ∧ s' = s.
Proof. unfold lift. destruct r; naive_solver. Qed.

Lemma require_ok (b : bool) (k : M S A) s a s' :
  require b k s = Ok (a, s') ↔ b = true ∧ k s = Ok (a, s').
Proof. destruct b; simpl; unfold fail; naive_solver. Qed.

Lemma post_ret (a : A) (s : S) (Q : A → S → Prop) : Q a s → post (ret a) s Q.
Proof. intros H a' s' [= <- <-]. done. Qed.

Lemma post_fail e (s : S) (Q : A → S → Prop) : post (fail e) s Q.
Proof. intros a s' [=]. Qed.

Lemma post_bind (m : M S A) (k : A → M S B) s Q :
  post m s (λ a s1, post (k a) s1 Q) → post (bind m k) s Q.
Proof. intros H b s' (a & s1 & Hm & Hk)%bind_ok. by eapply H. Qed.

Lemma post_lift (r : res A) (s : S) Q :
  rpost r (λ a, Q a s) → post (lift r) s Q.
Proof. intros H a s' [Hr ->]%lift_ok. by apply H. Qed.

Lemma post_gets (f : S → A) s (Q : A → S → Prop) : Q (f s) s → post (gets f) s Q.
Proof. intros H a s' [= <- <-]. done. Qed.

Lemma post_put (f : S → S) s (Q : unit → S → Prop) : Q tt (f s) → post (put f) s Q.
Proof. intros H a s' [= <- <-]. done. Qed.

Lemma post_require (b : bool) (k : M S A) s Q :
  (b = true → post k s Q) → post (require b k) s Q.
Proof. intros H a s' [Hb Hk]%require_ok. by apply H. Qed.

Lemma post_if (b : bool) (m1 m2 : M S A) s Q :
  (b = true → post m1 s Q) → (b = false → post m2 s Q) →
  post (if b then m1 else m2) s Q.
Proof. destruct b; auto. Qed.

Lemma post_mono (m : M S A) s (Q Q' : A → S → Prop) :
  post m s Q → (∀ a s', Q a s' → Q' a s') → post m s Q'.
Proof. intros H HQ a s' Ha. by apply HQ, H. Qed.

Lemma post_and (m : M S A) s (Q Q' : A → S → Prop) :
  post m s Q → post m s Q' → post m s (λ a s', Q a s' ∧ Q' a s').
Proof. intros H H' a s' Hm. split; [by apply H|by apply H']. Qed.

Lemma post_use (m : M S A) s Q a s' : post m s Q → m s = Ok (a, s') → Q a s'.
Proof. intros H E. by apply H. Qed.
End computations.

(** A loop keeps what each of its passes keeps. *)
Lemma post_for_each {S A} (I : S → Prop) (f : A → M S unit) (l : list A) s :
  (∀ x s, x ∈ l → I s → post (f x) s (λ _, I)) → I s → post (for_each f l) s (λ _, I).
Proof.
  revert s. induction l as [|x l IH]; intros s Hf Hs; simpl; [by apply post_ret|].
  apply post_bind. eapply post_mono; [apply Hf; [set_solver|done]|]. intros [] s' Hs'.
  apply IH; [|done]. intros y s'' Hy. apply Hf. set_solver.
Qed.

(** Symbolic execution of a computation: one structural step. *)
Ltac pstep :=
  lazymatch goal with
  | |- post (bind _ _) _ _ => apply post_bind
  | |- post (ret _) _ _ => apply post_ret
  | |- post (fail _) _ _ => apply post_fail
  | |- post (gets _) _ _ => apply post_gets
  | |- post (put _) _ _ => apply post_put
  | |- post (lift _) _ _ => apply post_lift
  | |- post (require _ _) _ _ => apply post_require; intros ?
  | |- post (if _ then _ else _) _ _ => apply post_if; intros ?
  | |- rpost (rbind _ _) _ => apply rpost_bind
  | |- rpost (require_r _ _) _ => apply rpost_require; intros ?
  | |- rpost (Ok _) _ => apply rpost_ok
  | |- rpost (Err _) _ => intros ? [=]
  end.
Tactic Notation "pcall" uconstr(H) := eapply post_mono; [eapply H|].
Tactic Notation "rcall" uconstr(H) := eapply rpost_mono; [eapply H|].

(** Turn the boolean tests collected on the way into propositions. *)
Ltac btrue :=
  repeat match goal with
  | H : andb _ _ = true |- _ => apply andb_prop in H; destruct H
  | H : negb _ = true |- _ => apply negb_true_iff in H
  | H : negb _ = false |- _ => apply negb_false_iff in H
  | H : orb _ _ = false |- _ => apply orb_false_elim in H; destruct H
  | H : bool_decide _ = true |- _ => apply bool_decide_eq_true_1 in H
  | H : bool_decide _ = false |- _ => apply bool_decide_eq_false_1 in H
  | H : Z.eqb _ _ = true |- _ => apply Z.eqb_eq in H
  | H : Z.eqb _ _ = false |- _ => apply Z.eqb_neq in H
  | H : Z.leb _ _ = true |- _ => apply Z.leb_le in H
  | H : Z.leb _ _ = false |- _ => apply Z.leb_gt in H
  | H : Z.ltb _ _ = true |- _ => apply Z.ltb_lt in H
  | H : Z.ltb _ _ = false |- _ => apply Z.ltb_ge in H
  end.

(** ** Containers in the order of their keys *)

(** A [boost::multi_index] ordered by [less]: the elements in increasing order. *)
Definition sorted_by {A} (less : A → A → bool) (l : list A) : list A :=
  merge_sort (λ a b, Is_true (negb (less b a))) l.

(** The entries of a [flat_map] or the objects of an index, by key. *)
Definition by_id {V} (m : gmap Z V) : list (Z * V) :=
  sorted_by (λ a b, a.1 <? b.1) (map_to_list m).

(** The elements of a [flat_set] *)
Definition in_order (s : gset Z) : list Z := sorted_by Z.ltb (elements s).

Lemma sorted_by_perm {A} (less : A → A → bool) l : sorted_by less l ≡ₚ l.
Proof. apply merge_sort_Permutation. Qed.
Lemma by_id_perm {V} (m : gmap Z V) : by_id m ≡ₚ map_to_list m.
Proof. apply sorted_by_perm. Qed.
Lemma elem_of_in_order s x : x ∈ in_order s ↔ x ∈ s.
Proof. unfold in_order. by rewrite sorted_by_perm, elem_of_elements. Qed.

(** ** Sums over finite maps *)

Definition msum {K V} `{Countable K} (f : K → V → Z) (m : gmap K V) : Z :=
  map_fold (λ k v acc, f k v + acc) 0 m.

Section msum.
Context {K V : Type} `{Countable K}.
Implicit Types (m : gmap K V) (f g : K → V → Z).

Lemma msum_empty f : msum f (∅ : gmap K V) = 0.
Proof. apply map_fold_empty. Qed.

Lemma msum_insert_fresh f m k v :
  m !! k = None → msum f (<[k:=v]> m) = f k v + msum f m.
Proof.
  intros Hk. unfold msum. apply (map_fold_insert_L (λ k v acc, f k v + acc)); [|done].
  intros. lia.
Qed.

(** The contribution of key [k] to the sum. *)
Definition at_key f m (k : K) : Z := from_option (f k) 0 (m !! k).

Lemma msum_delete f m k : msum f (delete k m) = msum f m - at_key f m k.
Proof.
  unfold at_key. destruct (m !! k) as [v|] eqn:E; simpl.
  - rewrite <- (insert_delete_id m k v E) at 2.
    rewrite msum_insert_fresh by apply lookup_delete_eq. lia.
  - rewrite delete_id by done. lia.
Qed.

Lemma msum_insert f m k v :
  msum f (<[k:=v]> m) = msum f m - at_key f m k + f k v.
Proof.
  rewrite <- insert_delete_eq, msum_insert_fresh by apply lookup_delete_eq.
  rewrite msum_delete. lia.
Qed.

Lemma msum_ext f g m :
  (∀ k v, m !! k = Some v → f k v = g k v) → msum f m = msum g m.
Proof.
  induction m as [|k v m Hk IH] using map_ind; intros Hfg.
  - by rewrite !msum_empty.
  - rewrite !msum_insert_fresh by done. rewrite IH.
    + rewrite (Hfg k v); [done|]. apply lookup_insert_eq.
    + intros k' v' Hk'. apply Hfg. rewrite lookup_insert_ne; [done|]. naive_solver.
Qed.

Lemma msum_list f m : msum f m = foldr Z.add 0 ((λ x, f x.1 x.2) <$> map_to_list m).
Proof.
  unfold msum. rewrite map_fold_foldr. induction (map_to_list m) as [|[k v] l IH]; simpl; [done|].
  by rewrite IH.
Qed.

Lemma msum_nonneg f m :
  (∀ k v, m !! k = Some v → 0 ≤ f k v) → 0 ≤ msum f m.
Proof.
  induction m as [|k v m Hk IH] using map_ind; intros Hf.
  - by rewrite msum_empty.
  - rewrite msum_insert_fresh by done.
    assert (0 ≤ f k v) by (apply Hf, lookup_insert_eq).
    enough (0 ≤ msum f m) by lia. apply IH. intros k' v' Hk'.
    apply Hf. rewrite lookup_insert_ne; [done|]. naive_solver.
Qed.

(** A sum that reads a second map through a reference held by each entry:
    when only entry [k] refers to cell [d], updating the cell changes only
    the summand of [k]. *)
Lemma msum_ref {K2 W} `{Countable K2} (r : V → K2) (f : K → V → option W → Z)
    m (w : gmap K2 W) k v x :
  m !! k = Some v →
  (∀ k' v', m !! k' = Some v' → r v' = r v → k' = k) →
  msum (λ k' v', f k' v' (<[r v := x]> w !! r v')) m =
  msum (λ k' v', f k' v' (w !! r v')) m - f k v (w !! r v) + f k v (Some x).
Proof.
  intros Hk Hinj. rewrite <- (insert_delete_id m k v Hk) at 1 2.
  rewrite !msum_insert_fresh by apply lookup_delete_eq.
  rewrite lookup_insert_eq.
  enough (msum (λ k' v', f k' v' (<[r v := x]> w !! r v')) (delete k m)
          = msum (λ k' v', f k' v' (w !! r v')) (delete k m)) by lia.
  apply msum_ext. intros k' v' [Hne Hk']%lookup_delete_Some.
  rewrite lookup_insert_ne; [done|]. intros Heq. apply Hne. symmetry. by eapply Hinj.
Qed.
End msum.
