(* ===== verification/Ext.v ===== *)
(** * Arithmetic of the libraries the code builds on

    The code computes with [fc::safe<int64_t>] ([share_type]), [fc::uint128],
    [boost::multiprecision] integers and [boost::rational]; their sources are
    not part of the repository.  [Ext] gathers the operations the code uses as
    parameters, with the documented behaviour the theorems rely on as laws.
    [ext_std] is one concrete instance, used to evaluate examples.

    An operation of a fixed-width type is modelled by the exact operation of
    [Z] followed by the function that stores the exact result in the type. *)

From S2P Require Import Prelude.

(** ** Machine ranges *)
Definition int64_max : Z := 2 ^ 63 - 1.
Definition int64_min : Z := - 2 ^ 63.
Definition in64 (z : Z) : Prop := int64_min ≤ z ≤ int64_max.
#[export] Instance in64_dec z : Decision (in64 z) := _.

(** A [boost::rational]: numerator and denominator. *)
Record rational := mk_rational { numerator : Z; denominator : Z }.
#[export] Instance rational_eq_dec : EqDecision rational.
Proof. solve_decision. Defined.

(** The normal form kept by [boost::rational]: positive denominator, lowest
    terms. *)
Definition normal_form (n d : Z) : rational :=
  let g := Z.gcd n d in
  {| numerator := Z.sgn d * (n / g); denominator := Z.abs d / g |}.

Definition is_normal (r : rational) : Prop :=
  0 < denominator r ∧ Z.gcd (numerator r) (denominator r) = 1.

(** The exact value of an [int128_t] computation is representable. *)
Definition in128 (z : Z) : Prop := - 2 ^ 127 < z < 2 ^ 127.

Class Ext := {
  (** [fc::safe<int64_t>]: the stored value, or the overflow exception *)
  safe64 : Z → option Z;
  safe64_in z : in64 z → safe64 z = Some z;
  safe64_out z : ¬ in64 z → safe64 z = None;
  (** [fc::uint128] and its [to_uint64()] *)
  fc_u128 : Z → Z;
  fc_u128_range z : 0 ≤ fc_u128 z < 2 ^ 128;
  fc_u128_small z : 0 ≤ z < 2 ^ 128 → fc_u128 z = z;
  to_uint64 : Z → Z;
  to_uint64_range z : 0 ≤ to_uint64 z < 2 ^ 64;
  to_uint64_small z : 0 ≤ z < 2 ^ 64 → to_uint64 z = z;
  (** [boost::multiprecision]: [uint128_t], [int128_t], [int256_t] *)
  u128 : Z → Z;
  u128_mod z : u128 z = z mod 2 ^ 128;
  i128 : Z → Z;
  i128_small z : in128 z → i128 z = z;
  i256 : Z → Z;
  i256_small z : - 2 ^ 255 < z < 2 ^ 255 → i256 z = z;
  (** [boost::rational<int128_t>]: construction (throws on denominator zero),
      product, difference, absolute value and order *)
  rat_make : Z → Z → option rational;
  rat_make_zero n : rat_make n 0 = None;
  rat_make_normal n d :
    d ≠ 0 → in128 n → in128 d → rat_make n d = Some (normal_form n d);
  rat_mul : rational → rational → rational;
  rat_mul_exact p q :
    is_normal p → is_normal q →
    in128 (numerator p * numerator q) → in128 (denominator p * denominator q) →
    rat_mul p q =
      normal_form (numerator p * numerator q) (denominator p * denominator q);
  rat_sub : rational → rational → rational;
  rat_sub_exact p q :
    is_normal p → is_normal q →
    in128 (numerator p * denominator q) → in128 (numerator q * denominator p) →
    in128 (numerator p * denominator q - numerator q * denominator p) →
    in128 (denominator p * denominator q) →
    rat_sub p q =
      normal_form (numerator p * denominator q - numerator q * denominator p)
                  (denominator p * denominator q);
  rat_abs : rational → rational;
  rat_abs_exact p :
    is_normal p → in128 (numerator p) →
    rat_abs p = {| numerator := Z.abs (numerator p); denominator := denominator p |};
  rat_ltb : rational → rational → bool;
  rat_ltb_exact p q :
    is_normal p → is_normal q →
    rat_ltb p q = (numerator p * denominator q <? numerator q * denominator p);
  (** [boost::rational<int32_t>]: [ratio_type] *)
  ratio_make : Z → Z → option rational;
  ratio_make_zero n : ratio_make n 0 = None;
  ratio_make_normal n d :
    d ≠ 0 → - 2 ^ 31 < n < 2 ^ 31 → - 2 ^ 31 < d < 2 ^ 31 →
    ratio_make n d = Some (normal_form n d);
  (** [time_point_sec + uint32_t] *)
  time_add : Z → Z → Z;
  time_add_small t d :
    0 ≤ t → 0 ≤ d → t + d < 2 ^ 32 → time_add t d = t + d;
  (** [fc::ecc]: the commitment to an amount with a blinding factor, whether
      sums of commitments differ by a public amount, and the largest amount a
      range proof admits (throws when it is malformed); [fc::sha256] *)
  ecc_blind : Z → Z → Z;
  ecc_verify_sum : list Z → list Z → Z → bool;
  range_max_value : Z → option Z;
  sha256 : string → string;
}.

Lemma u128_range `{Ext} z : 0 ≤ u128 z < 2 ^ 128.
Proof. rewrite u128_mod. by apply Z.mod_pos_bound. Qed.
Lemma u128_small `{Ext} z : 0 ≤ z < 2 ^ 128 → u128 z = z.
Proof. rewrite u128_mod. apply Z.mod_small. Qed.

(** ** The concrete instance *)

Definition exact_make (n d : Z) : option rational :=
  if bool_decide (d = 0) then None else Some (normal_form n d).

Lemma exact_make_nonzero n d : d ≠ 0 → exact_make n d = Some (normal_form n d).
Proof. intros Hd. unfold exact_make. by rewrite bool_decide_eq_false_2. Qed.

Program Definition ext_std : Ext := {|
  safe64 z := if bool_decide (in64 z) then Some z else None;
  fc_u128 z := z mod 2 ^ 128;
  to_uint64 z := z mod 2 ^ 64;
  u128 z := z mod 2 ^ 128;
  i128 z := z;
  i256 z := z;
  rat_make := exact_make;
  rat_mul p q :=
    normal_form (numerator p * numerator q) (denominator p * denominator q);
  rat_sub p q :=
    normal_form (numerator p * denominator q - numerator q * denominator p)
                (denominator p * denominator q);
  rat_abs p := {| numerator := Z.abs (numerator p); denominator := denominator p |};
  rat_ltb p q := numerator p * denominator q <? numerator q * denominator p;
  ratio_make := exact_make;
  time_add t d := (t + d) mod 2 ^ 32;
  ecc_blind factor amount := factor + amount;
  ecc_verify_sum ins outs excess := foldr Z.add 0 ins =? foldr Z.add excess outs;
  range_max_value proof := Some proof;
  sha256 text := text;
|}.
Solve Obligations with
  (intros; simpl; first
    [ done
    | by rewrite bool_decide_eq_true_2
    | by rewrite bool_decide_eq_false_2
    | by apply Z.mod_pos_bound
    | by apply Z.mod_small
    | by apply exact_make_nonzero
    | apply Z.mod_small; lia ]).

(** ** [std::nth_element]

    The standard leaves the order of equivalent elements open: the function is
    a parameter. After the call the range is a permutation of the original, and
    nothing before position [n] is greater, nothing after it is less, than the
    element at [n]. *)
Definition strict_weak_order {A} (less : A → A → bool) (l : list A) : Prop :=
  (∀ x, x ∈ l → less x x = false) ∧
  (∀ x y z, x ∈ l → y ∈ l → z ∈ l → less x y = true → less y z = true → less x z = true) ∧
  (∀ x y z, x ∈ l → y ∈ l → z ∈ l → less x y = false → less y z = false → less x z = false).

Class NthElement := {
  nth_element : ∀ {A}, (A → A → bool) → nat → list A → list A;
  nth_element_perm {A} (less : A → A → bool) n l : nth_element less n l ≡ₚ l;
  nth_element_spec {A} (less : A → A → bool) n l i j x y :
    strict_weak_order less l → (i ≤ n ≤ j)%nat →
    nth_element less n l !! i = Some x → nth_element less n l !! j = Some y →
    (i = n ∨ j = n) → less y x = false;
}.

(** *** Sorting is one way of putting the element of a position in its place *)
Section insertion_sort.
Context {A : Type} (less : A → A → bool).

Fixpoint insert_sorted (x : A) (l : list A) : list A :=
  match l with
  | [] => [x]
  | y :: l => if less y x then y :: insert_sorted x l else x :: y :: l
  end.
Definition insertion_sort (l : list A) : list A := foldr insert_sorted [] l.

Lemma insert_sorted_perm x l : insert_sorted x l ≡ₚ x :: l.
Proof.
  induction l as [|y l IH]; simpl; [done|]. case_match; [|done]. rewrite IH. apply Permutation_swap.
Qed.

Lemma insertion_sort_perm l : insertion_sort l ≡ₚ l.
Proof. induction l as [|x l IH]; simpl; [done|]. by rewrite insert_sorted_perm, IH. Qed.

Lemma strict_weak_order_sub l l' :
  strict_weak_order less l → (∀ x, x ∈ l' → x ∈ l) → strict_weak_order less l'.
Proof. intros (H1 & H2 & H3) Hl. split_and!; eauto 8. Qed.

Notation sorted := (StronglySorted (λ a b, less b a = false)).

Lemma insert_sorted_sorted x l :
  strict_weak_order less (x :: l) → sorted l → sorted (insert_sorted x l).
Proof.
  intros Hl Hs. induction Hs as [|y l Hs IH Hy]; simpl; [by repeat constructor|].
  pose proof Hl as (Hirr & Htr & Hneg). destruct (less y x) eqn:E.
  - constructor.
    + apply IH. eapply strict_weak_order_sub; [exact Hl|]. set_solver.
    + apply Forall_forall. intros z Hz. rewrite insert_sorted_perm in Hz.
      apply elem_of_cons in Hz as [->|Hz]; [|by rewrite Forall_forall in Hy; apply Hy].
      destruct (less x y) eqn:E'; [|done]. exfalso.
      pose proof (Htr x y x ltac:(set_solver) ltac:(set_solver) ltac:(set_solver) E' E) as F.
      rewrite Hirr in F; [done|set_solver].
  - constructor; [by constructor|]. constructor; [done|]. apply Forall_forall. intros z Hz.
    rewrite Forall_forall in Hy. apply (Hneg z y x); [set_solver..|by apply Hy|done].
Qed.

Lemma insertion_sort_sorted l : strict_weak_order less l → sorted (insertion_sort l).
Proof.
  induction l as [|x l IH]; simpl; intros Hl; [constructor|]. apply insert_sorted_sorted.
  - eapply strict_weak_order_sub; [exact Hl|]. intros z. rewrite !elem_of_cons, insertion_sort_perm. done.
  - apply IH. eapply strict_weak_order_sub; [exact Hl|]. set_solver.
Qed.

Lemma insertion_sort_places l i j x y :
  strict_weak_order less l → (i ≤ j)%nat →
  insertion_sort l !! i = Some x → insertion_sort l !! j = Some y → less y x = false.
Proof.
  intros Hl Hij Hx Hy. destruct (decide (i = j)) as [->|Hne].
  { rewrite Hx in Hy. injection Hy as <-. apply (proj1 Hl). rewrite <- insertion_sort_perm.
    by eapply list_elem_of_lookup_2. }
  pose proof (insertion_sort_sorted l Hl) as Hs.
  rewrite <- (take_drop j (insertion_sort l)) in Hs.
  eapply (StronglySorted_app_1_elem_of _ _ _ _ _ Hs).
  - apply list_elem_of_lookup. exists i. rewrite lookup_take_lt; [done|lia].
  - apply list_elem_of_lookup. exists 0%nat. by rewrite lookup_drop, Nat.add_0_r.
Qed.
End insertion_sort.

Definition sort_nth_element : NthElement := {|
  nth_element A less n l := insertion_sort less l;
  nth_element_perm A less n l := insertion_sort_perm less l;
  nth_element_spec A less n l i j x y Hl Hij Hx Hy _ :=
    insertion_sort_places less l i j x y Hl (Nat.le_trans _ _ _ (proj1 Hij) (proj2 Hij)) Hx Hy;
|}.

(** The element of the position, with those that are not above it and those that
    are not below it. *)
Lemma nth_element_split `{NthElement} {A} (less : A → A → bool) n l x :
  strict_weak_order less l → nth_element less n l !! n = Some x →
  ∃ before after, nth_element less n l = before ++ x :: after ∧ length before = n ∧
    Forall (λ y, less x y = false) before ∧ Forall (λ y, less y x = false) after.
Proof.
  intros Hl Hx. set (r := nth_element less n l) in *.
  assert (∀ i j y z, (i ≤ n ≤ j)%nat → r !! i = Some y → r !! j = Some z → i = n ∨ j = n → less z y = false) as Horder.
  { intros i j y z Hij Hy Hz Hn. by apply (nth_element_spec less n l i j y z Hl Hij). }
  exists (take n r), (drop (S n) r). apply lookup_lt_Some in Hx as Hlen. split_and!.
  - symmetry. by apply take_drop_middle.
  - rewrite length_take. lia.
  - apply Forall_lookup. intros i w [Hw Hi]%lookup_take_Some. apply (Horder i n w x); [lia|done|done|by right].
  - apply Forall_lookup. intros i w Hw. rewrite lookup_drop in Hw.
    apply (Horder n (S n + i)%nat x w); [lia|done|done|by left].
Qed.

(** ** Safe arithmetic *)
Section safe.
Context {X : Ext}.

Definition safe (z : Z) : res Z := of_option Overflow (safe64 z).

Lemma safe_spec z r : safe z = Ok r ↔ r = z ∧ in64 z.
Proof.
  unfold safe. rewrite of_option_ok. destruct (decide (in64 z)) as [Hz|Hz].
  - rewrite safe64_in by done. naive_solver.
  - rewrite safe64_out by done. naive_solver.
Qed.

Lemma safe_in z : in64 z → safe z = Ok z.
Proof. intros. by apply safe_spec. Qed.

Lemma safe_out z : ¬ in64 z → safe z = Err Overflow.
Proof. intros. unfold safe. by rewrite safe64_out. Qed.

Lemma rpost_safe z (Q : Z → Prop) : (in64 z → Q z) → rpost (safe z) Q.
Proof. intros H r [-> Hz]%safe_spec. by apply H. Qed.
End safe.

(** Take apart equations [r = Ok v] of the error monad. *)
Ltac inv_ok :=
  repeat match goal with
  | H : rbind _ _ = Ok _ |- _ => apply rbind_ok in H; destruct H as (? & ? & H)
  | H : require_r _ _ = Ok _ |- _ => apply require_r_ok in H; destruct H as (? & H)
  | H : Ok _ = Ok _ |- _ => injection H; clear H; intros; try subst
  | H : of_option _ _ = Ok _ |- _ => apply of_option_ok in H
  | H : safe _ = Ok _ |- _ => apply safe_spec in H; first [destruct H as (-> & ?) | destruct H as (? & ?)]
  | H : Err _ = Ok _ |- _ => discriminate H
  | H : None = Some _ |- _ => discriminate H
  | H : Some _ = None |- _ => discriminate H
  | H : Some _ = Some _ |- _ => injection H; clear H; intros; try subst
  end.
