(* ===== verification/Config.v ===== *)
(** * Chain constants and hard fork times

    The constants of chain/include/graphene/chain/config.hpp the modelled code
    reads, and the hard fork times of chain/hardfork.d/*.hf (seconds since the
    epoch). *)

From S2P Require Import Prelude.

Definition GRAPHENE_MAX_SHARE_SUPPLY : Z := 1000000000000000.
Definition GRAPHENE_BLOCKCHAIN_PRECISION : Z := 100000.
Definition GRAPHENE_100_PERCENT : Z := 10000.
Definition GRAPHENE_1_PERCENT : Z := GRAPHENE_100_PERCENT / 100.
Definition GRAPHENE_MAX_MARKET_FEE_PERCENT : Z := GRAPHENE_100_PERCENT.
Definition GRAPHENE_DEFAULT_FORCE_SETTLEMENT_DELAY : Z := 60 * 60 * 24.
Definition GRAPHENE_DEFAULT_FORCE_SETTLEMENT_OFFSET : Z := 0.
Definition GRAPHENE_DEFAULT_FORCE_SETTLEMENT_MAX_VOLUME : Z := 20 * GRAPHENE_1_PERCENT.
Definition GRAPHENE_DEFAULT_PRICE_FEED_LIFETIME : Z := 60 * 60 * 24.
Definition GRAPHENE_COLLATERAL_RATIO_DENOM : Z := 1000.
Definition GRAPHENE_MIN_COLLATERAL_RATIO : Z := 1001.
Definition GRAPHENE_MAX_COLLATERAL_RATIO : Z := 32000.
Definition GRAPHENE_DEFAULT_MAINTENANCE_COLLATERAL_RATIO : Z := 1750.
Definition GRAPHENE_DEFAULT_MAX_SHORT_SQUEEZE_RATIO : Z := 1500.

Definition GRAPHENE_MIN_ASSET_SYMBOL_LENGTH : Z := 3.
Definition GRAPHENE_MAX_ASSET_SYMBOL_LENGTH : Z := 16.
Definition GRAPHENE_MIN_ACCOUNT_NAME_LENGTH : Z := 1.
Definition GRAPHENE_MAX_ACCOUNT_NAME_LENGTH : Z := 63.
Definition GRAPHENE_DEFAULT_MAX_BUYBACK_MARKETS : Z := 4.

Definition GRAPHENE_MAX_WORKER_NAME_LENGTH : Z := 63.
Definition GRAPHENE_MAX_URL_LENGTH : Z := 127.

Definition GRAPHENE_RECENTLY_MISSED_COUNT_INCREMENT : Z := 4.
Definition GRAPHENE_RECENTLY_MISSED_COUNT_DECREMENT : Z := 3.
Definition GRAPHENE_IRREVERSIBLE_THRESHOLD : Z := 70 * GRAPHENE_1_PERCENT.
Definition GRAPHENE_MAX_UNDO_HISTORY : Z := 30000.

Definition GRAPHENE_MIN_TRANSACTION_SIZE_LIMIT : Z := 1024.
Definition GRAPHENE_MIN_BLOCK_SIZE_LIMIT : Z := GRAPHENE_MIN_TRANSACTION_SIZE_LIMIT * 5.
Definition GRAPHENE_MIN_BLOCK_INTERVAL : Z := 1.
Definition GRAPHENE_MAX_BLOCK_INTERVAL : Z := 30.
Definition GRAPHENE_CORE_ASSET_CYCLE_RATE : Z := 17.
Definition GRAPHENE_CORE_ASSET_CYCLE_RATE_BITS : Z := 32.

(** Accounts with a fixed role. *)
Definition GRAPHENE_COMMITTEE_ACCOUNT : Z := 0.
Definition GRAPHENE_WITNESS_ACCOUNT : Z := 1.
Definition GRAPHENE_RELAXED_COMMITTEE_ACCOUNT : Z := 2.
Definition GRAPHENE_NULL_ACCOUNT : Z := 3.
Definition GRAPHENE_TEMP_ACCOUNT : Z := 4.
Definition GRAPHENE_PROXY_TO_SELF_ACCOUNT : Z := 5.

(** [asset_id_type()]: the core asset. *)
Definition CORE : Z := 0.

(** [time_point_sec::maximum()] and [time_point_sec()]. *)
Definition time_max : Z := 2 ^ 32 - 1.
Definition time_zero : Z := 0.

(** Hard forks, old numbering (compared with the head block time) *)
Definition HARDFORK_23_TIME : Z := 1512747600.
Definition HARDFORK_385_TIME : Z := 1445558400.
Definition HARDFORK_413_TIME : Z := 1446652800.
Definition HARDFORK_415_TIME : Z := 1446652800.
Definition HARDFORK_419_TIME : Z := 1446652800.
Definition HARDFORK_436_TIME : Z := 1450288800.
Definition HARDFORK_445_TIME : Z := 1450288800.
Definition HARDFORK_453_TIME : Z := 1450288800.
Definition HARDFORK_480_TIME : Z := 1450378800.
Definition HARDFORK_483_TIME : Z := 1450378800.
Definition HARDFORK_516_TIME : Z := 1456250400.
Definition HARDFORK_533_TIME : Z := 1456250400.
Definition HARDFORK_538_TIME : Z := 1456250400.
Definition HARDFORK_555_TIME : Z := 1456250400.
Definition HARDFORK_563_TIME : Z := 1456250400.
Definition HARDFORK_572_TIME : Z := 1456250400.
Definition HARDFORK_599_TIME : Z := 1459789200.
Definition HARDFORK_607_TIME : Z := 1458752400.
Definition HARDFORK_613_TIME : Z := 1458752400.
Definition HARDFORK_615_TIME : Z := 1458752400.

(** Hard forks of bitshares-core *)
Definition HARDFORK_CORE_143_TIME : Z := 1512747600.
Definition HARDFORK_CORE_184_TIME : Z := 1532008920.
Definition HARDFORK_CORE_188_TIME : Z := 1532008920.
Definition HARDFORK_CORE_199_TIME : Z := 1532008920.
Definition HARDFORK_CORE_214_TIME : Z := 1532008920.
Definition HARDFORK_CORE_216_TIME : Z := 1512747600.
Definition HARDFORK_CORE_338_TIME : Z := 1532008920.
Definition HARDFORK_CORE_342_TIME : Z := 1532008920.
Definition HARDFORK_CORE_343_TIME : Z := 1532008920.
Definition HARDFORK_CORE_429_TIME : Z := 1512747600.
Definition HARDFORK_CORE_453_TIME : Z := 1532008920.
Definition HARDFORK_CORE_518_TIME : Z := 1532008920.
Definition HARDFORK_CORE_583_TIME : Z := 1532008920.
Definition HARDFORK_CORE_588_TIME : Z := 1532008920.
Definition HARDFORK_CORE_604_TIME : Z := 1532008920.
Definition HARDFORK_CORE_606_TIME : Z := 1532008920.
Definition HARDFORK_CORE_620_TIME : Z := 1532008920.
Definition HARDFORK_CORE_625_TIME : Z := 1532008920.
Definition HARDFORK_CORE_834_TIME : Z := 1532008920.
Definition HARDFORK_CORE_868_890_TIME : Z := 1532008920.
Definition HARDFORK_CORE_922_931_TIME : Z := 1532008920.
Definition HARDFORK_CORE_935_TIME : Z := 1532008920.
Definition HARDFORK_CORE_942_TIME : Z := 1532008920.
Definition HARDFORK_CORE_1040_TIME : Z := 1532008920.
