(* ===== verification/Asset.v ===== *)
(** * Assets, prices and price feeds

    Models chain/protocol/asset.hpp and chain/protocol/asset.cpp: amounts of an
    asset, prices as a ratio of two amounts, the rounding of an exchange, the
    price at which a margin position is called, and price feeds. *)

From S2P Require Import Prelude Ext Config.

(** ** Data *)

Record asset := mk_asset { amount : Z; asset_id : Z }.
#[export] Instance asset_eq_dec : EqDecision asset.
Proof. solve_decision. Defined.

Record price := mk_price { base : asset; quote : asset }.
#[export] Instance price_eq_dec : EqDecision price.
Proof. solve_decision. Defined.

(** [price()]: the null price. *)
Definition null_price : price := mk_price (mk_asset 0 0) (mk_asset 0 0).

Record price_feed := mk_price_feed {
  settlement_price : price;
  core_exchange_rate : price;
  maintenance_collateral_ratio : Z;   (* uint16_t *)
  maximum_short_squeeze_ratio : Z;    (* uint16_t *)
}.
#[export] Instance price_feed_eq_dec : EqDecision price_feed.
Proof. solve_decision. Defined.

(** [price_feed()]: the default feed. *)
Definition null_feed : price_feed := {|
  settlement_price := null_price;
  core_exchange_rate := null_price;
  maintenance_collateral_ratio := GRAPHENE_DEFAULT_MAINTENANCE_COLLATERAL_RATIO;
  maximum_short_squeeze_ratio := GRAPHENE_DEFAULT_MAX_SHORT_SQUEEZE_RATIO;
|}.

(** [operator ~]: the price read the other way round. *)
Definition price_inv (p : price) : price := mk_price (quote p) (base p).

Definition unit_price (a : Z) : price := mk_price (mk_asset 1 a) (mk_asset 1 a).

Section asset.
Context {X : Ext}.

(** ** Amounts *)

Definition asset_add (a b : asset) : res asset :=
  require? asset_id a =? asset_id b in
  let? r := safe (amount a + amount b) in
  Ok (mk_asset r (asset_id a)).

Definition asset_sub (a b : asset) : res asset :=
  require? asset_id a =? asset_id b in
  let? r := safe (amount a - amount b) in
  Ok (mk_asset r (asset_id a)).

Definition asset_neg (a : asset) : res asset :=
  let? r := safe (- amount a) in
  Ok (mk_asset r (asset_id a)).

Definition asset_eqb (a b : asset) : bool :=
  (asset_id a =? asset_id b) && (amount a =? amount b).

(** [operator <] raises when the assets differ, and the derived comparisons
    with it. *)
Definition asset_lt (a b : asset) : res bool :=
  require? asset_id a =? asset_id b in
  Ok (amount a <? amount b).
Definition asset_le (a b : asset) : res bool :=
  let? r := asset_lt b a in Ok (negb r).
Definition asset_gt (a b : asset) : res bool := asset_lt b a.
Definition asset_ge (a b : asset) : res bool :=
  let? r := asset_lt a b in Ok (negb r).

(** [std::min(a, b)] on assets: [b] when [b < a]. *)
Definition asset_min (a b : asset) : res asset :=
  let? r := asset_lt b a in
  Ok (if r then b else a).

(** [p10<N>] and [scaled_precision_lut]. *)
Fixpoint p10 (n : nat) : Z :=
  match n with O => 1 | S n' => 10 * p10 n' end.
Definition scaled_precision_lut : list Z := map p10 (seq 0 19).
Definition scaled_precision (precision : Z) : res Z :=
  require? precision <? 19 in
  of_option NotFound (scaled_precision_lut !! Z.to_nat precision).

(** ** Prices *)

(** The two sides of the cross multiplication that compares prices. *)
Definition amult (a b : price) : Z :=
  u128 (u128 (amount (quote b)) * amount (base a)).

Definition price_eqb (a b : price) : bool :=
  (asset_id (base a) =? asset_id (base b)) &&
  (asset_id (quote a) =? asset_id (quote b)) &&
  (amult a b =? u128 (u128 (amount (quote a)) * amount (base b))).

Definition price_ltb (a b : price) : bool :=
  if asset_id (base a) <? asset_id (base b) then true
  else if asset_id (base b) <? asset_id (base a) then false
  else if asset_id (quote a) <? asset_id (quote b) then true
  else if asset_id (quote b) <? asset_id (quote a) then false
  else amult a b <? u128 (u128 (amount (quote a)) * amount (base b)).

Definition price_gtb (a b : price) : bool := price_ltb b a.
Definition price_leb (a b : price) : bool := negb (price_ltb b a).
Definition price_geb (a b : price) : bool := negb (price_ltb a b).

(** [std::max(a, b)] on prices: [b] when [a < b]. *)
Definition price_std_max (a b : price) : price := if price_ltb a b then b else a.

Definition is_null (p : price) : bool :=
  (asset_id (base p) =? CORE) && (asset_id (quote p) =? CORE).

Definition price_validate (p : price) : res unit :=
  require? 0 <? amount (base p) in
  require? 0 <? amount (quote p) in
  require? negb (asset_id (base p) =? asset_id (quote p)) in
  Ok tt.

(** [operator / (asset, asset)] *)
Definition asset_div (b q : asset) : res price :=
  require? negb (asset_id b =? asset_id q) in
  Ok (mk_price b q).

Definition price_max (b q : Z) : res price :=
  asset_div (mk_asset GRAPHENE_MAX_SHARE_SUPPLY b) (mk_asset 1 q).
Definition price_min (b q : Z) : res price :=
  asset_div (mk_asset 1 b) (mk_asset GRAPHENE_MAX_SHARE_SUPPLY q).

(** [operator * (asset, price)]: exchange, rounding down. *)
Definition asset_mul (a : asset) (b : price) : res asset :=
  if asset_id a =? asset_id (base b) then
    require? 0 <? amount (base b) in
    let result := u128 (u128 (amount a) * amount (quote b)) / amount (base b) in
    require? result <=? GRAPHENE_MAX_SHARE_SUPPLY in
    Ok (mk_asset result (asset_id (quote b)))
  else if asset_id a =? asset_id (quote b) then
    require? 0 <? amount (quote b) in
    let result := u128 (u128 (amount a) * amount (base b)) / amount (quote b) in
    require? result <=? GRAPHENE_MAX_SHARE_SUPPLY in
    Ok (mk_asset result (asset_id (base b)))
  else Err AssertFailure.

(** [asset::multiply_and_round_up] *)
Definition multiply_and_round_up (a : asset) (b : price) : res asset :=
  if asset_id a =? asset_id (base b) then
    require? 0 <? amount (base b) in
    let result :=
      u128 (u128 (u128 (u128 (amount a) * amount (quote b)) + amount (base b)) - 1)
        / amount (base b) in
    require? result <=? GRAPHENE_MAX_SHARE_SUPPLY in
    Ok (mk_asset result (asset_id (quote b)))
  else if asset_id a =? asset_id (quote b) then
    require? 0 <? amount (quote b) in
    let result :=
      u128 (u128 (u128 (u128 (amount a) * amount (base b)) + amount (quote b)) - 1)
        / amount (quote b) in
    require? result <=? GRAPHENE_MAX_SHARE_SUPPLY in
    Ok (mk_asset result (asset_id (base b)))
  else Err AssertFailure.

(** ** Prices computed with rationals *)

Definition rational_of (n d : Z) : res rational := of_option BadRational (rat_make n d).

(** A rational is out of the range of share amounts. *)
Definition out_of_range (cp : rational) : bool :=
  (GRAPHENE_MAX_SHARE_SUPPLY <? numerator cp) ||
  (GRAPHENE_MAX_SHARE_SUPPLY <? denominator cp).

(** Iterations allowed to a loop that halves both terms of a 128 bit
    rational; [shrink_total] and [halving_total] of
    Exchange.v show they suffice. *)
Definition shrink_fuel : nat := 128.

(** The [while] loop of [operator * (price, ratio_type)]; the boolean is
    [shrinked]. *)
Fixpoint shrink (fuel : nat) (cp : rational) (shrinked : bool) : res (rational * bool) :=
  match fuel with
  | O => Err OutOfFuel
  | S fuel' =>
    if out_of_range cp then
      if numerator cp =? 1 then
        let? cp' := rational_of 1 GRAPHENE_MAX_SHARE_SUPPLY in Ok (cp', shrinked)
      else if denominator cp =? 1 then
        let? cp' := rational_of GRAPHENE_MAX_SHARE_SUPPLY 1 in Ok (cp', shrinked)
      else
        let? cp' := rational_of (Z.shiftr (numerator cp) 1) (Z.shiftr (denominator cp) 1) in
        shrink fuel' cp' true
    else Ok (cp, shrinked)
  end.

(** The candidate with one term equal to 1, and the choice between it and the
    shrunk [cp]. *)
Definition edge_candidate (ocp : rational) : res rational :=
  let num := numerator ocp in
  let den := denominator ocp in
  if den <? num then
    let num' := Z.quot num den in
    rational_of (if GRAPHENE_MAX_SHARE_SUPPLY <? num' then GRAPHENE_MAX_SHARE_SUPPLY else num') 1
  else
    let den' := Z.quot den num in
    rational_of 1 (if GRAPHENE_MAX_SHARE_SUPPLY <? den' then GRAPHENE_MAX_SHARE_SUPPLY else den').

Definition refine_shrunk (ocp cp : rational) : res rational :=
  let? ncp := edge_candidate ocp in
  if (numerator ncp =? GRAPHENE_MAX_SHARE_SUPPLY) || (denominator ncp =? GRAPHENE_MAX_SHARE_SUPPLY)
  then Ok ncp
  else if rat_ltb (rat_abs (rat_sub ncp ocp)) (rat_abs (rat_sub cp ocp)) then Ok ncp
  else Ok cp.

(** [operator * (price, ratio_type)] *)
Definition price_mul_ratio (p : price) (r : rational) : res price :=
  let? _u := price_validate p in
  require? (0 <? numerator r) && (0 <? denominator r) in
  if numerator r =? denominator r then Ok p
  else
    let? p128 := rational_of (amount (base p)) (amount (quote p)) in
    let? r128 := rational_of (numerator r) (denominator r) in
    let ocp := rat_mul p128 r128 in
    let? sh := shrink shrink_fuel ocp false in
    let? cp := (if snd sh then refine_shrunk ocp (fst sh) else Ok (fst sh)) in
    let? np := asset_div (mk_asset (numerator cp) (asset_id (base p)))
                         (mk_asset (denominator cp) (asset_id (quote p))) in
    let np :=
      if ((denominator r <? numerator r) && price_ltb np p) ||
         ((numerator r <? denominator r) && price_gtb np p)
      then p else np in
    let? _v := price_validate np in
    Ok np.

(** [operator / (price, ratio_type)] *)
Definition price_div_ratio (p : price) (r : rational) : res price :=
  let? r' := of_option BadRational (ratio_make (denominator r) (numerator r)) in
  price_mul_ratio p r'.

(** The loop of [price::call_price]. *)
Fixpoint call_price_loop (fuel : nat) (cp : rational) : res rational :=
  match fuel with
  | O => Err OutOfFuel
  | S fuel' =>
    if out_of_range cp then
      let? cp' := rational_of (Z.shiftr (numerator cp) 1 + 1) (Z.shiftr (denominator cp) 1 + 1) in
      call_price_loop fuel' cp'
    else Ok cp
  end.

(** [price::call_price] *)
Definition call_price (debt collateral : asset) (collateral_ratio : Z) : res price :=
  let? swan := rational_of (amount debt) (amount collateral) in
  let? ratio := rational_of collateral_ratio GRAPHENE_COLLATERAL_RATIO_DENOM in
  let? cp := call_price_loop shrink_fuel (rat_mul swan ratio) in
  let? r := asset_div (mk_asset (numerator cp) (asset_id debt))
                      (mk_asset (denominator cp) (asset_id collateral)) in
  Ok (price_inv r).

(** The loop of [price_feed::max_short_squeeze_price]. *)
Fixpoint squeeze_loop (fuel : nat) (cp : rational) : res rational :=
  match fuel with
  | O => Err OutOfFuel
  | S fuel' =>
    if out_of_range cp then
      let? cp' :=
        rational_of (Z.shiftr (numerator cp) 1 + Z.land (numerator cp) 1)
                    (Z.shiftr (denominator cp) 1 + Z.land (denominator cp) 1) in
      squeeze_loop fuel' cp'
    else Ok cp
  end.

(** [price_feed::max_short_squeeze_price] *)
Definition max_short_squeeze_price (f : price_feed) : res price :=
  let? sp := rational_of (amount (base (settlement_price f))) (amount (quote (settlement_price f))) in
  let? ratio := rational_of GRAPHENE_COLLATERAL_RATIO_DENOM (maximum_short_squeeze_ratio f) in
  let? cp := squeeze_loop shrink_fuel (rat_mul sp ratio) in
  asset_div (mk_asset (numerator cp) (asset_id (base (settlement_price f))))
            (mk_asset (denominator cp) (asset_id (quote (settlement_price f)))).

(** ** Price feeds *)

Definition price_feed_eqb (a b : price_feed) : bool :=
  price_eqb (settlement_price a) (settlement_price b) &&
  (maintenance_collateral_ratio a =? maintenance_collateral_ratio b) &&
  (maximum_short_squeeze_ratio a =? maximum_short_squeeze_ratio b).

Definition price_feed_validate (f : price_feed) : res unit :=
  let? _u := (if is_null (settlement_price f) then Ok tt
              else price_validate (settlement_price f)) in
  require? GRAPHENE_MIN_COLLATERAL_RATIO <=? maximum_short_squeeze_ratio f in
  require? maximum_short_squeeze_ratio f <=? GRAPHENE_MAX_COLLATERAL_RATIO in
  require? GRAPHENE_MIN_COLLATERAL_RATIO <=? maintenance_collateral_ratio f in
  require? maintenance_collateral_ratio f <=? GRAPHENE_MAX_COLLATERAL_RATIO in
  let? _v := max_short_squeeze_price f in
  Ok tt.

Definition price_feed_is_for (f : price_feed) (a : Z) : bool :=
  if negb (is_null (settlement_price f)) then asset_id (base (settlement_price f)) =? a
  else if negb (is_null (core_exchange_rate f)) then asset_id (base (core_exchange_rate f)) =? a
  else true.
End asset.

(** Price comparisons, as the code writes them. *)
Notation "p <p q" := (price_ltb p q) (at level 70, no associativity) : prog_scope.
Notation "p ≤p q" := (price_leb p q) (at level 70, no associativity) : prog_scope.
Notation "p >p q" := (price_gtb p q) (at level 70, no associativity) : prog_scope.
Notation "p ≥p q" := (price_geb p q) (at level 70, no associativity) : prog_scope.
