(* ===== verification/Objects.v ===== *)
(** * The objects of the database

    The records of the object classes the modelled code reads and writes
    (chain/include/graphene/chain/*_object.hpp and the option structs of
    chain/protocol/asset_ops.hpp).  An identifier is the instance number of the
    object; the identifier an object carries in C++ is its key in the maps of
    Database.v.  Fields the modelled operations neither read nor write are left
    out: the [extensions] sets, the memo key of an account, and the history
    pointers of its statistics.  [set_f v o] is [o] with field [f] replaced by [v]: the
    assignments in the lambdas given to [modify]. *)

From S2P Require Import Prelude Ext Config Asset.

(** ** Permission flags (protocol/types.hpp, [asset_issuer_permission_flags]) *)
Definition charge_market_fee : Z := 1.
Definition white_list : Z := 2.
Definition override_authority : Z := 4.
Definition transfer_restricted : Z := 8.
Definition disable_force_settle : Z := 16.
Definition global_settle : Z := 32.
Definition disable_confidential : Z := 64.
Definition witness_fed_asset : Z := 128.
Definition committee_fed_asset : Z := 256.

Definition ASSET_ISSUER_PERMISSION_MASK : Z := 511.
Definition UIA_ASSET_ISSUER_PERMISSION_MASK : Z := 79.

(** [flags & mask] as a condition. *)
Definition has_flag (flags mask : Z) : bool := negb (Z.land flags mask =? 0).

(** ** Assets *)

(** [asset_options] *)
Record asset_options := mk_asset_options {
  o_max_supply : Z;
  o_market_fee_percent : Z;   (* uint16_t *)
  o_max_market_fee : Z;
  o_issuer_permissions : Z;   (* uint16_t *)
  o_flags : Z;   (* uint16_t *)
  o_core_exchange_rate : price;
  o_whitelist_authorities : gset Z;
  o_blacklist_authorities : gset Z;
  o_whitelist_markets : gset Z;
  o_blacklist_markets : gset Z;
  o_description : string;
}.
Definition set_o_core_exchange_rate (v : price) (o : asset_options) : asset_options :=
  mk_asset_options (o_max_supply o) (o_market_fee_percent o) (o_max_market_fee o) (o_issuer_permissions o) (o_flags o) v (o_whitelist_authorities o) (o_blacklist_authorities o) (o_whitelist_markets o) (o_blacklist_markets o) (o_description o).

(** [bitasset_options] *)
Record bitasset_options := mk_bitasset_options {
  bo_feed_lifetime_sec : Z;   (* uint32_t *)
  bo_minimum_feeds : Z;   (* uint8_t *)
  bo_force_settlement_delay_sec : Z;   (* uint32_t *)
  bo_force_settlement_offset_percent : Z;   (* uint16_t *)
  bo_maximum_force_settlement_volume : Z;   (* uint16_t *)
  bo_short_backing_asset : Z;
}.

(** [asset_dynamic_data_object]: the part of an asset that changes often *)
Record asset_dynamic_data_object := mk_asset_dynamic_data {
  current_supply : Z;
  confidential_supply : Z;
  accumulated_fees : Z;
  fee_pool : Z;
}.
Definition set_current_supply (v : Z) (o : asset_dynamic_data_object) : asset_dynamic_data_object :=
  mk_asset_dynamic_data v (confidential_supply o) (accumulated_fees o) (fee_pool o).
Definition set_confidential_supply (v : Z) (o : asset_dynamic_data_object) : asset_dynamic_data_object :=
  mk_asset_dynamic_data (current_supply o) v (accumulated_fees o) (fee_pool o).
Definition set_accumulated_fees (v : Z) (o : asset_dynamic_data_object) : asset_dynamic_data_object :=
  mk_asset_dynamic_data (current_supply o) (confidential_supply o) v (fee_pool o).
Definition set_fee_pool (v : Z) (o : asset_dynamic_data_object) : asset_dynamic_data_object :=
  mk_asset_dynamic_data (current_supply o) (confidential_supply o) (accumulated_fees o) v.

(** [asset_object] *)
Record asset_object := mk_asset_object {
  as_symbol : string;
  as_precision : Z;   (* uint8_t *)
  as_issuer : Z;
  as_options : asset_options;
  as_dynamic_asset_data_id : Z;
  as_bitasset_data_id : option Z;
  as_buyback_account : option Z;
}.
Definition set_as_issuer (v : Z) (o : asset_object) : asset_object :=
  mk_asset_object (as_symbol o) (as_precision o) v (as_options o) (as_dynamic_asset_data_id o) (as_bitasset_data_id o) (as_buyback_account o).
Definition set_as_options (v : asset_options) (o : asset_object) : asset_object :=
  mk_asset_object (as_symbol o) (as_precision o) (as_issuer o) v (as_dynamic_asset_data_id o) (as_bitasset_data_id o) (as_buyback_account o).
Definition set_as_buyback_account (v : option Z) (o : asset_object) : asset_object :=
  mk_asset_object (as_symbol o) (as_precision o) (as_issuer o) (as_options o) (as_dynamic_asset_data_id o) (as_bitasset_data_id o) v.

Definition is_market_issued (a : asset_object) : bool :=
  bool_decide (is_Some (as_bitasset_data_id a)).
Definition can_force_settle (a : asset_object) : bool :=
  negb (has_flag (o_flags (as_options a)) disable_force_settle).
Definition can_global_settle (a : asset_object) : bool :=
  has_flag (o_issuer_permissions (as_options a)) global_settle.
Definition charges_market_fees (a : asset_object) : bool :=
  has_flag (o_flags (as_options a)) charge_market_fee.
Definition is_transfer_restricted (a : asset_object) : bool :=
  has_flag (o_flags (as_options a)) transfer_restricted.
Definition can_override (a : asset_object) : bool :=
  has_flag (o_flags (as_options a)) override_authority.
Definition allow_confidential (a : asset_object) : bool :=
  negb (has_flag (o_flags (as_options a)) disable_confidential).

(** [asset_object::validate] *)
Definition asset_object_validate (a : asset_object) : res unit :=
  if negb (is_market_issued a) then
    require? negb (has_flag (o_flags (as_options a)) disable_force_settle ||
                   has_flag (o_flags (as_options a)) global_settle) in
    require? negb (has_flag (o_issuer_permissions (as_options a)) disable_force_settle ||
                   has_flag (o_issuer_permissions (as_options a)) global_settle) in
    Ok tt
  else Ok tt.

(** [asset_bitasset_data_object]: the data of a market issued asset *)
Record asset_bitasset_data_object := mk_bitasset_data {
  bd_asset_id : Z;
  bd_options : bitasset_options;
  bd_feeds : gmap Z (Z * price_feed);   (* publisher to publication time and feed *)
  bd_current_feed : price_feed;
  bd_current_feed_publication_time : Z;
  bd_is_prediction_market : bool;
  bd_force_settled_volume : Z;
  bd_settlement_price : price;
  bd_settlement_fund : Z;
  bd_asset_cer_updated : bool;
  bd_feed_cer_updated : bool;
}.
Definition set_bd_options (v : bitasset_options) (o : asset_bitasset_data_object) : asset_bitasset_data_object :=
  mk_bitasset_data (bd_asset_id o) v (bd_feeds o) (bd_current_feed o) (bd_current_feed_publication_time o) (bd_is_prediction_market o) (bd_force_settled_volume o) (bd_settlement_price o) (bd_settlement_fund o) (bd_asset_cer_updated o) (bd_feed_cer_updated o).
Definition set_bd_feeds (v : gmap Z (Z * price_feed)) (o : asset_bitasset_data_object) : asset_bitasset_data_object :=
  mk_bitasset_data (bd_asset_id o) (bd_options o) v (bd_current_feed o) (bd_current_feed_publication_time o) (bd_is_prediction_market o) (bd_force_settled_volume o) (bd_settlement_price o) (bd_settlement_fund o) (bd_asset_cer_updated o) (bd_feed_cer_updated o).
Definition set_bd_current_feed (v : price_feed) (o : asset_bitasset_data_object) : asset_bitasset_data_object :=
  mk_bitasset_data (bd_asset_id o) (bd_options o) (bd_feeds o) v (bd_current_feed_publication_time o) (bd_is_prediction_market o) (bd_force_settled_volume o) (bd_settlement_price o) (bd_settlement_fund o) (bd_asset_cer_updated o) (bd_feed_cer_updated o).
Definition set_bd_current_feed_publication_time (v : Z) (o : asset_bitasset_data_object) : asset_bitasset_data_object :=
  mk_bitasset_data (bd_asset_id o) (bd_options o) (bd_feeds o) (bd_current_feed o) v (bd_is_prediction_market o) (bd_force_settled_volume o) (bd_settlement_price o) (bd_settlement_fund o) (bd_asset_cer_updated o) (bd_feed_cer_updated o).
Definition set_bd_force_settled_volume (v : Z) (o : asset_bitasset_data_object) : asset_bitasset_data_object :=
  mk_bitasset_data (bd_asset_id o) (bd_options o) (bd_feeds o) (bd_current_feed o) (bd_current_feed_publication_time o) (bd_is_prediction_market o) v (bd_settlement_price o) (bd_settlement_fund o) (bd_asset_cer_updated o) (bd_feed_cer_updated o).
Definition set_bd_settlement_price (v : price) (o : asset_bitasset_data_object) : asset_bitasset_data_object :=
  mk_bitasset_data (bd_asset_id o) (bd_options o) (bd_feeds o) (bd_current_feed o) (bd_current_feed_publication_time o) (bd_is_prediction_market o) (bd_force_settled_volume o) v (bd_settlement_fund o) (bd_asset_cer_updated o) (bd_feed_cer_updated o).
Definition set_bd_settlement_fund (v : Z) (o : asset_bitasset_data_object) : asset_bitasset_data_object :=
  mk_bitasset_data (bd_asset_id o) (bd_options o) (bd_feeds o) (bd_current_feed o) (bd_current_feed_publication_time o) (bd_is_prediction_market o) (bd_force_settled_volume o) (bd_settlement_price o) v (bd_asset_cer_updated o) (bd_feed_cer_updated o).
Definition set_bd_asset_cer_updated (v : bool) (o : asset_bitasset_data_object) : asset_bitasset_data_object :=
  mk_bitasset_data (bd_asset_id o) (bd_options o) (bd_feeds o) (bd_current_feed o) (bd_current_feed_publication_time o) (bd_is_prediction_market o) (bd_force_settled_volume o) (bd_settlement_price o) (bd_settlement_fund o) v (bd_feed_cer_updated o).
Definition set_bd_feed_cer_updated (v : bool) (o : asset_bitasset_data_object) : asset_bitasset_data_object :=
  mk_bitasset_data (bd_asset_id o) (bd_options o) (bd_feeds o) (bd_current_feed o) (bd_current_feed_publication_time o) (bd_is_prediction_market o) (bd_force_settled_volume o) (bd_settlement_price o) (bd_settlement_fund o) (bd_asset_cer_updated o) v.

Definition has_settlement (b : asset_bitasset_data_object) : bool :=
  negb (is_null (bd_settlement_price b)).

Definition need_to_update_cer (b : asset_bitasset_data_object) : bool :=
  (bd_feed_cer_updated b || bd_asset_cer_updated b) &&
  negb (is_null (core_exchange_rate (bd_current_feed b))).

Definition feed_expiration_time (b : asset_bitasset_data_object) : Z :=
  let current_feed_seconds := bd_current_feed_publication_time b in
  if time_max - current_feed_seconds <=? bo_feed_lifetime_sec (bd_options b) then time_max
  else bd_current_feed_publication_time b + bo_feed_lifetime_sec (bd_options b).

Definition feed_is_expired_before_hardfork_615 (b : asset_bitasset_data_object) (current_time : Z) : bool :=
  current_time <=? feed_expiration_time b.
Definition feed_is_expired (b : asset_bitasset_data_object) (current_time : Z) : bool :=
  feed_expiration_time b <=? current_time.

(** ** Accounts *)

(** [special_authority] *)
Inductive special_authority :=
  | no_special_authority
  | top_holders_special_authority (sa_asset : Z) (sa_num_top_holders : Z).

(** [authority]: weights of accounts, keys and addresses, the last two named by
    numbers *)
Record authority := mk_authority {
  au_weight_threshold : Z;   (* uint32_t *)
  au_account_auths : gmap Z Z;
  au_key_auths : gmap Z Z;
  au_address_auths : gmap Z Z;
}.
Definition empty_authority : authority := mk_authority 0 ∅ ∅ ∅.
#[export] Instance authority_eq_dec : EqDecision authority.
Proof. solve_decision. Defined.

(** [authority::null_authority], [is_impossible] and [num_auths] *)
Definition null_authority : authority := mk_authority 1 {[ GRAPHENE_NULL_ACCOUNT := 1 ]} ∅ ∅.
Definition auth_weights (m : gmap Z Z) : Z := msum (λ _ w, w) m.
Definition is_impossible (a : authority) : bool :=
  u64 (auth_weights (au_account_auths a) + auth_weights (au_key_auths a) + auth_weights (au_address_auths a))
    <? au_weight_threshold a.
Definition num_auths (a : authority) : Z :=
  u32 (Z.of_nat (size (au_account_auths a) + size (au_key_auths a) + size (au_address_auths a))).

(** [account_options]: the opinion of an account *)
Record account_options := mk_account_options {
  ao_voting_account : Z;
  ao_num_witness : Z;   (* uint16_t *)
  ao_num_committee : Z;   (* uint16_t *)
  ao_votes : gset Z;   (* the contents of the vote ids *)
}.

(** [account_object] *)
Record account_object := mk_account_object {
  ac_membership_expiration_date : Z;
  ac_registrar : Z;
  ac_referrer : Z;
  ac_lifetime_referrer : Z;
  ac_network_fee_percentage : Z;   (* uint16_t *)
  ac_lifetime_referrer_fee_percentage : Z;   (* uint16_t *)
  ac_referrer_rewards_percentage : Z;   (* uint16_t *)
  ac_name : string;
  ac_owner : authority;
  ac_active : authority;
  ac_options : account_options;
  ac_statistics : Z;
  ac_whitelisting_accounts : gset Z;
  ac_whitelisted_accounts : gset Z;
  ac_blacklisted_accounts : gset Z;
  ac_blacklisting_accounts : gset Z;
  ac_cashback_vb : option Z;
  ac_owner_special_authority : special_authority;
  ac_active_special_authority : special_authority;
  ac_top_n_control_flags : Z;   (* uint8_t *)
  ac_allowed_assets : option (gset Z);
}.
Definition set_ac_membership_expiration_date (v : Z) (o : account_object) : account_object :=
  mk_account_object v (ac_registrar o) (ac_referrer o) (ac_lifetime_referrer o) (ac_network_fee_percentage o) (ac_lifetime_referrer_fee_percentage o) (ac_referrer_rewards_percentage o) (ac_name o) (ac_owner o) (ac_active o) (ac_options o) (ac_statistics o) (ac_whitelisting_accounts o) (ac_whitelisted_accounts o) (ac_blacklisted_accounts o) (ac_blacklisting_accounts o) (ac_cashback_vb o) (ac_owner_special_authority o) (ac_active_special_authority o) (ac_top_n_control_flags o) (ac_allowed_assets o).
Definition set_ac_registrar (v : Z) (o : account_object) : account_object :=
  mk_account_object (ac_membership_expiration_date o) v (ac_referrer o) (ac_lifetime_referrer o) (ac_network_fee_percentage o) (ac_lifetime_referrer_fee_percentage o) (ac_referrer_rewards_percentage o) (ac_name o) (ac_owner o) (ac_active o) (ac_options o) (ac_statistics o) (ac_whitelisting_accounts o) (ac_whitelisted_accounts o) (ac_blacklisted_accounts o) (ac_blacklisting_accounts o) (ac_cashback_vb o) (ac_owner_special_authority o) (ac_active_special_authority o) (ac_top_n_control_flags o) (ac_allowed_assets o).
Definition set_ac_referrer (v : Z) (o : account_object) : account_object :=
  mk_account_object (ac_membership_expiration_date o) (ac_registrar o) v (ac_lifetime_referrer o) (ac_network_fee_percentage o) (ac_lifetime_referrer_fee_percentage o) (ac_referrer_rewards_percentage o) (ac_name o) (ac_owner o) (ac_active o) (ac_options o) (ac_statistics o) (ac_whitelisting_accounts o) (ac_whitelisted_accounts o) (ac_blacklisted_accounts o) (ac_blacklisting_accounts o) (ac_cashback_vb o) (ac_owner_special_authority o) (ac_active_special_authority o) (ac_top_n_control_flags o) (ac_allowed_assets o).
Definition set_ac_lifetime_referrer (v : Z) (o : account_object) : account_object :=
  mk_account_object (ac_membership_expiration_date o) (ac_registrar o) (ac_referrer o) v (ac_network_fee_percentage o) (ac_lifetime_referrer_fee_percentage o) (ac_referrer_rewards_percentage o) (ac_name o) (ac_owner o) (ac_active o) (ac_options o) (ac_statistics o) (ac_whitelisting_accounts o) (ac_whitelisted_accounts o) (ac_blacklisted_accounts o) (ac_blacklisting_accounts o) (ac_cashback_vb o) (ac_owner_special_authority o) (ac_active_special_authority o) (ac_top_n_control_flags o) (ac_allowed_assets o).
Definition set_ac_lifetime_referrer_fee_percentage (v : Z) (o : account_object) : account_object :=
  mk_account_object (ac_membership_expiration_date o) (ac_registrar o) (ac_referrer o) (ac_lifetime_referrer o) (ac_network_fee_percentage o) v (ac_referrer_rewards_percentage o) (ac_name o) (ac_owner o) (ac_active o) (ac_options o) (ac_statistics o) (ac_whitelisting_accounts o) (ac_whitelisted_accounts o) (ac_blacklisted_accounts o) (ac_blacklisting_accounts o) (ac_cashback_vb o) (ac_owner_special_authority o) (ac_active_special_authority o) (ac_top_n_control_flags o) (ac_allowed_assets o).
Definition set_ac_owner (v : authority) (o : account_object) : account_object :=
  mk_account_object (ac_membership_expiration_date o) (ac_registrar o) (ac_referrer o) (ac_lifetime_referrer o) (ac_network_fee_percentage o) (ac_lifetime_referrer_fee_percentage o) (ac_referrer_rewards_percentage o) (ac_name o) v (ac_active o) (ac_options o) (ac_statistics o) (ac_whitelisting_accounts o) (ac_whitelisted_accounts o) (ac_blacklisted_accounts o) (ac_blacklisting_accounts o) (ac_cashback_vb o) (ac_owner_special_authority o) (ac_active_special_authority o) (ac_top_n_control_flags o) (ac_allowed_assets o).
Definition set_ac_active (v : authority) (o : account_object) : account_object :=
  mk_account_object (ac_membership_expiration_date o) (ac_registrar o) (ac_referrer o) (ac_lifetime_referrer o) (ac_network_fee_percentage o) (ac_lifetime_referrer_fee_percentage o) (ac_referrer_rewards_percentage o) (ac_name o) (ac_owner o) v (ac_options o) (ac_statistics o) (ac_whitelisting_accounts o) (ac_whitelisted_accounts o) (ac_blacklisted_accounts o) (ac_blacklisting_accounts o) (ac_cashback_vb o) (ac_owner_special_authority o) (ac_active_special_authority o) (ac_top_n_control_flags o) (ac_allowed_assets o).
Definition set_ac_whitelisting_accounts (v : gset Z) (o : account_object) : account_object :=
  mk_account_object (ac_membership_expiration_date o) (ac_registrar o) (ac_referrer o) (ac_lifetime_referrer o) (ac_network_fee_percentage o) (ac_lifetime_referrer_fee_percentage o) (ac_referrer_rewards_percentage o) (ac_name o) (ac_owner o) (ac_active o) (ac_options o) (ac_statistics o) v (ac_whitelisted_accounts o) (ac_blacklisted_accounts o) (ac_blacklisting_accounts o) (ac_cashback_vb o) (ac_owner_special_authority o) (ac_active_special_authority o) (ac_top_n_control_flags o) (ac_allowed_assets o).
Definition set_ac_whitelisted_accounts (v : gset Z) (o : account_object) : account_object :=
  mk_account_object (ac_membership_expiration_date o) (ac_registrar o) (ac_referrer o) (ac_lifetime_referrer o) (ac_network_fee_percentage o) (ac_lifetime_referrer_fee_percentage o) (ac_referrer_rewards_percentage o) (ac_name o) (ac_owner o) (ac_active o) (ac_options o) (ac_statistics o) (ac_whitelisting_accounts o) v (ac_blacklisted_accounts o) (ac_blacklisting_accounts o) (ac_cashback_vb o) (ac_owner_special_authority o) (ac_active_special_authority o) (ac_top_n_control_flags o) (ac_allowed_assets o).
Definition set_ac_blacklisted_accounts (v : gset Z) (o : account_object) : account_object :=
  mk_account_object (ac_membership_expiration_date o) (ac_registrar o) (ac_referrer o) (ac_lifetime_referrer o) (ac_network_fee_percentage o) (ac_lifetime_referrer_fee_percentage o) (ac_referrer_rewards_percentage o) (ac_name o) (ac_owner o) (ac_active o) (ac_options o) (ac_statistics o) (ac_whitelisting_accounts o) (ac_whitelisted_accounts o) v (ac_blacklisting_accounts o) (ac_cashback_vb o) (ac_owner_special_authority o) (ac_active_special_authority o) (ac_top_n_control_flags o) (ac_allowed_assets o).
Definition set_ac_blacklisting_accounts (v : gset Z) (o : account_object) : account_object :=
  mk_account_object (ac_membership_expiration_date o) (ac_registrar o) (ac_referrer o) (ac_lifetime_referrer o) (ac_network_fee_percentage o) (ac_lifetime_referrer_fee_percentage o) (ac_referrer_rewards_percentage o) (ac_name o) (ac_owner o) (ac_active o) (ac_options o) (ac_statistics o) (ac_whitelisting_accounts o) (ac_whitelisted_accounts o) (ac_blacklisted_accounts o) v (ac_cashback_vb o) (ac_owner_special_authority o) (ac_active_special_authority o) (ac_top_n_control_flags o) (ac_allowed_assets o).
Definition set_ac_cashback_vb (v : option Z) (o : account_object) : account_object :=
  mk_account_object (ac_membership_expiration_date o) (ac_registrar o) (ac_referrer o) (ac_lifetime_referrer o) (ac_network_fee_percentage o) (ac_lifetime_referrer_fee_percentage o) (ac_referrer_rewards_percentage o) (ac_name o) (ac_owner o) (ac_active o) (ac_options o) (ac_statistics o) (ac_whitelisting_accounts o) (ac_whitelisted_accounts o) (ac_blacklisted_accounts o) (ac_blacklisting_accounts o) v (ac_owner_special_authority o) (ac_active_special_authority o) (ac_top_n_control_flags o) (ac_allowed_assets o).
Definition set_ac_top_n_control_flags (v : Z) (o : account_object) : account_object :=
  mk_account_object (ac_membership_expiration_date o) (ac_registrar o) (ac_referrer o) (ac_lifetime_referrer o) (ac_network_fee_percentage o) (ac_lifetime_referrer_fee_percentage o) (ac_referrer_rewards_percentage o) (ac_name o) (ac_owner o) (ac_active o) (ac_options o) (ac_statistics o) (ac_whitelisting_accounts o) (ac_whitelisted_accounts o) (ac_blacklisted_accounts o) (ac_blacklisting_accounts o) (ac_cashback_vb o) (ac_owner_special_authority o) (ac_active_special_authority o) v (ac_allowed_assets o).
Definition set_ac_options (v : account_options) (o : account_object) : account_object :=
  mk_account_object (ac_membership_expiration_date o) (ac_registrar o) (ac_referrer o) (ac_lifetime_referrer o) (ac_network_fee_percentage o) (ac_lifetime_referrer_fee_percentage o) (ac_referrer_rewards_percentage o) (ac_name o) (ac_owner o) (ac_active o) v (ac_statistics o) (ac_whitelisting_accounts o) (ac_whitelisted_accounts o) (ac_blacklisted_accounts o) (ac_blacklisting_accounts o) (ac_cashback_vb o) (ac_owner_special_authority o) (ac_active_special_authority o) (ac_top_n_control_flags o) (ac_allowed_assets o).
Definition set_ac_owner_special_authority (v : special_authority) (o : account_object) : account_object :=
  mk_account_object (ac_membership_expiration_date o) (ac_registrar o) (ac_referrer o) (ac_lifetime_referrer o) (ac_network_fee_percentage o) (ac_lifetime_referrer_fee_percentage o) (ac_referrer_rewards_percentage o) (ac_name o) (ac_owner o) (ac_active o) (ac_options o) (ac_statistics o) (ac_whitelisting_accounts o) (ac_whitelisted_accounts o) (ac_blacklisted_accounts o) (ac_blacklisting_accounts o) (ac_cashback_vb o) v (ac_active_special_authority o) (ac_top_n_control_flags o) (ac_allowed_assets o).
Definition set_ac_active_special_authority (v : special_authority) (o : account_object) : account_object :=
  mk_account_object (ac_membership_expiration_date o) (ac_registrar o) (ac_referrer o) (ac_lifetime_referrer o) (ac_network_fee_percentage o) (ac_lifetime_referrer_fee_percentage o) (ac_referrer_rewards_percentage o) (ac_name o) (ac_owner o) (ac_active o) (ac_options o) (ac_statistics o) (ac_whitelisting_accounts o) (ac_whitelisted_accounts o) (ac_blacklisted_accounts o) (ac_blacklisting_accounts o) (ac_cashback_vb o) (ac_owner_special_authority o) v (ac_top_n_control_flags o) (ac_allowed_assets o).

Definition is_lifetime_member (a : account_object) : bool :=
  ac_membership_expiration_date a =? time_max.
Definition is_basic_account (a : account_object) (now : Z) : bool :=
  ac_membership_expiration_date a <? now.
Definition is_annual_member (a : account_object) (now : Z) : bool :=
  negb (is_lifetime_member a) && negb (is_basic_account a now).
Definition is_member (a : account_object) (now : Z) : bool :=
  negb (is_basic_account a now).

Definition top_n_control_owner : Z := 1.
Definition top_n_control_active : Z := 2.

(** [account_statistics_object] *)
Record account_statistics_object := mk_account_statistics {
  st_owner : Z;
  st_name : string;
  st_total_core_in_orders : Z;
  st_core_in_balance : Z;
  st_has_cashback_vb : bool;
  st_is_voting : bool;
  st_lifetime_fees_paid : Z;
  st_pending_fees : Z;
  st_pending_vested_fees : Z;
}.
Definition set_st_total_core_in_orders (v : Z) (o : account_statistics_object) : account_statistics_object :=
  mk_account_statistics (st_owner o) (st_name o) v (st_core_in_balance o) (st_has_cashback_vb o) (st_is_voting o) (st_lifetime_fees_paid o) (st_pending_fees o) (st_pending_vested_fees o).
Definition set_st_core_in_balance (v : Z) (o : account_statistics_object) : account_statistics_object :=
  mk_account_statistics (st_owner o) (st_name o) (st_total_core_in_orders o) v (st_has_cashback_vb o) (st_is_voting o) (st_lifetime_fees_paid o) (st_pending_fees o) (st_pending_vested_fees o).
Definition set_st_has_cashback_vb (v : bool) (o : account_statistics_object) : account_statistics_object :=
  mk_account_statistics (st_owner o) (st_name o) (st_total_core_in_orders o) (st_core_in_balance o) v (st_is_voting o) (st_lifetime_fees_paid o) (st_pending_fees o) (st_pending_vested_fees o).
Definition set_st_lifetime_fees_paid (v : Z) (o : account_statistics_object) : account_statistics_object :=
  mk_account_statistics (st_owner o) (st_name o) (st_total_core_in_orders o) (st_core_in_balance o) (st_has_cashback_vb o) (st_is_voting o) v (st_pending_fees o) (st_pending_vested_fees o).
Definition set_st_pending_fees (v : Z) (o : account_statistics_object) : account_statistics_object :=
  mk_account_statistics (st_owner o) (st_name o) (st_total_core_in_orders o) (st_core_in_balance o) (st_has_cashback_vb o) (st_is_voting o) (st_lifetime_fees_paid o) v (st_pending_vested_fees o).
Definition set_st_pending_vested_fees (v : Z) (o : account_statistics_object) : account_statistics_object :=
  mk_account_statistics (st_owner o) (st_name o) (st_total_core_in_orders o) (st_core_in_balance o) (st_has_cashback_vb o) (st_is_voting o) (st_lifetime_fees_paid o) (st_pending_fees o) v.
Definition set_st_is_voting (v : bool) (o : account_statistics_object) : account_statistics_object :=
  mk_account_statistics (st_owner o) (st_name o) (st_total_core_in_orders o) (st_core_in_balance o) (st_has_cashback_vb o) v (st_lifetime_fees_paid o) (st_pending_fees o) (st_pending_vested_fees o).

Definition has_some_core_voting (s : account_statistics_object) : bool :=
  st_is_voting s &&
  ((0 <? st_total_core_in_orders s) || (0 <? st_core_in_balance s) || st_has_cashback_vb s).
Definition has_pending_fees (s : account_statistics_object) : bool :=
  (0 <? st_pending_fees s) || (0 <? st_pending_vested_fees s).
Definition need_maintenance (s : account_statistics_object) : bool :=
  has_some_core_voting s || has_pending_fees s.

(** [account_balance_object]; owner and asset type are its key *)
Record account_balance_object := mk_account_balance {
  ab_balance : Z;
  ab_maintenance_flag : bool;
}.

(** ** Markets *)

(** [limit_order_object] *)
Record limit_order_object := mk_limit_order {
  lo_expiration : Z;
  lo_seller : Z;
  lo_for_sale : Z;
  lo_sell_price : price;
  lo_deferred_fee : Z;
  lo_deferred_paid_fee : asset;
}.
Definition set_lo_for_sale (v : Z) (o : limit_order_object) : limit_order_object :=
  mk_limit_order (lo_expiration o) (lo_seller o) v (lo_sell_price o) (lo_deferred_fee o) (lo_deferred_paid_fee o).
Definition set_lo_deferred_fee (v : Z) (o : limit_order_object) : limit_order_object :=
  mk_limit_order (lo_expiration o) (lo_seller o) (lo_for_sale o) (lo_sell_price o) v (lo_deferred_paid_fee o).
Definition set_lo_deferred_paid_fee (v : asset) (o : limit_order_object) : limit_order_object :=
  mk_limit_order (lo_expiration o) (lo_seller o) (lo_for_sale o) (lo_sell_price o) (lo_deferred_fee o) v.

Definition lo_amount_for_sale (o : limit_order_object) : asset :=
  mk_asset (lo_for_sale o) (asset_id (base (lo_sell_price o))).
Definition lo_sell_asset_id (o : limit_order_object) : Z := asset_id (base (lo_sell_price o)).
Definition lo_receive_asset_id (o : limit_order_object) : Z := asset_id (quote (lo_sell_price o)).
Definition lo_amount_to_receive `{Ext} (o : limit_order_object) : res asset :=
  asset_mul (lo_amount_for_sale o) (lo_sell_price o).

(** [call_order_object] *)
Record call_order_object := mk_call_order {
  co_borrower : Z;
  co_collateral : Z;
  co_debt : Z;
  co_call_price : price;
  co_target_collateral_ratio : option Z;
}.
Definition set_co_borrower (v : Z) (o : call_order_object) : call_order_object :=
  mk_call_order v (co_collateral o) (co_debt o) (co_call_price o) (co_target_collateral_ratio o).
Definition set_co_collateral (v : Z) (o : call_order_object) : call_order_object :=
  mk_call_order (co_borrower o) v (co_debt o) (co_call_price o) (co_target_collateral_ratio o).
Definition set_co_debt (v : Z) (o : call_order_object) : call_order_object :=
  mk_call_order (co_borrower o) (co_collateral o) v (co_call_price o) (co_target_collateral_ratio o).
Definition set_co_call_price (v : price) (o : call_order_object) : call_order_object :=
  mk_call_order (co_borrower o) (co_collateral o) (co_debt o) v (co_target_collateral_ratio o).
Definition set_co_target_collateral_ratio (v : option Z) (o : call_order_object) : call_order_object :=
  mk_call_order (co_borrower o) (co_collateral o) (co_debt o) (co_call_price o) v.

Definition co_debt_type (o : call_order_object) : Z := asset_id (quote (co_call_price o)).
Definition co_collateral_type (o : call_order_object) : Z := asset_id (base (co_call_price o)).
Definition get_collateral (o : call_order_object) : asset :=
  mk_asset (co_collateral o) (co_collateral_type o).
Definition get_debt (o : call_order_object) : asset :=
  mk_asset (co_debt o) (co_debt_type o).
Definition collateralization (o : call_order_object) : res price :=
  asset_div (get_collateral o) (get_debt o).

(** [force_settlement_object] *)
Record force_settlement_object := mk_force_settlement {
  fs_owner : Z;
  fs_balance : asset;
  fs_settlement_date : Z;
}.
Definition set_fs_balance (v : asset) (o : force_settlement_object) : force_settlement_object :=
  mk_force_settlement (fs_owner o) v (fs_settlement_date o).

Definition fs_settlement_asset_id (s : force_settlement_object) : Z := asset_id (fs_balance s).

(** [collateral_bid_object] *)
Record collateral_bid_object := mk_collateral_bid {
  cb_bidder : Z;
  cb_inv_swan_price : price;
}.

Definition cb_debt_type (b : collateral_bid_object) : Z := asset_id (quote (cb_inv_swan_price b)).

(** ** Vesting balances *)

(** [linear_vesting_policy] *)
Record linear_vesting_policy := mk_linear_policy {
  lv_begin_timestamp : Z;
  lv_vesting_cliff_seconds : Z;   (* uint32_t *)
  lv_vesting_duration_seconds : Z;   (* uint32_t *)
  lv_begin_balance : Z;
}.

(** [cdd_vesting_policy] *)
Record cdd_vesting_policy := mk_cdd_policy {
  cdd_vesting_seconds : Z;   (* uint32_t *)
  cdd_coin_seconds_earned : Z;   (* fc::uint128_t *)
  cdd_start_claim : Z;
  cdd_coin_seconds_earned_last_update : Z;
}.
Definition set_cdd_coin_seconds_earned (v : Z) (o : cdd_vesting_policy) : cdd_vesting_policy :=
  mk_cdd_policy (cdd_vesting_seconds o) v (cdd_start_claim o) (cdd_coin_seconds_earned_last_update o).
Definition set_cdd_coin_seconds_earned_last_update (v : Z) (o : cdd_vesting_policy) : cdd_vesting_policy :=
  mk_cdd_policy (cdd_vesting_seconds o) (cdd_coin_seconds_earned o) (cdd_start_claim o) v.

(** [vesting_policy] *)
Inductive vesting_policy :=
  | linear_policy (p : linear_vesting_policy)
  | cdd_policy (p : cdd_vesting_policy).

(** [vesting_balance_object] *)
Record vesting_balance_object := mk_vesting_balance {
  vb_owner : Z;
  vb_balance : asset;
  vb_policy : vesting_policy;
}.
Definition set_vb_balance (v : asset) (o : vesting_balance_object) : vesting_balance_object :=
  mk_vesting_balance (vb_owner o) v (vb_policy o).
Definition set_vb_policy (v : vesting_policy) (o : vesting_balance_object) : vesting_balance_object :=
  mk_vesting_balance (vb_owner o) (vb_balance o) v.

(** [balance_object]: a balance of the genesis state, claimed by its owner *)
Record balance_object := mk_balance {
  ba_owner : Z;   (* an address *)
  ba_balance : asset;
  ba_vesting_policy : option linear_vesting_policy;
  ba_last_claim_date : Z;
}.
Definition set_ba_balance (v : asset) (o : balance_object) : balance_object :=
  mk_balance (ba_owner o) v (ba_vesting_policy o) (ba_last_claim_date o).
Definition set_ba_last_claim_date (v : Z) (o : balance_object) : balance_object :=
  mk_balance (ba_owner o) (ba_balance o) (ba_vesting_policy o) v.

Definition ba_asset_type (b : balance_object) : Z := asset_id (ba_balance b).
Definition is_vesting_balance (b : balance_object) : bool := bool_decide (is_Some (ba_vesting_policy b)).

(** ** Withdraw permissions *)

(** [withdraw_permission_object] *)
Record withdraw_permission_object := mk_withdraw_permission {
  wp_withdraw_from_account : Z;
  wp_authorized_account : Z;
  wp_withdrawal_limit : asset;
  wp_withdrawal_period_sec : Z;   (* uint32_t *)
  wp_period_start_time : Z;
  wp_expiration : Z;
  wp_claimed_this_period : Z;
}.
Definition set_wp_withdrawal_limit (v : asset) (o : withdraw_permission_object) : withdraw_permission_object :=
  mk_withdraw_permission (wp_withdraw_from_account o) (wp_authorized_account o) v (wp_withdrawal_period_sec o) (wp_period_start_time o) (wp_expiration o) (wp_claimed_this_period o).
Definition set_wp_withdrawal_period_sec (v : Z) (o : withdraw_permission_object) : withdraw_permission_object :=
  mk_withdraw_permission (wp_withdraw_from_account o) (wp_authorized_account o) (wp_withdrawal_limit o) v (wp_period_start_time o) (wp_expiration o) (wp_claimed_this_period o).
Definition set_wp_period_start_time (v : Z) (o : withdraw_permission_object) : withdraw_permission_object :=
  mk_withdraw_permission (wp_withdraw_from_account o) (wp_authorized_account o) (wp_withdrawal_limit o) (wp_withdrawal_period_sec o) v (wp_expiration o) (wp_claimed_this_period o).
Definition set_wp_expiration (v : Z) (o : withdraw_permission_object) : withdraw_permission_object :=
  mk_withdraw_permission (wp_withdraw_from_account o) (wp_authorized_account o) (wp_withdrawal_limit o) (wp_withdrawal_period_sec o) (wp_period_start_time o) v (wp_claimed_this_period o).
Definition set_wp_claimed_this_period (v : Z) (o : withdraw_permission_object) : withdraw_permission_object :=
  mk_withdraw_permission (wp_withdraw_from_account o) (wp_authorized_account o) (wp_withdrawal_limit o) (wp_withdrawal_period_sec o) (wp_period_start_time o) (wp_expiration o) v.

Definition available_this_period `{Ext} (current_time : Z) (p : withdraw_permission_object) : res asset :=
  if time_add (wp_period_start_time p) (wp_withdrawal_period_sec p) <=? current_time then Ok (wp_withdrawal_limit p)
  else if wp_claimed_this_period p <? amount (wp_withdrawal_limit p) then
    let? v := safe (amount (wp_withdrawal_limit p) - wp_claimed_this_period p) in
    Ok (mk_asset v (asset_id (wp_withdrawal_limit p)))
  else Ok (mk_asset 0 (asset_id (wp_withdrawal_limit p))).

(** ** Fee accumulators, global and dynamic properties *)

(** [fba_accumulator_object] *)
Record fba_accumulator_object := mk_fba_accumulator {
  fba_accumulated_fba_fees : Z;
  fba_designated_asset : option Z;
}.
Definition set_fba_accumulated_fba_fees (v : Z) (o : fba_accumulator_object) : fba_accumulator_object :=
  mk_fba_accumulator v (fba_designated_asset o).
