(* ===== verification/Parameters.v ===== *)
(** * Fee schedules and chain parameters

    The fee schedule (chain/protocol/fee_schedule.hpp) and the chain parameters
    (chain/protocol/chain_parameters.hpp) with their validation
    (protocol/fee_schedule.cpp). *)

From S2P Require Import Prelude Ext Config Asset Objects.

(** The [fee_parameters_type] structs: a flat fee, a flat fee and a price per
    kilobyte, the fees of asset_create, account_create, account_upgrade and blind
    transfers, or no parameter. Fees are [uint64_t]; the few of type [share_type] are held by
    their bits. *)
Inductive fee_parameters :=
  | fee_flat (fee : Z)
  | fee_kbyte (fee price_per_kbyte : Z)
  | fee_symbols (symbol3 symbol4 long_symbol price_per_kbyte : Z)
  | fee_account (basic_fee premium_fee price_per_kbyte : Z)
  | fee_membership (annual lifetime : Z)
  | fee_outputs (fee price_per_output : Z)
  | fee_none.

(** [fee_schedule]: the parameters by operation, and the scale. *)
Record fee_schedule := mk_fee_schedule {
  fs_parameters : gmap Z fee_parameters;
  fs_scale : Z;   (* uint32_t *)
}.

(** [chain_parameters] *)
Record chain_parameters := mk_chain_parameters {
  cp_current_fees : fee_schedule;
  cp_block_interval : Z;   (* uint8_t *)
  cp_maintenance_interval : Z;   (* uint32_t *)
  cp_maintenance_skip_slots : Z;   (* uint8_t *)
  cp_committee_proposal_review_period : Z;   (* uint32_t *)
  cp_maximum_transaction_size : Z;   (* uint32_t *)
  cp_maximum_block_size : Z;   (* uint32_t *)
  cp_maximum_time_until_expiration : Z;   (* uint32_t *)
  cp_maximum_proposal_lifetime : Z;   (* uint32_t *)
  cp_maximum_asset_whitelist_authorities : Z;   (* uint8_t *)
  cp_maximum_asset_feed_publishers : Z;   (* uint8_t *)
  cp_maximum_witness_count : Z;   (* uint16_t *)
  cp_maximum_committee_count : Z;   (* uint16_t *)
  cp_maximum_authority_membership : Z;   (* uint16_t *)
  cp_reserve_percent_of_fee : Z;   (* uint16_t *)
  cp_network_percent_of_fee : Z;   (* uint16_t *)
  cp_lifetime_referrer_percent_of_fee : Z;   (* uint16_t *)
  cp_cashback_vesting_period_seconds : Z;   (* uint32_t *)
  cp_cashback_vesting_threshold : Z;
  cp_count_non_member_votes : bool;
  cp_allow_non_member_whitelists : bool;
  cp_witness_pay_per_block : Z;
  cp_witness_pay_vesting_seconds : Z;   (* uint32_t *)
  cp_worker_budget_per_day : Z;
  cp_max_predicate_opcode : Z;   (* uint16_t *)
  cp_fee_liquidation_threshold : Z;
  cp_accounts_per_fee_scale : Z;   (* uint16_t *)
  cp_account_fee_scale_bitshifts : Z;   (* uint8_t *)
  cp_max_authority_depth : Z;   (* uint8_t *)
}.
Definition set_cp_current_fees (v : fee_schedule) (o : chain_parameters) : chain_parameters :=
  mk_chain_parameters v (cp_block_interval o) (cp_maintenance_interval o) (cp_maintenance_skip_slots o) (cp_committee_proposal_review_period o) (cp_maximum_transaction_size o) (cp_maximum_block_size o) (cp_maximum_time_until_expiration o) (cp_maximum_proposal_lifetime o) (cp_maximum_asset_whitelist_authorities o) (cp_maximum_asset_feed_publishers o) (cp_maximum_witness_count o) (cp_maximum_committee_count o) (cp_maximum_authority_membership o) (cp_reserve_percent_of_fee o) (cp_network_percent_of_fee o) (cp_lifetime_referrer_percent_of_fee o) (cp_cashback_vesting_period_seconds o) (cp_cashback_vesting_threshold o) (cp_count_non_member_votes o) (cp_allow_non_member_whitelists o) (cp_witness_pay_per_block o) (cp_witness_pay_vesting_seconds o) (cp_worker_budget_per_day o) (cp_max_predicate_opcode o) (cp_fee_liquidation_threshold o) (cp_accounts_per_fee_scale o) (cp_account_fee_scale_bitshifts o) (cp_max_authority_depth o).

(** [chain_parameters::validate]; [fee_schedule::validate] checks nothing. The
    difference of the two proposal periods is one of [uint32_t]. *)
Definition chain_parameters_validate (p : chain_parameters) : res unit :=
  require? cp_reserve_percent_of_fee p <=? GRAPHENE_100_PERCENT in
  require? cp_network_percent_of_fee p <=? GRAPHENE_100_PERCENT in
  require? cp_lifetime_referrer_percent_of_fee p <=? GRAPHENE_100_PERCENT in
  require? cp_network_percent_of_fee p + cp_lifetime_referrer_percent_of_fee p <=? GRAPHENE_100_PERCENT in
  require? GRAPHENE_MIN_BLOCK_INTERVAL <=? cp_block_interval p in
  require? cp_block_interval p <=? GRAPHENE_MAX_BLOCK_INTERVAL in
  require? 0 <? cp_block_interval p in
  require? cp_block_interval p <? cp_maintenance_interval p in
  require? cp_maintenance_interval p mod cp_block_interval p =? 0 in
  require? GRAPHENE_MIN_TRANSACTION_SIZE_LIMIT <=? cp_maximum_transaction_size p in
  require? GRAPHENE_MIN_BLOCK_SIZE_LIMIT <=? cp_maximum_block_size p in
  require? cp_block_interval p <? cp_maximum_time_until_expiration p in
  require? cp_block_interval p <? (cp_maximum_proposal_lifetime p - cp_committee_proposal_review_period p) mod 2 ^ 32 in
  Ok tt.
