(* ===== verification/Governance.v ===== *)
(** * Votes and the objects of the maintenance

    The objects the maintenance of the chain works on: witnesses, committee members, workers, budget records,
    the lists of buyback assets and special authorities, and the global
    properties and buffers that only the maintenance reads
    (global_property_object.hpp, witness_object.hpp,
    committee_member_object.hpp, worker_object.hpp, budget_record_object.hpp,
    buyback_object.hpp, special_authority_object.hpp). *)

From S2P Require Import Prelude Ext Config Asset Objects Parameters.

(** ** Votable objects *)

(** [vote_id_type]: a type in the low 8 bits of [content], an instance in the
    other 24. The containers of the code compare instances, which no two votable
    objects share; the sets of votes here hold contents. *)
Definition vote_instance (content : Z) : Z := Z.shiftr content 8.
Definition vote_type (content : Z) : Z := Z.land content 255.
Definition vote_id (type instance : Z) : Z := Z.lor (Z.shiftl instance 8 mod 2 ^ 32) type.
Definition vote_committee : Z := 0.
Definition vote_witness : Z := 1.
Definition vote_worker : Z := 2.

(** [witness_object]: owner, key, pay and votes; what the schedule counts is in
    WitnessSchedule.v *)
Record witness_object := mk_witness {
  wit_witness_account : Z;
  wit_signing_key : Z;
  wit_pay_vb : option Z;
  wit_vote_id : Z;
  wit_total_votes : Z;   (* uint64_t *)
  wit_url : string;
}.
Definition set_wit_signing_key (v : Z) (o : witness_object) : witness_object :=
  mk_witness (wit_witness_account o) v (wit_pay_vb o) (wit_vote_id o) (wit_total_votes o) (wit_url o).
Definition set_wit_pay_vb (v : option Z) (o : witness_object) : witness_object :=
  mk_witness (wit_witness_account o) (wit_signing_key o) v (wit_vote_id o) (wit_total_votes o) (wit_url o).
Definition set_wit_total_votes (v : Z) (o : witness_object) : witness_object :=
  mk_witness (wit_witness_account o) (wit_signing_key o) (wit_pay_vb o) (wit_vote_id o) v (wit_url o).
Definition set_wit_url (v : string) (o : witness_object) : witness_object :=
  mk_witness (wit_witness_account o) (wit_signing_key o) (wit_pay_vb o) (wit_vote_id o) (wit_total_votes o) v.

(** [committee_member_object] *)
Record committee_member_object := mk_committee_member {
  cm_committee_member_account : Z;
  cm_vote_id : Z;
  cm_total_votes : Z;   (* uint64_t *)
  cm_url : string;
}.
Definition set_cm_total_votes (v : Z) (o : committee_member_object) : committee_member_object :=
  mk_committee_member (cm_committee_member_account o) (cm_vote_id o) v (cm_url o).
Definition set_cm_url (v : string) (o : committee_member_object) : committee_member_object :=
  mk_committee_member (cm_committee_member_account o) (cm_vote_id o) (cm_total_votes o) v.

(** ** Workers *)

(** [worker_type] *)
Inductive worker_type :=
  | refund_worker (total_burned : Z)
  | vesting_balance_worker (balance : Z)
  | burn_worker (total_burned : Z).

(** [worker_object] *)
Record worker_object := mk_worker {
  wk_worker_account : Z;
  wk_work_begin_date : Z;
  wk_work_end_date : Z;
  wk_daily_pay : Z;
  wk_worker : worker_type;
  wk_name : string;
  wk_url : string;
  wk_vote_for : Z;
  wk_vote_against : Z;
  wk_total_votes_for : Z;   (* uint64_t *)
  wk_total_votes_against : Z;   (* uint64_t *)
}.
Definition set_wk_worker (v : worker_type) (o : worker_object) : worker_object :=
  mk_worker (wk_worker_account o) (wk_work_begin_date o) (wk_work_end_date o) (wk_daily_pay o) v (wk_name o) (wk_url o) (wk_vote_for o) (wk_vote_against o) (wk_total_votes_for o) (wk_total_votes_against o).
Definition set_wk_total_votes_for (v : Z) (o : worker_object) : worker_object :=
  mk_worker (wk_worker_account o) (wk_work_begin_date o) (wk_work_end_date o) (wk_daily_pay o) (wk_worker o) (wk_name o) (wk_url o) (wk_vote_for o) (wk_vote_against o) v (wk_total_votes_against o).
Definition set_wk_total_votes_against (v : Z) (o : worker_object) : worker_object :=
  mk_worker (wk_worker_account o) (wk_work_begin_date o) (wk_work_end_date o) (wk_daily_pay o) (wk_worker o) (wk_name o) (wk_url o) (wk_vote_for o) (wk_vote_against o) (wk_total_votes_for o) v.

Definition is_active (w : worker_object) (now : Z) : bool :=
  (wk_work_begin_date w <=? now) && (now <=? wk_work_end_date w).

(** The difference of two [int64_t]; an overflow, which is undefined, wraps. *)
Definition approving_stake (w : worker_object) : Z :=
  i64_of_u64 (u64 (i64_of_u64 (wk_total_votes_for w) - i64_of_u64 (wk_total_votes_against w))).

(** ** Budget records *)

(** [budget_record] *)
Record budget_record := mk_budget_record {
  br_time_since_last_budget : Z;   (* uint64_t *)
  br_from_initial_reserve : Z;
  br_from_accumulated_fees : Z;
  br_from_unused_witness_budget : Z;
  br_requested_witness_budget : Z;
  br_total_budget : Z;
  br_witness_budget : Z;
  br_worker_budget : Z;
  br_leftover_worker_funds : Z;
  br_supply_delta : Z;
}.
Definition set_br_time_since_last_budget (v : Z) (o : budget_record) : budget_record :=
  mk_budget_record v (br_from_initial_reserve o) (br_from_accumulated_fees o) (br_from_unused_witness_budget o) (br_requested_witness_budget o) (br_total_budget o) (br_witness_budget o) (br_worker_budget o) (br_leftover_worker_funds o) (br_supply_delta o).
Definition set_br_requested_witness_budget (v : Z) (o : budget_record) : budget_record :=
  mk_budget_record (br_time_since_last_budget o) (br_from_initial_reserve o) (br_from_accumulated_fees o) (br_from_unused_witness_budget o) v (br_total_budget o) (br_witness_budget o) (br_worker_budget o) (br_leftover_worker_funds o) (br_supply_delta o).
Definition set_br_total_budget (v : Z) (o : budget_record) : budget_record :=
  mk_budget_record (br_time_since_last_budget o) (br_from_initial_reserve o) (br_from_accumulated_fees o) (br_from_unused_witness_budget o) (br_requested_witness_budget o) v (br_witness_budget o) (br_worker_budget o) (br_leftover_worker_funds o) (br_supply_delta o).
Definition set_br_witness_budget (v : Z) (o : budget_record) : budget_record :=
  mk_budget_record (br_time_since_last_budget o) (br_from_initial_reserve o) (br_from_accumulated_fees o) (br_from_unused_witness_budget o) (br_requested_witness_budget o) (br_total_budget o) v (br_worker_budget o) (br_leftover_worker_funds o) (br_supply_delta o).
Definition set_br_worker_budget (v : Z) (o : budget_record) : budget_record :=
  mk_budget_record (br_time_since_last_budget o) (br_from_initial_reserve o) (br_from_accumulated_fees o) (br_from_unused_witness_budget o) (br_requested_witness_budget o) (br_total_budget o) (br_witness_budget o) v (br_leftover_worker_funds o) (br_supply_delta o).
Definition set_br_leftover_worker_funds (v : Z) (o : budget_record) : budget_record :=
  mk_budget_record (br_time_since_last_budget o) (br_from_initial_reserve o) (br_from_accumulated_fees o) (br_from_unused_witness_budget o) (br_requested_witness_budget o) (br_total_budget o) (br_witness_budget o) (br_worker_budget o) v (br_supply_delta o).
Definition set_br_supply_delta (v : Z) (o : budget_record) : budget_record :=
  mk_budget_record (br_time_since_last_budget o) (br_from_initial_reserve o) (br_from_accumulated_fees o) (br_from_unused_witness_budget o) (br_requested_witness_budget o) (br_total_budget o) (br_witness_budget o) (br_worker_budget o) (br_leftover_worker_funds o) v.
Definition new_budget_record : budget_record := mk_budget_record 0 0 0 0 0 0 0 0 0 0.

(** ** The part of the state that the maintenance keeps *)

(** Of [global_property_object], [dynamic_global_property_object] and
    [chain_property_object] what the maintenance uses, the indices of committee
    members, workers, buyback and special authority objects, and the vote
    buffers of [database] *)
Record governance := mk_governance {
  gv_last_budget_time : Z;
  gv_accounts_registered_this_interval : Z;   (* uint32_t *)
  gv_pending_parameters : option chain_parameters;
  gv_next_available_vote_id : Z;   (* uint32_t *)
  gv_active_committee_members : list Z;
  gv_active_witnesses : gset Z;
  gv_min_committee_member_count : Z;   (* uint16_t *)
  gv_min_witness_count : Z;   (* uint16_t *)
  gv_committee_members : gmap Z committee_member_object;
  gv_workers : gmap Z worker_object;
  gv_buybacks : gmap Z Z;
  gv_special_authorities : gmap Z Z;
  gv_budget_records : list (Z * budget_record);
  gv_vote_tally_buffer : list Z;
  gv_witness_count_histogram_buffer : list Z;
  gv_committee_count_histogram_buffer : list Z;
  gv_total_voting_stake : Z;   (* uint64_t *)
  gv_track_standby_votes : bool;
}.
Definition set_gv_last_budget_time (v : Z) (o : governance) : governance :=
  mk_governance v (gv_accounts_registered_this_interval o) (gv_pending_parameters o) (gv_next_available_vote_id o) (gv_active_committee_members o) (gv_active_witnesses o) (gv_min_committee_member_count o) (gv_min_witness_count o) (gv_committee_members o) (gv_workers o) (gv_buybacks o) (gv_special_authorities o) (gv_budget_records o) (gv_vote_tally_buffer o) (gv_witness_count_histogram_buffer o) (gv_committee_count_histogram_buffer o) (gv_total_voting_stake o) (gv_track_standby_votes o).
Definition set_gv_accounts_registered_this_interval (v : Z) (o : governance) : governance :=
  mk_governance (gv_last_budget_time o) v (gv_pending_parameters o) (gv_next_available_vote_id o) (gv_active_committee_members o) (gv_active_witnesses o) (gv_min_committee_member_count o) (gv_min_witness_count o) (gv_committee_members o) (gv_workers o) (gv_buybacks o) (gv_special_authorities o) (gv_budget_records o) (gv_vote_tally_buffer o) (gv_witness_count_histogram_buffer o) (gv_committee_count_histogram_buffer o) (gv_total_voting_stake o) (gv_track_standby_votes o).
Definition set_gv_pending_parameters (v : option chain_parameters) (o : governance) : governance :=
  mk_governance (gv_last_budget_time o) (gv_accounts_registered_this_interval o) v (gv_next_available_vote_id o) (gv_active_committee_members o) (gv_active_witnesses o) (gv_min_committee_member_count o) (gv_min_witness_count o) (gv_committee_members o) (gv_workers o) (gv_buybacks o) (gv_special_authorities o) (gv_budget_records o) (gv_vote_tally_buffer o) (gv_witness_count_histogram_buffer o) (gv_committee_count_histogram_buffer o) (gv_total_voting_stake o) (gv_track_standby_votes o).
Definition set_gv_next_available_vote_id (v : Z) (o : governance) : governance :=
  mk_governance (gv_last_budget_time o) (gv_accounts_registered_this_interval o) (gv_pending_parameters o) v (gv_active_committee_members o) (gv_active_witnesses o) (gv_min_committee_member_count o) (gv_min_witness_count o) (gv_committee_members o) (gv_workers o) (gv_buybacks o) (gv_special_authorities o) (gv_budget_records o) (gv_vote_tally_buffer o) (gv_witness_count_histogram_buffer o) (gv_committee_count_histogram_buffer o) (gv_total_voting_stake o) (gv_track_standby_votes o).
Definition set_gv_active_committee_members (v : list Z) (o : governance) : governance :=
  mk_governance (gv_last_budget_time o) (gv_accounts_registered_this_interval o) (gv_pending_parameters o) (gv_next_available_vote_id o) v (gv_active_witnesses o) (gv_min_committee_member_count o) (gv_min_witness_count o) (gv_committee_members o) (gv_workers o) (gv_buybacks o) (gv_special_authorities o) (gv_budget_records o) (gv_vote_tally_buffer o) (gv_witness_count_histogram_buffer o) (gv_committee_count_histogram_buffer o) (gv_total_voting_stake o) (gv_track_standby_votes o).
Definition set_gv_active_witnesses (v : gset Z) (o : governance) : governance :=
  mk_governance (gv_last_budget_time o) (gv_accounts_registered_this_interval o) (gv_pending_parameters o) (gv_next_available_vote_id o) (gv_active_committee_members o) v (gv_min_committee_member_count o) (gv_min_witness_count o) (gv_committee_members o) (gv_workers o) (gv_buybacks o) (gv_special_authorities o) (gv_budget_records o) (gv_vote_tally_buffer o) (gv_witness_count_histogram_buffer o) (gv_committee_count_histogram_buffer o) (gv_total_voting_stake o) (gv_track_standby_votes o).
Definition set_gv_committee_members (v : gmap Z committee_member_object) (o : governance) : governance :=
  mk_governance (gv_last_budget_time o) (gv_accounts_registered_this_interval o) (gv_pending_parameters o) (gv_next_available_vote_id o) (gv_active_committee_members o) (gv_active_witnesses o) (gv_min_committee_member_count o) (gv_min_witness_count o) v (gv_workers o) (gv_buybacks o) (gv_special_authorities o) (gv_budget_records o) (gv_vote_tally_buffer o) (gv_witness_count_histogram_buffer o) (gv_committee_count_histogram_buffer o) (gv_total_voting_stake o) (gv_track_standby_votes o).
Definition set_gv_workers (v : gmap Z worker_object) (o : governance) : governance :=
  mk_governance (gv_last_budget_time o) (gv_accounts_registered_this_interval o) (gv_pending_parameters o) (gv_next_available_vote_id o) (gv_active_committee_members o) (gv_active_witnesses o) (gv_min_committee_member_count o) (gv_min_witness_count o) (gv_committee_members o) v (gv_buybacks o) (gv_special_authorities o) (gv_budget_records o) (gv_vote_tally_buffer o) (gv_witness_count_histogram_buffer o) (gv_committee_count_histogram_buffer o) (gv_total_voting_stake o) (gv_track_standby_votes o).
Definition set_gv_budget_records (v : list (Z * budget_record)) (o : governance) : governance :=
  mk_governance (gv_last_budget_time o) (gv_accounts_registered_this_interval o) (gv_pending_parameters o) (gv_next_available_vote_id o) (gv_active_committee_members o) (gv_active_witnesses o) (gv_min_committee_member_count o) (gv_min_witness_count o) (gv_committee_members o) (gv_workers o) (gv_buybacks o) (gv_special_authorities o) v (gv_vote_tally_buffer o) (gv_witness_count_histogram_buffer o) (gv_committee_count_histogram_buffer o) (gv_total_voting_stake o) (gv_track_standby_votes o).
Definition set_gv_vote_tally_buffer (v : list Z) (o : governance) : governance :=
  mk_governance (gv_last_budget_time o) (gv_accounts_registered_this_interval o) (gv_pending_parameters o) (gv_next_available_vote_id o) (gv_active_committee_members o) (gv_active_witnesses o) (gv_min_committee_member_count o) (gv_min_witness_count o) (gv_committee_members o) (gv_workers o) (gv_buybacks o) (gv_special_authorities o) (gv_budget_records o) v (gv_witness_count_histogram_buffer o) (gv_committee_count_histogram_buffer o) (gv_total_voting_stake o) (gv_track_standby_votes o).
Definition set_gv_witness_count_histogram_buffer (v : list Z) (o : governance) : governance :=
  mk_governance (gv_last_budget_time o) (gv_accounts_registered_this_interval o) (gv_pending_parameters o) (gv_next_available_vote_id o) (gv_active_committee_members o) (gv_active_witnesses o) (gv_min_committee_member_count o) (gv_min_witness_count o) (gv_committee_members o) (gv_workers o) (gv_buybacks o) (gv_special_authorities o) (gv_budget_records o) (gv_vote_tally_buffer o) v (gv_committee_count_histogram_buffer o) (gv_total_voting_stake o) (gv_track_standby_votes o).
Definition set_gv_committee_count_histogram_buffer (v : list Z) (o : governance) : governance :=
  mk_governance (gv_last_budget_time o) (gv_accounts_registered_this_interval o) (gv_pending_parameters o) (gv_next_available_vote_id o) (gv_active_committee_members o) (gv_active_witnesses o) (gv_min_committee_member_count o) (gv_min_witness_count o) (gv_committee_members o) (gv_workers o) (gv_buybacks o) (gv_special_authorities o) (gv_budget_records o) (gv_vote_tally_buffer o) (gv_witness_count_histogram_buffer o) v (gv_total_voting_stake o) (gv_track_standby_votes o).
Definition set_gv_total_voting_stake (v : Z) (o : governance) : governance :=
  mk_governance (gv_last_budget_time o) (gv_accounts_registered_this_interval o) (gv_pending_parameters o) (gv_next_available_vote_id o) (gv_active_committee_members o) (gv_active_witnesses o) (gv_min_committee_member_count o) (gv_min_witness_count o) (gv_committee_members o) (gv_workers o) (gv_buybacks o) (gv_special_authorities o) (gv_budget_records o) (gv_vote_tally_buffer o) (gv_witness_count_histogram_buffer o) (gv_committee_count_histogram_buffer o) v (gv_track_standby_votes o).
Definition set_gv_buybacks (v : gmap Z Z) (o : governance) : governance :=
  mk_governance (gv_last_budget_time o) (gv_accounts_registered_this_interval o) (gv_pending_parameters o) (gv_next_available_vote_id o) (gv_active_committee_members o) (gv_active_witnesses o) (gv_min_committee_member_count o) (gv_min_witness_count o) (gv_committee_members o) (gv_workers o) v (gv_special_authorities o) (gv_budget_records o) (gv_vote_tally_buffer o) (gv_witness_count_histogram_buffer o) (gv_committee_count_histogram_buffer o) (gv_total_voting_stake o) (gv_track_standby_votes o).
Definition set_gv_special_authorities (v : gmap Z Z) (o : governance) : governance :=
  mk_governance (gv_last_budget_time o) (gv_accounts_registered_this_interval o) (gv_pending_parameters o) (gv_next_available_vote_id o) (gv_active_committee_members o) (gv_active_witnesses o) (gv_min_committee_member_count o) (gv_min_witness_count o) (gv_committee_members o) (gv_workers o) (gv_buybacks o) v (gv_budget_records o) (gv_vote_tally_buffer o) (gv_witness_count_histogram_buffer o) (gv_committee_count_histogram_buffer o) (gv_total_voting_stake o) (gv_track_standby_votes o).
