(* ===== verification/Blocks.v ===== *)
(** * Block identifiers and headers

    Models protocol/block.hpp and protocol/block.cpp: the number of a block is
    kept in its identifier. *)

From S2P Require Import Prelude.

(** [block_id_type]: the first word holds the number of the block, the others
    are those of its hash. *)
Record block_id := mk_block_id { id_num : Z; id_hash : Z }.
#[export] Instance block_id_eq_dec : EqDecision block_id.
Proof. solve_decision. Defined.

(** [block_id_type()] *)
Definition null_id : block_id := mk_block_id 0 0.

(** [block_header::num_from_id] *)
Definition num_from_id (id : block_id) : Z := id_num id.

(** [signed_block_header]; [bh_digest] stands for the other members, which are
    only hashed. *)
Record block_header := mk_block_header {
  bh_previous : block_id;
  bh_timestamp : Z;
  bh_witness : Z;
  bh_transaction_merkle_root : Z;
  bh_digest : Z;
}.

(** [block_header::block_num] *)
Definition block_num (b : block_header) : Z := u32 (num_from_id (bh_previous b) + 1).

(** The hash function of the identifiers, [fc::sha224]. *)
Class BlockHash := block_hash : block_header → Z.

(** [signed_block_header::id] *)
Definition header_id `{BlockHash} (b : block_header) : block_id :=
  mk_block_id (block_num b) (block_hash b).
