(* ===== verification/Names.v ===== *)
(** * Names of accounts and symbols of assets

    [is_valid_symbol] of protocol/asset_ops.cpp, [is_valid_name] and
    [is_cheap_name] of protocol/account.cpp, and the grammar that [is_valid_name]
    decides. *)

From S2P Require Import Prelude Config.

(** Character classes of the classic locale. *)
Definition is_upper (c : Ascii.ascii) : bool :=
  (65 <=? Z.of_nat (Ascii.nat_of_ascii c)) && (Z.of_nat (Ascii.nat_of_ascii c) <=? 90).
Definition is_lower (c : Ascii.ascii) : bool :=
  (97 <=? Z.of_nat (Ascii.nat_of_ascii c)) && (Z.of_nat (Ascii.nat_of_ascii c) <=? 122).
Definition is_digit (c : Ascii.ascii) : bool :=
  (48 <=? Z.of_nat (Ascii.nat_of_ascii c)) && (Z.of_nat (Ascii.nat_of_ascii c) <=? 57).
Definition is_alpha (c : Ascii.ascii) : bool := is_upper c || is_lower c.
Definition is_alnum (c : Ascii.ascii) : bool := is_alpha c || is_digit c.
Definition dot : Ascii.ascii := Ascii.ascii_of_nat 46.

(** The loop of [is_valid_symbol] over the characters; the boolean is
    [dot_already_present]. *)
Fixpoint symbol_chars_valid (cs : list Ascii.ascii) (dot_already_present : bool) : bool :=
  match cs with
  | [] => true
  | c :: cs' =>
    if (is_alpha c && is_upper c) || is_digit c then symbol_chars_valid cs' dot_already_present
    else if bool_decide (c = dot) then
      if dot_already_present then false else symbol_chars_valid cs' true
    else false
  end.

Definition is_valid_symbol (symbol : string) : bool :=
  let cs := String.list_ascii_of_string symbol in
  let size := Z.of_nat (length cs) in
  if size <? GRAPHENE_MIN_ASSET_SYMBOL_LENGTH then false
  else if bool_decide (take 3 cs = String.list_ascii_of_string "BIT") then false
  else if GRAPHENE_MAX_ASSET_SYMBOL_LENGTH <? size then false
  else if negb (from_option is_alpha false (head cs)) then false
  else if negb (from_option is_alnum false (last cs)) then false
  else symbol_chars_valid cs false.

(** ** Names of accounts *)

Definition hyphen : Ascii.ascii := Ascii.ascii_of_nat 45.

(** [name.find_first_of( '.', begin )], or the length when there is none *)
Fixpoint find_dot (cs : list Ascii.ascii) : nat :=
  match cs with
  | [] => O
  | c :: cs' => if bool_decide (c = dot) then O else S (find_dot cs')
  end.

(** The checks of the label between [begin] and [end]. *)
Definition label_valid (label : list Ascii.ascii) : bool :=
  if Z.of_nat (length label) <? GRAPHENE_MIN_ACCOUNT_NAME_LENGTH then false
  else if negb (from_option is_lower false (head label)) then false
  else if negb (from_option (λ c, is_lower c || is_digit c) false (last label)) then false
  else forallb (λ c, is_lower c || is_digit c || bool_decide (c = hyphen))
         (take (length label - 2) (drop 1 label)).

(** The loop over the labels; [cs] are the characters from [begin] on. *)
Fixpoint labels_valid (fuel : nat) (cs : list Ascii.ascii) : option bool :=
  match fuel with
  | O => None
  | S fuel' =>
    let end_ := find_dot cs in
    if negb (label_valid (take end_ cs)) then Some false
    else if (end_ =? length cs)%nat then Some true
    else labels_valid fuel' (drop (S end_) cs)
  end.

(** [is_valid_name]; [None] when the fuel does not suffice, which it always does
    ([is_valid_name_grammar]). *)
Definition is_valid_name (name : string) : option bool :=
  let cs := String.list_ascii_of_string name in
  let len := Z.of_nat (length cs) in
  if len <? GRAPHENE_MIN_ACCOUNT_NAME_LENGTH then Some false
  else if GRAPHENE_MAX_ACCOUNT_NAME_LENGTH <? len then Some false
  else labels_valid (S (length cs)) cs.

Definition is_vowel (c : Ascii.ascii) : bool :=
  bool_decide (c ∈ String.list_ascii_of_string "aeiouy").
Definition slash : Ascii.ascii := Ascii.ascii_of_nat 47.

(** The loop of [is_cheap_name]; the boolean is [v]. *)
Fixpoint cheap_chars (cs : list Ascii.ascii) (v : bool) : bool :=
  match cs with
  | [] => negb v
  | c :: cs' =>
    if is_digit c then true
    else if bool_decide (c = dot) || bool_decide (c = hyphen) || bool_decide (c = slash) then true
    else cheap_chars cs' (is_vowel c || v)
  end.
Definition is_cheap_name (n : string) : bool := cheap_chars (String.list_ascii_of_string n) false.

(** ** The grammar of names

    The grammar in the comment before [is_valid_name], with lower case letters:
    a label is a letter, or begins with a letter, ends with a letter or digit and
    has letters, digits and hyphens between; a name is one label or more with
    dots between. *)
Definition let_dig (c : Ascii.ascii) : bool := is_lower c || is_digit c.
Definition let_dig_hyp (c : Ascii.ascii) : bool := is_lower c || is_digit c || bool_decide (c = hyphen).
Inductive label : list Ascii.ascii → Prop :=
  | label_letter c : is_lower c = true → label [c]
  | label_long c mid e :
      is_lower c = true → Forall (λ c, let_dig_hyp c = true) mid → let_dig e = true → label (c :: mid ++ [e]).
Inductive subdomain : list Ascii.ascii → Prop :=
  | subdomain_label l : label l → subdomain l
  | subdomain_dot l s : label l → subdomain s → subdomain (l ++ dot :: s).

Lemma label_valid_long c mid e :
  label_valid (c :: mid ++ [e]) = is_lower c && let_dig e && forallb let_dig_hyp mid.
Proof.
  unfold label_valid. rewrite (proj2 (Z.ltb_ge _ _)) by (simpl; unfold GRAPHENE_MIN_ACCOUNT_NAME_LENGTH; lia).
  rewrite app_comm_cons, last_snoc. simpl. unfold let_dig. destruct (is_lower c); [|done]. simpl.
  destruct (is_lower e || is_digit e); [|done]. simpl. rewrite drop_0, length_app. simpl.
  by rewrite Nat.add_1_r, Nat.sub_succ, Nat.sub_0_r, take_app_length.
Qed.
Lemma label_valid_iff l : label_valid l = true ↔ label l.
Proof.
  destruct l as [|c l]; [split; [done|by inversion 1]|]. destruct l as [|e mid _] using rev_ind.
  - split.
    + intros H. apply label_letter. unfold label_valid in H. simpl in H. by destruct (is_lower c).
    + intros H. inversion H as [c' Hc|c' mid e Hc _ _ E]; subst; [|by destruct mid].
      unfold label_valid. simpl. by rewrite Hc.
  - rewrite label_valid_long. split.
    + intros [[Hc He]%andb_prop Hm]%andb_prop. apply label_long; try done.
      apply Forall_forall. intros x Hx%list_elem_of_In. by apply (proj1 (forallb_forall _ _) Hm).
    + intros H. inversion H as [c' Hc E|c' mid' e' Hc Hm He [E1 E2]]; [by destruct mid|].
      apply app_inj_tail in E2 as [-> ->]. rewrite Hc, He. simpl. apply forallb_forall. intros x Hx.
      rewrite Forall_forall in Hm. by apply Hm, list_elem_of_In.
Qed.

(** A label has no dot. *)
Lemma let_dig_hyp_not_dot c : let_dig_hyp c = true → c ≠ dot.
Proof. by intros H ->. Qed.
Lemma label_no_dot l : label l → dot ∉ l.
Proof.
  intros [c Hc|c mid e Hc Hm He] Hin; rewrite ?elem_of_cons, ?elem_of_app, ?elem_of_cons in Hin.
  - destruct Hin as [<-|Hin]; [done|by inversion Hin].
  - destruct Hin as [<-|[Hin|[<-|Hin]]]; [done| |done|by inversion Hin].
    rewrite Forall_forall in Hm. by apply (let_dig_hyp_not_dot dot); [apply Hm|].
Qed.

Lemma find_dot_none l : dot ∉ l → find_dot l = length l.
Proof.
  induction l as [|c l IH]; [done|]. rewrite not_elem_of_cons. intros [Hc Hl]. simpl.
  rewrite bool_decide_eq_false_2 by congruence. by rewrite IH.
Qed.
Lemma find_dot_app l s : dot ∉ l → find_dot (l ++ dot :: s) = length l.
Proof.
  induction l as [|c l IH]; simpl; [done|]. rewrite not_elem_of_cons. intros [Hc Hl].
  rewrite bool_decide_eq_false_2 by congruence. by rewrite IH.
Qed.
(** The characters are a part without a dot, and what follows the first dot. *)
Lemma find_dot_split cs :
  cs = take (find_dot cs) cs ∧ find_dot cs = length cs ∨
  cs = take (find_dot cs) cs ++ dot :: drop (S (find_dot cs)) cs ∧ (find_dot cs < length cs)%nat.
Proof.
  induction cs as [|c cs IH]; [by left|]. simpl. case_bool_decide as Hc; [subst; right; simpl; split; [done|lia]|].
  destruct IH as [[E1 E2]|[E1 E2]]; [left|right]; simpl; (split; [by rewrite <- E1|lia]).
Qed.

(** The loop decides whether the characters form a name. *)
Lemma labels_valid_spec fuel : ∀ cs,
  (length cs < fuel)%nat → ∃ b, labels_valid fuel cs = Some b ∧ (b = true ↔ subdomain cs).
Proof.
  induction fuel as [|fuel IH]; intros cs Hfuel; [lia|]. simpl.
  destruct (label_valid (take (find_dot cs) cs)) eqn:Hl; simpl.
  - apply label_valid_iff in Hl. destruct (Nat.eqb_spec (find_dot cs) (length cs)) as [E|Hne].
    + exists true. split; [done|]. split; [|done]. intros _. rewrite E, firstn_all in Hl. by apply subdomain_label.
    + destruct (find_dot_split cs) as [[_ E]|[E Hlt]]; [done|].
      destruct (IH (drop (S (find_dot cs)) cs)) as (b & Hb & Hiff); [rewrite length_drop; lia|].
      exists b. split; [done|]. rewrite Hiff. split; [intros Hs; rewrite E; by apply subdomain_dot|].
      intros Hs. destruct Hs as [l Hs|l s Hs1 Hs2].
      * destruct Hne. by apply find_dot_none, label_no_dot.
      * rewrite find_dot_app by (by apply label_no_dot). by rewrite drop_app_ge, Nat.sub_succ_l, Nat.sub_diag by lia.
  - exists false. split; [done|]. split; [done|]. intros Hs. enough (label (take (find_dot cs) cs)) as H.
    { apply label_valid_iff in H. congruence. }
    destruct Hs as [l Hs|l s Hs1 Hs2].
    + by rewrite find_dot_none, firstn_all by (by apply label_no_dot).
    + by rewrite find_dot_app, take_app_length by (by apply label_no_dot).
Qed.

(** [is_valid_name] always ends, and accepts exactly the names of the grammar
    documented before it that are not longer than the maximum: the loop over the
    labels, which compares positions in the string, decides the context free
    definition. *)
Theorem is_valid_name_grammar name :
  ∃ b, is_valid_name name = Some b ∧
    (b = true ↔ subdomain (String.list_ascii_of_string name) ∧
       Z.of_nat (String.length name) ≤ GRAPHENE_MAX_ACCOUNT_NAME_LENGTH).
Proof.
  unfold is_valid_name. set (cs := String.list_ascii_of_string name).
  assert (String.length name = length cs) as ->.
  { unfold cs. clear. induction name as [|c name IH]; simpl; [done|]. by rewrite IH. }
  unfold GRAPHENE_MIN_ACCOUNT_NAME_LENGTH. destruct (Z.ltb_spec (Z.of_nat (length cs)) 1) as [Hmin|Hmin].
  { exists false. split; [done|]. split; [done|]. intros [Hs _]. destruct cs as [|c cs']; [|simpl in Hmin; lia].
    inversion Hs as [l Hl|l s Hl _ E]; [by inversion Hl|]. by destruct l. }
  destruct (Z.ltb_spec GRAPHENE_MAX_ACCOUNT_NAME_LENGTH (Z.of_nat (length cs))) as [Hmax|Hmax].
  { exists false. split; [done|]. split; [done|]. intros [_ Hle]. lia. }
  destruct (labels_valid_spec (S (length cs)) cs) as (b & Hb & Hiff); [lia|]. exists b. split; [done|].
  rewrite Hiff. split; [by split|by intros [Hs _]].
Qed.
