(* ===== verification/Operations.v ===== *)
(** * Operations

    The operations of the chain (chain/protocol/*_ops.hpp, account.hpp,
    market.hpp, transfer.hpp, proposal.hpp, confidential.hpp and the others that
    operations.hpp includes) with their tags, fee payers, fees and the
    authorities they require. Validation.v has their stateless validation, Fees.v
    the fee schedule. *)

From S2P Require Import Prelude Ext Config Asset Objects Parameters Blocks.

(** ** Data *)

(** The encrypted text of [memo_data]; keys and nonce are left out *)
Record memo_data := mk_memo {
  memo_message : string;
}.

(** [transfer_operation] *)
Record transfer_operation := mk_transfer {
  tr_fee : asset;
  tr_from : Z;
  tr_to : Z;
  tr_amount : asset;
  tr_memo : option memo_data;
}.

(** [override_transfer_operation] *)
Record override_transfer_operation := mk_override_transfer {
  ov_fee : asset;
  ov_issuer : Z;
  ov_from : Z;
  ov_to : Z;
  ov_amount : asset;
  ov_memo : option memo_data;
}.

(** [send_message_operation] *)
Record send_message_operation := mk_send_message {
  sm_fee : asset;
  sm_from : Z;
  sm_to : Z;
  sm_memo : memo_data;
}.

(** [pio_operation] *)
Record pio_operation := mk_pio {
  pio_fee : asset;
  pio_from : Z;
  pio_rpc_addr : string;
  pio_contribution : Z;
}.

(** [limit_order_create_operation] *)
Record limit_order_create_operation := mk_limit_order_create {
  loc_fee : asset;
  loc_seller : Z;
  loc_amount_to_sell : asset;
  loc_min_to_receive : asset;
  loc_expiration : Z;
  loc_fill_or_kill : bool;
}.

(** [limit_order_cancel_operation] *)
Record limit_order_cancel_operation := mk_limit_order_cancel {
  lox_fee : asset;
  lox_order : Z;
  lox_fee_paying_account : Z;
}.

(** [call_order_update_operation] *)
Record call_order_update_operation := mk_call_order_update {
  cou_fee : asset;
  cou_funding_account : Z;
  cou_delta_collateral : asset;
  cou_delta_debt : asset;
  cou_target_collateral_ratio : option Z;   (* extensions.value.target_collateral_ratio *)
}.

(** [fill_order_operation] (virtual) *)
Record fill_order_operation := mk_fill_order {
  fo_order_id : Z;
  fo_account_id : Z;
  fo_pays : asset;
  fo_receives : asset;
  fo_fee : asset;
  fo_fill_price : price;
  fo_is_maker : bool;
}.

(** [bid_collateral_operation] *)
Record bid_collateral_operation := mk_bid_collateral {
  bc_fee : asset;
  bc_bidder : Z;
  bc_additional_collateral : asset;
  bc_debt_covered : asset;
}.

(** [execute_bid_operation] (virtual), arguments in the order of its constructor *)
Record execute_bid_operation := mk_execute_bid {
  eb_bidder : Z;
  eb_debt : asset;
  eb_collateral : asset;
}.

(** [asset_create_operation] *)
Record asset_create_operation := mk_asset_create {
  acr_fee : asset;
  acr_issuer : Z;
  acr_symbol : string;
  acr_precision : Z;
  acr_common_options : asset_options;
  acr_bitasset_opts : option bitasset_options;
  acr_is_prediction_market : bool;
}.

(** [asset_global_settle_operation] *)
Record asset_global_settle_operation := mk_asset_global_settle {
  ags_fee : asset;
  ags_issuer : Z;
  ags_asset_to_settle : Z;
  ags_settle_price : price;
}.

(** [asset_settle_operation] *)
Record asset_settle_operation := mk_asset_settle {
  ase_fee : asset;
  ase_account : Z;
  ase_amount : asset;
}.

(** [asset_settle_cancel_operation] (virtual) *)
Record asset_settle_cancel_operation := mk_asset_settle_cancel {
  asx_settlement : Z;
  asx_account : Z;
  asx_amount : asset;
}.

(** [asset_fund_fee_pool_operation] *)
Record asset_fund_fee_pool_operation := mk_asset_fund_fee_pool {
  aff_fee : asset;
  aff_from_account : Z;
  aff_asset_id : Z;
  aff_amount : Z;
}.

(** [asset_update_operation] *)
Record asset_update_operation := mk_asset_update {
  aup_fee : asset;
  aup_issuer : Z;
  aup_asset_to_update : Z;
  aup_new_issuer : option Z;
  aup_new_options : asset_options;
}.

(** [asset_update_bitasset_operation] *)
Record asset_update_bitasset_operation := mk_asset_update_bitasset {
  aub_fee : asset;
  aub_issuer : Z;
  aub_asset_to_update : Z;
  aub_new_options : bitasset_options;
}.

(** [asset_update_feed_producers_operation] *)
Record asset_update_feed_producers_operation := mk_asset_update_feed_producers {
  afp_fee : asset;
  afp_issuer : Z;
  afp_asset_to_update : Z;
  afp_new_feed_producers : gset Z;
}.

(** [asset_publish_feed_operation] *)
Record asset_publish_feed_operation := mk_asset_publish_feed {
  apf_fee : asset;
  apf_publisher : Z;
  apf_asset_id : Z;
  apf_feed : price_feed;
}.

(** [asset_issue_operation] *)
Record asset_issue_operation := mk_asset_issue {
  ais_fee : asset;
  ais_issuer : Z;
  ais_asset_to_issue : asset;
  ais_issue_to_account : Z;
  ais_memo : option memo_data;
}.

(** [asset_reserve_operation] *)
Record asset_reserve_operation := mk_asset_reserve {
  ars_fee : asset;
  ars_payer : Z;
  ars_amount_to_reserve : asset;
}.

(** [asset_claim_fees_operation] *)
Record asset_claim_fees_operation := mk_asset_claim_fees {
  acf_fee : asset;
  acf_issuer : Z;
  acf_amount_to_claim : asset;
}.

(** [asset_update_issuer_operation] *)
Record asset_update_issuer_operation := mk_asset_update_issuer {
  aui_fee : asset;
  aui_issuer : Z;
  aui_asset_to_update : Z;
  aui_new_issuer : Z;
}.

(** [asset_claim_pool_operation] *)
Record asset_claim_pool_operation := mk_asset_claim_pool {
  acp_fee : asset;
  acp_issuer : Z;
  acp_asset_id : Z;
  acp_amount_to_claim : asset;
}.

(** [linear_vesting_policy_initializer] *)
Record linear_vesting_policy_initializer := mk_linear_initializer {
  lvi_begin_timestamp : Z;
  lvi_vesting_cliff_seconds : Z;
  lvi_vesting_duration_seconds : Z;
}.

(** [cdd_vesting_policy_initializer] *)
Record cdd_vesting_policy_initializer := mk_cdd_initializer {
  cvi_start_claim : Z;
  cvi_vesting_seconds : Z;
}.

(** [vesting_policy_initializer] *)
Inductive vesting_policy_initializer :=
  | linear_initializer (i : linear_vesting_policy_initializer)
  | cdd_initializer (i : cdd_vesting_policy_initializer).

(** [vesting_balance_create_operation] *)
Record vesting_balance_create_operation := mk_vesting_balance_create {
  vbc_fee : asset;
  vbc_creator : Z;
  vbc_owner : Z;
  vbc_amount : asset;
  vbc_policy : vesting_policy_initializer;
}.

(** [vesting_balance_withdraw_operation] *)
Record vesting_balance_withdraw_operation := mk_vesting_balance_withdraw {
  vbw_fee : asset;
  vbw_vesting_balance : Z;
  vbw_owner : Z;
  vbw_amount : asset;
}.

(** [account_whitelist_operation] *)
Record account_whitelist_operation := mk_account_whitelist {
  awl_fee : asset;
  awl_authorizing_account : Z;
  awl_account_to_list : Z;
  awl_new_listing : Z;   (* uint8_t *)
}.
Definition white_listed : Z := 1.
Definition black_listed : Z := 2.

(** [account_upgrade_operation] *)
Record account_upgrade_operation := mk_account_upgrade {
  agr_fee : asset;
  agr_account_to_upgrade : Z;
  agr_upgrade_to_lifetime_member : bool;
}.

(** [witness_create_operation] and [witness_update_operation]; a key is named
    by a number *)
Record witness_create_operation := mk_witness_create {
  wcr_fee : asset;
  wcr_witness_account : Z;
  wcr_url : string;
  wcr_block_signing_key : Z;
}.
Record witness_update_operation := mk_witness_update {
  wup_fee : asset;
  wup_witness : Z;
  wup_witness_account : Z;
  wup_new_url : option string;
  wup_new_signing_key : option Z;
}.

(** [committee_member_create_operation], [committee_member_update_operation] and
    [committee_member_update_global_parameters_operation] *)
Record committee_member_create_operation := mk_committee_member_create {
  cmc_fee : asset;
  cmc_committee_member_account : Z;
  cmc_url : string;
}.
Record committee_member_update_operation := mk_committee_member_update {
  cmu_fee : asset;
  cmu_committee_member : Z;
  cmu_committee_member_account : Z;
  cmu_new_url : option string;
}.
Record committee_member_update_global_parameters_operation := mk_update_global_parameters {
  ugp_fee : asset;
  ugp_new_parameters : chain_parameters;
}.

(** [withdraw_permission_create_operation], [withdraw_permission_update_operation],
    [withdraw_permission_claim_operation] and
    [withdraw_permission_delete_operation] *)
Record withdraw_permission_create_operation := mk_withdraw_permission_create {
  wpc_fee : asset;
  wpc_withdraw_from_account : Z;
  wpc_authorized_account : Z;
  wpc_withdrawal_limit : asset;
  wpc_withdrawal_period_sec : Z;   (* uint32_t *)
  wpc_periods_until_expiration : Z;   (* uint32_t *)
  wpc_period_start_time : Z;
}.
Record withdraw_permission_update_operation := mk_withdraw_permission_update {
  wpu_fee : asset;
  wpu_withdraw_from_account : Z;
  wpu_authorized_account : Z;
  wpu_permission_to_update : Z;
  wpu_withdrawal_limit : asset;
  wpu_withdrawal_period_sec : Z;   (* uint32_t *)
  wpu_period_start_time : Z;
  wpu_periods_until_expiration : Z;   (* uint32_t *)
}.
Record withdraw_permission_claim_operation := mk_withdraw_permission_claim {
  wpl_fee : asset;
  wpl_withdraw_permission : Z;
  wpl_withdraw_from_account : Z;
  wpl_withdraw_to_account : Z;
  wpl_amount_to_withdraw : asset;
  wpl_memo : option memo_data;
}.
Record withdraw_permission_delete_operation := mk_withdraw_permission_delete {
  wpd_fee : asset;
  wpd_withdraw_from_account : Z;
  wpd_authorized_account : Z;
  wpd_withdrawal_permission : Z;
}.

(** [worker_initializer] *)
Inductive worker_initializer :=
  | refund_worker_initializer
  | vesting_balance_worker_initializer (pay_vesting_period_days : Z)   (* uint16_t *)
  | burn_worker_initializer.

(** [worker_create_operation] *)
Record worker_create_operation := mk_worker_create {
  wkc_fee : asset;
  wkc_owner : Z;
  wkc_work_begin_date : Z;
  wkc_work_end_date : Z;
  wkc_daily_pay : Z;
  wkc_name : string;
  wkc_url : string;
  wkc_initializer : worker_initializer;
}.

(** [balance_claim_operation]; the key that is [public_key_type()] is 0 *)
Record balance_claim_operation := mk_balance_claim {
  bcl_fee : asset;
  bcl_deposit_to_account : Z;
  bcl_balance_to_claim : Z;
  bcl_balance_owner_key : Z;
  bcl_total_claimed : asset;
}.

(** [fba_distribute_operation], virtual *)
Record fba_distribute_operation := mk_fba_distribute {
  fbd_account_id : Z;
  fbd_fba_id : Z;
  fbd_amount : Z;
}.

(** [buyback_account_options] *)
Record buyback_account_options := mk_buyback_account_options {
  bbo_asset_to_buy : Z;
  bbo_asset_to_buy_issuer : Z;
  bbo_markets : gset Z;
}.

(** [account_create_operation], its extensions included *)
Record account_create_operation := mk_account_create {
  acc_fee : asset;
  acc_registrar : Z;
  acc_referrer : Z;
  acc_referrer_percent : Z;   (* uint16_t *)
  acc_name : string;
  acc_owner : authority;
  acc_active : authority;
  acc_options : account_options;
  acc_null_ext : bool;
  acc_owner_special_authority : option special_authority;
  acc_active_special_authority : option special_authority;
  acc_buyback_options : option buyback_account_options;
}.

(** [account_update_operation], its extensions included *)
Record account_update_operation := mk_account_update {
  acu_fee : asset;
  acu_account : Z;
  acu_owner : option authority;
  acu_active : option authority;
  acu_new_options : option account_options;
  acu_null_ext : bool;
  acu_owner_special_authority : option special_authority;
  acu_active_special_authority : option special_authority;
}.

(** [account_transfer_operation] *)
Record account_transfer_operation := mk_account_transfer {
  act_fee : asset;
  act_account_id : Z;
  act_new_owner : Z;
}.

(** [proposal_create_operation], over the type of the operations it proposes *)
Record proposal_create_operation (Op : Type) := mk_proposal_create {
  prc_fee : asset;
  prc_fee_paying_account : Z;
  prc_proposed_ops : list Op;
  prc_expiration_time : Z;
  prc_review_period_seconds : option Z;   (* uint32_t *)
}.
Arguments mk_proposal_create {_}.
Arguments prc_fee {_}.
Arguments prc_fee_paying_account {_}.
Arguments prc_proposed_ops {_}.
Arguments prc_expiration_time {_}.
Arguments prc_review_period_seconds {_}.

(** [proposal_update_operation] *)
Record proposal_update_operation := mk_proposal_update {
  pru_fee_paying_account : Z;
  pru_fee : asset;
  pru_proposal : Z;
  pru_active_approvals_to_add : gset Z;
  pru_active_approvals_to_remove : gset Z;
  pru_owner_approvals_to_add : gset Z;
  pru_owner_approvals_to_remove : gset Z;
  pru_key_approvals_to_add : gset Z;
  pru_key_approvals_to_remove : gset Z;
}.

(** [proposal_delete_operation] *)
Record proposal_delete_operation := mk_proposal_delete {
  prd_fee_paying_account : Z;
  prd_using_owner_authority : bool;
  prd_fee : asset;
  prd_proposal : Z;
}.

(** [custom_operation] *)
Record custom_operation := mk_custom {
  cus_fee : asset;
  cus_payer : Z;
  cus_required_auths : gset Z;
  cus_id : Z;   (* uint16_t *)
  cus_data : string;
}.

(** [predicate] *)
Inductive predicate :=
  | account_name_eq_lit_predicate (account_id : Z) (name : string)
  | asset_symbol_eq_lit_predicate (asset_id : Z) (symbol : string)
  | block_id_predicate (id : block_id).

(** [assert_operation] *)
Record assert_operation := mk_assert {
  ast_fee : asset;
  ast_fee_paying_account : Z;
  ast_predicates : list predicate;
  ast_required_auths : gset Z;
}.

(** [blind_input] and [blind_output]; commitments, blinding factors and range
    proofs are named by numbers, the stealth memo is left out *)
Record blind_input := mk_blind_input {
  bin_commitment : Z;
  bin_owner : authority;
}.
Record blind_output := mk_blind_output {
  bout_commitment : Z;
  bout_range_proof : Z;
  bout_owner : authority;
}.

(** [transfer_to_blind_operation], [blind_transfer_operation] and
    [transfer_from_blind_operation] *)
Record transfer_to_blind_operation := mk_transfer_to_blind {
  ttb_fee : asset;
  ttb_amount : asset;
  ttb_from : Z;
  ttb_blinding_factor : Z;
  ttb_outputs : list blind_output;
}.
Record blind_transfer_operation := mk_blind_transfer {
  blt_fee : asset;
  blt_inputs : list blind_input;
  blt_outputs : list blind_output;
}.
Record transfer_from_blind_operation := mk_transfer_from_blind {
  tfb_fee : asset;
  tfb_amount : asset;
  tfb_to : Z;
  tfb_blinding_factor : Z;
  tfb_inputs : list blind_input;
}.

(** [smart_contract_deploy_operation], [smart_contract_activate_operation],
    [smart_contract_deactivate_operation], [smart_contract_kill_operation] and
    [smart_contract_call_operation] *)
Record smart_contract_deploy_operation := mk_smart_contract_deploy {
  scd_fee : asset;
  scd_owner : Z;
  scd_contract_addr : string;
  scd_bytecode : string;
  scd_abi_json : string;
  scd_construct_data : string;
  scd_contract_name : string;
}.
Record smart_contract_activate_operation := mk_smart_contract_activate {
  sca_fee : asset;
  sca_activator : Z;
  sca_contract_addr : string;
}.
Record smart_contract_deactivate_operation := mk_smart_contract_deactivate {
  scx_fee : asset;
  scx_deactivator : Z;
  scx_contract_addr : string;
}.
Record smart_contract_kill_operation := mk_smart_contract_kill {
  sck_fee : asset;
  sck_killer : Z;
  sck_contract_addr : string;
}.
Record smart_contract_call_operation := mk_smart_contract_call {
  scc_fee : asset;
  scc_caller : Z;
  scc_contract_addr : string;
  scc_call_data : string;
}.

(** [operation] *)
Inductive operation :=
  | op_transfer (o : transfer_operation)
  | op_limit_order_create (o : limit_order_create_operation)
  | op_limit_order_cancel (o : limit_order_cancel_operation)
  | op_call_order_update (o : call_order_update_operation)
  | op_fill_order (o : fill_order_operation)
  | op_asset_create (o : asset_create_operation)
  | op_asset_update (o : asset_update_operation)
  | op_asset_update_bitasset (o : asset_update_bitasset_operation)
  | op_asset_update_feed_producers (o : asset_update_feed_producers_operation)
  | op_asset_issue (o : asset_issue_operation)
  | op_asset_reserve (o : asset_reserve_operation)
  | op_asset_fund_fee_pool (o : asset_fund_fee_pool_operation)
  | op_asset_settle (o : asset_settle_operation)
  | op_asset_global_settle (o : asset_global_settle_operation)
  | op_asset_publish_feed (o : asset_publish_feed_operation)
  | op_vesting_balance_create (o : vesting_balance_create_operation)
  | op_vesting_balance_withdraw (o : vesting_balance_withdraw_operation)
  | op_override_transfer (o : override_transfer_operation)
  | op_asset_settle_cancel (o : asset_settle_cancel_operation)
  | op_asset_claim_fees (o : asset_claim_fees_operation)
  | op_bid_collateral (o : bid_collateral_operation)
  | op_execute_bid (o : execute_bid_operation)
  | op_pio (o : pio_operation)
  | op_send_message (o : send_message_operation)
  | op_asset_claim_pool (o : asset_claim_pool_operation)
  | op_asset_update_issuer (o : asset_update_issuer_operation)
  | op_account_whitelist (o : account_whitelist_operation)
  | op_account_upgrade (o : account_upgrade_operation)
  | op_witness_create (o : witness_create_operation)
  | op_witness_update (o : witness_update_operation)
  | op_withdraw_permission_create (o : withdraw_permission_create_operation)
  | op_withdraw_permission_update (o : withdraw_permission_update_operation)
  | op_withdraw_permission_claim (o : withdraw_permission_claim_operation)
  | op_withdraw_permission_delete (o : withdraw_permission_delete_operation)
  | op_committee_member_create (o : committee_member_create_operation)
  | op_committee_member_update (o : committee_member_update_operation)
  | op_committee_member_update_global_parameters (o : committee_member_update_global_parameters_operation)
  | op_worker_create (o : worker_create_operation)
  | op_balance_claim (o : balance_claim_operation)
  | op_fba_distribute (o : fba_distribute_operation)
  | op_account_create (o : account_create_operation)
  | op_account_update (o : account_update_operation)
  | op_account_transfer (o : account_transfer_operation)
  | op_proposal_create (o : proposal_create_operation operation)
  | op_proposal_update (o : proposal_update_operation)
  | op_proposal_delete (o : proposal_delete_operation)
  | op_custom (o : custom_operation)
  | op_assert (o : assert_operation)
  | op_transfer_to_blind (o : transfer_to_blind_operation)
  | op_blind_transfer (o : blind_transfer_operation)
  | op_transfer_from_blind (o : transfer_from_blind_operation)
  | op_smart_contract_deploy (o : smart_contract_deploy_operation)
  | op_smart_contract_activate (o : smart_contract_activate_operation)
  | op_smart_contract_deactivate (o : smart_contract_deactivate_operation)
  | op_smart_contract_kill (o : smart_contract_kill_operation)
  | op_smart_contract_call (o : smart_contract_call_operation).

(** [operation::which()]: the position in the variant *)
Definition which (op : operation) : Z :=
  match op with
  | op_transfer _ => 0
  | op_limit_order_create _ => 1
  | op_limit_order_cancel _ => 2
  | op_call_order_update _ => 3
  | op_fill_order _ => 4
  | op_asset_create _ => 10
  | op_asset_update _ => 11
  | op_asset_update_bitasset _ => 12
  | op_asset_update_feed_producers _ => 13
  | op_asset_issue _ => 14
  | op_asset_reserve _ => 15
  | op_asset_fund_fee_pool _ => 16
  | op_asset_settle _ => 17
  | op_asset_global_settle _ => 18
  | op_asset_publish_feed _ => 19
  | op_vesting_balance_create _ => 32
  | op_vesting_balance_withdraw _ => 33
  | op_override_transfer _ => 38
  | op_asset_settle_cancel _ => 42
  | op_asset_claim_fees _ => 43
  | op_bid_collateral _ => 50
  | op_execute_bid _ => 51
  | op_pio _ => 52
  | op_send_message _ => 53
  | op_asset_claim_pool _ => 54
  | op_asset_update_issuer _ => 55
  | op_account_whitelist _ => 7
  | op_account_upgrade _ => 8
  | op_witness_create _ => 20
  | op_witness_update _ => 21
  | op_withdraw_permission_create _ => 25
  | op_withdraw_permission_update _ => 26
  | op_withdraw_permission_claim _ => 27
  | op_withdraw_permission_delete _ => 28
  | op_committee_member_create _ => 29
  | op_committee_member_update _ => 30
  | op_committee_member_update_global_parameters _ => 31
  | op_worker_create _ => 34
  | op_balance_claim _ => 37
  | op_fba_distribute _ => 44
  | op_account_create _ => 5
  | op_account_update _ => 6
  | op_account_transfer _ => 9
  | op_proposal_create _ => 22
  | op_proposal_update _ => 23
  | op_proposal_delete _ => 24
  | op_custom _ => 35
  | op_assert _ => 36
  | op_transfer_to_blind _ => 39
  | op_blind_transfer _ => 40
  | op_transfer_from_blind _ => 41
  | op_smart_contract_deploy _ => 45
  | op_smart_contract_activate _ => 46
  | op_smart_contract_deactivate _ => 47
  | op_smart_contract_kill _ => 48
  | op_smart_contract_call _ => 49
  end.

(** The [fee_payer] member functions *)
Definition fee_payer (op : operation) : Z :=
  match op with
  | op_transfer o => tr_from o
  | op_limit_order_create o => loc_seller o
  | op_limit_order_cancel o => lox_fee_paying_account o
  | op_call_order_update o => cou_funding_account o
  | op_fill_order o => fo_account_id o
  | op_asset_create o => acr_issuer o
  | op_asset_update o => aup_issuer o
  | op_asset_update_bitasset o => aub_issuer o
  | op_asset_update_feed_producers o => afp_issuer o
  | op_asset_issue o => ais_issuer o
  | op_asset_reserve o => ars_payer o
  | op_asset_fund_fee_pool o => aff_from_account o
  | op_asset_settle o => ase_account o
  | op_asset_global_settle o => ags_issuer o
  | op_asset_publish_feed o => apf_publisher o
  | op_vesting_balance_create o => vbc_creator o
  | op_vesting_balance_withdraw o => vbw_owner o
  | op_override_transfer o => ov_issuer o
  | op_asset_settle_cancel o => asx_account o
  | op_asset_claim_fees o => acf_issuer o
  | op_bid_collateral o => bc_bidder o
  | op_execute_bid o => eb_bidder o
  | op_pio o => pio_from o
  | op_send_message o => sm_from o
  | op_asset_claim_pool o => acp_issuer o
  | op_asset_update_issuer o => aui_issuer o
  | op_account_whitelist o => awl_authorizing_account o
  | op_account_upgrade o => agr_account_to_upgrade o
  | op_witness_create o => wcr_witness_account o
  | op_witness_update o => wup_witness_account o
  | op_withdraw_permission_create o => wpc_withdraw_from_account o
  | op_withdraw_permission_update o => wpu_withdraw_from_account o
  | op_withdraw_permission_claim o => wpl_withdraw_to_account o
  | op_withdraw_permission_delete o => wpd_withdraw_from_account o
  | op_committee_member_create o => cmc_committee_member_account o
  | op_committee_member_update o => cmu_committee_member_account o
  | op_committee_member_update_global_parameters _ => GRAPHENE_COMMITTEE_ACCOUNT
  | op_worker_create o => wkc_owner o
  | op_balance_claim o => bcl_deposit_to_account o
  | op_fba_distribute o => fbd_account_id o
  | op_account_create o => acc_registrar o
  | op_account_update o => acu_account o
  | op_account_transfer o => act_account_id o
  | op_proposal_create o => prc_fee_paying_account o
  | op_proposal_update o => pru_fee_paying_account o
  | op_proposal_delete o => prd_fee_paying_account o
  | op_custom o => cus_payer o
  | op_assert o => ast_fee_paying_account o
  | op_transfer_to_blind o => ttb_from o
  | op_blind_transfer _ => GRAPHENE_TEMP_ACCOUNT
  | op_transfer_from_blind _ => GRAPHENE_TEMP_ACCOUNT
  | op_smart_contract_deploy o => scd_owner o
  | op_smart_contract_activate o => sca_activator o
  | op_smart_contract_deactivate o => scx_deactivator o
  | op_smart_contract_kill o => sck_killer o
  | op_smart_contract_call o => scc_caller o
  end.

(** The [fee] field (default initialised in the virtual operations) *)
Definition op_fee (op : operation) : asset :=
  match op with
  | op_transfer o => tr_fee o
  | op_limit_order_create o => loc_fee o
  | op_limit_order_cancel o => lox_fee o
  | op_call_order_update o => cou_fee o
  | op_fill_order o => fo_fee o
  | op_asset_create o => acr_fee o
  | op_asset_update o => aup_fee o
  | op_asset_update_bitasset o => aub_fee o
  | op_asset_update_feed_producers o => afp_fee o
  | op_asset_issue o => ais_fee o
  | op_asset_reserve o => ars_fee o
  | op_asset_fund_fee_pool o => aff_fee o
  | op_asset_settle o => ase_fee o
  | op_asset_global_settle o => ags_fee o
  | op_asset_publish_feed o => apf_fee o
  | op_vesting_balance_create o => vbc_fee o
  | op_vesting_balance_withdraw o => vbw_fee o
  | op_override_transfer o => ov_fee o
  | op_asset_settle_cancel _ => mk_asset 0 CORE
  | op_asset_claim_fees o => acf_fee o
  | op_bid_collateral o => bc_fee o
  | op_execute_bid _ => mk_asset 0 CORE
  | op_pio o => pio_fee o
  | op_send_message o => sm_fee o
  | op_asset_claim_pool o => acp_fee o
  | op_asset_update_issuer o => aui_fee o
  | op_account_whitelist o => awl_fee o
  | op_account_upgrade o => agr_fee o
  | op_witness_create o => wcr_fee o
  | op_witness_update o => wup_fee o
  | op_withdraw_permission_create o => wpc_fee o
  | op_withdraw_permission_update o => wpu_fee o
  | op_withdraw_permission_claim o => wpl_fee o
  | op_withdraw_permission_delete o => wpd_fee o
  | op_committee_member_create o => cmc_fee o
  | op_committee_member_update o => cmu_fee o
  | op_committee_member_update_global_parameters o => ugp_fee o
  | op_worker_create o => wkc_fee o
  | op_balance_claim o => bcl_fee o
  | op_fba_distribute _ => mk_asset 0 CORE
  | op_account_create o => acc_fee o
  | op_account_update o => acu_fee o
  | op_account_transfer o => act_fee o
  | op_proposal_create o => prc_fee o
  | op_proposal_update o => pru_fee o
  | op_proposal_delete o => prd_fee o
  | op_custom o => cus_fee o
  | op_assert o => ast_fee o
  | op_transfer_to_blind o => ttb_fee o
  | op_blind_transfer o => blt_fee o
  | op_transfer_from_blind o => tfb_fee o
  | op_smart_contract_deploy o => scd_fee o
  | op_smart_contract_activate o => sca_fee o
  | op_smart_contract_deactivate o => scx_fee o
  | op_smart_contract_kill o => sck_fee o
  | op_smart_contract_call o => scc_fee o
  end.

(** [get_price] and [get_market] of limit_order_create_operation *)
Definition loc_get_price (op : limit_order_create_operation) : res price :=
  asset_div (loc_amount_to_sell op) (loc_min_to_receive op).
Definition loc_get_market (op : limit_order_create_operation) : Z * Z :=
  let a := asset_id (loc_amount_to_sell op) in
  let b := asset_id (loc_min_to_receive op) in
  if a <? b then (a, b) else (b, a).
Definition fo_get_market (op : fill_order_operation) : Z * Z :=
  let a := asset_id (fo_pays op) in
  let b := asset_id (fo_receives op) in
  if a <? b then (a, b) else (b, a).

(** ** Required authorities *)

(** [account_update_operation::is_owner_update] *)
Definition is_owner_update (o : account_update_operation) : bool :=
  bool_decide (is_Some (acu_owner o)) || bool_decide (is_Some (acu_owner_special_authority o)).

(** The [get_required_active_authorities] member functions: the accounts they
    insert. *)
Definition required_active_authorities (op : operation) : gset Z :=
  match op with
  | op_account_create o =>
      {[ acc_registrar o ]} ∪
      match acc_buyback_options o with
      | Some b => {[ bbo_asset_to_buy_issuer b ]}
      | None => ∅ end
  | op_account_update o => if is_owner_update o then ∅ else {[ acu_account o ]}
  | op_proposal_update o => pru_active_approvals_to_add o ∪ pru_active_approvals_to_remove o
  | _ => ∅
  end.

(** The [get_required_owner_authorities] member functions *)
Definition required_owner_authorities (op : operation) : gset Z :=
  match op with
  | op_account_update o => if is_owner_update o then {[ acu_account o ]} else ∅
  | op_asset_update_issuer o => {[ aui_issuer o ]}
  | op_proposal_update o => pru_owner_approvals_to_add o ∪ pru_owner_approvals_to_remove o
  | _ => ∅
  end.

(** [authority( 1, key, 1 )] *)
Definition key_authority (k : Z) : authority := mk_authority 1 ∅ {[ k := 1 ]} ∅.

(** The [get_required_authorities] member functions: the authorities they
    append. *)
Definition required_authorities (op : operation) : list authority :=
  match op with
  | op_balance_claim o => [key_authority (bcl_balance_owner_key o)]
  | op_proposal_update o =>
      let keys := gset_to_gmap 1 (pru_key_approvals_to_add o ∪ pru_key_approvals_to_remove o) in
      if 0 <? Z.of_nat (size keys) then [mk_authority (u32 (Z.of_nat (size keys))) ∅ keys ∅] else []
  | op_blind_transfer o => bin_owner <$> blt_inputs o
  | op_transfer_from_blind o => bin_owner <$> tfb_inputs o
  | _ => []
  end.

(** [operation_get_required_authorities], accumulated in three containers *)
Record required := mk_required {
  rq_active : gset Z;
  rq_owner : gset Z;
  rq_other : list authority;
}.
Definition operation_get_required_authorities (r : required) (op : operation) : required :=
  mk_required (rq_active r ∪ {[ fee_payer op ]} ∪ required_active_authorities op)
              (rq_owner r ∪ required_owner_authorities op)
              (rq_other r ++ required_authorities op).
Definition required_of (ops : list operation) : required :=
  fold_left operation_get_required_authorities ops (mk_required ∅ ∅ []).

(** [transaction::get_required_authorities]: an account whose owner authority is
    required does not sign with its active one too. *)
Definition get_required_authorities (ops : list operation) : required :=
  let r := required_of ops in
  mk_required (rq_active r ∖ rq_owner r) (rq_owner r) (rq_other r).
