(* ===== verification/Validation.v ===== *)
(** * Stateless validation

    The [validate] member functions of the operations (protocol/*.cpp). The
    arithmetic of commitments is that of [fc::ecc]: class [Ext]. *)

From S2P Require Import Prelude Ext Config Asset Objects Parameters Governance Blocks Names Operations.

(** A check of every element of a list, in order. *)
Definition validate_all {A} (f : A → res unit) : list A → res unit :=
  fix go l := match l with
  | [] => Ok tt
  | x :: l' => let? _u := f x in go l'
  end.

Definition bitasset_options_validate (o : bitasset_options) : res unit :=
  require? 0 <? bo_minimum_feeds o in
  require? bo_force_settlement_offset_percent o <=? GRAPHENE_100_PERCENT in
  require? bo_maximum_force_settlement_volume o <=? GRAPHENE_100_PERCENT in
  Ok tt.

Definition asset_options_validate (o : asset_options) : res unit :=
  require? 0 <? o_max_supply o in
  require? o_max_supply o <=? GRAPHENE_MAX_SHARE_SUPPLY in
  require? o_market_fee_percent o <=? GRAPHENE_100_PERCENT in
  require? (0 <=? o_max_market_fee o) && (o_max_market_fee o <=? GRAPHENE_MAX_SHARE_SUPPLY) in
  require? Z.land (o_issuer_permissions o) (Z.lnot ASSET_ISSUER_PERMISSION_MASK) =? 0 in
  require? negb (has_flag (o_flags o) global_settle) in
  require? negb (Z.land (o_flags o) (Z.lor witness_fed_asset committee_fed_asset)
                 =? Z.lor witness_fed_asset committee_fed_asset) in
  let? _u := price_validate (o_core_exchange_rate o) in
  require? (asset_id (base (o_core_exchange_rate o)) =? 0) ||
           (asset_id (quote (o_core_exchange_rate o)) =? 0) in
  require? bool_decide (o_whitelist_authorities o = ∅ ∧ o_blacklist_authorities o = ∅)
           || has_flag (o_flags o) white_list in
  require? bool_decide (set_Forall (λ i, i ∉ o_blacklist_markets o) (o_whitelist_markets o)) in
  require? bool_decide (set_Forall (λ i, i ∉ o_whitelist_markets o) (o_blacklist_markets o)) in
  Ok tt.

(** [account_options::validate]: the counters of the votes that are still
    needed *)
Definition needed_votes (type needed : Z) (votes : list Z) : Z :=
  foldl (λ n v, if (vote_type v =? type) && negb (n =? 0) then n - 1 else n) needed votes.
Definition account_options_validate (o : account_options) : res unit :=
  require? (needed_votes vote_witness (ao_num_witness o) (elements (ao_votes o)) =? 0) &&
           (needed_votes vote_committee (ao_num_committee o) (elements (ao_votes o)) =? 0) in
  Ok tt.

(** [validate_special_authority] *)
Definition validate_special_authority (a : special_authority) : res unit :=
  match a with
  | no_special_authority => Ok tt
  | top_holders_special_authority _ n => require? 0 <? n in Ok tt
  end.
Definition validate_special_authority_opt (a : option special_authority) : res unit :=
  match a with Some a => validate_special_authority a | None => Ok tt end.

(** What the operations on accounts require of an authority. *)
Definition authority_acceptable (a : authority) : res unit :=
  require? negb (num_auths a =? 0) in
  require? bool_decide (au_address_auths a = ∅) in Ok tt.

Definition account_create_validate (op : account_create_operation) : res unit :=
  require? 0 <=? amount (acc_fee op) in
  let? name_ok := of_option OutOfFuel (is_valid_name (acc_name op)) in
  require? name_ok in
  require? acc_referrer_percent op <=? GRAPHENE_100_PERCENT in
  let? _o := authority_acceptable (acc_owner op) in
  let? _a := authority_acceptable (acc_active op) in
  require? negb (is_impossible (acc_owner op)) in
  require? negb (is_impossible (acc_active op)) in
  let? _p := account_options_validate (acc_options op) in
  let? _s := validate_special_authority_opt (acc_owner_special_authority op) in
  let? _t := validate_special_authority_opt (acc_active_special_authority op) in
  match acc_buyback_options op with
  | None => Ok tt
  | Some b =>
      require? bool_decide (acc_owner_special_authority op = None) in
      require? bool_decide (acc_active_special_authority op = None) in
      require? bool_decide (acc_owner op = null_authority) in
      require? bool_decide (acc_active op = null_authority) in
      require? 0 <? Z.of_nat (size (bbo_markets b)) in
      require? bool_decide (bbo_asset_to_buy b ∉ bbo_markets b) in Ok tt
  end.

Definition account_update_validate (op : account_update_operation) : res unit :=
  require? negb (acu_account op =? GRAPHENE_TEMP_ACCOUNT) in
  require? 0 <=? amount (acu_fee op) in
  require? negb (acu_account op =? 0) in
  require? bool_decide (is_Some (acu_owner op)) || bool_decide (is_Some (acu_active op)) ||
           bool_decide (is_Some (acu_new_options op)) ||
           bool_decide (is_Some (acu_owner_special_authority op)) ||
           bool_decide (is_Some (acu_active_special_authority op)) in
  let acceptable a :=
    match a with
    | Some a => let? _u := authority_acceptable a in require? negb (is_impossible a) in Ok tt
    | None => Ok tt
    end in
  let? _o := acceptable (acu_owner op) in
  let? _a := acceptable (acu_active op) in
  let? _p := (match acu_new_options op with Some o => account_options_validate o | None => Ok tt end) in
  let? _s := validate_special_authority_opt (acu_owner_special_authority op) in
  validate_special_authority_opt (acu_active_special_authority op).

Definition proposal_update_validate (op : proposal_update_operation) : res unit :=
  require? 0 <=? amount (pru_fee op) in
  require? negb (bool_decide (pru_active_approvals_to_add op = ∅) &&
                 bool_decide (pru_active_approvals_to_remove op = ∅) &&
                 bool_decide (pru_owner_approvals_to_add op = ∅) &&
                 bool_decide (pru_owner_approvals_to_remove op = ∅) &&
                 bool_decide (pru_key_approvals_to_add op = ∅) &&
                 bool_decide (pru_key_approvals_to_remove op = ∅)) in
  require? bool_decide (pru_active_approvals_to_add op ## pru_active_approvals_to_remove op) in
  require? bool_decide (pru_owner_approvals_to_add op ## pru_owner_approvals_to_remove op) in
  require? bool_decide (pru_key_approvals_to_add op ## pru_key_approvals_to_remove op) in Ok tt.

(** Commitments in increasing order. *)
Fixpoint strictly_increasing (l : list Z) : bool :=
  match l with
  | x :: (y :: _) as l' => (x <? y) && strictly_increasing l'
  | _ => true
  end.

Section validate.
Context {X : Ext}.

(** The range proofs of more than one output. *)
Definition range_proofs_ok (outputs : list blind_output) : res unit :=
  if (1 <? length outputs)%nat then
    validate_all (λ out,
      let? m := of_option AssertFailure (range_max_value (bout_range_proof out)) in
      require? m <=? GRAPHENE_MAX_SHARE_SUPPLY in Ok tt) outputs
  else Ok tt.
Definition outputs_ok (outputs : list blind_output) : bool :=
  strictly_increasing (bout_commitment <$> outputs) &&
  forallb (λ out, negb (is_impossible (bout_owner out))) outputs.

Definition transfer_to_blind_validate (op : transfer_to_blind_operation) : res unit :=
  require? 0 <=? amount (ttb_fee op) in
  require? 0 <? amount (ttb_amount op) in
  require? outputs_ok (ttb_outputs op) in
  require? negb (bool_decide (ttb_outputs op = [])) in
  let public_c := ecc_blind (ttb_blinding_factor op) (amount (ttb_amount op)) in
  require? ecc_verify_sum [public_c] (bout_commitment <$> ttb_outputs op) 0 in
  range_proofs_ok (ttb_outputs op).

(** The sum of the fee and the amount is one of [int64_t]. *)
Definition transfer_from_blind_validate (op : transfer_from_blind_operation) : res unit :=
  require? 0 <? amount (tfb_amount op) in
  require? 0 <=? amount (tfb_fee op) in
  require? negb (bool_decide (tfb_inputs op = [])) in
  require? asset_id (tfb_amount op) =? asset_id (tfb_fee op) in
  let net_public := amount (tfb_fee op) + amount (tfb_amount op) in
  if negb (bool_decide (in64 net_public)) then Err Undefined
  else
    let out := ecc_blind (tfb_blinding_factor op) net_public in
    require? strictly_increasing (bin_commitment <$> tfb_inputs op) in
    require? ecc_verify_sum (bin_commitment <$> tfb_inputs op) [out] 0 in Ok tt.

Definition blind_transfer_validate (op : blind_transfer_operation) : res unit :=
  let ins := bin_commitment <$> blt_inputs op in
  let outs := bout_commitment <$> blt_outputs op in
  let net_public := amount (blt_fee op) in
  require? strictly_increasing ins in
  require? outputs_ok (blt_outputs op) in
  require? negb (bool_decide (blt_inputs op = [])) in
  require? ecc_verify_sum ins outs net_public in
  let? _u := range_proofs_ok (blt_outputs op) in
  require? ecc_verify_sum ins outs net_public in Ok tt.

Definition url_ok (url : string) : bool := Z.of_nat (String.length url) <? GRAPHENE_MAX_URL_LENGTH.
Definition fee_nonneg (op : operation) : bool := 0 <=? amount (op_fee op).

Definition asset_create_validate (op : asset_create_operation) : res unit :=
  require? 0 <=? amount (acr_fee op) in
  require? is_valid_symbol (acr_symbol op) in
  let? _u := asset_options_validate (acr_common_options op) in
  require? negb (has_flag (o_issuer_permissions (acr_common_options op))
                          (Z.lor disable_force_settle global_settle))
           || bool_decide (is_Some (acr_bitasset_opts op)) in
  require? negb (acr_is_prediction_market op)
           || (bool_decide (is_Some (acr_bitasset_opts op)) &&
               has_flag (o_issuer_permissions (acr_common_options op)) global_settle) in
  let? _v := (match acr_bitasset_opts op with
              | Some o => bitasset_options_validate o
              | None => Ok tt end) in
  let? dummy := asset_mul (mk_asset 1 CORE) (o_core_exchange_rate (acr_common_options op)) in
  require? asset_id dummy =? 1 in
  require? acr_precision op <=? 12 in
  Ok tt.

Definition asset_update_validate (op : asset_update_operation) : res unit :=
  require? 0 <=? amount (aup_fee op) in
  require? bool_decide (aup_new_issuer op ≠ Some (aup_issuer op)) in
  let? _u := asset_options_validate (aup_new_options op) in
  let? dummy := asset_mul (mk_asset 1 (aup_asset_to_update op))
                          (o_core_exchange_rate (aup_new_options op)) in
  require? asset_id dummy =? CORE in
  Ok tt.

Definition asset_publish_feed_validate (op : asset_publish_feed_operation) : res unit :=
  let feed := apf_feed op in
  require? 0 <=? amount (apf_fee op) in
  let? _u := price_feed_validate feed in
  let? _v := (if negb (is_null (core_exchange_rate feed))
              then price_validate (core_exchange_rate feed) else Ok tt) in
  require? is_null (settlement_price feed) || is_null (core_exchange_rate feed) ||
           (asset_id (base (settlement_price feed)) =? asset_id (base (core_exchange_rate feed))) in
  require? negb (is_null (settlement_price feed)) in
  require? negb (is_null (core_exchange_rate feed)) in
  require? price_feed_is_for feed (apf_asset_id op) in
  Ok tt.

(** The [validate] member function of each operation; a virtual operation
    never validates, and [asset_settle_cancel] requires a positive amount. *)
Fixpoint validate (op : operation) : res unit :=
  match op with
  | op_transfer o =>
      require? fee_nonneg op in
      require? negb (tr_from o =? tr_to o) in
      require? 0 <? amount (tr_amount o) in Ok tt
  | op_override_transfer o =>
      require? fee_nonneg op in
      require? negb (ov_from o =? ov_to o) in
      require? 0 <? amount (ov_amount o) in
      require? negb (ov_issuer o =? ov_from o) in Ok tt
  | op_send_message o =>
      require? fee_nonneg op in
      require? negb (sm_from o =? sm_to o) in
      require? negb (bool_decide (memo_message (sm_memo o) = ""%string)) in Ok tt
  | op_pio _ => require? fee_nonneg op in Ok tt
  | op_limit_order_create o =>
      require? negb (asset_id (loc_amount_to_sell o) =? asset_id (loc_min_to_receive o)) in
      require? fee_nonneg op in
      require? 0 <? amount (loc_amount_to_sell o) in
      require? 0 <? amount (loc_min_to_receive o) in Ok tt
  | op_limit_order_cancel _ => require? fee_nonneg op in Ok tt
  | op_call_order_update o =>
      require? fee_nonneg op in
      require? negb (asset_id (cou_delta_collateral o) =? asset_id (cou_delta_debt o)) in
      require? negb (amount (cou_delta_collateral o) =? 0) || negb (amount (cou_delta_debt o) =? 0) in
      Ok tt
  | op_bid_collateral o =>
      require? fee_nonneg op in
      require? (amount (bc_debt_covered o) =? 0) ||
               ((0 <? amount (bc_debt_covered o)) && (0 <? amount (bc_additional_collateral o))) in
      Ok tt
  | op_asset_create o => asset_create_validate o
  | op_asset_update o => asset_update_validate o
  | op_asset_publish_feed o => asset_publish_feed_validate o
  | op_asset_update_issuer o =>
      require? fee_nonneg op in
      require? negb (aui_issuer o =? aui_new_issuer o) in Ok tt
  | op_asset_reserve o =>
      require? fee_nonneg op in
      require? amount (ars_amount_to_reserve o) <=? GRAPHENE_MAX_SHARE_SUPPLY in
      require? 0 <? amount (ars_amount_to_reserve o) in Ok tt
  | op_asset_issue o =>
      require? fee_nonneg op in
      require? amount (ais_asset_to_issue o) <=? GRAPHENE_MAX_SHARE_SUPPLY in
      require? 0 <? amount (ais_asset_to_issue o) in
      require? negb (asset_id (ais_asset_to_issue o) =? 0) in Ok tt
  | op_asset_fund_fee_pool o =>
      require? fee_nonneg op in
      require? asset_id (aff_fee o) =? CORE in
      require? 0 <? aff_amount o in Ok tt
  | op_asset_settle o =>
      require? fee_nonneg op in
      require? 0 <=? amount (ase_amount o) in Ok tt
  | op_asset_update_bitasset o =>
      require? fee_nonneg op in
      bitasset_options_validate (aub_new_options o)
  | op_asset_update_feed_producers _ => require? fee_nonneg op in Ok tt
  | op_asset_global_settle o =>
      require? fee_nonneg op in
      require? ags_asset_to_settle o =? asset_id (base (ags_settle_price o)) in Ok tt
  | op_asset_claim_fees o =>
      require? fee_nonneg op in
      require? 0 <? amount (acf_amount_to_claim o) in Ok tt
  | op_asset_claim_pool o =>
      require? fee_nonneg op in
      require? negb (asset_id (acp_fee o) =? acp_asset_id o) in
      require? 0 <? amount (acp_amount_to_claim o) in
      require? asset_id (acp_amount_to_claim o) =? CORE in Ok tt
  | op_vesting_balance_create o =>
      require? fee_nonneg op in
      require? 0 <? amount (vbc_amount o) in Ok tt
  | op_vesting_balance_withdraw o =>
      require? fee_nonneg op in
      require? 0 <? amount (vbw_amount o) in Ok tt
  | op_asset_settle_cancel o =>
      require? 0 <? amount (asx_amount o) in Ok tt
  | op_account_whitelist o =>
      require? fee_nonneg op in
      require? awl_new_listing o <? 4 in Ok tt
  | op_account_upgrade _ =>
      require? fee_nonneg op in Ok tt
  | op_witness_create o =>
      require? fee_nonneg op in
      require? url_ok (wcr_url o) in Ok tt
  | op_witness_update o =>
      require? fee_nonneg op in
      require? from_option url_ok true (wup_new_url o) in Ok tt
  | op_committee_member_create o =>
      require? fee_nonneg op in
      require? url_ok (cmc_url o) in Ok tt
  | op_committee_member_update o =>
      require? fee_nonneg op in
      require? from_option url_ok true (cmu_new_url o) in Ok tt
  | op_committee_member_update_global_parameters o =>
      require? fee_nonneg op in
      chain_parameters_validate (ugp_new_parameters o)
  | op_withdraw_permission_create o =>
      require? fee_nonneg op in
      require? negb (wpc_withdraw_from_account o =? wpc_authorized_account o) in
      require? 0 <? amount (wpc_withdrawal_limit o) in
      require? 0 <? wpc_withdrawal_period_sec o in
      require? 0 <? wpc_periods_until_expiration o in Ok tt
  | op_withdraw_permission_update o =>
      require? 0 <? amount (wpu_withdrawal_limit o) in
      require? fee_nonneg op in
      require? 0 <? wpu_withdrawal_period_sec o in
      require? negb (wpu_withdraw_from_account o =? wpu_authorized_account o) in
      require? 0 <? wpu_periods_until_expiration o in Ok tt
  | op_withdraw_permission_claim o =>
      require? negb (wpl_withdraw_to_account o =? wpl_withdraw_from_account o) in
      require? 0 <? amount (wpl_amount_to_withdraw o) in
      require? fee_nonneg op in Ok tt
  | op_withdraw_permission_delete o =>
      require? fee_nonneg op in
      require? negb (wpd_withdraw_from_account o =? wpd_authorized_account o) in Ok tt
  | op_worker_create o =>
      require? fee_nonneg op in
      require? wkc_work_begin_date o <? wkc_work_end_date o in
      require? 0 <? wkc_daily_pay o in
      require? wkc_daily_pay o <? GRAPHENE_MAX_SHARE_SUPPLY in
      require? Z.of_nat (String.length (wkc_name o)) <? GRAPHENE_MAX_WORKER_NAME_LENGTH in
      require? url_ok (wkc_url o) in Ok tt
  | op_balance_claim o =>
      require? (amount (bcl_fee o) =? 0) && (asset_id (bcl_fee o) =? CORE) in
      require? negb (bcl_balance_owner_key o =? 0) in Ok tt
  | op_account_create o => account_create_validate o
  | op_account_update o => account_update_validate o
  | op_account_transfer _ => require? fee_nonneg op in Ok tt
  | op_proposal_create o =>
      require? negb (bool_decide (prc_proposed_ops o = [])) in
      validate_all validate (prc_proposed_ops o)
  | op_proposal_update o => proposal_update_validate o
  | op_proposal_delete _ => require? fee_nonneg op in Ok tt
  | op_custom o => require? 0 <? amount (cus_fee o) in Ok tt
  | op_assert _ => require? fee_nonneg op in Ok tt
  | op_transfer_to_blind o => transfer_to_blind_validate o
  | op_blind_transfer o => blind_transfer_validate o
  | op_transfer_from_blind o => transfer_from_blind_validate o
  | op_smart_contract_deploy _ | op_smart_contract_activate _ | op_smart_contract_deactivate _
  | op_smart_contract_kill _ | op_smart_contract_call _ => Ok tt
  | op_fill_order _ | op_execute_bid _ | op_fba_distribute _ => Err AssertFailure
  end.

(** [transaction::validate] *)
Definition transaction_validate (ops : list operation) : res unit :=
  require? negb (bool_decide (ops = [])) in
  validate_all validate ops.
End validate.
