(* ===== verification/Fees.v ===== *)
(** * Fees of operations

    The [calculate_fee] member functions, the fee schedule's choice of
    parameters and [fee_schedule::calculate_fee] (chain/protocol/fee_schedule.hpp
    and fee_schedule.cpp). The size in bytes of a packed value comes from the
    serialisation library: class [Packing]. *)

From S2P Require Import Prelude Ext Config Asset Objects Parameters Names Operations.

(** The default member initialisers of the parameter structs. *)
Definition default_fee_parameters (op : operation) : fee_parameters :=
  let P := GRAPHENE_BLOCKCHAIN_PRECISION in
  match op with
  | op_transfer _ | op_pio _ | op_send_message _ => fee_kbyte (20 * P) (10 * P)
  | op_override_transfer _ => fee_kbyte (20 * P) 10
  | op_limit_order_create _ => fee_flat (5 * P)
  | op_limit_order_cancel _ => fee_flat 0
  | op_call_order_update _ | op_bid_collateral _ => fee_flat (20 * P)
  | op_asset_create _ => fee_symbols (500000 * P) (300000 * P) (5000 * P) 10
  | op_asset_update _ => fee_kbyte (500 * P) 10
  | op_asset_update_bitasset _ | op_asset_update_feed_producers _ | op_asset_global_settle _ =>
      fee_flat (500 * P)
  | op_asset_issue _ => fee_kbyte (20 * P) P
  | op_asset_reserve _ | op_asset_claim_fees _ | op_asset_claim_pool _
  | op_asset_update_issuer _ | op_vesting_balance_withdraw _ => fee_flat (20 * P)
  | op_asset_fund_fee_pool _ | op_asset_publish_feed _ | op_vesting_balance_create _ => fee_flat P
  | op_asset_settle _ => fee_flat (100 * P)
  | op_account_whitelist _ => fee_flat 300000
  | op_account_upgrade _ => fee_membership (2000 * P) (10000 * P)
  | op_witness_create _ | op_committee_member_create _ | op_worker_create _ => fee_flat (5000 * P)
  | op_witness_update _ | op_committee_member_update _ => fee_flat (20 * P)
  | op_withdraw_permission_create _ | op_withdraw_permission_update _
  | op_committee_member_update_global_parameters _ => fee_flat P
  | op_withdraw_permission_claim _ => fee_kbyte (20 * P) 10
  | op_withdraw_permission_delete _ => fee_flat 0
  | op_fill_order _ | op_asset_settle_cancel _ | op_execute_bid _ | op_balance_claim _
  | op_fba_distribute _ => fee_none
  | op_account_create _ => fee_account (5 * P) (2000 * P) P
  | op_account_update _ => fee_kbyte (20 * P) P
  | op_proposal_create _ | op_proposal_update _ => fee_kbyte (20 * P) 10
  | op_custom _ => fee_kbyte P 10
  | op_proposal_delete _ | op_assert _ => fee_flat P
  | op_transfer_to_blind _ | op_blind_transfer _ => fee_outputs (5 * P) (5 * P)
  | op_transfer_from_blind _ => fee_flat (5 * P)
  | op_account_transfer _ | op_smart_contract_deploy _ | op_smart_contract_activate _
  | op_smart_contract_deactivate _ | op_smart_contract_kill _ | op_smart_contract_call _ =>
      fee_flat (500 * P)
  end.

(** [fc::raw::pack_size] *)
Class Packing := {
  pack_size_memo : option memo_data → Z;
  pack_size_memo_data : memo_data → Z;
  pack_size_asset_create : asset_create_operation → Z;
  pack_size_asset_update : asset_update_operation → Z;
  pack_size_account_create : account_create_operation → Z;
  pack_size_account_update : account_update_operation → Z;
  pack_size_proposal_create : proposal_create_operation operation → Z;
  pack_size_proposal_update : proposal_update_operation → Z;
  pack_size_custom : custom_operation → Z;
}.

Section fees.
Context {X : Ext} {P : Packing}.

(** [base_operation::calculate_data_fee] *)
Definition calculate_data_fee (bytes price_per_kbyte : Z) : res Z :=
  let result := fc_u128 (bytes * price_per_kbyte) / 1024 in
  require? result <=? GRAPHENE_MAX_SHARE_SUPPLY in
  Ok (to_uint64 result).

(** The [calculate_fee] member functions. *)
Definition op_calculate_fee (op : operation) (k : fee_parameters) : res Z :=
  match op, k with
  | op_transfer o, fee_kbyte fee kb =>
      match tr_memo o with
      | Some _ => let? d := calculate_data_fee (pack_size_memo (tr_memo o)) kb in
                  safe (i64_of_u64 fee + i64_of_u64 d)
      | None => Ok (i64_of_u64 fee)
      end
  | op_override_transfer o, fee_kbyte fee kb =>
      match ov_memo o with
      | Some _ => let? d := calculate_data_fee (pack_size_memo (ov_memo o)) kb in
                  safe (i64_of_u64 fee + i64_of_u64 d)
      | None => Ok (i64_of_u64 fee)
      end
  | op_send_message o, fee_kbyte fee kb =>
      let? d := calculate_data_fee (pack_size_memo_data (sm_memo o)) kb in
      safe (i64_of_u64 fee + i64_of_u64 d)
  | op_pio _, fee_kbyte _ _ => Ok 0
  | op_asset_issue o, fee_kbyte fee kb =>
      let? d := calculate_data_fee (pack_size_memo (ais_memo o)) kb in
      Ok (i64_of_u64 (u64 (fee + d)))
  | op_asset_update o, fee_kbyte fee kb =>
      let? d := calculate_data_fee (pack_size_asset_update o) kb in
      Ok (i64_of_u64 (u64 (fee + d)))
  | op_asset_create o, fee_symbols s3 s4 long kb =>
      let core_fee_required :=
        match String.length (acr_symbol o) with
        | 3%nat => s3 | 4%nat => s4 | _ => long end in
      let? d := calculate_data_fee (pack_size_asset_create o) kb in
      Ok (i64_of_u64 (u64 (core_fee_required + d)))
  | op_account_create o, fee_account basic premium kb =>
      let core_fee_required := if is_cheap_name (acc_name o) then basic else premium in
      let? d := calculate_data_fee (pack_size_account_create o) kb in
      Ok (i64_of_u64 (u64 (core_fee_required + d)))
  | op_account_update o, fee_kbyte fee kb =>
      match acu_new_options o with
      | Some _ => let? d := calculate_data_fee (pack_size_account_update o) kb in
                  safe (i64_of_u64 fee + i64_of_u64 d)
      | None => Ok (i64_of_u64 fee)
      end
  | op_proposal_create o, fee_kbyte fee kb =>
      let? d := calculate_data_fee (pack_size_proposal_create o) kb in
      Ok (i64_of_u64 (u64 (fee + d)))
  | op_proposal_update o, fee_kbyte fee kb =>
      let? d := calculate_data_fee (pack_size_proposal_update o) kb in
      Ok (i64_of_u64 (u64 (fee + d)))
  | op_custom o, fee_kbyte fee kb =>
      let? d := calculate_data_fee (pack_size_custom o) kb in
      Ok (i64_of_u64 (u64 (fee + d)))
  | op_assert o, fee_flat fee => Ok (i64_of_u64 (u64 (fee * Z.of_nat (length (ast_predicates o)))))
  | op_transfer_to_blind o, fee_outputs fee per_output =>
      Ok (i64_of_u64 (u64 (fee + Z.of_nat (length (ttb_outputs o)) * per_output)))
  | op_blind_transfer o, fee_outputs fee per_output =>
      Ok (i64_of_u64 (u64 (fee + Z.of_nat (length (blt_outputs o)) * per_output)))
  | op_account_upgrade o, fee_membership annual lifetime =>
      Ok (i64_of_u64 (if agr_upgrade_to_lifetime_member o then lifetime else annual))
  | op_withdraw_permission_claim o, fee_kbyte fee kb =>
      match wpl_memo o with
      | Some _ => let? d := calculate_data_fee (pack_size_memo (wpl_memo o)) kb in
                  safe (i64_of_u64 fee + i64_of_u64 d)
      | None => Ok (i64_of_u64 fee)
      end
  | op_fill_order _, fee_none | op_asset_settle_cancel _, fee_none | op_execute_bid _, fee_none
  | op_balance_claim _, fee_none | op_fba_distribute _, fee_none => Ok 0
  | (op_limit_order_create _ | op_limit_order_cancel _ | op_call_order_update _
    | op_bid_collateral _ | op_asset_update_bitasset _ | op_asset_update_feed_producers _
    | op_asset_global_settle _ | op_asset_reserve _ | op_asset_claim_fees _
    | op_asset_claim_pool _ | op_asset_update_issuer _ | op_vesting_balance_withdraw _
    | op_asset_fund_fee_pool _ | op_asset_publish_feed _ | op_vesting_balance_create _
    | op_asset_settle _ | op_account_whitelist _ | op_witness_create _ | op_witness_update _
    | op_committee_member_create _ | op_committee_member_update _
    | op_committee_member_update_global_parameters _ | op_withdraw_permission_create _
    | op_withdraw_permission_update _ | op_withdraw_permission_delete _
    | op_worker_create _ | op_account_transfer _ | op_proposal_delete _ | op_transfer_from_blind _
    | op_smart_contract_deploy _ | op_smart_contract_activate _ | op_smart_contract_deactivate _
    | op_smart_contract_kill _ | op_smart_contract_call _), fee_flat fee => Ok (i64_of_u64 fee)
  | _, _ => Err AssertFailure
  end.

(** [fee_helper<Operation>::cget]: the parameters of the schedule; three
    operations fall back on the fee of an older one. *)
Definition cget (s : fee_schedule) (op : operation) : option fee_parameters :=
  match fs_parameters s !! which op with
  | Some p => Some p
  | None =>
    let flat_of (w : Z) :=
      match fs_parameters s !! w with
      | Some (fee_flat fee) | Some (fee_kbyte fee _) => Some (fee_flat fee)
      | _ => None
      end in
    match op with
    | op_bid_collateral _ => flat_of 3
    | op_asset_update_issuer _ => flat_of 11
    | op_asset_claim_pool _ => flat_of 16
    | _ => None
    end
  end.

(** [calc_fee_visitor]: an operation absent from the schedule costs the
    default parameters of its struct; [catch (fc::assert_exception)] also
    covers an assertion that fails inside [calculate_fee], which is then
    called again. *)
Definition calc_fee (s : fee_schedule) (op : operation) : res Z :=
  let first :=
    match cget s op with
    | Some k => op_calculate_fee op k
    | None => Err AssertFailure
    end in
  match first with
  | Err AssertFailure =>
      op_calculate_fee op (default (default_fee_parameters op) (fs_parameters s !! which op))
  | r => r
  end.

(** The [while] loop that raises the fee until it pays for itself in core;
    the first increment suffices ([calculate_fee_least] of Pricing.v). *)
Fixpoint raise_fee (fuel : nat) (result : asset) (cer : price) (scaled : asset) : res asset :=
  match fuel with
  | O => Err OutOfFuel
  | S fuel' =>
    let? back := asset_mul result cer in
    let? low := asset_lt back scaled in
    if low then
      let? a := safe (amount result + 1) in
      raise_fee fuel' (mk_asset a (asset_id result)) cer scaled
    else Ok result
  end.

(** [fee_schedule::calculate_fee] *)
Definition calculate_fee (s : fee_schedule) (op : operation) (cer : price) : res asset :=
  let? base_value := calc_fee s op in
  let scaled := fc_u128 (fc_u128 (u64 base_value) * fs_scale s) / GRAPHENE_100_PERCENT in
  require? scaled <=? GRAPHENE_MAX_SHARE_SUPPLY in
  let core := mk_asset (i64_of_u64 (to_uint64 scaled)) CORE in
  let? result := asset_mul core cer in
  let? result := raise_fee 2 result cer core in
  require? amount result <=? GRAPHENE_MAX_SHARE_SUPPLY in
  Ok result.
End fees.
