(* ===== verification/Ledger.v ===== *)
(** * Transactions and the objects of transactions

    [transaction] and [signed_transaction] of protocol/transaction.hpp, and the
    objects that transactions and their operations keep besides accounts, assets
    and markets: proposals, the transactions of the last blocks, block summaries,
    blinded balances and smart contracts (proposal_object.hpp,
    transaction_object.hpp, block_summary_object.hpp, confidential_object.hpp,
    account_object.hpp). *)

From S2P Require Import Prelude Ext Config Asset Objects Parameters Blocks Operations.

(** [transaction] *)
Record transaction := mk_transaction {
  trx_ref_block_num : Z;   (* uint16_t *)
  trx_ref_block_prefix : Z;   (* uint32_t *)
  trx_expiration : Z;
  trx_operations : list operation;
}.

(** [signed_transaction]; signatures are named by numbers *)
Record signed_transaction := mk_signed_transaction {
  stx_transaction : transaction;
  stx_signatures : list Z;
}.

(** [proposal_object]; the text of the exception of the last failed execution,
    which no code of the chain reads, is left out *)
Record proposal_object := mk_proposal {
  po_expiration_time : Z;
  po_review_period_time : option Z;
  po_proposed_transaction : transaction;
  po_required_active_approvals : gset Z;
  po_available_active_approvals : gset Z;
  po_required_owner_approvals : gset Z;
  po_available_owner_approvals : gset Z;
  po_available_key_approvals : gset Z;
  po_proposer : Z;
}.
Definition set_po_available_active_approvals (v : gset Z) (o : proposal_object) : proposal_object :=
  mk_proposal (po_expiration_time o) (po_review_period_time o) (po_proposed_transaction o) (po_required_active_approvals o) v (po_required_owner_approvals o) (po_available_owner_approvals o) (po_available_key_approvals o) (po_proposer o).
Definition set_po_available_owner_approvals (v : gset Z) (o : proposal_object) : proposal_object :=
  mk_proposal (po_expiration_time o) (po_review_period_time o) (po_proposed_transaction o) (po_required_active_approvals o) (po_available_active_approvals o) (po_required_owner_approvals o) v (po_available_key_approvals o) (po_proposer o).
Definition set_po_available_key_approvals (v : gset Z) (o : proposal_object) : proposal_object :=
  mk_proposal (po_expiration_time o) (po_review_period_time o) (po_proposed_transaction o) (po_required_active_approvals o) (po_available_active_approvals o) (po_required_owner_approvals o) (po_available_owner_approvals o) v (po_proposer o).

(** [transaction_object] *)
Record transaction_object := mk_transaction_object {
  to_trx : signed_transaction;
  to_trx_id : Z;
}.
Definition to_get_expiration (t : transaction_object) : Z := trx_expiration (stx_transaction (to_trx t)).

(** [blinded_balance_object] *)
Record blinded_balance_object := mk_blinded_balance {
  bb_commitment : Z;
  bb_asset_id : Z;
  bb_owner : authority;
}.

(** [contract_object], without the member [options] of an account and the
    member [state], which nothing sets *)
Record contract_object := mk_contract {
  ct_owner : Z;
  ct_contract_addr : string;
  ct_bytecode : string;
  ct_abi_json : string;
  ct_construct_data : string;
  ct_contract_name : string;
  ct_activated : bool;
  ct_contract_state : string;
}.
Definition set_ct_activated (v : bool) (o : contract_object) : contract_object :=
  mk_contract (ct_owner o) (ct_contract_addr o) (ct_bytecode o) (ct_abi_json o) (ct_construct_data o) (ct_contract_name o) v (ct_contract_state o).
Definition set_ct_contract_state (v : string) (o : contract_object) : contract_object :=
  mk_contract (ct_owner o) (ct_contract_addr o) (ct_bytecode o) (ct_abi_json o) (ct_construct_data o) (ct_contract_name o) (ct_activated o) v.

(** The indices of these objects; a block summary is the identifier of the last
    block with its number modulo 2^16. *)
Record ledger := mk_ledger {
  lg_proposals : gmap Z proposal_object;
  lg_transactions : gmap Z transaction_object;
  lg_block_summaries : gmap Z block_id;
  lg_blinded_balances : gmap Z blinded_balance_object;
  lg_contracts : gmap Z contract_object;
}.
Definition set_lg_proposals (v : gmap Z proposal_object) (o : ledger) : ledger :=
  mk_ledger v (lg_transactions o) (lg_block_summaries o) (lg_blinded_balances o) (lg_contracts o).
Definition set_lg_transactions (v : gmap Z transaction_object) (o : ledger) : ledger :=
  mk_ledger (lg_proposals o) v (lg_block_summaries o) (lg_blinded_balances o) (lg_contracts o).
Definition set_lg_block_summaries (v : gmap Z block_id) (o : ledger) : ledger :=
  mk_ledger (lg_proposals o) (lg_transactions o) v (lg_blinded_balances o) (lg_contracts o).
Definition set_lg_blinded_balances (v : gmap Z blinded_balance_object) (o : ledger) : ledger :=
  mk_ledger (lg_proposals o) (lg_transactions o) (lg_block_summaries o) v (lg_contracts o).
Definition set_lg_contracts (v : gmap Z contract_object) (o : ledger) : ledger :=
  mk_ledger (lg_proposals o) (lg_transactions o) (lg_block_summaries o) (lg_blinded_balances o) v.
Definition empty_ledger : ledger := mk_ledger ∅ ∅ ∅ ∅ ∅.
