(* ===== verification/Authority.v ===== *)
(** * The authority of a transaction

    Models [sign_state], [verify_authority], [get_required_signatures] and
    [minimize_required_signatures] of protocol/transaction.cpp. The authorities of
    accounts come from two functions, as in the code; they raise when an account
    is unknown, and may have no answer ([nullptr]). Which addresses a public key
    has is decided by hash functions: class [KeyAddresses]. *)

From S2P Require Import Prelude Ext Config Asset Objects Parameters Blocks Operations.

(** The addresses of a public key: the four of [pts_address], then its own. *)
Class KeyAddresses := {
  addresses_of : Z → list Z;
}.

(** [sign_state]: the members that change *)
Record sign_state := mk_sign_state {
  provided_signatures : gmap Z bool;
  approved_by : gset Z;
  address_sigs : option (gmap Z Z * gmap Z Z);   (* available_address_sigs, provided_address_sigs *)
}.
Definition set_provided_signatures (v : gmap Z bool) (s : sign_state) : sign_state :=
  mk_sign_state v (approved_by s) (address_sigs s).
Definition set_approved_by (v : gset Z) (s : sign_state) : sign_state :=
  mk_sign_state (provided_signatures s) v (address_sigs s).
Definition set_address_sigs (v : option (gmap Z Z * gmap Z Z)) (s : sign_state) : sign_state :=
  mk_sign_state (provided_signatures s) (approved_by s) v.

(** A signature is used: [provided_signatures[k] = true]. *)
Definition use_signature (k : Z) : M sign_state unit :=
  put (λ s, set_provided_signatures (<[k := true]> (provided_signatures s)) s).

Section sign_state.
Context {K : KeyAddresses}.
Variable available_keys : gset Z.
Variable get_active : Z → res (option authority).

(** The constructor of [sign_state] *)
Definition new_sign_state (sigs : gset Z) : sign_state :=
  mk_sign_state (gset_to_gmap false sigs) {[ GRAPHENE_TEMP_ACCOUNT ]} None.

(** [signed_by( const public_key_type& )] *)
Definition signed_by_key (k : Z) : M sign_state bool :=
  let! provided := gets provided_signatures in
  match provided !! k with
  | Some _ => do! use_signature k in ret true
  | None =>
    if bool_decide (k ∈ available_keys) then do! use_signature k in ret true
    else ret false
  end.

(** The map from addresses to the keys of a container, a later key taking an
    address over. *)
Definition address_map (keys : list Z) : gmap Z Z :=
  foldl (λ m k, foldl (λ m a, <[a := k]> m) m (addresses_of k)) ∅ keys.

(** [signed_by( const address& )]; the iterator is dereferenced although it is
    [end()] when the address belongs to no key. *)
Definition signed_by_address (a : Z) : M sign_state bool :=
  let! s := gets id in
  let maps := match address_sigs s with
    | Some maps => maps
    | None => (address_map (in_order available_keys), address_map (by_id (provided_signatures s)).*1)
    end in
  do! put (set_address_sigs (Some maps)) in
  match snd maps !! a with
  | Some k => do! use_signature k in ret true
  | None =>
    match fst maps !! a with
    | None => fail Undefined
    | Some k =>
      if bool_decide (k ∈ available_keys) then do! use_signature k in ret true else ret false
    end
  end.

(** A loop that adds up the weights of the entries that approve, until they reach
    the threshold: the sum and whether it was reached. *)
Fixpoint weigh (approves : Z → M sign_state bool) (threshold : Z) (l : list (Z * Z)) (total_weight : Z)
    : M sign_state (Z * bool) :=
  match l with
  | [] => ret (total_weight, false)
  | (x, w) :: l' =>
    let! ok := approves x in
    if ok then
      let total_weight := u32 (total_weight + w) in
      if threshold <=? total_weight then ret (total_weight, true)
      else weigh approves threshold l' total_weight
    else weigh approves threshold l' total_weight
  end.

(** [check_authority( const authority*, uint32_t )]; [left] is
    [max_recursion - depth]. *)
Fixpoint check_authority (left : nat) (au : option authority) : M sign_state bool :=
  match au with
  | None => ret false
  | Some auth =>
    let threshold := au_weight_threshold auth in
    let! keys := weigh signed_by_key threshold (by_id (au_key_auths auth)) 0 in
    if snd keys then ret true
    else
      let! addresses := weigh signed_by_address threshold (by_id (au_address_auths auth)) (fst keys) in
      if snd addresses then ret true
      else
        let approves a :=
          let! approved := gets approved_by in
          if bool_decide (a ∈ approved) then ret true
          else match left with
          | O => ret false
          | S left' =>
            let! active := lift (get_active a) in
            let! ok := check_authority left' active in
            if ok then do! put (λ s, set_approved_by ({[ a ]} ∪ approved_by s) s) in ret true
            else ret false
          end in
        let! accounts := weigh approves threshold (by_id (au_account_auths auth)) (fst addresses) in
        if snd accounts then ret true else ret (threshold <=? fst accounts)
  end.

(** [check_authority( account_id_type )] *)
Definition check_account (max_recursion : nat) (id : Z) : M sign_state bool :=
  let! approved := gets approved_by in
  if bool_decide (id ∈ approved) then ret true
  else
    let! active := lift (get_active id) in
    check_authority max_recursion active.

(** [remove_unused_signatures] *)
Definition remove_unused_signatures : M sign_state bool :=
  let! provided := gets provided_signatures in
  let used := filter (λ x, x.2 = true) provided in
  do! put (set_provided_signatures used) in
  ret (negb (bool_decide (provided = used))).
End sign_state.

Section verify.
Context {K : KeyAddresses}.
Variables get_active get_owner : Z → res (option authority).

(** [a || b] where both are computations *)
Definition or_else {S} (m1 m2 : M S bool) : M S bool :=
  let! b := m1 in if b then ret true else m2.
(** [GRAPHENE_ASSERT( b, e )] *)
Definition assert_or (e : error) {S} (m : M S bool) : M S unit :=
  let! b := m in if b then ret tt else fail e.

Definition check_owner (available_keys : gset Z) (max_recursion : nat) (id : Z) : M sign_state bool :=
  let! owner := lift (get_owner id) in check_authority available_keys get_active max_recursion owner.

(** The checks of [verify_authority] on a [sign_state]. *)
Definition verify_required (max_recursion : nat) (owner_approvals : gset Z) (r : required) : M sign_state unit :=
  do! for_each (λ auth, assert_or MissingOtherAuth
        (check_authority ∅ get_active max_recursion (Some auth))) (rq_other r) in
  do! for_each (λ id, assert_or MissingActiveAuth
        (or_else (check_account ∅ get_active max_recursion id) (check_owner ∅ max_recursion id)))
      (in_order (rq_active r)) in
  do! for_each (λ id, assert_or MissingOwnerAuth
        (or_else (ret (bool_decide (id ∈ owner_approvals))) (check_owner ∅ max_recursion id)))
      (in_order (rq_owner r)) in
  assert_or IrrelevantSignature
    (let! removed := remove_unused_signatures in ret (negb removed)).

(** [verify_authority] *)
Definition verify_authority (ops : list operation) (sigs : gset Z) (max_recursion_depth : Z)
    (allow_committee : bool) (active_approvals owner_approvals : gset Z) : res unit :=
  let r := required_of ops in
  require? allow_committee || negb (bool_decide (GRAPHENE_COMMITTEE_ACCOUNT ∈ rq_active r)) in
  let s := new_sign_state sigs in
  let s := set_approved_by (approved_by s ∪ active_approvals ∪ owner_approvals) s in
  let? out := verify_required (Z.to_nat max_recursion_depth) owner_approvals r s in
  Ok (fst out).

(** [signed_transaction::get_required_signatures], from the keys that have
    signed *)
Definition get_required_signatures (ops : list operation) (signature_keys available_keys : gset Z)
    (max_recursion_depth : Z) : res (gset Z) :=
  let r := get_required_authorities ops in
  let max_recursion := Z.to_nat max_recursion_depth in
  let check au := check_authority available_keys get_active max_recursion au in
  let run : M sign_state unit :=
    do! for_each (λ auth, do! check (Some auth) in ret tt) (rq_other r) in
    do! for_each (λ id, do! check_owner available_keys max_recursion id in ret tt) (in_order (rq_owner r)) in
    do! for_each (λ id, do! or_else (check_account available_keys get_active max_recursion id)
                                    (check_owner available_keys max_recursion id) in ret tt)
          (in_order (rq_active r)) in
    do! remove_unused_signatures in ret tt in
  let? out := run (new_sign_state signature_keys) in
  Ok ((dom (provided_signatures (snd out)) ∩ available_keys) ∖ signature_keys).

(** The exceptions [minimize_required_signatures] catches *)
Definition is_missing_auth (e : error) : bool :=
  match e with MissingActiveAuth | MissingOwnerAuth | MissingOtherAuth => true | _ => false end.

(** The loop of [minimize_required_signatures] *)
Fixpoint minimize (ops : list operation) (max_recursion : Z) (keys : list Z) (result : gset Z) : res (gset Z) :=
  match keys with
  | [] => Ok result
  | k :: keys' =>
    let fewer := result ∖ {[ k ]} in
    match verify_authority ops fewer max_recursion false ∅ ∅ with
    | Ok _ => minimize ops max_recursion keys' fewer
    | Err e => if is_missing_auth e then minimize ops max_recursion keys' ({[ k ]} ∪ fewer) else Err e
    end
  end.

(** [signed_transaction::minimize_required_signatures] *)
Definition minimize_required_signatures (ops : list operation) (signature_keys available_keys : gset Z)
    (max_recursion : Z) : res (gset Z) :=
  let? s := get_required_signatures ops signature_keys available_keys max_recursion in
  minimize ops max_recursion (in_order s) s.
End verify.
