(* ===== verification/Database.v ===== *)
(** * The object database

    The state of the chain as far as the modelled operations touch it, the
    ordered indices over it, and the operations of chain/database.hpp and
    db/generic_index.hpp on objects: [get], [find], [modify], [create],
    [remove].  Each index of the object database is a finite map from the
    instance number to the object; an account balance is keyed by its unique
    index [by_account_asset].  A reference to an object in C++ is its
    identifier here, and every use reads the object from the current state, so
    a later [modify] through another reference is seen.  [create] raises when a
    unique index would be violated, as [generic_index::create] does. *)

From S2P Require Import Prelude Ext Config Asset Objects Parameters Governance Blocks Operations Ledger.

(** ** State *)

(** The next instance number of each index ([index::get_next_id]) *)
Record next_ids := mk_next_ids {
  ni_asset : Z;
  ni_dynamic : Z;
  ni_bitasset : Z;
  ni_limit : Z;
  ni_call : Z;
  ni_settle : Z;
  ni_bid : Z;
  ni_vesting : Z;
  ni_witness : Z;
  ni_committee_member : Z;
  ni_worker : Z;
  ni_withdraw_permission : Z;
  ni_account : Z;
  ni_statistics : Z;
  ni_proposal : Z;
  ni_special_authority : Z;
  ni_buyback : Z;
  ni_transaction : Z;
  ni_blinded_balance : Z;
  ni_contract : Z;
}.
Definition set_ni_asset (v : Z) (o : next_ids) : next_ids :=
  mk_next_ids v (ni_dynamic o) (ni_bitasset o) (ni_limit o) (ni_call o) (ni_settle o) (ni_bid o) (ni_vesting o) (ni_witness o) (ni_committee_member o) (ni_worker o) (ni_withdraw_permission o) (ni_account o) (ni_statistics o) (ni_proposal o) (ni_special_authority o) (ni_buyback o) (ni_transaction o) (ni_blinded_balance o) (ni_contract o).
Definition set_ni_dynamic (v : Z) (o : next_ids) : next_ids :=
  mk_next_ids (ni_asset o) v (ni_bitasset o) (ni_limit o) (ni_call o) (ni_settle o) (ni_bid o) (ni_vesting o) (ni_witness o) (ni_committee_member o) (ni_worker o) (ni_withdraw_permission o) (ni_account o) (ni_statistics o) (ni_proposal o) (ni_special_authority o) (ni_buyback o) (ni_transaction o) (ni_blinded_balance o) (ni_contract o).
Definition set_ni_bitasset (v : Z) (o : next_ids) : next_ids :=
  mk_next_ids (ni_asset o) (ni_dynamic o) v (ni_limit o) (ni_call o) (ni_settle o) (ni_bid o) (ni_vesting o) (ni_witness o) (ni_committee_member o) (ni_worker o) (ni_withdraw_permission o) (ni_account o) (ni_statistics o) (ni_proposal o) (ni_special_authority o) (ni_buyback o) (ni_transaction o) (ni_blinded_balance o) (ni_contract o).
Definition set_ni_limit (v : Z) (o : next_ids) : next_ids :=
  mk_next_ids (ni_asset o) (ni_dynamic o) (ni_bitasset o) v (ni_call o) (ni_settle o) (ni_bid o) (ni_vesting o) (ni_witness o) (ni_committee_member o) (ni_worker o) (ni_withdraw_permission o) (ni_account o) (ni_statistics o) (ni_proposal o) (ni_special_authority o) (ni_buyback o) (ni_transaction o) (ni_blinded_balance o) (ni_contract o).
Definition set_ni_call (v : Z) (o : next_ids) : next_ids :=
  mk_next_ids (ni_asset o) (ni_dynamic o) (ni_bitasset o) (ni_limit o) v (ni_settle o) (ni_bid o) (ni_vesting o) (ni_witness o) (ni_committee_member o) (ni_worker o) (ni_withdraw_permission o) (ni_account o) (ni_statistics o) (ni_proposal o) (ni_special_authority o) (ni_buyback o) (ni_transaction o) (ni_blinded_balance o) (ni_contract o).
Definition set_ni_settle (v : Z) (o : next_ids) : next_ids :=
  mk_next_ids (ni_asset o) (ni_dynamic o) (ni_bitasset o) (ni_limit o) (ni_call o) v (ni_bid o) (ni_vesting o) (ni_witness o) (ni_committee_member o) (ni_worker o) (ni_withdraw_permission o) (ni_account o) (ni_statistics o) (ni_proposal o) (ni_special_authority o) (ni_buyback o) (ni_transaction o) (ni_blinded_balance o) (ni_contract o).
Definition set_ni_bid (v : Z) (o : next_ids) : next_ids :=
  mk_next_ids (ni_asset o) (ni_dynamic o) (ni_bitasset o) (ni_limit o) (ni_call o) (ni_settle o) v (ni_vesting o) (ni_witness o) (ni_committee_member o) (ni_worker o) (ni_withdraw_permission o) (ni_account o) (ni_statistics o) (ni_proposal o) (ni_special_authority o) (ni_buyback o) (ni_transaction o) (ni_blinded_balance o) (ni_contract o).
Definition set_ni_vesting (v : Z) (o : next_ids) : next_ids :=
  mk_next_ids (ni_asset o) (ni_dynamic o) (ni_bitasset o) (ni_limit o) (ni_call o) (ni_settle o) (ni_bid o) v (ni_witness o) (ni_committee_member o) (ni_worker o) (ni_withdraw_permission o) (ni_account o) (ni_statistics o) (ni_proposal o) (ni_special_authority o) (ni_buyback o) (ni_transaction o) (ni_blinded_balance o) (ni_contract o).
Definition set_ni_witness (v : Z) (o : next_ids) : next_ids :=
  mk_next_ids (ni_asset o) (ni_dynamic o) (ni_bitasset o) (ni_limit o) (ni_call o) (ni_settle o) (ni_bid o) (ni_vesting o) v (ni_committee_member o) (ni_worker o) (ni_withdraw_permission o) (ni_account o) (ni_statistics o) (ni_proposal o) (ni_special_authority o) (ni_buyback o) (ni_transaction o) (ni_blinded_balance o) (ni_contract o).
Definition set_ni_committee_member (v : Z) (o : next_ids) : next_ids :=
  mk_next_ids (ni_asset o) (ni_dynamic o) (ni_bitasset o) (ni_limit o) (ni_call o) (ni_settle o) (ni_bid o) (ni_vesting o) (ni_witness o) v (ni_worker o) (ni_withdraw_permission o) (ni_account o) (ni_statistics o) (ni_proposal o) (ni_special_authority o) (ni_buyback o) (ni_transaction o) (ni_blinded_balance o) (ni_contract o).
Definition set_ni_worker (v : Z) (o : next_ids) : next_ids :=
  mk_next_ids (ni_asset o) (ni_dynamic o) (ni_bitasset o) (ni_limit o) (ni_call o) (ni_settle o) (ni_bid o) (ni_vesting o) (ni_witness o) (ni_committee_member o) v (ni_withdraw_permission o) (ni_account o) (ni_statistics o) (ni_proposal o) (ni_special_authority o) (ni_buyback o) (ni_transaction o) (ni_blinded_balance o) (ni_contract o).
Definition set_ni_withdraw_permission (v : Z) (o : next_ids) : next_ids :=
  mk_next_ids (ni_asset o) (ni_dynamic o) (ni_bitasset o) (ni_limit o) (ni_call o) (ni_settle o) (ni_bid o) (ni_vesting o) (ni_witness o) (ni_committee_member o) (ni_worker o) v (ni_account o) (ni_statistics o) (ni_proposal o) (ni_special_authority o) (ni_buyback o) (ni_transaction o) (ni_blinded_balance o) (ni_contract o).
Definition set_ni_account (v : Z) (o : next_ids) : next_ids :=
  mk_next_ids (ni_asset o) (ni_dynamic o) (ni_bitasset o) (ni_limit o) (ni_call o) (ni_settle o) (ni_bid o) (ni_vesting o) (ni_witness o) (ni_committee_member o) (ni_worker o) (ni_withdraw_permission o) v (ni_statistics o) (ni_proposal o) (ni_special_authority o) (ni_buyback o) (ni_transaction o) (ni_blinded_balance o) (ni_contract o).
Definition set_ni_statistics (v : Z) (o : next_ids) : next_ids :=
  mk_next_ids (ni_asset o) (ni_dynamic o) (ni_bitasset o) (ni_limit o) (ni_call o) (ni_settle o) (ni_bid o) (ni_vesting o) (ni_witness o) (ni_committee_member o) (ni_worker o) (ni_withdraw_permission o) (ni_account o) v (ni_proposal o) (ni_special_authority o) (ni_buyback o) (ni_transaction o) (ni_blinded_balance o) (ni_contract o).
Definition set_ni_proposal (v : Z) (o : next_ids) : next_ids :=
  mk_next_ids (ni_asset o) (ni_dynamic o) (ni_bitasset o) (ni_limit o) (ni_call o) (ni_settle o) (ni_bid o) (ni_vesting o) (ni_witness o) (ni_committee_member o) (ni_worker o) (ni_withdraw_permission o) (ni_account o) (ni_statistics o) v (ni_special_authority o) (ni_buyback o) (ni_transaction o) (ni_blinded_balance o) (ni_contract o).
Definition set_ni_special_authority (v : Z) (o : next_ids) : next_ids :=
  mk_next_ids (ni_asset o) (ni_dynamic o) (ni_bitasset o) (ni_limit o) (ni_call o) (ni_settle o) (ni_bid o) (ni_vesting o) (ni_witness o) (ni_committee_member o) (ni_worker o) (ni_withdraw_permission o) (ni_account o) (ni_statistics o) (ni_proposal o) v (ni_buyback o) (ni_transaction o) (ni_blinded_balance o) (ni_contract o).
Definition set_ni_buyback (v : Z) (o : next_ids) : next_ids :=
  mk_next_ids (ni_asset o) (ni_dynamic o) (ni_bitasset o) (ni_limit o) (ni_call o) (ni_settle o) (ni_bid o) (ni_vesting o) (ni_witness o) (ni_committee_member o) (ni_worker o) (ni_withdraw_permission o) (ni_account o) (ni_statistics o) (ni_proposal o) (ni_special_authority o) v (ni_transaction o) (ni_blinded_balance o) (ni_contract o).
Definition set_ni_transaction (v : Z) (o : next_ids) : next_ids :=
  mk_next_ids (ni_asset o) (ni_dynamic o) (ni_bitasset o) (ni_limit o) (ni_call o) (ni_settle o) (ni_bid o) (ni_vesting o) (ni_witness o) (ni_committee_member o) (ni_worker o) (ni_withdraw_permission o) (ni_account o) (ni_statistics o) (ni_proposal o) (ni_special_authority o) (ni_buyback o) v (ni_blinded_balance o) (ni_contract o).
Definition set_ni_blinded_balance (v : Z) (o : next_ids) : next_ids :=
  mk_next_ids (ni_asset o) (ni_dynamic o) (ni_bitasset o) (ni_limit o) (ni_call o) (ni_settle o) (ni_bid o) (ni_vesting o) (ni_witness o) (ni_committee_member o) (ni_worker o) (ni_withdraw_permission o) (ni_account o) (ni_statistics o) (ni_proposal o) (ni_special_authority o) (ni_buyback o) (ni_transaction o) v (ni_contract o).
Definition set_ni_contract (v : Z) (o : next_ids) : next_ids :=
  mk_next_ids (ni_asset o) (ni_dynamic o) (ni_bitasset o) (ni_limit o) (ni_call o) (ni_settle o) (ni_bid o) (ni_vesting o) (ni_witness o) (ni_committee_member o) (ni_worker o) (ni_withdraw_permission o) (ni_account o) (ni_statistics o) (ni_proposal o) (ni_special_authority o) (ni_buyback o) (ni_transaction o) (ni_blinded_balance o) v.

(** [database] *)
Record database := mk_database {
  d_head_block_time : Z;
  d_next_maintenance_time : Z;
  d_witness_budget : Z;
  d_parameters : chain_parameters;
  d_accounts : gmap Z account_object;
  d_statistics : gmap Z account_statistics_object;
  d_balances : gmap (Z * Z) account_balance_object;
  d_assets : gmap Z asset_object;
  d_dynamic : gmap Z asset_dynamic_data_object;
  d_bitassets : gmap Z asset_bitasset_data_object;
  d_limits : gmap Z limit_order_object;
  d_calls : gmap Z call_order_object;
  d_settles : gmap Z force_settlement_object;
  d_bids : gmap Z collateral_bid_object;
  d_vestings : gmap Z vesting_balance_object;
  d_genesis_balances : gmap Z balance_object;
  d_withdraw_permissions : gmap Z withdraw_permission_object;
  d_fbas : gmap Z fba_accumulator_object;
  d_witnesses : gmap Z witness_object;
  d_governance : governance;
  d_next_ids : next_ids;
  d_applied_ops : list operation;
  d_issue_453_affected_assets : gset Z;
  d_ledger : ledger;
}.
Definition set_d_head_block_time (v : Z) (o : database) : database :=
  mk_database v (d_next_maintenance_time o) (d_witness_budget o) (d_parameters o) (d_accounts o) (d_statistics o) (d_balances o) (d_assets o) (d_dynamic o) (d_bitassets o) (d_limits o) (d_calls o) (d_settles o) (d_bids o) (d_vestings o) (d_genesis_balances o) (d_withdraw_permissions o) (d_fbas o) (d_witnesses o) (d_governance o) (d_next_ids o) (d_applied_ops o) (d_issue_453_affected_assets o) (d_ledger o).
Definition set_d_next_maintenance_time (v : Z) (o : database) : database :=
  mk_database (d_head_block_time o) v (d_witness_budget o) (d_parameters o) (d_accounts o) (d_statistics o) (d_balances o) (d_assets o) (d_dynamic o) (d_bitassets o) (d_limits o) (d_calls o) (d_settles o) (d_bids o) (d_vestings o) (d_genesis_balances o) (d_withdraw_permissions o) (d_fbas o) (d_witnesses o) (d_governance o) (d_next_ids o) (d_applied_ops o) (d_issue_453_affected_assets o) (d_ledger o).
Definition set_d_witness_budget (v : Z) (o : database) : database :=
  mk_database (d_head_block_time o) (d_next_maintenance_time o) v (d_parameters o) (d_accounts o) (d_statistics o) (d_balances o) (d_assets o) (d_dynamic o) (d_bitassets o) (d_limits o) (d_calls o) (d_settles o) (d_bids o) (d_vestings o) (d_genesis_balances o) (d_withdraw_permissions o) (d_fbas o) (d_witnesses o) (d_governance o) (d_next_ids o) (d_applied_ops o) (d_issue_453_affected_assets o) (d_ledger o).
Definition set_d_parameters (v : chain_parameters) (o : database) : database :=
  mk_database (d_head_block_time o) (d_next_maintenance_time o) (d_witness_budget o) v (d_accounts o) (d_statistics o) (d_balances o) (d_assets o) (d_dynamic o) (d_bitassets o) (d_limits o) (d_calls o) (d_settles o) (d_bids o) (d_vestings o) (d_genesis_balances o) (d_withdraw_permissions o) (d_fbas o) (d_witnesses o) (d_governance o) (d_next_ids o) (d_applied_ops o) (d_issue_453_affected_assets o) (d_ledger o).
Definition set_d_accounts (v : gmap Z account_object) (o : database) : database :=
  mk_database (d_head_block_time o) (d_next_maintenance_time o) (d_witness_budget o) (d_parameters o) v (d_statistics o) (d_balances o) (d_assets o) (d_dynamic o) (d_bitassets o) (d_limits o) (d_calls o) (d_settles o) (d_bids o) (d_vestings o) (d_genesis_balances o) (d_withdraw_permissions o) (d_fbas o) (d_witnesses o) (d_governance o) (d_next_ids o) (d_applied_ops o) (d_issue_453_affected_assets o) (d_ledger o).
Definition set_d_statistics (v : gmap Z account_statistics_object) (o : database) : database :=
  mk_database (d_head_block_time o) (d_next_maintenance_time o) (d_witness_budget o) (d_parameters o) (d_accounts o) v (d_balances o) (d_assets o) (d_dynamic o) (d_bitassets o) (d_limits o) (d_calls o) (d_settles o) (d_bids o) (d_vestings o) (d_genesis_balances o) (d_withdraw_permissions o) (d_fbas o) (d_witnesses o) (d_governance o) (d_next_ids o) (d_applied_ops o) (d_issue_453_affected_assets o) (d_ledger o).
Definition set_d_balances (v : gmap (Z * Z) account_balance_object) (o : database) : database :=
  mk_database (d_head_block_time o) (d_next_maintenance_time o) (d_witness_budget o) (d_parameters o) (d_accounts o) (d_statistics o) v (d_assets o) (d_dynamic o) (d_bitassets o) (d_limits o) (d_calls o) (d_settles o) (d_bids o) (d_vestings o) (d_genesis_balances o) (d_withdraw_permissions o) (d_fbas o) (d_witnesses o) (d_governance o) (d_next_ids o) (d_applied_ops o) (d_issue_453_affected_assets o) (d_ledger o).
Definition set_d_assets (v : gmap Z asset_object) (o : database) : database :=
  mk_database (d_head_block_time o) (d_next_maintenance_time o) (d_witness_budget o) (d_parameters o) (d_accounts o) (d_statistics o) (d_balances o) v (d_dynamic o) (d_bitassets o) (d_limits o) (d_calls o) (d_settles o) (d_bids o) (d_vestings o) (d_genesis_balances o) (d_withdraw_permissions o) (d_fbas o) (d_witnesses o) (d_governance o) (d_next_ids o) (d_applied_ops o) (d_issue_453_affected_assets o) (d_ledger o).
Definition set_d_dynamic (v : gmap Z asset_dynamic_data_object) (o : database) : database :=
  mk_database (d_head_block_time o) (d_next_maintenance_time o) (d_witness_budget o) (d_parameters o) (d_accounts o) (d_statistics o) (d_balances o) (d_assets o) v (d_bitassets o) (d_limits o) (d_calls o) (d_settles o) (d_bids o) (d_vestings o) (d_genesis_balances o) (d_withdraw_permissions o) (d_fbas o) (d_witnesses o) (d_governance o) (d_next_ids o) (d_applied_ops o) (d_issue_453_affected_assets o) (d_ledger o).
Definition set_d_bitassets (v : gmap Z asset_bitasset_data_object) (o : database) : database :=
  mk_database (d_head_block_time o) (d_next_maintenance_time o) (d_witness_budget o) (d_parameters o) (d_accounts o) (d_statistics o) (d_balances o) (d_assets o) (d_dynamic o) v (d_limits o) (d_calls o) (d_settles o) (d_bids o) (d_vestings o) (d_genesis_balances o) (d_withdraw_permissions o) (d_fbas o) (d_witnesses o) (d_governance o) (d_next_ids o) (d_applied_ops o) (d_issue_453_affected_assets o) (d_ledger o).
Definition set_d_limits (v : gmap Z limit_order_object) (o : database) : database :=
  mk_database (d_head_block_time o) (d_next_maintenance_time o) (d_witness_budget o) (d_parameters o) (d_accounts o) (d_statistics o) (d_balances o) (d_assets o) (d_dynamic o) (d_bitassets o) v (d_calls o) (d_settles o) (d_bids o) (d_vestings o) (d_genesis_balances o) (d_withdraw_permissions o) (d_fbas o) (d_witnesses o) (d_governance o) (d_next_ids o) (d_applied_ops o) (d_issue_453_affected_assets o) (d_ledger o).
Definition set_d_calls (v : gmap Z call_order_object) (o : database) : database :=
  mk_database (d_head_block_time o) (d_next_maintenance_time o) (d_witness_budget o) (d_parameters o) (d_accounts o) (d_statistics o) (d_balances o) (d_assets o) (d_dynamic o) (d_bitassets o) (d_limits o) v (d_settles o) (d_bids o) (d_vestings o) (d_genesis_balances o) (d_withdraw_permissions o) (d_fbas o) (d_witnesses o) (d_governance o) (d_next_ids o) (d_applied_ops o) (d_issue_453_affected_assets o) (d_ledger o).
Definition set_d_settles (v : gmap Z force_settlement_object) (o : database) : database :=
  mk_database (d_head_block_time o) (d_next_maintenance_time o) (d_witness_budget o) (d_parameters o) (d_accounts o) (d_statistics o) (d_balances o) (d_assets o) (d_dynamic o) (d_bitassets o) (d_limits o) (d_calls o) v (d_bids o) (d_vestings o) (d_genesis_balances o) (d_withdraw_permissions o) (d_fbas o) (d_witnesses o) (d_governance o) (d_next_ids o) (d_applied_ops o) (d_issue_453_affected_assets o) (d_ledger o).
Definition set_d_bids (v : gmap Z collateral_bid_object) (o : database) : database :=
  mk_database (d_head_block_time o) (d_next_maintenance_time o) (d_witness_budget o) (d_parameters o) (d_accounts o) (d_statistics o) (d_balances o) (d_assets o) (d_dynamic o) (d_bitassets o) (d_limits o) (d_calls o) (d_settles o) v (d_vestings o) (d_genesis_balances o) (d_withdraw_permissions o) (d_fbas o) (d_witnesses o) (d_governance o) (d_next_ids o) (d_applied_ops o) (d_issue_453_affected_assets o) (d_ledger o).
Definition set_d_vestings (v : gmap Z vesting_balance_object) (o : database) : database :=
  mk_database (d_head_block_time o) (d_next_maintenance_time o) (d_witness_budget o) (d_parameters o) (d_accounts o) (d_statistics o) (d_balances o) (d_assets o) (d_dynamic o) (d_bitassets o) (d_limits o) (d_calls o) (d_settles o) (d_bids o) v (d_genesis_balances o) (d_withdraw_permissions o) (d_fbas o) (d_witnesses o) (d_governance o) (d_next_ids o) (d_applied_ops o) (d_issue_453_affected_assets o) (d_ledger o).
Definition set_d_genesis_balances (v : gmap Z balance_object) (o : database) : database :=
  mk_database (d_head_block_time o) (d_next_maintenance_time o) (d_witness_budget o) (d_parameters o) (d_accounts o) (d_statistics o) (d_balances o) (d_assets o) (d_dynamic o) (d_bitassets o) (d_limits o) (d_calls o) (d_settles o) (d_bids o) (d_vestings o) v (d_withdraw_permissions o) (d_fbas o) (d_witnesses o) (d_governance o) (d_next_ids o) (d_applied_ops o) (d_issue_453_affected_assets o) (d_ledger o).
Definition set_d_withdraw_permissions (v : gmap Z withdraw_permission_object) (o : database) : database :=
  mk_database (d_head_block_time o) (d_next_maintenance_time o) (d_witness_budget o) (d_parameters o) (d_accounts o) (d_statistics o) (d_balances o) (d_assets o) (d_dynamic o) (d_bitassets o) (d_limits o) (d_calls o) (d_settles o) (d_bids o) (d_vestings o) (d_genesis_balances o) v (d_fbas o) (d_witnesses o) (d_governance o) (d_next_ids o) (d_applied_ops o) (d_issue_453_affected_assets o) (d_ledger o).
Definition set_d_fbas (v : gmap Z fba_accumulator_object) (o : database) : database :=
  mk_database (d_head_block_time o) (d_next_maintenance_time o) (d_witness_budget o) (d_parameters o) (d_accounts o) (d_statistics o) (d_balances o) (d_assets o) (d_dynamic o) (d_bitassets o) (d_limits o) (d_calls o) (d_settles o) (d_bids o) (d_vestings o) (d_genesis_balances o) (d_withdraw_permissions o) v (d_witnesses o) (d_governance o) (d_next_ids o) (d_applied_ops o) (d_issue_453_affected_assets o) (d_ledger o).
Definition set_d_witnesses (v : gmap Z witness_object) (o : database) : database :=
  mk_database (d_head_block_time o) (d_next_maintenance_time o) (d_witness_budget o) (d_parameters o) (d_accounts o) (d_statistics o) (d_balances o) (d_assets o) (d_dynamic o) (d_bitassets o) (d_limits o) (d_calls o) (d_settles o) (d_bids o) (d_vestings o) (d_genesis_balances o) (d_withdraw_permissions o) (d_fbas o) v (d_governance o) (d_next_ids o) (d_applied_ops o) (d_issue_453_affected_assets o) (d_ledger o).
Definition set_d_governance (v : governance) (o : database) : database :=
  mk_database (d_head_block_time o) (d_next_maintenance_time o) (d_witness_budget o) (d_parameters o) (d_accounts o) (d_statistics o) (d_balances o) (d_assets o) (d_dynamic o) (d_bitassets o) (d_limits o) (d_calls o) (d_settles o) (d_bids o) (d_vestings o) (d_genesis_balances o) (d_withdraw_permissions o) (d_fbas o) (d_witnesses o) v (d_next_ids o) (d_applied_ops o) (d_issue_453_affected_assets o) (d_ledger o).
Definition set_d_next_ids (v : next_ids) (o : database) : database :=
  mk_database (d_head_block_time o) (d_next_maintenance_time o) (d_witness_budget o) (d_parameters o) (d_accounts o) (d_statistics o) (d_balances o) (d_assets o) (d_dynamic o) (d_bitassets o) (d_limits o) (d_calls o) (d_settles o) (d_bids o) (d_vestings o) (d_genesis_balances o) (d_withdraw_permissions o) (d_fbas o) (d_witnesses o) (d_governance o) v (d_applied_ops o) (d_issue_453_affected_assets o) (d_ledger o).
Definition set_d_applied_ops (v : list operation) (o : database) : database :=
  mk_database (d_head_block_time o) (d_next_maintenance_time o) (d_witness_budget o) (d_parameters o) (d_accounts o) (d_statistics o) (d_balances o) (d_assets o) (d_dynamic o) (d_bitassets o) (d_limits o) (d_calls o) (d_settles o) (d_bids o) (d_vestings o) (d_genesis_balances o) (d_withdraw_permissions o) (d_fbas o) (d_witnesses o) (d_governance o) (d_next_ids o) v (d_issue_453_affected_assets o) (d_ledger o).
Definition set_d_issue_453_affected_assets (v : gset Z) (o : database) : database :=
  mk_database (d_head_block_time o) (d_next_maintenance_time o) (d_witness_budget o) (d_parameters o) (d_accounts o) (d_statistics o) (d_balances o) (d_assets o) (d_dynamic o) (d_bitassets o) (d_limits o) (d_calls o) (d_settles o) (d_bids o) (d_vestings o) (d_genesis_balances o) (d_withdraw_permissions o) (d_fbas o) (d_witnesses o) (d_governance o) (d_next_ids o) (d_applied_ops o) v (d_ledger o).
Definition set_d_ledger (v : ledger) (o : database) : database :=
  mk_database (d_head_block_time o) (d_next_maintenance_time o) (d_witness_budget o) (d_parameters o) (d_accounts o) (d_statistics o) (d_balances o) (d_assets o) (d_dynamic o) (d_bitassets o) (d_limits o) (d_calls o) (d_settles o) (d_bids o) (d_vestings o) (d_genesis_balances o) (d_withdraw_permissions o) (d_fbas o) (d_witnesses o) (d_governance o) (d_next_ids o) (d_applied_ops o) (d_issue_453_affected_assets o) v.

Notation DB := (M database).

(** ** Ordered indices *)

(** The element that follows, or precedes, the one with identifier [id]:
    [std::next] and [--] on an iterator. *)
Fixpoint next_of {V} (id : Z) (l : list (Z * V)) : option Z :=
  match l with
  | [] => None
  | x :: l' => if x.1 =? id then fst <$> head l' else next_of id l'
  end.
Definition prev_of {V} (id : Z) (l : list (Z * V)) : option Z := next_of id (reverse l).

(** The first element of an index that is ordered by expiration *)
Definition first_by {V} (time : V → Z) (m : gmap Z V) : option (Z * V) :=
  head (sorted_by (λ a b, (time a.2 <? time b.2) || ((time a.2 =? time b.2) && (a.1 <? b.1))) (map_to_list m)).

(** The first element that satisfies [P], as an iterator ([None] is [end()]). *)
Definition find_first {V} (P : Z * V → bool) (l : list (Z * V)) : option Z :=
  fst <$> List.find P l.

(** limit_order_index, [by_price]: decreasing price, increasing id. *)
Definition limit_less `{Ext} (a b : Z * limit_order_object) : bool :=
  if price_gtb (lo_sell_price a.2) (lo_sell_price b.2) then true
  else if price_gtb (lo_sell_price b.2) (lo_sell_price a.2) then false
  else a.1 <? b.1.
Definition limit_price_index `{Ext} (s : database) : list (Z * limit_order_object) :=
  sorted_by limit_less (map_to_list (d_limits s)).
(** [lower_bound(p)] and [upper_bound(p)]: first element not before, first
    element after, the price [p]. *)
Definition limit_lower_bound `{Ext} (p : price) (s : database) : option Z :=
  find_first (λ x, negb (price_gtb (lo_sell_price x.2) p)) (limit_price_index s).
Definition limit_upper_bound `{Ext} (p : price) (s : database) : option Z :=
  find_first (λ x, price_gtb p (lo_sell_price x.2)) (limit_price_index s).

(** limit_order_index, [by_expiration] *)
Definition limit_expiration_less (a b : Z * limit_order_object) : bool :=
  if lo_expiration a.2 <? lo_expiration b.2 then true
  else if lo_expiration b.2 <? lo_expiration a.2 then false
  else a.1 <? b.1.
Definition limit_expiration_index (s : database) : list (Z * limit_order_object) :=
  sorted_by limit_expiration_less (map_to_list (d_limits s)).

(** call_order_index, [by_price]: increasing call price, increasing id. *)
Definition call_less `{Ext} (a b : Z * call_order_object) : bool :=
  if price_ltb (co_call_price a.2) (co_call_price b.2) then true
  else if price_ltb (co_call_price b.2) (co_call_price a.2) then false
  else a.1 <? b.1.
Definition call_price_index `{Ext} (s : database) : list (Z * call_order_object) :=
  sorted_by call_less (map_to_list (d_calls s)).
Definition call_lower_bound `{Ext} (p : price) (s : database) : option Z :=
  find_first (λ x, negb (price_ltb (co_call_price x.2) p)) (call_price_index s).
Definition call_upper_bound `{Ext} (p : price) (s : database) : option Z :=
  find_first (λ x, price_ltb p (co_call_price x.2)) (call_price_index s).

(** call_order_index, [by_collateral]: increasing collateralization. The key
    is [collateralization()], whose assertion holds for every call order since
    [call_price] has two different assets. *)
Definition collateral_key (o : call_order_object) : price :=
  mk_price (get_collateral o) (get_debt o).
Definition collateral_less `{Ext} (a b : Z * call_order_object) : bool :=
  if price_ltb (collateral_key a.2) (collateral_key b.2) then true
  else if price_ltb (collateral_key b.2) (collateral_key a.2) then false
  else a.1 <? b.1.
Definition call_collateral_index `{Ext} (s : database) : list (Z * call_order_object) :=
  sorted_by collateral_less (map_to_list (d_calls s)).
Definition collateral_lower_bound `{Ext} (p : price) (s : database) : option Z :=
  find_first (λ x, negb (price_ltb (collateral_key x.2) p)) (call_collateral_index s).

(** call_order_index, [by_account] *)
Definition find_call_by_account (borrower debt_type : Z) (s : database) : option Z :=
  find_first (λ x, (co_borrower x.2 =? borrower) && (co_debt_type x.2 =? debt_type))
             (map_to_list (d_calls s)).

(** force_settlement_index, [by_expiration]: asset, date, id. *)
Definition settle_less (a b : Z * force_settlement_object) : bool :=
  if fs_settlement_asset_id a.2 <? fs_settlement_asset_id b.2 then true
  else if fs_settlement_asset_id b.2 <? fs_settlement_asset_id a.2 then false
  else if fs_settlement_date a.2 <? fs_settlement_date b.2 then true
  else if fs_settlement_date b.2 <? fs_settlement_date a.2 then false
  else a.1 <? b.1.
Definition settlement_index (s : database) : list (Z * force_settlement_object) :=
  sorted_by settle_less (map_to_list (d_settles s)).
Definition settlement_lower_bound (a : Z) (s : database) : option Z :=
  find_first (λ x, a <=? fs_settlement_asset_id x.2) (settlement_index s).
Definition settlement_upper_bound (a : Z) (s : database) : option Z :=
  find_first (λ x, a <? fs_settlement_asset_id x.2) (settlement_index s).

(** collateral_bid_index, [by_price]: asset, decreasing price, id; and
    [by_account]. *)
Definition bid_less `{Ext} (a b : Z * collateral_bid_object) : bool :=
  if cb_debt_type a.2 <? cb_debt_type b.2 then true
  else if cb_debt_type b.2 <? cb_debt_type a.2 then false
  else if price_gtb (cb_inv_swan_price a.2) (cb_inv_swan_price b.2) then true
  else if price_gtb (cb_inv_swan_price b.2) (cb_inv_swan_price a.2) then false
  else a.1 <? b.1.
Definition bid_price_index `{Ext} (s : database) : list (Z * collateral_bid_object) :=
  sorted_by bid_less (map_to_list (d_bids s)).
Definition find_bid_by_account (debt_type bidder : Z) (s : database) : option Z :=
  find_first (λ x, (cb_debt_type x.2 =? debt_type) && (cb_bidder x.2 =? bidder))
             (map_to_list (d_bids s)).

(** asset_index, [by_symbol] *)
Definition find_asset_by_symbol (symbol : string) (s : database) : option Z :=
  find_first (λ x, bool_decide (as_symbol x.2 = symbol)) (map_to_list (d_assets s)).

(** ** Reading objects *)

(** [db.get(id)] raises when the object does not exist. *)
Definition get_from {V} (proj : database → gmap Z V) (id : Z) : DB V :=
  λ s, match proj s !! id with Some v => Ok (v, s) | None => Err NotFound end.
Definition get_account : Z → DB account_object := get_from d_accounts.
Definition get_statistics : Z → DB account_statistics_object := get_from d_statistics.
Definition get_asset : Z → DB asset_object := get_from d_assets.
Definition get_dynamic : Z → DB asset_dynamic_data_object := get_from d_dynamic.
Definition get_bitasset : Z → DB asset_bitasset_data_object := get_from d_bitassets.
Definition get_limit : Z → DB limit_order_object := get_from d_limits.
Definition get_call : Z → DB call_order_object := get_from d_calls.
Definition get_settle : Z → DB force_settlement_object := get_from d_settles.
Definition get_bid : Z → DB collateral_bid_object := get_from d_bids.
Definition get_vesting : Z → DB vesting_balance_object := get_from d_vestings.
Definition get_fba : Z → DB fba_accumulator_object := get_from d_fbas.
Definition get_genesis_balance : Z → DB balance_object := get_from d_genesis_balances.
Definition get_withdraw_permission : Z → DB withdraw_permission_object := get_from d_withdraw_permissions.
Definition get_witness : Z → DB witness_object := get_from d_witnesses.

(** ** Modifying and removing objects

    The reference passed to [modify] and [remove] designates an object of the
    index. *)
Definition modify_in {V} (proj : database → gmap Z V) (upd : gmap Z V → database → database)
    (id : Z) (f : V → res V) : DB unit :=
  λ s, match proj s !! id with
       | Some v =>
         match f v with
         | Ok v' => Ok (tt, upd (<[id := v']> (proj s)) s)
         | Err e => Err e
         end
       | None => Err NotFound
       end.
Definition modify_account : Z → (account_object → res account_object) → DB unit :=
  modify_in d_accounts set_d_accounts.
Definition modify_statistics : Z → (account_statistics_object → res account_statistics_object) → DB unit :=
  modify_in d_statistics set_d_statistics.
Definition modify_asset : Z → (asset_object → res asset_object) → DB unit :=
  modify_in d_assets set_d_assets.
Definition modify_dynamic : Z → (asset_dynamic_data_object → res asset_dynamic_data_object) → DB unit :=
  modify_in d_dynamic set_d_dynamic.
Definition modify_bitasset : Z → (asset_bitasset_data_object → res asset_bitasset_data_object) → DB unit :=
  modify_in d_bitassets set_d_bitassets.
Definition modify_limit : Z → (limit_order_object → res limit_order_object) → DB unit :=
  modify_in d_limits set_d_limits.
Definition modify_call : Z → (call_order_object → res call_order_object) → DB unit :=
  modify_in d_calls set_d_calls.
Definition modify_settle : Z → (force_settlement_object → res force_settlement_object) → DB unit :=
  modify_in d_settles set_d_settles.
Definition modify_bid : Z → (collateral_bid_object → res collateral_bid_object) → DB unit :=
  modify_in d_bids set_d_bids.
Definition modify_vesting : Z → (vesting_balance_object → res vesting_balance_object) → DB unit :=
  modify_in d_vestings set_d_vestings.
Definition modify_fba : Z → (fba_accumulator_object → res fba_accumulator_object) → DB unit :=
  modify_in d_fbas set_d_fbas.
Definition modify_genesis_balance : Z → (balance_object → res balance_object) → DB unit :=
  modify_in d_genesis_balances set_d_genesis_balances.
Definition modify_withdraw_permission : Z → (withdraw_permission_object → res withdraw_permission_object) → DB unit :=
  modify_in d_withdraw_permissions set_d_withdraw_permissions.
Definition modify_witness : Z → (witness_object → res witness_object) → DB unit :=
  modify_in d_witnesses set_d_witnesses.

Definition remove_from {V} (proj : database → gmap Z V) (upd : gmap Z V → database → database)
    (id : Z) : DB unit :=
  λ s, match proj s !! id with
       | Some _ => Ok (tt, upd (delete id (proj s)) s)
       | None => Err NotFound
       end.
Definition remove_limit : Z → DB unit := remove_from d_limits set_d_limits.
Definition remove_call : Z → DB unit := remove_from d_calls set_d_calls.
Definition remove_settle : Z → DB unit := remove_from d_settles set_d_settles.
Definition remove_bid : Z → DB unit := remove_from d_bids set_d_bids.
Definition remove_genesis_balance : Z → DB unit := remove_from d_genesis_balances set_d_genesis_balances.
Definition remove_withdraw_permission : Z → DB unit :=
  remove_from d_withdraw_permissions set_d_withdraw_permissions.

(** ** Creating objects

    The new object gets the next identifier; [ok] is the check of the other
    unique indices. *)
Definition create_in {V} (proj : database → gmap Z V) (upd : gmap Z V → database → database)
    (next : next_ids → Z) (set_next : Z → next_ids → next_ids)
    (ok : V → database → bool) (v : V) : DB Z :=
  λ s,
    let id := next (d_next_ids s) in
    if bool_decide (proj s !! id = None) && ok v s then
      Ok (id, set_d_next_ids (set_next (id + 1) (d_next_ids s)) (upd (<[id := v]> (proj s)) s))
    else Err UniquenessViolated.

Definition create_limit : limit_order_object → DB Z :=
  create_in d_limits set_d_limits ni_limit set_ni_limit (λ _ _, true).
Definition create_call : call_order_object → DB Z :=
  create_in d_calls set_d_calls ni_call set_ni_call
    (λ c s, bool_decide (find_call_by_account (co_borrower c) (co_debt_type c) s = None)).
Definition create_settle : force_settlement_object → DB Z :=
  create_in d_settles set_d_settles ni_settle set_ni_settle (λ _ _, true).
Definition create_bid : collateral_bid_object → DB Z :=
  create_in d_bids set_d_bids ni_bid set_ni_bid
    (λ b s, bool_decide (find_bid_by_account (cb_debt_type b) (cb_bidder b) s = None)).
Definition create_vesting : vesting_balance_object → DB Z :=
  create_in d_vestings set_d_vestings ni_vesting set_ni_vesting (λ _ _, true).
Definition create_dynamic : asset_dynamic_data_object → DB Z :=
  create_in d_dynamic set_d_dynamic ni_dynamic set_ni_dynamic (λ _ _, true).
Definition create_bitasset : asset_bitasset_data_object → DB Z :=
  create_in d_bitassets set_d_bitassets ni_bitasset set_ni_bitasset (λ _ _, true).
Definition create_asset : asset_object → DB Z :=
  create_in d_assets set_d_assets ni_asset set_ni_asset
    (λ a s, bool_decide (find_asset_by_symbol (as_symbol a) s = None)).

Definition create_withdraw_permission : withdraw_permission_object → DB Z :=
  create_in d_withdraw_permissions set_d_withdraw_permissions ni_withdraw_permission set_ni_withdraw_permission
    (λ _ _, true).

(** The indices of the objects that only votes and the maintenance use. *)
Definition d_committee_members (s : database) : gmap Z committee_member_object :=
  gv_committee_members (d_governance s).
Definition set_d_committee_members (m : gmap Z committee_member_object) (s : database) : database :=
  set_d_governance (set_gv_committee_members m (d_governance s)) s.
Definition d_workers (s : database) : gmap Z worker_object := gv_workers (d_governance s).
Definition set_d_workers (m : gmap Z worker_object) (s : database) : database :=
  set_d_governance (set_gv_workers m (d_governance s)) s.
Definition get_gov {A} (f : governance → A) : DB A := gets (λ s, f (d_governance s)).
Definition put_gov (f : governance → governance) : DB unit :=
  put (λ s, set_d_governance (f (d_governance s)) s).
Definition get_committee_member : Z → DB committee_member_object := get_from d_committee_members.
Definition modify_committee_member : Z → (committee_member_object → res committee_member_object) → DB unit :=
  modify_in d_committee_members set_d_committee_members.
Definition get_worker : Z → DB worker_object := get_from d_workers.
Definition modify_worker : Z → (worker_object → res worker_object) → DB unit :=
  modify_in d_workers set_d_workers.

(** No other object of an index has the key of the new one. *)
Definition fresh_key {V} (key : V → Z) (v : V) (m : gmap Z V) : bool :=
  forallb (λ x, negb (key x.2 =? key v)) (map_to_list m).
Definition create_witness : witness_object → DB Z :=
  create_in d_witnesses set_d_witnesses ni_witness set_ni_witness
    (λ w s, fresh_key wit_witness_account w (d_witnesses s) && fresh_key wit_vote_id w (d_witnesses s)).
Definition create_committee_member : committee_member_object → DB Z :=
  create_in d_committee_members set_d_committee_members ni_committee_member set_ni_committee_member
    (λ c s, fresh_key cm_committee_member_account c (d_committee_members s) &&
            fresh_key cm_vote_id c (d_committee_members s)).
Definition create_worker : worker_object → DB Z :=
  create_in d_workers set_d_workers ni_worker set_ni_worker
    (λ w s, fresh_key wk_vote_for w (d_workers s) && fresh_key wk_vote_against w (d_workers s)).

(** Accounts, their statistics, and the lists of the accounts whose authority
    is in the hands of the holders of an asset and of the assets with a buyback
    account. *)
Definition find_account_by_name (name : string) (s : database) : option Z :=
  find_first (λ x, bool_decide (ac_name x.2 = name)) (map_to_list (d_accounts s)).
Definition create_account : account_object → DB Z :=
  create_in d_accounts set_d_accounts ni_account set_ni_account
    (λ a s, bool_decide (find_account_by_name (ac_name a) s = None)).
Definition create_statistics : account_statistics_object → DB Z :=
  create_in d_statistics set_d_statistics ni_statistics set_ni_statistics
    (λ st s, fresh_key st_owner st (d_statistics s) &&
       forallb (λ x, negb (Bool.eqb (need_maintenance x.2) (need_maintenance st) &&
                           bool_decide (st_name x.2 = st_name st)))
         (map_to_list (d_statistics s))).
Definition d_special_authorities (s : database) : gmap Z Z := gv_special_authorities (d_governance s).
Definition set_d_special_authorities (m : gmap Z Z) (s : database) : database :=
  set_d_governance (set_gv_special_authorities m (d_governance s)) s.
Definition create_special_authority : Z → DB Z :=
  create_in d_special_authorities set_d_special_authorities ni_special_authority set_ni_special_authority
    (λ a s, fresh_key id a (d_special_authorities s)).
Definition remove_special_authority : Z → DB unit :=
  remove_from d_special_authorities set_d_special_authorities.
Definition d_buybacks (s : database) : gmap Z Z := gv_buybacks (d_governance s).
Definition set_d_buybacks (m : gmap Z Z) (s : database) : database :=
  set_d_governance (set_gv_buybacks m (d_governance s)) s.
Definition create_buyback : Z → DB Z :=
  create_in d_buybacks set_d_buybacks ni_buyback set_ni_buyback
    (λ a s, fresh_key id a (d_buybacks s)).

(** The objects of transactions. *)
Definition d_proposals (s : database) : gmap Z proposal_object := lg_proposals (d_ledger s).
Definition set_d_proposals (m : gmap Z proposal_object) (s : database) : database :=
  set_d_ledger (set_lg_proposals m (d_ledger s)) s.
Definition get_proposal : Z → DB proposal_object := get_from d_proposals.
Definition modify_proposal : Z → (proposal_object → res proposal_object) → DB unit :=
  modify_in d_proposals set_d_proposals.
Definition create_proposal : proposal_object → DB Z :=
  create_in d_proposals set_d_proposals ni_proposal set_ni_proposal (λ _ _, true).
Definition remove_proposal : Z → DB unit := remove_from d_proposals set_d_proposals.

Definition d_transactions (s : database) : gmap Z transaction_object := lg_transactions (d_ledger s).
Definition set_d_transactions (m : gmap Z transaction_object) (s : database) : database :=
  set_d_ledger (set_lg_transactions m (d_ledger s)) s.
Definition create_transaction : transaction_object → DB Z :=
  create_in d_transactions set_d_transactions ni_transaction set_ni_transaction
    (λ t s, fresh_key to_trx_id t (d_transactions s)).
Definition remove_transaction : Z → DB unit := remove_from d_transactions set_d_transactions.

Definition d_block_summaries (s : database) : gmap Z block_id := lg_block_summaries (d_ledger s).
Definition set_d_block_summaries (m : gmap Z block_id) (s : database) : database :=
  set_d_ledger (set_lg_block_summaries m (d_ledger s)) s.
Definition get_block_summary : Z → DB block_id := get_from d_block_summaries.
Definition modify_block_summary : Z → (block_id → res block_id) → DB unit :=
  modify_in d_block_summaries set_d_block_summaries.

Definition d_blinded_balances (s : database) : gmap Z blinded_balance_object :=
  lg_blinded_balances (d_ledger s).
Definition set_d_blinded_balances (m : gmap Z blinded_balance_object) (s : database) : database :=
  set_d_ledger (set_lg_blinded_balances m (d_ledger s)) s.
Definition find_by_commitment (c : Z) (s : database) : option Z :=
  find_first (λ x, bb_commitment x.2 =? c) (map_to_list (d_blinded_balances s)).
Definition create_blinded_balance : blinded_balance_object → DB Z :=
  create_in d_blinded_balances set_d_blinded_balances ni_blinded_balance set_ni_blinded_balance
    (λ b s, fresh_key bb_commitment b (d_blinded_balances s)).
Definition get_blinded_balance : Z → DB blinded_balance_object := get_from d_blinded_balances.
Definition remove_blinded_balance : Z → DB unit := remove_from d_blinded_balances set_d_blinded_balances.

Definition d_contracts (s : database) : gmap Z contract_object := lg_contracts (d_ledger s).
Definition set_d_contracts (m : gmap Z contract_object) (s : database) : database :=
  set_d_ledger (set_lg_contracts m (d_ledger s)) s.
Definition find_contract_by_addr (addr : string) (s : database) : option Z :=
  find_first (λ x, bool_decide (ct_contract_addr x.2 = addr)) (map_to_list (d_contracts s)).
Definition create_contract : contract_object → DB Z :=
  create_in d_contracts set_d_contracts ni_contract set_ni_contract
    (λ c s, bool_decide (find_contract_by_addr (ct_contract_addr c) s = None)).
Definition get_contract : Z → DB contract_object := get_from d_contracts.
Definition modify_contract : Z → (contract_object → res contract_object) → DB unit :=
  modify_in d_contracts set_d_contracts.
Definition remove_contract : Z → DB unit := remove_from d_contracts set_d_contracts.

(** ** Derived accessors *)

Definition head_block_time : DB Z := gets d_head_block_time.
Definition next_maintenance_time : DB Z := gets d_next_maintenance_time.
Definition global_parameters : DB chain_parameters := gets d_parameters.

(** [asset.dynamic_asset_data_id(db)] and its modification. *)
Definition get_dynamic_of (a : Z) : DB asset_dynamic_data_object :=
  let! ao := get_asset a in get_dynamic (as_dynamic_asset_data_id ao).
Definition modify_dynamic_of (a : Z)
    (f : asset_dynamic_data_object → res asset_dynamic_data_object) : DB unit :=
  let! ao := get_asset a in modify_dynamic (as_dynamic_asset_data_id ao) f.

(** [asset.bitasset_data(db)]: the identifier, asserting that the asset is
    market issued. *)
Definition bitasset_id_of (a : Z) : DB Z :=
  let! ao := get_asset a in
  lift (of_option AssertFailure (as_bitasset_data_id ao)).
Definition get_bitasset_of (a : Z) : DB asset_bitasset_data_object :=
  let! b := bitasset_id_of a in get_bitasset b.
Definition modify_bitasset_of (a : Z)
    (f : asset_bitasset_data_object → res asset_bitasset_data_object) : DB unit :=
  let! b := bitasset_id_of a in modify_bitasset b f.

(** [account.statistics(db)] *)
Definition modify_statistics_of (account : Z)
    (f : account_statistics_object → res account_statistics_object) : DB unit :=
  let! ac := get_account account in modify_statistics (ac_statistics ac) f.

(** [database::push_applied_operation]; block and transaction coordinates of
    the history record are left out. *)
Definition push_applied_operation (op : operation) : DB unit :=
  put (λ s, set_d_applied_ops (d_applied_ops s ++ [op]) s).

(** ** Rules for the operations on objects *)

Section rules.
Context {V : Type} (proj : database → gmap Z V) (upd : gmap Z V → database → database).

Lemma post_get id s Q :
  (∀ v, proj s !! id = Some v → Q v s) → post (get_from proj id) s Q.
Proof.
  intros H v s'. unfold get_from. destruct (proj s !! id) as [w|] eqn:E; [|done].
  intros [= <- <-]. by apply H.
Qed.

Lemma post_modify id f s (Q : unit → database → Prop) :
  (∀ v v', proj s !! id = Some v → f v = Ok v' → Q tt (upd (<[id:=v']> (proj s)) s)) →
  post (modify_in proj upd id f) s Q.
Proof.
  intros H u s'. unfold modify_in. destruct (proj s !! id) as [w|] eqn:E; [|done].
  destruct (f w) as [w'|] eqn:Ef; [|done]. intros [= <- <-]. by eapply H.
Qed.

Lemma post_remove id s (Q : unit → database → Prop) :
  (∀ v, proj s !! id = Some v → Q tt (upd (delete id (proj s)) s)) →
  post (remove_from proj upd id) s Q.
Proof.
  intros H u s'. unfold remove_from. destruct (proj s !! id) as [w|] eqn:E; [|done].
  intros [= <- <-]. by eapply H.
Qed.

Lemma post_create next set_next ok v s (Q : Z → database → Prop) :
  (∀ id, id = next (d_next_ids s) → proj s !! id = None → ok v s = true →
     Q id (set_d_next_ids (set_next (id + 1) (d_next_ids s)) (upd (<[id:=v]> (proj s)) s))) →
  post (create_in proj upd next set_next ok v) s Q.
Proof.
  intros H id s'. unfold create_in. case_match; [|done]. intros [= <- <-]. btrue. by apply H.
Qed.
End rules.

Lemma post_bitasset_id_of a s Q :
  (∀ ao b, d_assets s !! a = Some ao → as_bitasset_data_id ao = Some b → Q b s) →
  post (bitasset_id_of a) s Q.
Proof.
  intros H. unfold bitasset_id_of. pstep. apply post_get. intros ao Ha. pstep.
  intros b Hb%of_option_ok. by eapply H.
Qed.

Lemma post_get_bitasset_of a s Q :
  (∀ ao b bd, d_assets s !! a = Some ao → as_bitasset_data_id ao = Some b →
     d_bitassets s !! b = Some bd → Q bd s) →
  post (get_bitasset_of a) s Q.
Proof.
  intros H. unfold get_bitasset_of. pstep. apply post_bitasset_id_of. intros.
  apply post_get. eauto.
Qed.

Lemma post_modify_bitasset_of a f s (Q : unit → database → Prop) :
  (∀ ao b bd bd', d_assets s !! a = Some ao → as_bitasset_data_id ao = Some b →
     d_bitassets s !! b = Some bd → f bd = Ok bd' →
     Q tt (set_d_bitassets (<[b:=bd']> (d_bitassets s)) s)) →
  post (modify_bitasset_of a f) s Q.
Proof.
  intros H. unfold modify_bitasset_of. pstep. apply post_bitasset_id_of. intros.
  apply post_modify. eauto.
Qed.

Lemma post_get_dynamic_of a s Q :
  (∀ ao d, d_assets s !! a = Some ao → d_dynamic s !! as_dynamic_asset_data_id ao = Some d →
     Q d s) →
  post (get_dynamic_of a) s Q.
Proof.
  intros H. unfold get_dynamic_of. pstep. apply post_get. intros. apply post_get. eauto.
Qed.

Lemma post_modify_dynamic_of a f s (Q : unit → database → Prop) :
  (∀ ao d d', d_assets s !! a = Some ao → d_dynamic s !! as_dynamic_asset_data_id ao = Some d →
     f d = Ok d' → Q tt (set_d_dynamic (<[as_dynamic_asset_data_id ao:=d']> (d_dynamic s)) s)) →
  post (modify_dynamic_of a f) s Q.
Proof.
  intros H. unfold modify_dynamic_of. pstep. apply post_get. intros. apply post_modify. eauto.
Qed.

Lemma post_modify_statistics_of acct f s (Q : unit → database → Prop) :
  (∀ st id v, d_statistics s !! id = Some st → f st = Ok v →
     Q tt (set_d_statistics (<[id:=v]> (d_statistics s)) s)) →
  post (modify_statistics_of acct f) s Q.
Proof.
  intros H. unfold modify_statistics_of. pstep. apply post_get. intros. apply post_modify. eauto.
Qed.

(** The log of virtual operations. *)
Lemma post_push_if (b : bool) op s (Q : unit → database → Prop) :
  (∀ ops, Q tt (set_d_applied_ops ops s)) →
  post (if b then push_applied_operation op else ret tt) s Q.
Proof.
  intros H. destruct b; [apply post_put, H|]. apply post_ret.
  assert (set_d_applied_ops (d_applied_ops s) s = s) as E by (by destruct s).
  pose proof (H (d_applied_ops s)) as Hs. by rewrite E in Hs.
Qed.

(** One step of symbolic execution that knows the database. *)
Ltac dstep :=
  lazymatch goal with
  | |- post (get_bitasset_of _) _ _ => apply post_get_bitasset_of; intros
  | |- post (bitasset_id_of _) _ _ => apply post_bitasset_id_of; intros
  | |- post (modify_bitasset_of _ _) _ _ => apply post_modify_bitasset_of; intros
  | |- post (get_dynamic_of _) _ _ => apply post_get_dynamic_of; intros
  | |- post (modify_dynamic_of _ _) _ _ => apply post_modify_dynamic_of; intros
  | |- post (modify_statistics_of _ _) _ _ => apply post_modify_statistics_of; intros
  | |- post (head_block_time) _ _ => apply post_gets
  | |- post (next_maintenance_time) _ _ => apply post_gets
  | |- post (global_parameters) _ _ => apply post_gets
  | |- post (push_applied_operation _) _ _ => apply post_put
  | |- post (if _ then push_applied_operation _ else ret tt) _ _ => apply post_push_if; intros
  | |- post (get_from _ _) _ _ => apply post_get; intros
  | |- post (get_account _) _ _ => apply post_get; intros
  | |- post (get_statistics _) _ _ => apply post_get; intros
  | |- post (get_asset _) _ _ => apply post_get; intros
  | |- post (get_dynamic _) _ _ => apply post_get; intros
  | |- post (get_bitasset _) _ _ => apply post_get; intros
  | |- post (get_limit _) _ _ => apply post_get; intros
  | |- post (get_call _) _ _ => apply post_get; intros
  | |- post (get_settle _) _ _ => apply post_get; intros
  | |- post (get_bid _) _ _ => apply post_get; intros
  | |- post (get_vesting _) _ _ => apply post_get; intros
  | |- post (get_fba _) _ _ => apply post_get; intros
  | |- post (get_genesis_balance _) _ _ => apply post_get; intros
  | |- post (get_withdraw_permission _) _ _ => apply post_get; intros
  | |- post (get_witness _) _ _ => apply post_get; intros
  | |- post (get_committee_member _) _ _ => apply post_get; intros
  | |- post (get_worker _) _ _ => apply post_get; intros
  | |- post (get_gov _) _ _ => apply post_gets
  | |- post (put_gov _) _ _ => apply post_put
  | |- post (modify_statistics _ _) _ _ => apply post_modify; intros
  | |- post (modify_asset _ _) _ _ => apply post_modify; intros
  | |- post (modify_account _ _) _ _ => apply post_modify; intros
  | |- post (modify_dynamic _ _) _ _ => apply post_modify; intros
  | |- post (modify_bitasset _ _) _ _ => apply post_modify; intros
  | |- post (modify_limit _ _) _ _ => apply post_modify; intros
  | |- post (modify_call _ _) _ _ => apply post_modify; intros
  | |- post (modify_settle _ _) _ _ => apply post_modify; intros
  | |- post (modify_bid _ _) _ _ => apply post_modify; intros
  | |- post (modify_vesting _ _) _ _ => apply post_modify; intros
  | |- post (modify_fba _ _) _ _ => apply post_modify; intros
  | |- post (modify_genesis_balance _ _) _ _ => apply post_modify; intros
  | |- post (modify_withdraw_permission _ _) _ _ => apply post_modify; intros
  | |- post (modify_witness _ _) _ _ => apply post_modify; intros
  | |- post (modify_committee_member _ _) _ _ => apply post_modify; intros
  | |- post (modify_worker _ _) _ _ => apply post_modify; intros
  | |- post (remove_limit _) _ _ => apply post_remove; intros
  | |- post (remove_call _) _ _ => apply post_remove; intros
  | |- post (remove_settle _) _ _ => apply post_remove; intros
  | |- post (remove_bid _) _ _ => apply post_remove; intros
  | |- post (remove_genesis_balance _) _ _ => apply post_remove; intros
  | |- post (remove_withdraw_permission _) _ _ => apply post_remove; intros
  | |- post (create_limit _) _ _ => apply post_create; intros
  | |- post (create_call _) _ _ => apply post_create; intros
  | |- post (create_settle _) _ _ => apply post_create; intros
  | |- post (create_bid _) _ _ => apply post_create; intros
  | |- post (create_vesting _) _ _ => apply post_create; intros
  | |- post (create_dynamic _) _ _ => apply post_create; intros
  | |- post (create_bitasset _) _ _ => apply post_create; intros
  | |- post (create_asset _) _ _ => apply post_create; intros
  | |- post (create_withdraw_permission _) _ _ => apply post_create; intros
  | |- post (create_witness _) _ _ => apply post_create; intros
  | |- post (create_committee_member _) _ _ => apply post_create; intros
  | |- post (create_worker _) _ _ => apply post_create; intros
  | |- post (create_account _) _ _ => apply post_create; intros
  | |- post (create_statistics _) _ _ => apply post_create; intros
  | |- post (create_special_authority _) _ _ => apply post_create; intros
  | |- post (create_buyback _) _ _ => apply post_create; intros
  | |- post (create_proposal _) _ _ => apply post_create; intros
  | |- post (create_blinded_balance _) _ _ => apply post_create; intros
  | |- post (create_contract _) _ _ => apply post_create; intros
  | |- post (create_transaction _) _ _ => apply post_create; intros
  | |- post (remove_special_authority _) _ _ => apply post_remove; intros
  | |- post (remove_proposal _) _ _ => apply post_remove; intros
  | |- post (remove_blinded_balance _) _ _ => apply post_remove; intros
  | |- post (remove_contract _) _ _ => apply post_remove; intros
  | |- post (remove_transaction _) _ _ => apply post_remove; intros
  | |- post (get_proposal _) _ _ => apply post_get; intros
  | |- post (get_block_summary _) _ _ => apply post_get; intros
  | |- post (get_blinded_balance _) _ _ => apply post_get; intros
  | |- post (get_contract _) _ _ => apply post_get; intros
  | |- post (modify_proposal _ _) _ _ => apply post_modify; intros
  | |- post (modify_block_summary _ _) _ _ => apply post_modify; intros
  | |- post (modify_contract _ _) _ _ => apply post_modify; intros
  | _ => pstep
  end.

(** Two lookups of one key have found the same entry. *)
Ltac same_entries :=
  simpl in *;
  repeat match goal with
  | H : <[?k:=?x]> _ !! ?k = Some ?y |- _ =>
    rewrite lookup_insert_eq in H; injection H as H; first [subst y | subst x | idtac]
  | H1 : ?m !! ?k = Some ?x, H2 : ?m !! ?k = Some ?y |- _ =>
    assert_fails (constr_eq x y); rewrite H1 in H2; injection H2 as H2; first [subst y | subst x | idtac]
  end.
