(* ===== verification/Vesting.v ===== *)
(** * Vesting policies

    Models chain/vesting_balance_object.cpp: the linear and the coin-days
    (cdd) vesting policy, and the deposit and withdrawal of a vesting balance.
    [assert] is not part of a release build; VestingTheory.v
    says which of the asserted conditions hold. *)

From S2P Require Import Prelude Ext Config Asset Objects.

(** [vesting_policy_context] *)
Record vesting_policy_context := mk_context {
  ctx_balance : asset;
  ctx_now : Z;
  ctx_amount : asset;
}.

(** [std::max(vesting_seconds, 1u)] *)
Definition seconds1 (p : cdd_vesting_policy) : Z := Z.max (cdd_vesting_seconds p) 1.

(** A 64 bit product of built-in integers, as two's complement. *)
Definition wrap64 (z : Z) : Z := (z + 2 ^ 63) mod 2 ^ 64 - 2 ^ 63.

Section policies.
Context {X : Ext}.

Definition sum_below_max_shares (a b : asset) : res bool :=
  if (amount a <=? GRAPHENE_MAX_SHARE_SUPPLY) && (amount b <=? GRAPHENE_MAX_SHARE_SUPPLY)
  then let? r := safe (amount a + amount b) in Ok (r <=? GRAPHENE_MAX_SHARE_SUPPLY)
  else Ok false.

(** ** linear_vesting_policy *)

Definition linear_get_allowed_withdraw (p : linear_vesting_policy) (ctx : vesting_policy_context) : res asset :=
  let? allowed_withdraw :=
    if lv_begin_timestamp p <? ctx_now ctx then
      let elapsed_seconds := ctx_now ctx - lv_begin_timestamp p in
      if lv_vesting_cliff_seconds p <=? elapsed_seconds then
        let total_vested :=
          if elapsed_seconds <? lv_vesting_duration_seconds p then
            to_uint64 (fc_u128 (fc_u128 (lv_begin_balance p) * elapsed_seconds)
                       / lv_vesting_duration_seconds p)
          else lv_begin_balance p in
        let? withdrawn_already := safe (lv_begin_balance p - amount (ctx_balance ctx)) in
        safe (total_vested - withdrawn_already)
      else Ok 0
    else Ok 0 in
  Ok (mk_asset allowed_withdraw (asset_id (ctx_balance ctx))).

Definition linear_is_deposit_allowed (p : linear_vesting_policy) (ctx : vesting_policy_context) : res bool :=
  if asset_id (ctx_amount ctx) =? asset_id (ctx_balance ctx)
  then sum_below_max_shares (ctx_amount ctx) (ctx_balance ctx)
  else Ok false.

Definition linear_is_withdraw_allowed (p : linear_vesting_policy) (ctx : vesting_policy_context) : res bool :=
  if asset_id (ctx_amount ctx) =? asset_id (ctx_balance ctx) then
    let? allowed := linear_get_allowed_withdraw p ctx in
    asset_le (ctx_amount ctx) allowed
  else Ok false.

(** ** cdd_vesting_policy *)

Definition compute_coin_seconds_earned (p : cdd_vesting_policy) (ctx : vesting_policy_context) : Z :=
  let delta_seconds := ctx_now ctx - cdd_coin_seconds_earned_last_update p in
  let delta_coin_seconds := fc_u128 (fc_u128 (amount (ctx_balance ctx)) * delta_seconds) in
  let coin_seconds_earned_cap := fc_u128 (fc_u128 (amount (ctx_balance ctx)) * seconds1 p) in
  Z.min (fc_u128 (cdd_coin_seconds_earned p + delta_coin_seconds)) coin_seconds_earned_cap.

Definition update_coin_seconds_earned (p : cdd_vesting_policy) (ctx : vesting_policy_context) : cdd_vesting_policy :=
  set_cdd_coin_seconds_earned_last_update (ctx_now ctx)
    (set_cdd_coin_seconds_earned (compute_coin_seconds_earned p ctx) p).

Definition cdd_get_allowed_withdraw (p : cdd_vesting_policy) (ctx : vesting_policy_context) : asset :=
  if ctx_now ctx <=? cdd_start_claim p then mk_asset 0 (asset_id (ctx_balance ctx))
  else
    let cs_earned := compute_coin_seconds_earned p ctx in
    let withdraw_available := cs_earned / seconds1 p in
    mk_asset (to_uint64 withdraw_available) (asset_id (ctx_balance ctx)).

Definition cdd_on_deposit (p : cdd_vesting_policy) (ctx : vesting_policy_context) : cdd_vesting_policy :=
  update_coin_seconds_earned p ctx.

Definition cdd_on_deposit_vested (p : cdd_vesting_policy) (ctx : vesting_policy_context) : cdd_vesting_policy :=
  let p := cdd_on_deposit p ctx in
  set_cdd_coin_seconds_earned
    (fc_u128 (cdd_coin_seconds_earned p + fc_u128 (wrap64 (amount (ctx_amount ctx) * seconds1 p)))) p.

Definition cdd_on_withdraw (p : cdd_vesting_policy) (ctx : vesting_policy_context) : cdd_vesting_policy :=
  let p := update_coin_seconds_earned p ctx in
  let coin_seconds_needed := fc_u128 (fc_u128 (amount (ctx_amount ctx)) * seconds1 p) in
  set_cdd_coin_seconds_earned (fc_u128 (cdd_coin_seconds_earned p - coin_seconds_needed)) p.

Definition cdd_is_deposit_allowed (p : cdd_vesting_policy) (ctx : vesting_policy_context) : res bool :=
  if asset_id (ctx_amount ctx) =? asset_id (ctx_balance ctx)
  then sum_below_max_shares (ctx_amount ctx) (ctx_balance ctx)
  else Ok false.

Definition cdd_is_deposit_vested_allowed (p : cdd_vesting_policy) (ctx : vesting_policy_context) : res bool :=
  cdd_is_deposit_allowed p ctx.

Definition cdd_is_withdraw_allowed (p : cdd_vesting_policy) (ctx : vesting_policy_context) : res bool :=
  asset_le (ctx_amount ctx) (cdd_get_allowed_withdraw p ctx).

(** ** vesting_balance_object: the visitors dispatch on the policy *)

Definition vb_is_deposit_allowed (v : vesting_balance_object) (now : Z) (x : asset) : res bool :=
  let ctx := mk_context (vb_balance v) now x in
  match vb_policy v with
  | linear_policy p => linear_is_deposit_allowed p ctx
  | cdd_policy p => cdd_is_deposit_allowed p ctx
  end.

Definition vb_is_deposit_vested_allowed (v : vesting_balance_object) (now : Z) (x : asset) : res bool :=
  let ctx := mk_context (vb_balance v) now x in
  match vb_policy v with
  | linear_policy _ => Ok false
  | cdd_policy p => cdd_is_deposit_vested_allowed p ctx
  end.

Definition vb_is_withdraw_allowed (v : vesting_balance_object) (now : Z) (x : asset) : res bool :=
  let ctx := mk_context (vb_balance v) now x in
  match vb_policy v with
  | linear_policy p => linear_is_withdraw_allowed p ctx
  | cdd_policy p => cdd_is_withdraw_allowed p ctx
  end.

Definition vb_get_allowed_withdraw (v : vesting_balance_object) (now : Z) : res asset :=
  let ctx := mk_context (vb_balance v) now (mk_asset 0 CORE) in
  match vb_policy v with
  | linear_policy p => linear_get_allowed_withdraw p ctx
  | cdd_policy p => Ok (cdd_get_allowed_withdraw p ctx)
  end.

Definition vb_deposit (v : vesting_balance_object) (now : Z) (x : asset) : res vesting_balance_object :=
  let ctx := mk_context (vb_balance v) now x in
  let policy :=
    match vb_policy v with
    | linear_policy p => linear_policy p
    | cdd_policy p => cdd_policy (cdd_on_deposit p ctx)
    end in
  let? b := asset_add (vb_balance v) x in
  Ok (set_vb_balance b (set_vb_policy policy v)).

(** Depositing vested funds in a linear balance raises. *)
Definition vb_deposit_vested (v : vesting_balance_object) (now : Z) (x : asset) : res vesting_balance_object :=
  let ctx := mk_context (vb_balance v) now x in
  let? policy :=
    match vb_policy v with
    | linear_policy p => Err AssertFailure
    | cdd_policy p => Ok (cdd_policy (cdd_on_deposit_vested p ctx))
    end in
  let? b := asset_add (vb_balance v) x in
  Ok (set_vb_balance b (set_vb_policy policy v)).

Definition vb_withdraw (v : vesting_balance_object) (now : Z) (x : asset) : res vesting_balance_object :=
  let ctx := mk_context (vb_balance v) now x in
  let policy :=
    match vb_policy v with
    | linear_policy p => linear_policy p
    | cdd_policy p => cdd_policy (cdd_on_withdraw p ctx)
    end in
  let? b := asset_sub (vb_balance v) x in
  Ok (set_vb_balance b (set_vb_policy policy v)).
End policies.
