(* ===== verification/Balance.v ===== *)
(** * Balances, deposits and the distribution of fees

    Models chain/db_balance.cpp and the fee handling of
    chain/account_object.cpp: account balances, lazily created vesting
    balances, cashback and witness pay, and the split of the fees an account
    has paid between the network and the referral program. *)

From S2P Require Import Prelude Ext Config Asset Objects Parameters Governance Blocks Names Operations Validation Fees Ledger Database Vesting.

Section balance.
Context {X : Ext}.

(** ** Account balances *)

(** [account_balance_object::adjust_balance] *)
Definition ab_adjust_balance (asset_type : Z) (delta : asset)
    (b : account_balance_object) : res account_balance_object :=
  let? balance := safe (ab_balance b + amount delta) in
  Ok (mk_account_balance balance
        (if asset_type =? CORE then true else ab_maintenance_flag b)).

(** [database::get_balance] *)
Definition get_balance (owner a : Z) : DB asset :=
  gets (λ s, match d_balances s !! (owner, a) with
             | Some b => mk_asset (ab_balance b) a
             | None => mk_asset 0 a
             end).

(** [database::adjust_balance] *)
Definition adjust_balance (account : Z) (delta : asset) : DB unit :=
  if amount delta =? 0 then ret tt
  else
    let! bal := gets (λ s, d_balances s !! (account, asset_id delta)) in
    match bal with
    | None =>
      require! 0 <? amount delta in
      put (λ s, set_d_balances
        (<[(account, asset_id delta) :=
             mk_account_balance (amount delta) (asset_id delta =? CORE)]> (d_balances s)) s)
    | Some b =>
      let! ok := lift (if amount delta <? 0 then
                         let? neg := asset_neg delta in
                         asset_ge (mk_asset (ab_balance b) (asset_id delta)) neg
                       else Ok true) in
      require! ok in
      let! b' := lift (ab_adjust_balance (asset_id delta) delta b) in
      put (λ s, set_d_balances (<[(account, asset_id delta) := b']> (d_balances s)) s)
    end.

(** ** Vesting deposits *)

(** The [while(true)] block of [deposit_lazy_vesting]: the balance given can
    be reused when it exists, has the required owner and the required cdd
    policy. *)
Definition reusable_vesting (vbo : vesting_balance_object) (req_vesting_seconds req_owner : Z) : bool :=
  (vb_owner vbo =? req_owner) &&
  match vb_policy vbo with
  | cdd_policy p => cdd_vesting_seconds p =? req_vesting_seconds
  | linear_policy _ => false
  end.

(** [database::deposit_lazy_vesting]; the product that initialises
    [coin_seconds_earned] is a built-in 64 bit one. *)
Definition deposit_lazy_vesting (ovbid : option Z) (amount : Z) (req_vesting_seconds : Z)
    (req_owner : Z) (require_vesting : bool) : DB (option Z) :=
  if amount =? 0 then ret None
  else
    let! now := head_block_time in
    let! reuse := match ovbid with
                  | None => ret None
                  | Some vbid =>
                    let! vbo := get_vesting vbid in
                    ret (if reusable_vesting vbo req_vesting_seconds req_owner
                         then Some vbid else None)
                  end in
    match reuse with
    | Some vbid =>
      do! modify_vesting vbid (λ vbo,
            if require_vesting then vb_deposit vbo now (mk_asset amount CORE)
            else vb_deposit_vested vbo now (mk_asset amount CORE)) in
      ret None
    | None =>
      let policy := mk_cdd_policy req_vesting_seconds
        (if require_vesting then 0 else fc_u128 (wrap64 (amount * req_vesting_seconds)))
        time_zero now in
      let! vbid := create_vesting
        (mk_vesting_balance req_owner (mk_asset amount CORE) (cdd_policy policy)) in
      ret (Some vbid)
    end.

(** The accounts that receive no cashback. *)
Definition is_blockchain_account (a : Z) : bool :=
  (a =? GRAPHENE_COMMITTEE_ACCOUNT) || (a =? GRAPHENE_WITNESS_ACCOUNT) ||
  (a =? GRAPHENE_RELAXED_COMMITTEE_ACCOUNT) || (a =? GRAPHENE_NULL_ACCOUNT) ||
  (a =? GRAPHENE_TEMP_ACCOUNT).

(** [database::deposit_cashback] *)
Definition deposit_cashback (acct : Z) (amount : Z) (require_vesting : bool) : DB unit :=
  let! ac := get_account acct in
  if amount =? 0 then ret tt
  else if is_blockchain_account acct then
    modify_dynamic_of CORE (λ d,
      let? v := safe (current_supply d - amount) in Ok (set_current_supply v d))
  else
    let! params := global_parameters in
    let! new_vbid := deposit_lazy_vesting (ac_cashback_vb ac) amount
      (cp_cashback_vesting_period_seconds params) acct require_vesting in
    match new_vbid with
    | Some vbid =>
      do! modify_account acct (λ a, Ok (set_ac_cashback_vb (Some vbid) a)) in
      modify_statistics_of acct (λ st, Ok (set_st_has_cashback_vb true st))
    | None => ret tt
    end.

(** [database::deposit_witness_pay] *)
Definition deposit_witness_pay (wit : Z) (amount : Z) : DB unit :=
  let! w := get_witness wit in
  if amount =? 0 then ret tt
  else
    let! params := global_parameters in
    let! new_vbid := deposit_lazy_vesting (wit_pay_vb w) amount
      (cp_witness_pay_vesting_seconds params) (wit_witness_account w) true in
    match new_vbid with
    | Some vbid => modify_witness wit (λ w, Ok (set_wit_pay_vb (Some vbid) w))
    | None => ret tt
    end.

(** ** Fees paid by an account *)

(** [cut_fee]: a percentage of an amount, in units of 1/10000. *)
Definition cut_fee (a p : Z) : Z :=
  if (a =? 0) || (p =? 0) then 0
  else if p =? GRAPHENE_100_PERCENT then a
  else i64_of_u64 (to_uint64 (fc_u128 (fc_u128 a * p) / GRAPHENE_100_PERCENT)).

(** [account_statistics_object::pay_fee] *)
Definition pay_fee (core_fee cashback_vesting_threshold : Z)
    (st : account_statistics_object) : res account_statistics_object :=
  if cashback_vesting_threshold <? core_fee then
    let? v := safe (st_pending_fees st + core_fee) in Ok (set_st_pending_fees v st)
  else
    let? v := safe (st_pending_vested_fees st + core_fee) in Ok (set_st_pending_vested_fees v st).

(** The lambda [pay_out_fees] of [process_fees]. *)
Definition pay_out_fees (acct : Z) (core_fee_total : Z) (require_vesting : bool) : DB unit :=
  let! now := head_block_time in
  let! account := get_account acct in
  let! referrer := get_account (ac_referrer account) in
  do! (if is_basic_account referrer now
       then modify_account acct (λ a, Ok (set_ac_referrer (ac_lifetime_referrer a) a))
       else ret tt) in
  let! account := get_account acct in
  let network_cut := cut_fee core_fee_total (ac_network_fee_percentage account) in
  let lifetime_cut := cut_fee core_fee_total (ac_lifetime_referrer_fee_percentage account) in
  let! r := lift (safe (core_fee_total - network_cut)) in
  let! referral := lift (safe (r - lifetime_cut)) in
  do! modify_dynamic_of CORE (λ d,
        let? v := safe (accumulated_fees d + network_cut) in Ok (set_accumulated_fees v d)) in
  let referrer_cut := cut_fee referral (ac_referrer_rewards_percentage account) in
  let! registrar_cut := lift (safe (referral - referrer_cut)) in
  do! deposit_cashback (ac_lifetime_referrer account) lifetime_cut require_vesting in
  do! deposit_cashback (ac_referrer account) referrer_cut require_vesting in
  deposit_cashback (ac_registrar account) registrar_cut require_vesting.

(** [account_statistics_object::process_fees] *)
Definition process_fees (stats : Z) (acct : Z) : DB unit :=
  let! st := get_statistics stats in
  if has_pending_fees st then
    do! pay_out_fees acct (st_pending_fees st) true in
    do! pay_out_fees acct (st_pending_vested_fees st) false in
    modify_statistics stats (λ s,
      let? paid := safe (st_pending_fees s + st_pending_vested_fees s) in
      let? v := safe (st_lifetime_fees_paid s + paid) in
      Ok (set_st_pending_vested_fees 0 (set_st_pending_fees 0 (set_st_lifetime_fees_paid v s))))
  else ret tt.
End balance.
