(* ===== verification/CallOrder.v ===== *)
(** * How much debt a margin call covers

    Models [call_order_object::get_max_debt_to_cover] of
    chain/market_object.cpp: the amount of debt to cover so that a called
    position ends just above its target collateral ratio. The C++ function is
    one body; here its closed formula, its binary search and its forward search
    are separate definitions, composed in [get_max_debt_to_cover]. *)

From S2P Require Import Prelude Ext Config Asset Objects Parameters Blocks Names Operations Validation Fees Ledger.

(** ** The state of the binary search *)
Record search := mk_search {
  min_to_pay : asset; min_to_cover : asset;
  max_to_pay : asset; max_to_cover : asset;
  max_is_ok : bool;
}.

(** What one pass through the body of [while( true )] does. *)
Inductive search_step :=
  | search_return (amt : Z)
  | search_break (to_pay to_cover : asset)
  | search_continue (st : search).

(** Passes allowed to the two loops; [binary_search_in_time]
    and [forward_search_in_time] of TargetRatio.v show that they suffice. *)
Definition search_fuel : nat := 200.
Definition forward_fuel : nat := 200.

Definition set_amount (v : Z) (a : asset) : asset := mk_asset v (asset_id a).

Section call_order.
Context {X : Ext}.
Variable call : call_order_object.
Variables (match_price feed_price : price) (tcr : Z).

Definition mul256 (a b : Z) : Z := i256 (a * b).

(** [price::call_price( get_debt() - to_cover, get_collateral() - to_pay, tcr )] *)
Definition price_after (to_pay to_cover : asset) : res price :=
  let? debt := asset_sub (get_debt call) to_cover in
  let? collateral := asset_sub (get_collateral call) to_pay in
  call_price debt collateral tcr.

(** "get the mean": the candidate of this pass, stabilised by rounding. *)
Definition search_mean (st : search) : res (asset * asset) :=
  let at_max := (set_amount (amount (max_to_pay st)) (get_collateral call),
                 set_amount (amount (max_to_cover st)) (get_debt call)) in
  if amount (base match_price) <? amount (quote match_price) then
    let? a := safe (amount (min_to_pay st) + amount (max_to_pay st)) in
    let? b := safe (a + 1) in
    let to_pay := set_amount (Z.quot b 2) (get_collateral call) in
    if amount to_pay =? amount (max_to_pay st) then Ok at_max
    else
      let? to_cover := asset_mul to_pay match_price in
      if amount (max_to_cover st) <=? amount to_cover then Ok at_max
      else
        let? to_pay := multiply_and_round_up to_cover match_price in
        require? amount to_pay <? amount (max_to_pay st) in
        Ok (to_pay, to_cover)
  else
    let? a := safe (amount (min_to_cover st) + amount (max_to_cover st)) in
    let to_cover := set_amount (Z.quot a 2) (get_debt call) in
    if amount to_cover =? amount (max_to_cover st) then Ok at_max
    else
      let? to_pay := multiply_and_round_up to_cover match_price in
      if amount (max_to_pay st) <=? amount to_pay then Ok at_max
      else
        let? to_cover := asset_mul to_pay match_price in
        if amount (max_to_cover st) <=? amount to_cover then Ok at_max
        else Ok (to_pay, to_cover).

(** "check again to see if we've moved away from the minimums" *)
Definition search_adjust (st : search) (c : asset * asset) : asset * asset :=
  let '(to_pay, to_cover) := c in
  if (amount to_pay <=? amount (min_to_pay st)) || (amount to_cover <=? amount (min_to_cover st))
     || (amount (max_to_pay st) <? amount to_pay) || (amount (max_to_cover st) <? amount to_cover)
  then (set_amount (amount (max_to_pay st)) to_pay, set_amount (amount (max_to_cover st)) to_cover)
  else c.

(** "check the mean" *)
Definition search_check (st : search) (c : asset * asset) : res search_step :=
  let '(to_pay, to_cover) := c in
  if (amount to_pay =? amount (max_to_pay st)) &&
     (max_is_ok st || (amount to_pay =? co_collateral call))
  then Ok (search_return (amount to_cover))
  else
    require? (amount to_pay <? co_collateral call) && (amount to_cover <? co_debt call) in
    let? new_call_price := price_after to_pay to_cover in
    if price_gtb new_call_price feed_price then
      if amount to_pay =? amount (max_to_pay st) then Ok (search_return (amount to_cover))
      else Ok (search_continue (mk_search (min_to_pay st) (min_to_cover st)
                 (set_amount (amount to_pay) (max_to_pay st))
                 (set_amount (amount to_cover) (max_to_cover st)) true))
    else
      if amount to_pay =? amount (max_to_pay st) then Ok (search_break to_pay to_cover)
      else Ok (search_continue (mk_search
                 (set_amount (amount to_pay) (min_to_pay st))
                 (set_amount (amount to_cover) (min_to_cover st))
                 (max_to_pay st) (max_to_cover st) (max_is_ok st))).

Definition search_body (st : search) : res search_step :=
  let? c := search_mean st in
  search_check st (search_adjust st c).

(** The [while( true )] loop: either a result, or the point it breaks at. *)
Fixpoint binary_search (fuel : nat) (st : search) : res (Z + asset * asset) :=
  match fuel with
  | O => Err OutOfFuel
  | S fuel' =>
    let? r := search_body st in
    match r with
    | search_return v => Ok (inl v)
    | search_break to_pay to_cover => Ok (inr (to_pay, to_cover))
    | search_continue st' => binary_search fuel' st'
    end
  end.

(** One step of "search forward": [inl] is a [return]. *)
Definition forward_body (to_pay to_cover : asset) (d2 : Z) : res (Z + asset * asset) :=
  let debt := co_debt call in
  let collateral := co_collateral call in
  let? cand :=
    if amount (quote match_price) <? amount (base match_price) then
      let? a := safe (amount to_pay + i64_of_u64 d2) in
      let to_pay := set_amount a to_pay in
      if collateral <=? amount to_pay then Ok (inl debt)
      else
        let? to_cover := asset_mul to_pay match_price in
        if debt <=? amount to_cover then Ok (inl debt)
        else
          let? to_pay := multiply_and_round_up to_cover match_price in
          if collateral <=? amount to_pay then Ok (inl debt)
          else Ok (inr (to_pay, to_cover))
    else
      let? a := safe (amount to_cover + i64_of_u64 d2) in
      let to_cover := set_amount a to_cover in
      if debt <=? amount to_cover then Ok (inl debt)
      else
        let? to_pay := multiply_and_round_up to_cover match_price in
        if collateral <=? amount to_pay then Ok (inl debt)
        else
          let? to_cover := asset_mul to_pay match_price in
          if debt <=? amount to_cover then Ok (inl debt)
          else Ok (inr (to_pay, to_cover)) in
  match cand with
  | inl v => Ok (inl v)
  | inr (to_pay, to_cover) =>
    require? (amount to_pay <? collateral) && (amount to_cover <? debt) in
    let? new_call_price := price_after to_pay to_cover in
    if price_gtb new_call_price feed_price then Ok (inl (amount to_cover))
    else Ok (inr (to_pay, to_cover))
  end.

(** [for( uint64_t d1 = 0, d2 = 1, d3 = 1; ; d1 = d2, d2 = d3, d3 = d1 + d2 )] *)
Fixpoint forward_search (fuel : nat) (to_pay to_cover : asset) (d2 d3 : Z) : res Z :=
  match fuel with
  | O => Err OutOfFuel
  | S fuel' =>
    let? r := forward_body to_pay to_cover d2 in
    match r with
    | inl v => Ok v
    | inr (to_pay, to_cover) => forward_search fuel' to_pay to_cover d3 (u64 (d2 + d3))
    end
  end.

(** The amount without the fraction: numerator and denominator of the closed
    formula. *)
Definition cover_numerator : Z :=
  i256 (mul256 (mul256 (mul256 (amount (base feed_price)) (amount (quote match_price)))
                       (co_debt call)) tcr
        - mul256 (mul256 (mul256 (amount (quote feed_price)) (amount (quote match_price)))
                         (co_collateral call)) GRAPHENE_COLLATERAL_RATIO_DENOM).
Definition cover_denominator : Z :=
  i256 (mul256 (mul256 (amount (base feed_price)) (amount (quote match_price))) tcr
        - mul256 (mul256 (amount (quote feed_price)) (amount (base match_price)))
                 GRAPHENE_COLLATERAL_RATIO_DENOM).

(** "deal with the fraction", then search. *)
Definition cover_with_fraction (to_pay to_cover : asset) : res Z :=
  let debt := co_debt call in
  let collateral := co_collateral call in
  let numerator := i256 (cover_numerator
    + mul256 (mul256 (amount (base feed_price)) (amount (quote match_price))) tcr) in
  let to_cover_i256 := Z.quot numerator cover_denominator + 1 in
  let to_cover_amt := if debt <=? to_cover_i256 then debt else to_cover_i256 in
  let? max_to_pay :=
    if to_cover_amt =? debt then Ok (get_collateral call)
    else multiply_and_round_up (mk_asset to_cover_amt (co_debt_type call)) match_price in
  let max_to_pay :=
    if collateral <? amount max_to_pay then set_amount collateral max_to_pay else max_to_pay in
  let? max_to_cover :=
    if amount max_to_pay =? collateral then Ok (get_debt call)
    else asset_mul max_to_pay match_price in
  let '(max_to_pay, max_to_cover) :=
    if debt <=? amount max_to_cover
    then (set_amount collateral max_to_pay, set_amount debt max_to_cover)
    else (max_to_pay, max_to_cover) in
  let? strange_pay := asset_le max_to_pay to_pay in
  let? strange_cover := if strange_pay then Ok true else asset_le max_to_cover to_cover in
  if strange_cover then Ok debt
  else
    let? r := binary_search search_fuel
                (mk_search to_pay to_cover max_to_pay max_to_cover false) in
    match r with
    | inl v => Ok v
    | inr (to_pay, to_cover) => forward_search forward_fuel to_pay to_cover 1 1
    end.

(** From the closed formula on: both prices are in collateral / debt format. *)
Definition cover_formula : res Z :=
  let debt := co_debt call in
  let collateral := co_collateral call in
  if cover_numerator <? 0 then Ok 0
  else if cover_denominator <=? 0 then Ok debt
  else
    let to_cover_i256 := Z.quot cover_numerator cover_denominator in
    if debt <=? to_cover_i256 then Ok debt
    else
      let to_cover_amt := to_cover_i256 in
      let? to_pay := asset_mul (mk_asset to_cover_amt (co_debt_type call)) match_price in
      let? to_cover := asset_mul to_pay match_price in
      let? to_pay := multiply_and_round_up to_cover match_price in
      if (debt <=? amount to_cover) || (collateral <=? amount to_pay) then Ok debt
      else
        let? new_call_price := price_after to_pay to_cover in
        if price_gtb new_call_price feed_price then Ok (amount to_cover)
        else cover_with_fraction to_pay to_cover.
End call_order.

Section max_debt.
Context {X : Ext}.

(** A price brought in collateral / debt format. *)
Definition in_call_format (call : call_order_object) (p : price) : res price :=
  let p := if negb (asset_id (base p) =? asset_id (base (co_call_price call)))
           then price_inv p else p in
  require? (asset_id (base p) =? asset_id (base (co_call_price call))) &&
           (asset_id (quote p) =? asset_id (quote (co_call_price call))) in
  Ok p.

(** [call_order_object::get_max_debt_to_cover] *)
Definition get_max_debt_to_cover (call : call_order_object) (match_price feed_price : price)
    (maintenance_collateral_ratio : Z) : res Z :=
  let? feed_price := in_call_format call feed_price in
  if price_gtb (co_call_price call) feed_price then Ok 0
  else
    match co_target_collateral_ratio call with
    | None => Ok (co_debt call)
    | Some target =>
      let tcr := Z.max target maintenance_collateral_ratio in
      let? match_price := in_call_format call match_price in
      cover_formula call match_price feed_price tcr
    end.
End max_debt.
