(* ===== verification/Market.v ===== *)
(** * The market engine

    Models chain/db_market.cpp and [check_for_blackswan] of chain/db_update.cpp:
    filling and cancelling orders, matching a pair of orders, margin calls,
    global settlement and the revival of a globally settled asset. Every
    function takes the identifiers of the objects its C++ counterpart takes by
    reference. The optional [bitasset_ptr] of [check_for_blackswan] and
    [check_call_orders] is always the bitasset data of [mia]; it is left out.
    Log output is left out. *)

From S2P Require Import Prelude Ext Config Asset Objects Parameters Governance Blocks Names Operations Validation Fees Ledger Database Vesting Balance CallOrder.

Section market.
Context {X : Ext} {P : Packing}.

(** ** Fees and payment of a fill *)

(** [database::calculate_market_fee] *)
Definition calculate_market_fee (trade_asset : asset_object) (trade_amount : asset) : asset :=
  if negb (charges_market_fees trade_asset) then mk_asset 0 (asset_id trade_amount)
  else if o_market_fee_percent (as_options trade_asset) =? 0 then mk_asset 0 (asset_id trade_amount)
  else
    let a := fc_u128 (fc_u128 (amount trade_amount) * o_market_fee_percent (as_options trade_asset))
             / GRAPHENE_100_PERCENT in
    let percent_fee := i64_of_u64 (to_uint64 a) in
    mk_asset (if o_max_market_fee (as_options trade_asset) <? percent_fee
              then o_max_market_fee (as_options trade_asset) else percent_fee)
             (asset_id trade_amount).

(** [database::pay_market_fees] *)
Definition pay_market_fees (receives : asset) : DB asset :=
  let! recv_asset := get_asset (asset_id receives) in
  let issuer_fees := calculate_market_fee recv_asset receives in
  do! (if 0 <? amount issuer_fees then
         modify_dynamic (as_dynamic_asset_data_id recv_asset) (λ d,
           let? v := safe (accumulated_fees d + amount issuer_fees) in
           Ok (set_accumulated_fees v d))
       else ret tt) in
  ret issuer_fees.

(** [database::pay_order] *)
Definition pay_order (receiver : Z) (receives pays : asset) : DB unit :=
  do! modify_statistics_of receiver (λ b,
        if asset_id pays =? CORE then
          let? v := safe (st_total_core_in_orders b - amount pays) in
          Ok (set_st_total_core_in_orders v b)
        else Ok b) in
  adjust_balance receiver receives.

(** ** Cancelling orders *)

(** [database::cancel_bid] *)
Definition cancel_bid (id : Z) (create_virtual_op : bool) : DB unit :=
  let! bid := get_bid id in
  do! adjust_balance (cb_bidder bid) (base (cb_inv_swan_price bid)) in
  do! (if create_virtual_op then
         push_applied_operation (op_bid_collateral
           (mk_bid_collateral (mk_asset 0 CORE) (cb_bidder bid) (base (cb_inv_swan_price bid))
              (mk_asset 0 (asset_id (quote (cb_inv_swan_price bid))))))
       else ret tt) in
  remove_bid id.

(** [database::execute_bid] *)
Definition execute_bid (id : Z) (debt_covered collateral_from_fund : Z)
    (current_feed : price_feed) : DB unit :=
  let! bid := get_bid id in
  let swan := cb_inv_swan_price bid in
  let! collateral := lift (safe (amount (base swan) + collateral_from_fund)) in
  let! cp := lift (call_price (mk_asset debt_covered (asset_id (quote swan)))
                              (mk_asset collateral (asset_id (base swan)))
                              (maintenance_collateral_ratio current_feed)) in
  do! create_call (mk_call_order (cb_bidder bid) collateral debt_covered cp None) in
  do! (if asset_id (base swan) =? CORE then
         modify_statistics_of (cb_bidder bid) (λ st,
           let? v := safe (st_total_core_in_orders st + collateral) in
           Ok (set_st_total_core_in_orders v st))
       else ret tt) in
  do! push_applied_operation (op_execute_bid
        (mk_execute_bid (cb_bidder bid) (mk_asset collateral (asset_id (base swan)))
                        (mk_asset debt_covered (asset_id (quote swan))))) in
  remove_bid id.

(** [database::cancel_settle_order] *)
Definition cancel_settle_order (id : Z) (create_virtual_op : bool) : DB unit :=
  let! order := get_settle id in
  do! adjust_balance (fs_owner order) (fs_balance order) in
  do! (if create_virtual_op then
         push_applied_operation (op_asset_settle_cancel
           (mk_asset_settle_cancel id (fs_owner order) (fs_balance order)))
       else ret tt) in
  remove_settle id.

(** The cancellation fee of a virtual cancellation: returns the deferred fee
    and the deferred paid fee that remain, and the fee shown in the virtual
    operation. *)
Definition deduct_cancel_fee (id : Z) (order : limit_order_object) (skip_cancel_fee : bool)
    : DB (Z * asset * asset) :=
  let deferred_fee := lo_deferred_fee order in
  let deferred_paid_fee := lo_deferred_paid_fee order in
  let nothing := (deferred_fee, deferred_paid_fee, mk_asset 0 CORE) in
  if negb skip_cancel_fee && (0 <? deferred_fee) then
    let! params := global_parameters in
    let vop := mk_limit_order_cancel (mk_asset 0 CORE) id (lo_seller order) in
    let! core_cancel_fee := lift (calculate_fee (cp_current_fees params)
                                    (op_limit_order_cancel vop) (unit_price CORE)) in
    let core_cancel_fee :=
      if deferred_fee <? amount core_cancel_fee
      then mk_asset deferred_fee (asset_id core_cancel_fee) else core_cancel_fee in
    if 0 <? amount core_cancel_fee then
      do! modify_statistics_of (lo_seller order)
            (pay_fee (amount core_cancel_fee) (cp_cashback_vesting_threshold params)) in
      let! deferred_fee' := lift (safe (deferred_fee - amount core_cancel_fee)) in
      if amount deferred_paid_fee =? 0 then
        ret (deferred_fee', deferred_paid_fee, core_cancel_fee)
      else
        let fee128 :=
          fc_u128 (fc_u128 (fc_u128 (fc_u128 (amount deferred_paid_fee) * amount core_cancel_fee)
                            + lo_deferred_fee order) - 1)
          / lo_deferred_fee order in
        let cancel_fee_amount := i64_of_u64 (to_uint64 fee128) in
        do! modify_dynamic_of (asset_id deferred_paid_fee) (λ d,
              let? v := safe (accumulated_fees d + cancel_fee_amount) in
              Ok (set_accumulated_fees v d)) in
        let! rest := lift (safe (amount deferred_paid_fee - cancel_fee_amount)) in
        ret (deferred_fee', mk_asset rest (asset_id deferred_paid_fee),
             mk_asset cancel_fee_amount (asset_id deferred_paid_fee))
    else ret nothing
  else ret nothing.

(** [database::cancel_limit_order] *)
Definition cancel_limit_order (id : Z) (create_virtual_op skip_cancel_fee : bool) : DB unit :=
  let! order := get_limit id in
  let! fees := (if create_virtual_op then deduct_cancel_fee id order skip_cancel_fee
                else ret (lo_deferred_fee order, lo_deferred_paid_fee order, mk_asset 0 CORE)) in
  let '(deferred_fee, deferred_paid_fee, vop_fee) := fees in
  let refunded := lo_amount_for_sale order in
  do! (if asset_id refunded =? CORE then
         modify_statistics_of (lo_seller order) (λ st,
           let? v := safe (st_total_core_in_orders st - amount refunded) in
           Ok (set_st_total_core_in_orders v st))
       else ret tt) in
  do! adjust_balance (lo_seller order) refunded in
  do! (if amount (lo_deferred_paid_fee order) =? 0 then
         adjust_balance (lo_seller order) (mk_asset deferred_fee CORE)
       else
         do! adjust_balance (lo_seller order) deferred_paid_fee in
         modify_dynamic_of (asset_id deferred_paid_fee) (λ d,
           let? v := safe (fee_pool d + deferred_fee) in Ok (set_fee_pool v d))) in
  do! (if create_virtual_op then
         push_applied_operation (op_limit_order_cancel
           (mk_limit_order_cancel vop_fee id (lo_seller order)))
       else ret tt) in
  remove_limit id.

(** [maybe_cull_small_order] *)
Definition maybe_cull_small_order (id : Z) : DB bool :=
  let! order := get_limit id in
  let! to_receive := lift (lo_amount_to_receive order) in
  if amount to_receive =? 0 then
    let! now := head_block_time in
    do! (if (0 <? lo_deferred_fee order) && (now <=? HARDFORK_CORE_604_TIME)
         then cancel_limit_order id true true
         else cancel_limit_order id true false) in
    ret true
  else ret false.

(** ** Filling orders *)

(** [database::fill_limit_order] *)
Definition fill_limit_order (id : Z) (pays receives : asset) (cull_if_small : bool)
    (fill_price : price) (is_maker : bool) : DB bool :=
  let! now := head_block_time in
  let cull_if_small := cull_if_small || (now <? HARDFORK_555_TIME) in
  let! order := get_limit id in
  require! asset_id (lo_amount_for_sale order) =? asset_id pays in
  require! negb (asset_id pays =? asset_id receives) in
  let! seller := get_account (lo_seller order) in
  let! issuer_fees := pay_market_fees receives in
  let! net := lift (asset_sub receives issuer_fees) in
  do! pay_order (lo_seller order) net pays in
  do! push_applied_operation (op_fill_order
        (mk_fill_order id (lo_seller order) pays receives issuer_fees fill_price is_maker)) in
  do! (if 0 <? lo_deferred_fee order then
         let! params := global_parameters in
         modify_statistics_of (lo_seller order)
           (pay_fee (lo_deferred_fee order) (cp_cashback_vesting_threshold params))
       else ret tt) in
  do! (if 0 <? amount (lo_deferred_paid_fee order) then
         modify_dynamic_of (asset_id (lo_deferred_paid_fee order)) (λ d,
           let? v := safe (accumulated_fees d + amount (lo_deferred_paid_fee order)) in
           Ok (set_accumulated_fees v d))
       else ret tt) in
  if asset_eqb pays (lo_amount_for_sale order) then
    do! remove_limit id in ret true
  else
    do! modify_limit id (λ b,
          let? v := safe (lo_for_sale b - amount pays) in
          Ok (set_lo_deferred_paid_fee (mk_asset 0 (asset_id (lo_deferred_paid_fee b)))
                (set_lo_deferred_fee 0 (set_lo_for_sale v b)))) in
    if cull_if_small then maybe_cull_small_order id else ret false.

(** The lambda of [fill_call_order]: the order after paying and receiving,
    and the collateral freed when the debt is gone. [mcr] is present when the
    call price has to be updated (hard fork core-343). *)
Definition reduce_call_order (pays receives : asset) (mcr : option Z)
    (o : call_order_object) : res (call_order_object * option asset) :=
  let? debt := safe (co_debt o - amount receives) in
  let o := set_co_debt debt o in
  let? collateral := safe (co_collateral o - amount pays) in
  let o := set_co_collateral collateral o in
  if co_debt o =? 0 then Ok (set_co_collateral 0 o, Some (get_collateral o))
  else
    match mcr with
    | Some m => let? cp := call_price (get_debt o) (get_collateral o) m in
                Ok (set_co_call_price cp o, None)
    | None => Ok (o, None)
    end.

(** [database::fill_call_order] *)
Definition fill_call_order (id : Z) (pays receives : asset) (fill_price : price)
    (is_maker : bool) : DB bool :=
  let! order := get_call id in
  require! asset_id (get_debt order) =? asset_id receives in
  require! asset_id (get_collateral order) =? asset_id pays in
  let! enough := lift (asset_ge (get_collateral order) pays) in
  require! enough in
  let! mia := get_asset (asset_id receives) in
  require! is_market_issued mia in
  let! maint_time := next_maintenance_time in
  let! mcr := (if (HARDFORK_CORE_343_TIME <? maint_time) &&
                  negb (co_debt order =? amount receives)
               then let! b := get_bitasset_of (asset_id receives) in
                    ret (Some (maintenance_collateral_ratio (bd_current_feed b)))
               else ret None) in
  let! r := lift (reduce_call_order pays receives mcr order) in
  let '(order', collateral_freed) := r in
  do! modify_call id (λ _, Ok order') in
  do! modify_dynamic (as_dynamic_asset_data_id mia) (λ ao,
        let? v := safe (current_supply ao - amount receives) in Ok (set_current_supply v ao)) in
  let! borrower := get_account (co_borrower order) in
  do! (if bool_decide (is_Some collateral_freed) || (asset_id pays =? CORE) then
         do! (match collateral_freed with
              | Some freed => adjust_balance (co_borrower order) freed
              | None => ret tt end) in
         modify_statistics (ac_statistics borrower) (λ b,
           let? v := (match collateral_freed with
                      | Some freed =>
                        if (0 <? amount freed) && (asset_id freed =? CORE)
                        then safe (st_total_core_in_orders b - amount freed)
                        else Ok (st_total_core_in_orders b)
                      | None => Ok (st_total_core_in_orders b) end) in
           let? w := (if asset_id pays =? CORE then safe (v - amount pays) else Ok v) in
           Ok (set_st_total_core_in_orders w b))
       else ret tt) in
  do! push_applied_operation (op_fill_order
        (mk_fill_order id (co_borrower order) pays receives (mk_asset 0 (asset_id pays))
                       fill_price is_maker)) in
  do! (if bool_decide (is_Some collateral_freed) then remove_call id else ret tt) in
  ret (bool_decide (is_Some collateral_freed)).

(** [database::fill_settle_order] *)
Definition fill_settle_order (id : Z) (pays receives : asset) (fill_price : price)
    (is_maker : bool) : DB bool :=
  let! settle := get_settle id in
  let! issuer_fees := pay_market_fees receives in
  let! partial := lift (asset_lt pays (fs_balance settle)) in
  do! (if partial then
         modify_settle id (λ s,
           let? b := asset_sub (fs_balance s) pays in Ok (set_fs_balance b s))
       else ret tt) in
  let! net := lift (asset_sub receives issuer_fees) in
  do! adjust_balance (fs_owner settle) net in
  do! push_applied_operation (op_fill_order
        (mk_fill_order id (fs_owner settle) pays receives issuer_fees fill_price is_maker)) in
  do! (if negb partial then remove_settle id else ret tt) in
  ret (negb partial).
End market.
