(* ===== verification/Matching.v ===== *)
(** * Matching orders, margin calls and global settlement

    The second half of chain/db_market.cpp and [check_for_blackswan] of
    chain/db_update.cpp, on top of the fills of Market.v.

    The loops of the code walk an index with iterators; an iterator is the
    identifier of an object, [None] is [end()], and the successor is looked up
    in the current index. Each loop takes a number of passes as fuel: one more
    than the number of objects of the index it walks, and for margin calls a
    multiple of the number of limit and call orders; a run that would need more
    passes ends in [OutOfFuel]. *)

From S2P Require Import Prelude Ext Config Asset Objects Parameters Governance Blocks Names Operations Validation Fees Ledger Database Vesting Balance CallOrder Market.

(** Passes allowed to a loop over the orders of the book. *)
Definition book_fuel (s : database) : nat := S (size (d_limits s)).
Definition calls_fuel (s : database) : nat := S (size (d_calls s)).
Definition bids_fuel (s : database) : nat := S (size (d_bids s)).
(** Passes allowed to the loop of [check_call_orders] and to the margin call
    loop of [apply_order]. *)
Definition margin_fuel (s : database) : nat :=
  S (4 * (size (d_limits s) + size (d_calls s))).

Section matching.
Context {X : Ext} {P : Packing}.

(** ** Global settlement *)

(** The loop of [globally_settle_asset] over the call orders: returns
    [collateral_gathered]. *)
Fixpoint settle_calls (fuel : nat) (before_core_hardfork_342 : bool) (settlement_price : price)
    (itr call_end : option Z) (collateral_gathered : asset) : DB asset :=
  match fuel with
  | O => fail OutOfFuel
  | S fuel' =>
    if bool_decide (itr = call_end) then ret collateral_gathered
    else
      match itr with
      | None => fail NotFound
      | Some order =>
        let! call := get_call order in
        let! pays := lift (if before_core_hardfork_342
                           then asset_mul (get_debt call) settlement_price
                           else multiply_and_round_up (get_debt call) settlement_price) in
        let! too_much := lift (asset_gt pays (get_collateral call)) in
        let pays := if too_much then get_collateral call else pays in
        let! gathered := lift (asset_add collateral_gathered pays) in
        let! next := gets (λ s, next_of order (call_price_index s)) in
        let! filled := fill_call_order order pays (get_debt call) settlement_price true in
        require! filled in
        settle_calls fuel' before_core_hardfork_342 settlement_price next call_end gathered
      end
  end.

(** [database::globally_settle_asset] *)
Definition globally_settle_asset (mia : Z) (settlement_price : price) : DB unit :=
  let! bitasset := get_bitasset_of mia in
  require! negb (has_settlement bitasset) in
  let backing := bo_short_backing_asset (bd_options bitasset) in
  do! get_asset backing in
  let! mia_dyn := get_dynamic_of mia in
  let original_mia_supply := current_supply mia_dyn in
  let! maint_time := next_maintenance_time in
  let before_core_hardfork_342 := maint_time <=? HARDFORK_CORE_342_TIME in
  let! call_min := lift (price_min backing mia) in
  let! call_max := lift (price_max backing mia) in
  let! call_itr := gets (call_lower_bound call_min) in
  let! call_end := gets (call_upper_bound call_max) in
  let! fuel := gets calls_fuel in
  let! collateral_gathered :=
    settle_calls fuel before_core_hardfork_342 settlement_price call_itr call_end
                 (mk_asset 0 backing) in
  do! modify_bitasset_of mia (λ obj,
        let? p := asset_div (mk_asset original_mia_supply mia) collateral_gathered in
        Ok (set_bd_settlement_fund (amount collateral_gathered) (set_bd_settlement_price p obj))) in
  modify_dynamic_of mia (λ obj, Ok (set_current_supply original_mia_supply obj)).

(** ** Reviving a globally settled asset *)

(** The loop of [_cancel_bids_and_revive_mpa]. *)
Fixpoint cancel_bids (fuel : nat) (bitasset : Z) (itr : option Z) : DB unit :=
  match fuel with
  | O => fail OutOfFuel
  | S fuel' =>
    match itr with
    | None => ret tt
    | Some id =>
      let! bid := get_bid id in
      if cb_debt_type bid =? bitasset then
        let! next := gets (λ s, next_of id (bid_price_index s)) in
        do! cancel_bid id true in
        cancel_bids fuel' bitasset next
      else ret tt
    end
  end.

(** [lower_bound( make_tuple( asset, price::max(..), collateral_bid_id_type() ) )] *)
Definition bid_lower_bound (a : Z) (p : price) (s : database) : option Z :=
  find_first (λ x, negb (bid_less x (0, mk_collateral_bid 0 p)) &&
                   negb (cb_debt_type x.2 <? a)) (bid_price_index s).

(** [database::_cancel_bids_and_revive_mpa] *)
Definition cancel_bids_and_revive_mpa (bitasset : Z) : DB unit :=
  let! ao := get_asset bitasset in
  require! is_market_issued ao in
  let! bad := get_bitasset_of bitasset in
  require! has_settlement bad in
  require! negb (bd_is_prediction_market bad) in
  let! pmax := lift (price_max (bo_short_backing_asset (bd_options bad)) bitasset) in
  let! itr := gets (bid_lower_bound bitasset pmax) in
  let! fuel := gets bids_fuel in
  do! cancel_bids fuel bitasset itr in
  modify_bitasset_of bitasset (λ obj,
    Ok (set_bd_settlement_fund 0 (set_bd_settlement_price null_price obj))).

(** [database::revive_bitasset] *)
Definition revive_bitasset (bitasset : Z) : DB unit :=
  let! ao := get_asset bitasset in
  require! is_market_issued ao in
  let! bad := get_bitasset_of bitasset in
  require! has_settlement bad in
  let! bdd := get_dynamic_of bitasset in
  require! negb (bd_is_prediction_market bad) in
  require! negb (is_null (Asset.settlement_price (bd_current_feed bad))) in
  do! (if 0 <? current_supply bdd then
         let! swan := lift (asset_div (mk_asset 0 (bo_short_backing_asset (bd_options bad)))
                                      (mk_asset (current_supply bdd) bitasset)) in
         let! pseudo_bid := create_bid (mk_collateral_bid (as_issuer ao) swan) in
         execute_bid pseudo_bid (current_supply bdd) (bd_settlement_fund bad) (bd_current_feed bad)
       else
         require! bd_settlement_fund bad =? 0 in ret tt) in
  cancel_bids_and_revive_mpa bitasset.

(** ** Black swans *)

(** [database::check_for_blackswan] *)
Definition check_for_blackswan (mia : Z) (enable_black_swan : bool) : DB bool :=
  let! ao := get_asset mia in
  if negb (is_market_issued ao) then ret false
  else
    let! bitasset := get_bitasset_of mia in
    if has_settlement bitasset then ret true
    else
      let settle_price := Asset.settlement_price (bd_current_feed bitasset) in
      if is_null settle_price then ret false
      else
        let backing := bo_short_backing_asset (bd_options bitasset) in
        let! call_min := lift (price_min backing mia) in
        let! call_max := lift (price_max backing mia) in
        let! call_itr := gets (call_lower_bound call_min) in
        let! call_end := gets (call_upper_bound call_max) in
        if bool_decide (call_itr = call_end) then ret false
        else
          let! maint_time := next_maintenance_time in
          let! highest := lift (if HARDFORK_CORE_338_TIME <? maint_time
                                then max_short_squeeze_price (bd_current_feed bitasset)
                                else Ok settle_price) in
          let! highest_possible_bid := lift (price_max mia backing) in
          let! lowest_possible_bid := lift (price_min mia backing) in
          let! limit_itr := gets (limit_lower_bound highest_possible_bid) in
          let! limit_end := gets (limit_upper_bound lowest_possible_bid) in
          let! highest :=
            (if bool_decide (limit_itr = limit_end) then ret highest
             else
               let! l := lift (of_option NotFound limit_itr) in
               let! limit := get_limit l in
               require! asset_id (base highest) =? asset_id (base (lo_sell_price limit)) in
               ret (price_std_max (lo_sell_price limit) highest)) in
          let! c := lift (of_option NotFound call_itr) in
          let! call := get_call c in
          let! least_collateral := lift (collateralization call) in
          if price_geb (price_inv least_collateral) highest then
            require! enable_black_swan in
            do! (if (HARDFORK_CORE_338_TIME <? maint_time) &&
                    price_leb (price_inv least_collateral) settle_price
                 then globally_settle_asset mia settle_price
                 else globally_settle_asset mia (price_inv least_collateral)) in
            ret true
          else ret false.

(** ** Matching two orders *)

(** The amounts [match( limit, limit )] exchanges: what the taker and the
    maker receive, and whether the taker is to be culled; [None] is the early
    [return 1] of a taker that would pay something for nothing. *)
Definition limit_amounts (before_core_hardfork_342 after_core_hardfork_184 : bool)
    (usd_for_sale core_for_sale : asset) (match_price : price)
    : res (option (asset * asset * bool)) :=
  let? core_value := asset_mul core_for_sale match_price in
  let? taker_smaller := asset_le usd_for_sale core_value in
  if taker_smaller then
    let? usd_receives := asset_mul usd_for_sale match_price in
    if (amount usd_receives =? 0) && after_core_hardfork_184 then Ok None
    else if before_core_hardfork_342 then Ok (Some (usd_receives, usd_for_sale, false))
    else
      let? core_receives := multiply_and_round_up usd_receives match_price in
      Ok (Some (usd_receives, core_receives, true))
  else
    let? core_receives := asset_mul core_for_sale match_price in
    if before_core_hardfork_342 then Ok (Some (core_for_sale, core_receives, false))
    else
      let? usd_receives := multiply_and_round_up core_receives match_price in
      Ok (Some (usd_receives, core_receives, false)).

(** [database::match( const limit_order_object&, const limit_order_object&, const price& )] *)
Definition match_limit_limit (usd_id core_id : Z) (match_price : price) : DB Z :=
  let! usd := get_limit usd_id in
  let! core := get_limit core_id in
  require! asset_id (quote (lo_sell_price usd)) =? asset_id (base (lo_sell_price core)) in
  require! asset_id (base (lo_sell_price usd)) =? asset_id (quote (lo_sell_price core)) in
  require! (0 <? lo_for_sale usd) && (0 <? lo_for_sale core) in
  let! maint_time := next_maintenance_time in
  let before_core_hardfork_342 := maint_time <=? HARDFORK_CORE_342_TIME in
  let! amounts := lift (limit_amounts before_core_hardfork_342
                          (HARDFORK_CORE_184_TIME <? maint_time)
                          (lo_amount_for_sale usd) (lo_amount_for_sale core) match_price) in
  match amounts with
  | None => ret 1
  | Some (usd_receives, core_receives, cull_taker) =>
    let core_pays := usd_receives in
    let usd_pays := core_receives in
    require! negb before_core_hardfork_342 || asset_eqb usd_pays (lo_amount_for_sale usd)
             || asset_eqb core_pays (lo_amount_for_sale core) in
    let! taker_filled := fill_limit_order usd_id usd_pays usd_receives cull_taker match_price false in
    let! maker_filled := fill_limit_order core_id core_pays core_receives true match_price true in
    let result := Z.lor (Z.b2z taker_filled) (Z.shiftl (Z.b2z maker_filled) 1) in
    require! negb (result =? 0) in
    ret result
  end.

(** The amounts [match( limit, call )] exchanges: what the call order and the
    limit order receive, and whether the limit order is to be culled. *)
Definition limit_call_amounts (before_core_hardfork_342 after_core_hardfork_184 : bool)
    (usd_for_sale usd_to_buy : asset) (match_price : price)
    : res (option (asset * asset * bool)) :=
  let? call_larger := asset_gt usd_to_buy usd_for_sale in
  if call_larger then
    let? order_receives := asset_mul usd_for_sale match_price in
    if (amount order_receives =? 0) && after_core_hardfork_184 then Ok None
    else if before_core_hardfork_342 then Ok (Some (usd_for_sale, order_receives, false))
    else
      let? call_receives := multiply_and_round_up order_receives match_price in
      Ok (Some (call_receives, order_receives, true))
  else if before_core_hardfork_342 then
    let? order_receives := asset_mul usd_to_buy match_price in
    if (amount order_receives =? 0) && after_core_hardfork_184 then Ok None
    else Ok (Some (usd_to_buy, order_receives, false))
  else
    let? order_receives := multiply_and_round_up usd_to_buy match_price in
    Ok (Some (usd_to_buy, order_receives, false)).

(** [database::match( const limit_order_object&, const call_order_object&, .. )] *)
Definition match_limit_call (bid_id ask_id : Z) (match_price feed_price : price)
    (maintenance_collateral_ratio : Z) : DB Z :=
  let! bid := get_limit bid_id in
  let! ask := get_call ask_id in
  require! lo_sell_asset_id bid =? co_debt_type ask in
  require! lo_receive_asset_id bid =? co_collateral_type ask in
  require! (0 <? lo_for_sale bid) && (0 <? co_debt ask) && (0 <? co_collateral ask) in
  let! maint_time := next_maintenance_time in
  let! usd_to_buy :=
    (if maint_time <=? HARDFORK_CORE_834_TIME then ret (get_debt ask)
     else
       let! v := lift (get_max_debt_to_cover ask match_price feed_price
                                             maintenance_collateral_ratio) in
       ret (mk_asset v (co_debt_type ask))) in
  let! amounts := lift (limit_call_amounts (maint_time <=? HARDFORK_CORE_342_TIME)
                          (negb (maint_time <=? HARDFORK_CORE_184_TIME))
                          (lo_amount_for_sale bid) usd_to_buy match_price) in
  match amounts with
  | None => ret 1
  | Some (call_receives, order_receives, cull_taker) =>
    let call_pays := order_receives in
    let order_pays := call_receives in
    let! taker_filled := fill_limit_order bid_id order_pays order_receives cull_taker match_price false in
    let! maker_filled := fill_call_order ask_id call_pays call_receives match_price true in
    ret (Z.lor (Z.b2z taker_filled) (Z.shiftl (Z.b2z maker_filled) 1))
  end.

(** What [match( call, settle )] decides before filling: nothing is matched,
    the dust settle order being cancelled or not, or the amounts the call
    order receives and pays, and whether to cull the settle order. *)
Inductive settle_decision :=
  | settle_nothing (cancel : bool)
  | settle_exchange (call_receives call_pays : asset) (cull_settle_order : bool).

Definition settle_amounts (before_core_hardfork_342 after_core_hardfork_184 : bool)
    (settle_balance max_settlement call_debt : asset) (match_price : price)
    : res settle_decision :=
  let? settle_for_sale := asset_min settle_balance max_settlement in
  let? call_receives := asset_min settle_for_sale call_debt in
  let? call_pays := asset_mul call_receives match_price in
  if amount call_pays =? 0 then
    if after_core_hardfork_184 then
      if asset_eqb call_receives call_debt
      then Ok (settle_exchange call_receives (mk_asset 1 (asset_id call_pays)) false)
      else Ok (settle_nothing (asset_eqb call_receives settle_balance))
    else Ok (settle_exchange call_receives call_pays false)
  else if before_core_hardfork_342 then Ok (settle_exchange call_receives call_pays false)
  else if asset_eqb call_receives call_debt then
    let? call_pays := multiply_and_round_up call_receives match_price in
    Ok (settle_exchange call_receives call_pays false)
  else
    let cull_settle_order := asset_eqb call_receives settle_balance in
    let? call_receives := multiply_and_round_up call_pays match_price in
    Ok (settle_exchange call_receives call_pays
          (cull_settle_order && negb (asset_eqb call_receives settle_balance))).

(** [database::match( const call_order_object&, const force_settlement_object&, .. )] *)
Definition match_call_settle (call_id settle_id : Z) (match_price : price)
    (max_settlement : asset) (fill_price : price) : DB asset :=
  let! call := get_call call_id in
  let! settle := get_settle settle_id in
  require! asset_id (get_debt call) =? asset_id (fs_balance settle) in
  require! (0 <? co_debt call) && (0 <? co_collateral call) && (0 <? amount (fs_balance settle)) in
  let! maint_time := next_maintenance_time in
  let before_core_hardfork_342 := maint_time <=? HARDFORK_CORE_342_TIME in
  let! decision := lift (settle_amounts before_core_hardfork_342
                           (HARDFORK_CORE_184_TIME <? maint_time)
                           (fs_balance settle) max_settlement (get_debt call) match_price) in
  match decision with
  | settle_nothing cancel =>
    do! (if cancel then cancel_settle_order settle_id true else ret tt) in
    ret (mk_asset 0 (asset_id (fs_balance settle)))
  | settle_exchange call_receives call_pays cull_settle_order =>
    let! solvent := lift (if before_core_hardfork_342
                          then asset_lt call_pays (get_collateral call) else Ok true) in
    if solvent then
      do! fill_call_order call_id call_pays call_receives fill_price true in
      do! fill_settle_order settle_id call_receives call_pays fill_price false in
      do! (if cull_settle_order then cancel_settle_order settle_id true else ret tt) in
      ret call_receives
    else fail BlackSwan
  end.
End matching.
