(* ===== verification/OrderBook.v ===== *)
(** * Margin calls and the application of a new order

    [check_call_orders], [apply_order] and [apply_order_before_hardfork_625]
    of chain/db_market.cpp. *)

From S2P Require Import Prelude Ext Config Asset Objects Parameters Governance Blocks Names Operations Validation Fees Ledger Database CallOrder Market Matching.

Section order_book.
Context {X : Ext} {P : Packing}.

(** ** Margin calls *)

(** The state the loop of [check_call_orders] carries from pass to pass. *)
Record margin_state := mk_margin {
  mg_call_itr : option Z;
  mg_limit_itr : option Z;
  mg_filled_limit : bool;
  mg_margin_called : bool;
}.

Inductive margin_step :=
  | margin_return (r : bool)
  | margin_continue (m : margin_state).

(** The amounts of one pass: what the call order and the limit order receive,
    and the branch taken ([true]: "fill order"). *)
Definition margin_amounts (before_core_hardfork_342 : bool)
    (usd_for_sale usd_to_buy : asset) (match_price : price) : res (asset * asset * bool) :=
  let? fill_order := asset_gt usd_to_buy usd_for_sale in
  if fill_order then
    let? order_receives := asset_mul usd_for_sale match_price in
    if before_core_hardfork_342 then Ok (usd_for_sale, order_receives, true)
    else
      let? call_receives := multiply_and_round_up order_receives match_price in
      Ok (call_receives, order_receives, true)
  else if before_core_hardfork_342 then
    let? order_receives := asset_mul usd_to_buy match_price in
    Ok (usd_to_buy, order_receives, false)
  else
    let? order_receives := multiply_and_round_up usd_to_buy match_price in
    Ok (usd_to_buy, order_receives, false).

(** The part of a pass that exchanges: both orders are filled and the
    iterators move on. *)
Definition margin_exchange (mia : Z) (for_new_limit_order : bool) (call_min : price)
    (call_id limit_id : Z) (usd_for_sale usd_to_buy : asset) (match_price : price)
    (filled_limit : bool) : DB margin_step :=
  let! maint_time := next_maintenance_time in
  let! head_time := head_block_time in
  let before_core_hardfork_343 := maint_time <=? HARDFORK_CORE_343_TIME in
  let before_core_hardfork_453 := maint_time <=? HARDFORK_CORE_453_TIME in
  let! amounts := lift (margin_amounts (maint_time <=? HARDFORK_CORE_342_TIME)
                                       usd_for_sale usd_to_buy match_price) in
  let '(call_receives, order_receives, fill_order) := amounts in
  let filled_call := negb fill_order in
  let exact := filled_call && asset_eqb usd_to_buy usd_for_sale in
  do! (if filled_call && negb exact && filled_limit && before_core_hardfork_453 &&
          (head_time <? HARDFORK_615_TIME)
       then put (λ s, set_d_issue_453_affected_assets
                        ({[ mia ]} ∪ d_issue_453_affected_assets s) s)
       else ret tt) in
  let filled_limit := filled_limit || fill_order || exact in
  let! next_call := gets (λ s, next_of call_id (call_price_index s)) in
  do! fill_call_order call_id order_receives call_receives match_price for_new_limit_order in
  let! call_itr :=
    (if before_core_hardfork_343
     then ret (if filled_call then next_call else Some call_id)
     else gets (call_lower_bound call_min)) in
  let! next_limit_itr := gets (λ s, next_of limit_id (limit_price_index s)) in
  let! really_filled := fill_limit_order limit_id call_receives order_receives true match_price
                                         (negb for_new_limit_order) in
  let limit_itr := if really_filled || (filled_limit && before_core_hardfork_453)
                   then next_limit_itr else Some limit_id in
  ret (margin_continue (mk_margin call_itr limit_itr filled_limit true)).

(** One pass of the loop, [check_for_blackswan] in its condition included. *)
Definition margin_pass (mia : Z) (enable_black_swan for_new_limit_order : bool)
    (call_min : price) (call_end limit_end : option Z) (m : margin_state) : DB margin_step :=
  let! black_swan := check_for_blackswan mia enable_black_swan in
  if black_swan || bool_decide (mg_call_itr m = call_end)
  then ret (margin_return (mg_margin_called m))
  else if bool_decide (mg_limit_itr m = limit_end)
  then ret (margin_return (mg_margin_called m))
  else
    let! call_id := lift (of_option NotFound (mg_call_itr m)) in
    let! limit_id := lift (of_option NotFound (mg_limit_itr m)) in
    let! call := get_call call_id in
    let! limit := get_limit limit_id in
    let! bitasset := get_bitasset_of mia in
    let feed := bd_current_feed bitasset in
    let match_price := lo_sell_price limit in
    let usd_for_sale := lo_amount_for_sale limit in
    do! lift (price_validate match_price) in
    let! maint_time := next_maintenance_time in
    let! head_time := head_block_time in
    if (HARDFORK_436_TIME <? head_time) &&
       price_gtb (settlement_price feed) (price_inv (co_call_price call))
    then ret (margin_return (mg_margin_called m))
    else if (maint_time <=? HARDFORK_CORE_606_TIME) &&
            price_gtb match_price (price_inv (co_call_price call))
    then ret (margin_return (mg_margin_called m))
    else
      let usd_to_buy := get_debt call in
      let! value := lift (asset_mul usd_to_buy match_price) in
      let! insolvent := lift (asset_gt value (get_collateral call)) in
      if insolvent then
        require! enable_black_swan in
        do! globally_settle_asset mia (settlement_price feed) in
        ret (margin_return true)
      else
        let! usd_to_buy :=
          (if maint_time <=? HARDFORK_CORE_834_TIME then ret usd_to_buy
           else
             let! v := lift (get_max_debt_to_cover call match_price (settlement_price feed)
                                                   (maintenance_collateral_ratio feed)) in
             ret (mk_asset v (asset_id usd_to_buy))) in
        margin_exchange mia for_new_limit_order call_min call_id limit_id usd_for_sale usd_to_buy
                        match_price (mg_filled_limit m).

Fixpoint margin_loop (fuel : nat) (mia : Z) (enable_black_swan for_new_limit_order : bool)
    (call_min : price) (call_end limit_end : option Z) (m : margin_state) : DB bool :=
  match fuel with
  | O => fail OutOfFuel
  | S fuel' =>
    let! r := margin_pass mia enable_black_swan for_new_limit_order call_min call_end limit_end m in
    match r with
    | margin_return b => ret b
    | margin_continue m' =>
      margin_loop fuel' mia enable_black_swan for_new_limit_order call_min call_end limit_end m'
    end
  end.

(** [database::check_call_orders] *)
Definition check_call_orders (mia : Z) (enable_black_swan for_new_limit_order : bool) : DB bool :=
  let! maint_time := next_maintenance_time in
  require! negb for_new_limit_order || (maint_time <=? HARDFORK_CORE_625_TIME) in
  let! ao := get_asset mia in
  if negb (is_market_issued ao) then ret false
  else
    let! black_swan := check_for_blackswan mia enable_black_swan in
    if black_swan then ret false
    else
      let! bitasset := get_bitasset_of mia in
      if bd_is_prediction_market bitasset then ret false
      else if is_null (settlement_price (bd_current_feed bitasset)) then ret false
      else
        let backing := bo_short_backing_asset (bd_options bitasset) in
        let! max_price := lift (price_max mia backing) in
        let! min_price := lift (max_short_squeeze_price (bd_current_feed bitasset)) in
        let! limit_itr := gets (limit_lower_bound max_price) in
        let! limit_end := gets (limit_upper_bound min_price) in
        if bool_decide (limit_itr = limit_end) then ret false
        else
          let! call_min := lift (price_min backing mia) in
          let! call_max := lift (price_max backing mia) in
          let! call_itr := gets (call_lower_bound call_min) in
          let! call_end := gets (call_upper_bound call_max) in
          let! fuel := gets margin_fuel in
          margin_loop fuel mia enable_black_swan for_new_limit_order call_min call_end limit_end
                      (mk_margin call_itr limit_itr false false).

(** ** Applying a new limit order *)

(** The loops that match the new order with the opposite limit orders while
    [continue] holds of the next one: returns [finished] and the iterator. *)
Fixpoint match_limits (fuel : nat) (order_id : Z) (continue : limit_order_object → bool)
    (limit_itr limit_end : option Z) : DB (bool * option Z) :=
  match fuel with
  | O => fail OutOfFuel
  | S fuel' =>
    if bool_decide (limit_itr = limit_end) then ret (false, limit_itr)
    else
      let! old_limit_itr := lift (of_option NotFound limit_itr) in
      let! old := get_limit old_limit_itr in
      if continue old then
        let! next := gets (λ s, next_of old_limit_itr (limit_price_index s)) in
        let! r := match_limit_limit order_id old_limit_itr (lo_sell_price old) in
        if negb (r =? 2) then ret (true, next)
        else match_limits fuel' order_id continue next limit_end
      else ret (false, limit_itr)
  end.

(** The loop that matches the new order with margin calls: returns
    [finished]. *)
Fixpoint match_calls (fuel : nat) (order_id sell_asset_id : Z) (call_min call_match_price : price)
    (feed : price_feed) : DB bool :=
  match fuel with
  | O => fail OutOfFuel
  | S fuel' =>
    let! call_itr := gets (call_lower_bound call_min) in
    match call_itr with
    | None => ret false
    | Some call_id =>
      let! call := get_call call_id in
      if negb (co_debt_type call =? sell_asset_id) ||
         price_gtb (co_call_price call) (price_inv (settlement_price feed))
      then ret false
      else
        let! match_result := match_limit_call order_id call_id call_match_price
                               (settlement_price feed) (maintenance_collateral_ratio feed) in
        if (match_result =? 1) || (match_result =? 3) then ret true
        else match_calls fuel' order_id sell_asset_id call_min call_match_price feed
    end
  end.

(** What [apply_order] returns: was the order removed, culled or not. *)
Definition finish_order (order_id : Z) : DB bool :=
  let! updated_order_object := gets (λ s, d_limits s !! order_id) in
  match updated_order_object with
  | None => ret true
  | Some _ => maybe_cull_small_order order_id
  end.

(** "We only need to check if the new order will match with others if it is
    at the front of the book" *)
Definition behind_in_book (order_id : Z) (order : limit_order_object) (s : database) : bool :=
  match prev_of order_id (limit_price_index s) with
  | None => false
  | Some p =>
    match d_limits s !! p with
    | None => false
    | Some l => (lo_sell_asset_id l =? lo_sell_asset_id order) &&
                (lo_receive_asset_id l =? lo_receive_asset_id order)
    end
  end.

(** Whether the new order may match margin calls, with the bitasset data of
    the sold asset and the price of such a match. *)
Definition calls_to_check (order : limit_order_object)
    : DB (option (price_feed * price)) :=
  let! sell_asset := get_asset (lo_sell_asset_id order) in
  if negb (is_market_issued sell_asset) then ret None
  else
    let! sell_abd := get_bitasset_of (lo_sell_asset_id order) in
    let feed := bd_current_feed sell_abd in
    if (bo_short_backing_asset (bd_options sell_abd) =? lo_receive_asset_id order) &&
       negb (bd_is_prediction_market sell_abd) && negb (has_settlement sell_abd) &&
       negb (is_null (settlement_price feed))
    then
      let! squeeze := lift (max_short_squeeze_price feed) in
      let call_match_price := price_inv squeeze in
      ret (if price_leb (price_inv (lo_sell_price order)) call_match_price
           then Some (feed, call_match_price) else None)
    else ret None.

(** [database::apply_order]: the new order takes, every order on the book
    makes. *)
Definition apply_order (order_id : Z) : DB bool :=
  let! order := get_limit order_id in
  let! behind := gets (behind_in_book order_id order) in
  if behind then ret false
  else
    let max_price := price_inv (lo_sell_price order) in
    let! best := lift (price_max (asset_id (base max_price)) (asset_id (quote max_price))) in
    let! limit_itr := gets (limit_lower_bound best) in
    let! limit_end := gets (limit_upper_bound max_price) in
    let! fuel := gets book_fuel in
    let! margin := gets margin_fuel in
    let! calls := calls_to_check order in
    let! r :=
      (match calls with
       | None => ret (false, limit_itr)
       | Some (feed, call_match_price) =>
         let! r := match_limits fuel order_id
                     (λ l, price_gtb (lo_sell_price l) call_match_price) limit_itr limit_end in
         if fst r then ret r
         else
           let! call_min := lift (price_min (lo_receive_asset_id order) (lo_sell_asset_id order)) in
           let! finished := match_calls margin order_id (lo_sell_asset_id order) call_min
                                        call_match_price feed in
           ret (finished, snd r)
       end) in
    do! (if fst r then ret r else match_limits fuel order_id (λ _, true) (snd r) limit_end) in
    finish_order order_id.

(** [database::apply_order_before_hardfork_625] *)
Definition apply_order_before_hardfork_625 (order_id : Z) (allow_black_swan : bool) : DB bool :=
  let! order := get_limit order_id in
  let! receive := lift (lo_amount_to_receive order) in
  let sell_asset := lo_sell_asset_id order in
  let receive_asset := asset_id receive in
  do! get_asset sell_asset in
  do! get_asset receive_asset in
  let! called1 := check_call_orders sell_asset allow_black_swan true in
  let! called2 := check_call_orders receive_asset allow_black_swan true in
  let! found := gets (λ s, d_limits s !! order_id) in
  if (called1 || called2) && negb (bool_decide (is_Some found)) then ret true
  else
    let max_price := price_inv (lo_sell_price order) in
    let! best := lift (price_max (asset_id (base max_price)) (asset_id (quote max_price))) in
    let! limit_itr := gets (limit_lower_bound best) in
    let! limit_end := gets (limit_upper_bound max_price) in
    let! fuel := gets book_fuel in
    do! match_limits fuel order_id (λ _, true) limit_itr limit_end in
    do! check_call_orders sell_asset allow_black_swan false in
    do! check_call_orders receive_asset allow_black_swan false in
    let! updated_order_object := gets (λ s, d_limits s !! order_id) in
    let! now := head_block_time in
    if bool_decide (updated_order_object = None) then ret true
    else if now <=? HARDFORK_555_TIME then ret false
    else maybe_cull_small_order order_id.
End order_book.
