(* ===== verification/Feeds.v ===== *)
(** * Price feeds of a market issued asset

    Models the members of [asset_bitasset_data_object] in
    chain/asset_object.cpp: the median of the published feeds and the volume
    that may be force settled; and the change of the options of a market issued
    asset, [update_bitasset_object_options] of chain/asset_evaluator.cpp. *)

From S2P Require Import Prelude Ext Config Asset Objects Parameters Blocks Names Operations Validation Fees Ledger Vesting.

Section feeds.
Context {X : Ext} {N : NthElement}.

(** [asset_bitasset_data_object::max_force_settlement_volume] *)
Definition max_force_settlement_volume (b : asset_bitasset_data_object) (supply : Z) : res Z :=
  let percent := bo_maximum_force_settlement_volume (bd_options b) in
  if percent =? 0 then Ok 0
  else if percent =? GRAPHENE_100_PERCENT then safe (supply + bd_force_settled_volume b)
  else
    let volume := fc_u128 (wrap64 (supply + bd_force_settled_volume b)) in
    Ok (i64_of_u64 (to_uint64 (fc_u128 (volume * percent) / GRAPHENE_100_PERCENT))).

(** The entries of the [flat_map] of feeds, in the order of the publishers. *)
Definition feeds_in_order (feeds : gmap Z (Z * price_feed)) : list (Z * (Z * price_feed)) :=
  merge_sort (λ a b, Is_true (a.1 <=? b.1)) (map_to_list feeds).

(** A feed that is alive at [current_time]. *)
Definition feed_alive (current_time lifetime : Z) (f : Z * price_feed) : bool :=
  (current_time - f.1 <? lifetime) && negb (f.1 =? time_zero).

Definition alive_feeds (current_time : Z) (b : asset_bitasset_data_object) : list (Z * price_feed) :=
  List.filter (feed_alive current_time (bo_feed_lifetime_sec (bd_options b)))
              (map snd (feeds_in_order (bd_feeds b))).

(** One round of CALCULATE_MEDIAN_VALUE: the reordered feeds, and the feed at
    the median position. *)
Definition median_by {A} (less : A → A → bool) (field : price_feed → A)
    (feeds : list price_feed) : res (list price_feed * A) :=
  let n := Nat.div2 (length feeds) in
  let feeds := nth_element (λ a b, less (field a) (field b)) n feeds in
  let? f := of_option NotFound (feeds !! n) in
  Ok (feeds, field f).

(** The median of each field of GRAPHENE_PRICE_FEED_FIELDS in turn. *)
Definition median_feed (feeds : list price_feed) : res price_feed :=
  let? r1 := median_by price_ltb settlement_price feeds in
  let? r2 := median_by Z.ltb maintenance_collateral_ratio (fst r1) in
  let? r3 := median_by Z.ltb maximum_short_squeeze_ratio (fst r2) in
  let? r4 := median_by price_ltb core_exchange_rate (fst r3) in
  Ok (mk_price_feed (snd r1) (snd r4) (snd r2) (snd r3)).

(** Store a new current feed, noting a change of its core exchange rate. *)
Definition set_current_feed (f : price_feed) (b : asset_bitasset_data_object) : asset_bitasset_data_object :=
  let b := if price_eqb (core_exchange_rate (bd_current_feed b)) (core_exchange_rate f)
           then b else set_bd_feed_cer_updated true b in
  set_bd_current_feed f b.

(** [asset_bitasset_data_object::update_median_feeds] *)
Definition update_median_feeds (current_time : Z) (b : asset_bitasset_data_object)
    : res asset_bitasset_data_object :=
  let current_feeds := alive_feeds current_time b in
  let b := set_bd_current_feed_publication_time
             (foldl (λ t f, Z.min t f.1) current_time current_feeds) b in
  if Z.of_nat (length current_feeds) <? bo_minimum_feeds (bd_options b) then
    Ok (set_bd_current_feed null_feed
          (set_bd_current_feed_publication_time current_time (set_bd_feed_cer_updated false b)))
  else
    match current_feeds with
    | [f] => Ok (set_current_feed f.2 b)
    | _ =>
      let? m := median_feed (map snd current_feeds) in
      Ok (set_current_feed m b)
    end.

(** Replace the settlement price of every published feed by the null price. *)
Definition reset_feeds (feeds : gmap Z (Z * price_feed)) : gmap Z (Z * price_feed) :=
  (λ tf : Z * price_feed,
     (tf.1, mk_price_feed null_price (core_exchange_rate tf.2)
              (maintenance_collateral_ratio tf.2) (maximum_short_squeeze_ratio tf.2))) <$> feeds.

(** [update_bitasset_object_options]: the object after the change, and
    whether margin calls have to be looked for. [flags] are the flags of the
    asset. *)
Definition update_bitasset_object_options (op : asset_update_bitasset_operation)
    (next_maint_time head_time flags : Z) (bdo : asset_bitasset_data_object)
    : res (asset_bitasset_data_object * bool) :=
  let after_hf_core_868_890 := HARDFORK_CORE_868_890_TIME <? next_maint_time in
  let new := aub_new_options op in
  let old := bd_options bdo in
  let backing_asset_changed :=
    after_hf_core_868_890 && negb (bo_short_backing_asset new =? bo_short_backing_asset old) in
  let should_update_feeds :=
    negb (bo_minimum_feeds new =? bo_minimum_feeds old) ||
    (after_hf_core_868_890 && negb (bo_feed_lifetime_sec new =? bo_feed_lifetime_sec old)) ||
    backing_asset_changed in
  let is_witness_or_committee_fed :=
    backing_asset_changed && has_flag flags (Z.lor witness_fed_asset committee_fed_asset) in
  let bdo := set_bd_options new bdo in
  let bdo :=
    if backing_asset_changed then
      if is_witness_or_committee_fed then set_bd_feeds ∅ bdo
      else set_bd_feeds (reset_feeds (bd_feeds bdo)) bdo
    else bdo in
  if should_update_feeds then
    let old_feed := bd_current_feed bdo in
    let? bdo := update_median_feeds head_time bdo in
    let changed :=
      if HARDFORK_CORE_935_TIME <? next_maint_time
      then negb (price_feed_eqb old_feed (bd_current_feed bdo))
      else after_hf_core_868_890 &&
           negb (price_eqb (settlement_price old_feed) (settlement_price (bd_current_feed bdo))) in
    Ok (bdo, changed)
  else Ok (bdo, false).
End feeds.
