(* ===== verification/Evaluator.v ===== *)
(** * Evaluating an operation

    Models chain/evaluator.hpp and chain/evaluator.cpp: the fee that every
    operation pays, and the order in which an evaluator runs its steps; and the
    two predicates on chain state that evaluators share, is_authorized_asset.cpp
    and fba_object.cpp. An evaluator class is an instance of [Evaluator]: its
    four overridable member functions, with the member variables they pass on
    as explicit values. *)

From S2P Require Import Prelude Ext Config Asset Objects Parameters Governance Blocks Names Operations Validation Fees Ledger Database Balance.

(** [operation_result] *)
Inductive operation_result :=
  | void_result
  | object_id_result (id : Z)
  | asset_result (a : asset).

(** [transaction_evaluation_state]: the flags an evaluator reads, and of the skip
    flags of the node the one an evaluator reads *)
Record trx_state := mk_trx_state {
  skip_fee : bool;
  skip_fee_schedule_check : bool;
  is_proposed_trx : bool;
  skip_assert_evaluation : bool;
}.

(** What [catch( const fc::exception& )] catches. *)
Definition is_fc_exception (e : error) : bool :=
  match e with
  | BadRational | Undefined | PartialState | OutOfFuel => false
  | _ => true
  end.

(** The members set by [prepare_fee]; the pointers are identifiers. *)
Record fee_info := mk_fee_info {
  fee_from_account : asset;
  core_fee_paid : Z;
  fee_paying_account : Z;
  fee_paying_account_statistics : Z;
  fee_asset : Z;
  fee_asset_dyn_data : Z;
}.
Definition set_core_fee_paid (v : Z) (i : fee_info) : fee_info :=
  mk_fee_info (fee_from_account i) v (fee_paying_account i) (fee_paying_account_statistics i)
              (fee_asset i) (fee_asset_dyn_data i).

(** [detail::_is_authorized_asset]; [asset_obj] is the identifier of [a]. *)
Definition detail_is_authorized_asset (acct : account_object) (asset_obj : Z) (a : asset_object) : DB bool :=
  let! now := head_block_time in
  let allowed := match ac_allowed_assets acct with
                 | Some l => bool_decide (asset_obj ∈ l)
                 | None => true end in
  if negb allowed then ret false
  else if negb (bool_decide (ac_blacklisting_accounts acct ## o_blacklist_authorities (as_options a)))
  then ret false
  else if (HARDFORK_415_TIME <? now) && bool_decide (o_whitelist_authorities (as_options a) = ∅)
  then ret true
  else ret (negb (bool_decide (ac_whitelisting_accounts acct ## o_whitelist_authorities (as_options a)))).

(** [is_authorized_asset], with its fast path *)
Definition is_authorized_asset (acct : account_object) (asset_obj : Z) (a : asset_object) : DB bool :=
  let fast_check := negb (has_flag (o_flags (as_options a)) white_list)
                    && bool_decide (ac_allowed_assets acct = None) in
  if fast_check then ret true else detail_is_authorized_asset acct asset_obj a.

(** [flags & allowed_flags == flags], with [allowed_flags = charge_market_fee] *)
Definition only_market_fee (flags : Z) : bool := Z.land flags charge_market_fee =? flags.

Definition top_holders_of (sa : special_authority) (a : Z) : bool :=
  match sa with
  | top_holders_special_authority sa_asset _ => sa_asset =? a
  | no_special_authority => false
  end.

(** [fba_accumulator_object::is_configured] *)
Definition is_configured (fba : fba_accumulator_object) : DB bool :=
  match fba_designated_asset fba with
  | None => ret false
  | Some a =>
    let! dasset := gets (λ s, d_assets s !! a) in
    match dasset with
    | None => ret false
    | Some da =>
      if is_market_issued da then ret false
      else if negb (only_market_fee (o_issuer_permissions (as_options da))) then ret false
      else if negb (only_market_fee (o_flags (as_options da))) then ret false
      else if bool_decide (as_buyback_account da = None) then ret false
      else
        let! issuer := get_account (as_issuer da) in
        ret (top_holders_of (ac_owner_special_authority issuer) a &&
             top_holders_of (ac_active_special_authority issuer) a &&
             (ac_top_n_control_flags issuer =? Z.lor top_n_control_owner top_n_control_active))
    end
  end.

(** [graphene_fba_accumulator_id_enum] *)
Definition fba_accumulator_id_transfer_to_blind : Z := 0.
Definition fba_accumulator_id_blind_transfer : Z := 1.
Definition fba_accumulator_id_transfer_from_blind : Z := 2.

Section generic_evaluator.
Context {X : Ext} {P : Packing}.

(** [generic_evaluator::prepare_fee] *)
Definition prepare_fee (account_id : Z) (fee : asset) : DB fee_info :=
  require! 0 <=? amount fee in
  let! account := get_account account_id in
  do! get_statistics (ac_statistics account) in
  let! fa := get_asset (asset_id fee) in
  let! dyn := get_dynamic (as_dynamic_asset_data_id fa) in
  let! now := head_block_time in
  let! authorized := (if HARDFORK_419_TIME <? now
                      then is_authorized_asset account (asset_id fee) fa else ret true) in
  require! authorized in
  let info core := mk_fee_info fee core account_id (ac_statistics account) (asset_id fee)
                               (as_dynamic_asset_data_id fa) in
  if asset_id fee =? CORE then ret (info (amount fee))
  else
    let! from_pool := lift (asset_mul fee (o_core_exchange_rate (as_options fa))) in
    require! asset_id from_pool =? CORE in
    require! amount from_pool <=? fee_pool dyn in
    ret (info (amount from_pool)).

(** [generic_evaluator::convert_fee] *)
Definition convert_fee (ts : trx_state) (i : fee_info) : DB unit :=
  if skip_fee ts || (fee_asset i =? CORE) then ret tt
  else modify_dynamic (fee_asset_dyn_data i) (λ d,
         let? fees := safe (accumulated_fees d + amount (fee_from_account i)) in
         let? pool := safe (fee_pool d - core_fee_paid i) in
         Ok (set_fee_pool pool (set_accumulated_fees fees d))).

(** [generic_evaluator::pay_fee] *)
Definition generic_pay_fee (ts : trx_state) (i : fee_info) : DB unit :=
  if skip_fee ts then ret tt
  else
    let! params := global_parameters in
    modify_statistics (fee_paying_account_statistics i)
      (pay_fee (core_fee_paid i) (cp_cashback_vesting_threshold params)).

(** [generic_evaluator::pay_fba_fee] *)
Definition pay_fba_fee (ts : trx_state) (i : fee_info) (fba_id : Z) : DB unit :=
  let! fba := get_fba fba_id in
  let! configured := is_configured fba in
  if negb configured then generic_pay_fee ts i
  else modify_fba fba_id (λ f,
         let? v := safe (fba_accumulated_fba_fees f + core_fee_paid i) in
         Ok (set_fba_accumulated_fba_fees v f)).

(** An evaluator class: the operations it evaluates and its member functions.
    [E] is what [do_evaluate] leaves in member variables for [do_apply], [F]
    what [pay_fee] leaves. *)
Class Evaluator (Op E F : Type) := {
  ev_operation : Op → operation;
  ev_convert_fee : trx_state → fee_info → DB unit;
  ev_pay_fee : trx_state → fee_info → DB F;
  ev_do_evaluate : trx_state → fee_info → Op → DB E;
  ev_do_apply : fee_info → F → Op → E → DB operation_result;
}.

Section start_evaluate.
Context {Op E F : Type} `{Ev : Evaluator Op E F}.

(** [evaluator::evaluate] *)
Definition evaluate (ts : trx_state) (op : Op) : DB (fee_info * E) :=
  let! i := prepare_fee (fee_payer (ev_operation op)) (op_fee (ev_operation op)) in
  let! params := global_parameters in
  let! enough :=
    (if skip_fee_schedule_check ts then ret true
     else
       let! required_fee := lift (calculate_fee (cp_current_fees params) (ev_operation op)
                                                (unit_price CORE)) in
       ret (amount required_fee <=? core_fee_paid i)) in
  if enough then let! e := ev_do_evaluate ts i op in ret (i, e)
  else fail InsufficientFee.

(** [evaluator::apply] *)
Definition apply (ts : trx_state) (op : Op) (i : fee_info) (e : E) : DB operation_result :=
  do! ev_convert_fee ts i in
  let! f := ev_pay_fee ts i in
  let! result := ev_do_apply i f op e in
  let! neg := lift (asset_neg (fee_from_account i)) in
  do! adjust_balance (fee_payer (ev_operation op)) neg in
  ret result.

(** [generic_evaluator::start_evaluate] with [apply]. *)
Definition start_evaluate (ts : trx_state) (op : Op) : DB operation_result :=
  let! r := evaluate ts op in
  apply ts op (fst r) (snd r).
End start_evaluate.
End generic_evaluator.
