(* ===== verification/MarketEval.v ===== *)
(** * The evaluators of market operations

    Models chain/market_evaluator.cpp: placing and cancelling limit orders,
    updating a margin position, bidding collateral on a globally settled
    asset. *)

From S2P Require Import Prelude Ext Config Asset Objects Parameters Governance Blocks Names Operations Validation Fees Ledger Database Balance Market Matching OrderBook Evaluator.

Section market_evaluators.
Context {X : Ext} {P : Packing}.

(** ** limit_order_create_evaluator *)

Definition market_allowed (options : asset_options) (other : Z) : bool :=
  (bool_decide (o_whitelist_markets options = ∅) || bool_decide (other ∈ o_whitelist_markets options)) &&
  (bool_decide (o_blacklist_markets options = ∅) || bool_decide (other ∉ o_blacklist_markets options)).

Definition limit_order_create_do_evaluate (i : fee_info) (op : limit_order_create_operation) : DB unit :=
  let! now := head_block_time in
  require! now <=? loc_expiration op in
  let sell := asset_id (loc_amount_to_sell op) in
  let receive := asset_id (loc_min_to_receive op) in
  let! seller := get_account (fee_paying_account i) in
  let! sell_asset := get_asset sell in
  let! receive_asset := get_asset receive in
  require! market_allowed (as_options sell_asset) receive in
  let! a1 := is_authorized_asset seller sell sell_asset in
  require! a1 in
  let! a2 := is_authorized_asset seller receive receive_asset in
  require! a2 in
  let! balance := get_balance (fee_paying_account i) sell in
  let! enough := lift (asset_ge balance (loc_amount_to_sell op)) in
  require! enough in
  ret tt.

(** [limit_order_create_evaluator::convert_fee] *)
Definition limit_order_convert_fee (ts : trx_state) (i : fee_info) : DB unit :=
  let! now := head_block_time in
  if now <=? HARDFORK_CORE_604_TIME then convert_fee ts i
  else if skip_fee ts || (fee_asset i =? CORE) then ret tt
  else modify_dynamic (fee_asset_dyn_data i) (λ d,
         let? pool := safe (fee_pool d - core_fee_paid i) in Ok (set_fee_pool pool d)).

(** [limit_order_create_evaluator::pay_fee]: returns [_deferred_fee] and
    [_deferred_paid_fee]. *)
Definition limit_order_pay_fee (ts : trx_state) (i : fee_info) : DB (Z * asset) :=
  let! now := head_block_time in
  if now <=? HARDFORK_445_TIME then
    do! generic_pay_fee ts i in ret (0, mk_asset 0 CORE)
  else
    ret (core_fee_paid i,
         if (HARDFORK_CORE_604_TIME <? now) && negb (fee_asset i =? CORE)
         then fee_from_account i else mk_asset 0 CORE).

Definition limit_order_create_do_apply (i : fee_info) (deferred : Z * asset)
    (op : limit_order_create_operation) (_ : unit) : DB operation_result :=
  do! modify_statistics_of (fee_paying_account i) (λ bal,
        if asset_id (loc_amount_to_sell op) =? CORE then
          let? v := safe (st_total_core_in_orders bal + amount (loc_amount_to_sell op)) in
          Ok (set_st_total_core_in_orders v bal)
        else Ok bal) in
  let! neg := lift (asset_neg (loc_amount_to_sell op)) in
  do! adjust_balance (loc_seller op) neg in
  let! sell_price := lift (loc_get_price op) in
  let! order_id := create_limit (mk_limit_order (loc_expiration op) (fee_paying_account i)
        (amount (loc_amount_to_sell op)) sell_price (fst deferred) (snd deferred)) in
  let! maint_time := next_maintenance_time in
  let! filled := (if maint_time <=? HARDFORK_CORE_625_TIME
                  then apply_order_before_hardfork_625 order_id true
                  else apply_order order_id) in
  require! negb (loc_fill_or_kill op) || filled in
  ret (object_id_result order_id).

#[export] Instance limit_order_create_evaluator :
    Evaluator limit_order_create_operation unit (Z * asset) := {|
  ev_operation := op_limit_order_create;
  ev_convert_fee := limit_order_convert_fee;
  ev_pay_fee := limit_order_pay_fee;
  ev_do_evaluate _ := limit_order_create_do_evaluate;
  ev_do_apply := limit_order_create_do_apply;
|}.

(** ** limit_order_cancel_evaluator *)

Definition limit_order_cancel_do_evaluate (i : fee_info) (o : limit_order_cancel_operation) : DB unit :=
  let! order := get_limit (lox_order o) in
  require! lo_seller order =? lox_fee_paying_account o in
  ret tt.

Definition limit_order_cancel_do_apply (i : fee_info) (_ : unit)
    (o : limit_order_cancel_operation) (_ : unit) : DB operation_result :=
  let! order := get_limit (lox_order o) in
  let base_asset := asset_id (base (lo_sell_price order)) in
  let quote_asset := asset_id (quote (lo_sell_price order)) in
  let refunded := lo_amount_for_sale order in
  do! cancel_limit_order (lox_order o) false false in
  let! maint_time := next_maintenance_time in
  do! (if maint_time <=? HARDFORK_CORE_606_TIME then
         do! check_call_orders base_asset true false in
         do! check_call_orders quote_asset true false in
         ret tt
       else ret tt) in
  ret (asset_result refunded).

#[export] Instance limit_order_cancel_evaluator :
    Evaluator limit_order_cancel_operation unit unit := {|
  ev_operation := op_limit_order_cancel;
  ev_convert_fee := convert_fee;
  ev_pay_fee := generic_pay_fee;
  ev_do_evaluate _ := limit_order_cancel_do_evaluate;
  ev_do_apply := limit_order_cancel_do_apply;
|}.

(** ** call_order_update_evaluator *)

Definition call_order_update_do_evaluate (i : fee_info) (o : call_order_update_operation) : DB unit :=
  let! maint_time := next_maintenance_time in
  require! negb (maint_time <=? HARDFORK_CORE_834_TIME)
           || bool_decide (cou_target_collateral_ratio o = None) in
  do! get_account (cou_funding_account o) in
  let! debt_asset := get_asset (asset_id (cou_delta_debt o)) in
  require! is_market_issued debt_asset in
  let! bitasset_data := get_bitasset_of (asset_id (cou_delta_debt o)) in
  require! negb (has_settlement bitasset_data) in
  let backing := bo_short_backing_asset (bd_options bitasset_data) in
  require! asset_id (cou_delta_collateral o) =? backing in
  require! negb (bd_is_prediction_market bitasset_data)
           || (amount (cou_delta_collateral o) =? amount (cou_delta_debt o)) in
  if negb (bd_is_prediction_market bitasset_data) &&
     is_null (settlement_price (bd_current_feed bitasset_data))
  then fail InsufficientFeeds
  else if 0 <? amount (cou_delta_collateral o) then
    do! get_asset backing in
    let! balance := get_balance (cou_funding_account o) backing in
    let! enough := lift (asset_ge balance (cou_delta_collateral o)) in
    require! enough in
    ret tt
  else ret tt.

(** The first half of [do_apply]: debt and collateral are moved between the
    account and the position. *)
Definition move_debt (o : call_order_update_operation) : DB unit :=
  let debt := cou_delta_debt o in
  if amount debt =? 0 then ret tt
  else
    do! adjust_balance (cou_funding_account o) debt in
    modify_dynamic_of (asset_id debt) (λ d,
      let? v := safe (current_supply d + amount debt) in
      require? 0 <=? v in
      Ok (set_current_supply v d)).

Definition move_collateral (o : call_order_update_operation) : DB unit :=
  let collateral := cou_delta_collateral o in
  if amount collateral =? 0 then ret tt
  else
    let! neg := lift (asset_neg collateral) in
    do! adjust_balance (cou_funding_account o) neg in
    if asset_id collateral =? CORE then
      modify_statistics_of (cou_funding_account o) (λ st,
        let? v := safe (st_total_core_in_orders st + amount collateral) in
        Ok (set_st_total_core_in_orders v st))
    else ret tt.

(** The lambda that modifies an existing position. *)
Definition update_position (o : call_order_update_operation) (mcr : Z)
    (call : call_order_object) : res call_order_object :=
  let? c := safe (co_collateral call + amount (cou_delta_collateral o)) in
  let call := set_co_collateral c call in
  let? d := safe (co_debt call + amount (cou_delta_debt o)) in
  let call := set_co_debt d call in
  let? call :=
    if 0 <? co_debt call then
      let? cp := call_price (get_debt call) (get_collateral call) mcr in
      Ok (set_co_call_price cp call)
    else Ok call in
  Ok (set_co_target_collateral_ratio (cou_target_collateral_ratio o) call).

(** The position after the update: its identifier, and its collateralization
    and debt before when it existed. *)
Definition open_or_update_position (o : call_order_update_operation) (mcr : Z)
    : DB (Z * option (price * Z)) :=
  let! itr := gets (find_call_by_account (cou_funding_account o) (asset_id (cou_delta_debt o))) in
  match itr with
  | None =>
    require! 0 <? amount (cou_delta_collateral o) in
    require! 0 <? amount (cou_delta_debt o) in
    let! cp := lift (call_price (cou_delta_debt o) (cou_delta_collateral o) mcr) in
    let! id := create_call (mk_call_order (cou_funding_account o) (amount (cou_delta_collateral o))
                  (amount (cou_delta_debt o)) cp (cou_target_collateral_ratio o)) in
    ret (id, None)
  | Some id =>
    let! call := get_call id in
    let! old_collateralization := lift (collateralization call) in
    let! new_collateral := lift (safe (co_collateral call + amount (cou_delta_collateral o))) in
    let! new_debt := lift (safe (co_debt call + amount (cou_delta_debt o))) in
    require! negb ((new_collateral =? 0) && negb (new_debt =? 0)) in
    do! modify_call id (update_position o mcr) in
    ret (id, Some (old_collateralization, co_debt call))
  end.

(** The checks on the position after margin calls have been looked for. *)
Definition check_position (debt_asset id : Z) (old : option (price * Z)) (called : bool) : DB unit :=
  let! bitasset_data := get_bitasset_of debt_asset in
  let! found := gets (λ s, d_calls s !! id) in
  if called then
    if bool_decide (is_Some found) then fail UnfilledMarginCall else ret tt
  else
    match found with
    | None => fail AssertFailure
    | Some call =>
      let! now := head_block_time in
      let safe_price := price_ltb (price_inv (co_call_price call))
                                  (settlement_price (bd_current_feed bitasset_data)) in
      if now <=? HARDFORK_CORE_583_TIME then
        if safe_price then ret tt else fail UnfilledMarginCall
      else
        let! increased :=
          (match old with
           | None => ret false
           | Some (old_collateralization, old_debt) =>
             if co_debt call <=? old_debt then
               let! c := lift (collateralization call) in
               ret (price_gtb c old_collateralization)
             else ret false
           end) in
        require! increased || safe_price in
        ret tt
    end.

Definition call_order_update_do_apply (i : fee_info) (_ : unit)
    (o : call_order_update_operation) (_ : unit) : DB operation_result :=
  let debt_asset := asset_id (cou_delta_debt o) in
  do! move_debt o in
  do! move_collateral o in
  let! bitasset_data := get_bitasset_of debt_asset in
  let! r := open_or_update_position o (maintenance_collateral_ratio (bd_current_feed bitasset_data)) in
  let! call := get_call (fst r) in
  if co_debt call =? 0 then
    require! co_collateral call =? 0 in
    do! remove_call (fst r) in
    ret void_result
  else
    require! (0 <? co_collateral call) && (0 <? co_debt call) in
    do! (if bd_is_prediction_market bitasset_data then ret tt
         else
           let! called := check_call_orders debt_asset false false in
           check_position debt_asset (fst r) (snd r) called) in
    ret void_result.

#[export] Instance call_order_update_evaluator :
    Evaluator call_order_update_operation unit unit := {|
  ev_operation := op_call_order_update;
  ev_convert_fee := convert_fee;
  ev_pay_fee := generic_pay_fee;
  ev_do_evaluate _ := call_order_update_do_evaluate;
  ev_do_apply := call_order_update_do_apply;
|}.

(** ** bid_collateral_evaluator *)

(** Returns [_bid]: the bid of the account to be replaced. *)
Definition bid_collateral_do_evaluate (i : fee_info) (o : bid_collateral_operation) : DB (option Z) :=
  let! now := head_block_time in
  require! HARDFORK_CORE_216_TIME <? now in
  do! get_account (bc_bidder o) in
  let debt := asset_id (bc_debt_covered o) in
  let! debt_asset := get_asset debt in
  require! is_market_issued debt_asset in
  let! bitasset_data := get_bitasset_of debt in
  require! has_settlement bitasset_data in
  let backing := bo_short_backing_asset (bd_options bitasset_data) in
  require! asset_id (bc_additional_collateral o) =? backing in
  require! negb (bd_is_prediction_market bitasset_data) in
  do! (if 0 <? amount (bc_additional_collateral o) then
         do! get_asset backing in
         let! balance := get_balance (bc_bidder o) backing in
         let! enough := lift (asset_ge balance (bc_additional_collateral o)) in
         require! enough in ret tt
       else ret tt) in
  let! bid := gets (find_bid_by_account debt (bc_bidder o)) in
  require! bool_decide (is_Some bid) || (0 <? amount (bc_debt_covered o)) in
  ret bid.

Definition bid_collateral_do_apply (i : fee_info) (_ : unit)
    (o : bid_collateral_operation) (bid : option Z) : DB operation_result :=
  do! (match bid with
       | Some b => cancel_bid b false
       | None => ret tt end) in
  if amount (bc_debt_covered o) =? 0 then ret void_result
  else
    let! neg := lift (asset_neg (bc_additional_collateral o)) in
    do! adjust_balance (bc_bidder o) neg in
    let! swan := lift (asset_div (bc_additional_collateral o) (bc_debt_covered o)) in
    do! create_bid (mk_collateral_bid (bc_bidder o) swan) in
    ret void_result.

#[export] Instance bid_collateral_evaluator :
    Evaluator bid_collateral_operation (option Z) unit := {|
  ev_operation := op_bid_collateral;
  ev_convert_fee := convert_fee;
  ev_pay_fee := generic_pay_fee;
  ev_do_evaluate _ := bid_collateral_do_evaluate;
  ev_do_apply := bid_collateral_do_apply;
|}.
End market_evaluators.
