(* ===== verification/AssetEval.v ===== *)
(** * The evaluators of asset operations

    Models chain/asset_evaluator.cpp: creating, updating, issuing and reserving
    an asset, its fee pool and accumulated fees, its price feeds, forced and
    global settlement. *)

From S2P Require Import Prelude Ext Config Asset Objects Parameters Governance Blocks Names Operations Validation Fees Ledger Database Balance Market Matching OrderBook Feeds Evaluator.

(** The part of a symbol before its last dot ([rfind], [substr]). *)
Fixpoint drop_to_dot (cs : list Ascii.ascii) : option (list Ascii.ascii) :=
  match cs with
  | [] => None
  | c :: cs' => if bool_decide (c = dot) then Some cs' else drop_to_dot cs'
  end.
Definition symbol_prefix (symbol : string) : option string :=
  (λ cs, String.string_of_list_ascii (reverse cs))
    <$> drop_to_dot (reverse (String.list_ascii_of_string symbol)).
Definition ends_with_alpha (symbol : string) : bool :=
  from_option is_alpha false (last (String.list_ascii_of_string symbol)).

(** [d.get_object(id)] for every account of a set *)
Fixpoint accounts_exist (ids : list Z) : DB unit :=
  match ids with
  | [] => ret tt
  | id :: ids' => do! get_account id in accounts_exist ids'
  end.

Section asset_evaluators.
Context {X : Ext} {P : Packing} {N : NthElement}.

(** ** asset_create_evaluator *)

Definition authorities_ok (options : asset_options) : DB unit :=
  let! params := global_parameters in
  let max := cp_maximum_asset_whitelist_authorities params in
  require! Z.of_nat (size (o_whitelist_authorities options)) <=? max in
  require! Z.of_nat (size (o_blacklist_authorities options)) <=? max in
  do! accounts_exist (elements (o_whitelist_authorities options)) in
  accounts_exist (elements (o_blacklist_authorities options)).

(** The name space of a symbol: only the issuer of its prefix may use it. *)
Definition symbol_ok (op : asset_create_operation) : DB unit :=
  let! found := gets (find_asset_by_symbol (acr_symbol op)) in
  require! bool_decide (found = None) in
  let! now := head_block_time in
  if HARDFORK_385_TIME <? now then
    do! (match symbol_prefix (acr_symbol op) with
         | None => ret tt
         | Some prefix =>
           let! parent := gets (find_asset_by_symbol prefix) in
           match parent with
           | None => fail AssertFailure
           | Some p =>
             let! a := get_asset p in
             require! as_issuer a =? acr_issuer op in ret tt
           end
         end) in
    require! (HARDFORK_CORE_620_TIME <? now) || ends_with_alpha (acr_symbol op) in
    ret tt
  else ret tt.

Definition new_bitasset_ok (op : asset_create_operation) (opts : bitasset_options) : DB unit :=
  let! params := global_parameters in
  let backing := bo_short_backing_asset opts in
  let! backing_asset := get_asset backing in
  let by_committee := acr_issuer op =? GRAPHENE_COMMITTEE_ACCOUNT in
  do! (if is_market_issued backing_asset then
         let! backing_bitasset_data := get_bitasset_of backing in
         let backing_backing := bo_short_backing_asset (bd_options backing_bitasset_data) in
         let! backing_backing_asset := get_asset backing_backing in
         require! negb (is_market_issued backing_backing_asset) in
         require! negb by_committee || (backing_backing =? CORE) in ret tt
       else
         require! negb by_committee || (backing =? CORE) in ret tt) in
  require! (cp_block_interval params <? bo_feed_lifetime_sec opts) &&
           (cp_block_interval params <? bo_force_settlement_delay_sec opts) in
  ret tt.

Definition asset_create_do_evaluate (i : fee_info) (op : asset_create_operation) : DB unit :=
  do! authorities_ok (acr_common_options op) in
  do! symbol_ok op in
  do! (match acr_bitasset_opts op with
       | Some opts => new_bitasset_ok op opts
       | None => ret tt end) in
  if acr_is_prediction_market op then
    match acr_bitasset_opts op with
    | None => fail AssertFailure
    | Some opts =>
      let! backing := get_asset (bo_short_backing_asset opts) in
      require! acr_precision op =? as_precision backing in ret tt
    end
  else ret tt.

(** [asset_create_evaluator::pay_fee]: half of the fee is paid, the rest will
    be the fee pool; returns [fee_is_odd] and the new [core_fee_paid]. *)
Definition asset_create_pay_fee (ts : trx_state) (i : fee_info) : DB (bool * Z) :=
  let fee_is_odd := Z.odd (core_fee_paid i) in
  let! core := lift (safe (core_fee_paid i - Z.quot (core_fee_paid i) 2)) in
  do! generic_pay_fee ts (set_core_fee_paid core i) in
  ret (fee_is_odd, core).

(** The options of a new asset: the exchange rate refers to the asset that
    is being created. *)
Definition new_asset_options (next_asset_id : Z) (o : asset_options) : asset_options :=
  let cer := o_core_exchange_rate o in
  set_o_core_exchange_rate
    (if asset_id (base cer) =? 0
     then mk_price (base cer) (mk_asset (amount (quote cer)) next_asset_id)
     else mk_price (mk_asset (amount (base cer)) next_asset_id) (quote cer)) o.

Definition new_bitasset_data (next_asset_id : Z) (opts : bitasset_options) (pm : bool)
    : asset_bitasset_data_object :=
  mk_bitasset_data next_asset_id opts ∅ null_feed time_zero pm 0 null_price 0 false false.

Definition asset_create_do_apply (i : fee_info) (paid : bool * Z)
    (op : asset_create_operation) (_ : unit) : DB operation_result :=
  let '(fee_is_odd, core) := paid in
  let! now := head_block_time in
  let hf_429 := fee_is_odd && (HARDFORK_CORE_429_TIME <? now) in
  let! pool := lift (safe (core - (if hf_429 then 1 else 0))) in
  let! dyn_asset := create_dynamic (mk_asset_dynamic_data 0 0 0 pool) in
  do! (if fee_is_odd && negb hf_429 then
         modify_dynamic_of CORE (λ dd,
           let? v := safe (current_supply dd + 1) in Ok (set_current_supply v dd))
       else ret tt) in
  let! next_asset_id := gets (λ s, ni_asset (d_next_ids s)) in
  let! bit_asset_id :=
    (match acr_bitasset_opts op with
     | Some opts =>
       let! b := create_bitasset (new_bitasset_data next_asset_id opts (acr_is_prediction_market op)) in
       ret (Some b)
     | None => ret None end) in
  let! new_asset := create_asset (mk_asset_object (acr_symbol op) (acr_precision op) (acr_issuer op)
        (new_asset_options next_asset_id (acr_common_options op)) dyn_asset bit_asset_id None) in
  require! new_asset =? next_asset_id in
  ret (object_id_result new_asset).

#[export] Instance asset_create_evaluator : Evaluator asset_create_operation unit (bool * Z) := {|
  ev_operation := op_asset_create;
  ev_convert_fee := convert_fee;
  ev_pay_fee := asset_create_pay_fee;
  ev_do_evaluate _ := asset_create_do_evaluate;
  ev_do_apply := asset_create_do_apply;
|}.

(** An evaluator that overrides neither [convert_fee] nor [pay_fee]. *)
Definition plain_evaluator {Op E : Type} (wrap : Op → operation)
    (do_evaluate : fee_info → Op → DB E)
    (do_apply : fee_info → unit → Op → E → DB operation_result) : Evaluator Op E unit := {|
  ev_operation := wrap;
  ev_convert_fee := convert_fee;
  ev_pay_fee := generic_pay_fee;
  ev_do_evaluate _ := do_evaluate;
  ev_do_apply := do_apply;
|}.

(** ** asset_issue_evaluator *)

Definition asset_issue_do_evaluate (i : fee_info) (o : asset_issue_operation) : DB unit :=
  let id := asset_id (ais_asset_to_issue o) in
  let! a := get_asset id in
  require! ais_issuer o =? as_issuer a in
  require! negb (is_market_issued a) in
  let! to_account := get_account (ais_issue_to_account o) in
  let! authorized := is_authorized_asset to_account id a in
  require! authorized in
  let! dyn := get_dynamic (as_dynamic_asset_data_id a) in
  let! supply := lift (safe (current_supply dyn + amount (ais_asset_to_issue o))) in
  require! supply <=? o_max_supply (as_options a) in
  ret tt.

Definition asset_issue_do_apply (i : fee_info) (_ : unit)
    (o : asset_issue_operation) (_ : unit) : DB operation_result :=
  do! adjust_balance (ais_issue_to_account o) (ais_asset_to_issue o) in
  do! modify_dynamic_of (asset_id (ais_asset_to_issue o)) (λ d,
        let? v := safe (current_supply d + amount (ais_asset_to_issue o)) in
        Ok (set_current_supply v d)) in
  ret void_result.

#[export] Instance asset_issue_evaluator : Evaluator asset_issue_operation unit unit :=
  plain_evaluator op_asset_issue asset_issue_do_evaluate asset_issue_do_apply.

(** ** asset_reserve_evaluator *)

Definition asset_reserve_do_evaluate (i : fee_info) (o : asset_reserve_operation) : DB unit :=
  let id := asset_id (ars_amount_to_reserve o) in
  let! a := get_asset id in
  require! negb (is_market_issued a) in
  let! from_account := get_account (ars_payer o) in
  let! authorized := is_authorized_asset from_account id a in
  require! authorized in
  let! dyn := get_dynamic (as_dynamic_asset_data_id a) in
  let! supply := lift (safe (current_supply dyn - amount (ars_amount_to_reserve o))) in
  require! 0 <=? supply in
  ret tt.

Definition asset_reserve_do_apply (i : fee_info) (_ : unit)
    (o : asset_reserve_operation) (_ : unit) : DB operation_result :=
  let! neg := lift (asset_neg (ars_amount_to_reserve o)) in
  do! adjust_balance (ars_payer o) neg in
  do! modify_dynamic_of (asset_id (ars_amount_to_reserve o)) (λ d,
        let? v := safe (current_supply d - amount (ars_amount_to_reserve o)) in
        Ok (set_current_supply v d)) in
  ret void_result.

#[export] Instance asset_reserve_evaluator : Evaluator asset_reserve_operation unit unit :=
  plain_evaluator op_asset_reserve asset_reserve_do_evaluate asset_reserve_do_apply.

(** ** asset_fund_fee_pool_evaluator *)

Definition asset_fund_fee_pool_do_evaluate (i : fee_info) (o : asset_fund_fee_pool_operation) : DB unit :=
  do! get_dynamic_of (aff_asset_id o) in ret tt.

Definition asset_fund_fee_pool_do_apply (i : fee_info) (_ : unit)
    (o : asset_fund_fee_pool_operation) (_ : unit) : DB operation_result :=
  let! neg := lift (safe (- aff_amount o)) in
  do! adjust_balance (aff_from_account o) (mk_asset neg CORE) in
  do! modify_dynamic_of (aff_asset_id o) (λ d,
        let? v := safe (fee_pool d + aff_amount o) in Ok (set_fee_pool v d)) in
  ret void_result.

#[export] Instance asset_fund_fee_pool_evaluator : Evaluator asset_fund_fee_pool_operation unit unit :=
  plain_evaluator op_asset_fund_fee_pool asset_fund_fee_pool_do_evaluate asset_fund_fee_pool_do_apply.

(** ** asset_update_evaluator and asset_update_issuer_evaluator *)

(** [validate_new_issuer] *)
Definition validate_new_issuer (id : Z) (a : asset_object) (new_issuer : Z) : DB unit :=
  let! found := gets (λ s, d_accounts s !! new_issuer) in
  require! bool_decide (is_Some found) in
  if is_market_issued a && (new_issuer =? GRAPHENE_COMMITTEE_ACCOUNT) then
    let! data := get_bitasset_of id in
    let backing := bo_short_backing_asset (bd_options data) in
    let! backing_asset := get_asset backing in
    if is_market_issued backing_asset then
      let! backing_data := get_bitasset_of backing in
      let backing_backing := bo_short_backing_asset (bd_options backing_data) in
      do! get_asset backing_backing in
      require! backing_backing =? CORE in ret tt
    else require! backing =? CORE in ret tt
  else ret tt.

Definition asset_update_do_evaluate (i : fee_info) (o : asset_update_operation) : DB unit :=
  let! a := get_asset (aup_asset_to_update o) in
  let! now := head_block_time in
  do! lift (asset_object_validate (set_as_options (aup_new_options o) a)) in
  do! (match aup_new_issuer o with
       | Some new_issuer =>
         require! now <? HARDFORK_CORE_199_TIME in
         validate_new_issuer (aup_asset_to_update o) a new_issuer
       | None => ret tt end) in
  let! issued := (if now <? HARDFORK_572_TIME then ret true
                  else let! dyn := get_dynamic_of (aup_asset_to_update o) in
                       ret (negb (current_supply dyn =? 0))) in
  let permissions := o_issuer_permissions (as_options a) in
  require! negb issued ||
           (Z.land (o_issuer_permissions (aup_new_options o)) (Z.lnot permissions) =? 0) in
  require! Z.land (Z.lxor (o_flags (aup_new_options o)) (o_flags (as_options a)))
                  (Z.lnot permissions) =? 0 in
  require! aup_issuer o =? as_issuer a in
  authorities_ok (aup_new_options o).

(** Cancel every force settlement of an asset. *)
Fixpoint cancel_settlements (fuel : nat) (a : Z) : DB unit :=
  match fuel with
  | O => fail OutOfFuel
  | S fuel' =>
    let! itr := gets (settlement_lower_bound a) in
    match itr with
    | None => ret tt
    | Some id =>
      let! order := get_settle id in
      if fs_settlement_asset_id order =? a then
        do! cancel_settle_order id true in
        cancel_settlements fuel' a
      else ret tt
    end
  end.

Definition asset_update_do_apply (i : fee_info) (_ : unit)
    (o : asset_update_operation) (_ : unit) : DB operation_result :=
  let id := aup_asset_to_update o in
  let! a := get_asset id in
  do! (if has_flag (o_flags (aup_new_options o)) disable_force_settle && can_force_settle a then
         let! fuel := gets (λ s, S (size (d_settles s))) in cancel_settlements fuel id
       else ret tt) in
  do! (if is_market_issued a &&
          negb (price_eqb (o_core_exchange_rate (as_options a))
                          (o_core_exchange_rate (aup_new_options o))) then
         let! bitasset := get_bitasset_of id in
         if bd_asset_cer_updated bitasset then ret tt
         else modify_bitasset_of id (λ b, Ok (set_bd_asset_cer_updated true b))
       else ret tt) in
  do! modify_asset id (λ a,
        let a := match aup_new_issuer o with Some n => set_as_issuer n a | None => a end in
        Ok (set_as_options (aup_new_options o) a)) in
  ret void_result.

#[export] Instance asset_update_evaluator : Evaluator asset_update_operation unit unit :=
  plain_evaluator op_asset_update asset_update_do_evaluate asset_update_do_apply.

Definition asset_update_issuer_do_evaluate (i : fee_info) (o : asset_update_issuer_operation) : DB unit :=
  let! a := get_asset (aui_asset_to_update o) in
  do! validate_new_issuer (aui_asset_to_update o) a (aui_new_issuer o) in
  require! aui_issuer o =? as_issuer a in
  let! now := head_block_time in
  require! negb (now <? HARDFORK_CORE_199_TIME) in
  ret tt.

Definition asset_update_issuer_do_apply (i : fee_info) (_ : unit)
    (o : asset_update_issuer_operation) (_ : unit) : DB operation_result :=
  do! modify_asset (aui_asset_to_update o) (λ a, Ok (set_as_issuer (aui_new_issuer o) a)) in
  ret void_result.

#[export] Instance asset_update_issuer_evaluator : Evaluator asset_update_issuer_operation unit unit :=
  plain_evaluator op_asset_update_issuer asset_update_issuer_do_evaluate asset_update_issuer_do_apply.
End asset_evaluators.
