(* ===== verification/BitassetEval.v ===== *)
(** * The evaluators of market issued assets

    The rest of chain/asset_evaluator.cpp: the options, the feed producers and
    the feeds of a market issued asset, forced and global settlement, and the
    claims of an issuer. *)

From S2P Require Import Prelude Ext Config Asset Objects Parameters Governance Blocks Names Operations Validation Fees Ledger Database Balance Market Matching OrderBook Feeds Evaluator AssetEval.

Section bitasset_evaluators.
Context {X : Ext} {P : Packing} {N : NthElement}.

(** ** asset_update_bitasset_evaluator *)

(** The assets backed by [a]: [equal_range] of the index
    [by_short_backing_asset]. *)
Definition backed_by (a : Z) (s : database) : list asset_bitasset_data_object :=
  List.filter (λ b, bo_short_backing_asset (bd_options b) =? a)
              (map snd (map_to_list (d_bitassets s))).

Fixpoint check_children (children : list asset_bitasset_data_object) (new_backing : Z)
    (new_backing_asset : asset_object) (after_hf_922_931 : bool) : DB unit :=
  match children with
  | [] => ret tt
  | b :: children' =>
    let! child := get_asset (bd_asset_id b) in
    require! negb after_hf_922_931 ||
             (negb (bd_asset_id b =? new_backing) &&
              negb (as_issuer child =? GRAPHENE_COMMITTEE_ACCOUNT) &&
              negb (is_market_issued new_backing_asset)) in
    check_children children' new_backing new_backing_asset after_hf_922_931
  end.

(** [check_children_of_bitasset] *)
Definition check_children_of_bitasset (op : asset_update_bitasset_operation)
    (new_backing_asset : asset_object) (after_hf_922_931 : bool) : DB unit :=
  let new_backing := bo_short_backing_asset (aub_new_options op) in
  if new_backing =? CORE then ret tt
  else
    let! children := gets (backed_by (aub_asset_to_update op)) in
    check_children children new_backing new_backing_asset after_hf_922_931.

(** The checks on a new backing asset, after hard fork core-922/931. *)
Definition new_backing_ok (op : asset_update_bitasset_operation) (asset_obj : asset_object)
    (data : asset_bitasset_data_object) (new_backing_asset : asset_object) : DB unit :=
  let new_backing := bo_short_backing_asset (aub_new_options op) in
  require! negb (new_backing =? aub_asset_to_update op) in
  require! negb (bd_is_prediction_market data)
           || (as_precision asset_obj =? as_precision new_backing_asset) in
  do! (if as_issuer asset_obj =? GRAPHENE_COMMITTEE_ACCOUNT then
         if is_market_issued new_backing_asset then
           let! b := get_bitasset_of new_backing in
           require! bo_short_backing_asset (bd_options b) =? CORE in
           check_children_of_bitasset op new_backing_asset true
         else require! new_backing =? CORE in ret tt
       else check_children_of_bitasset op new_backing_asset true) in
  if is_market_issued new_backing_asset then
    let! b := get_bitasset_of new_backing in
    let backing_backing := bo_short_backing_asset (bd_options b) in
    if backing_backing =? CORE then ret tt
    else
      let! bb := get_asset backing_backing in
      require! negb (is_market_issued bb) in ret tt
  else ret tt.

(** The same before the hard fork, where most checks only log: the lookups
    and the checks on the old backing asset. *)
Definition old_backing_ok (op : asset_update_bitasset_operation) (asset_obj : asset_object)
    (data : asset_bitasset_data_object) (new_backing_asset : asset_object) : DB unit :=
  let new_backing := bo_short_backing_asset (aub_new_options op) in
  do! (if as_issuer asset_obj =? GRAPHENE_COMMITTEE_ACCOUNT then
         do! (if is_market_issued new_backing_asset then
                do! get_bitasset_of new_backing in
                check_children_of_bitasset op new_backing_asset false
              else ret tt) in
         let old_backing := bo_short_backing_asset (bd_options data) in
         let! old_backing_asset := get_asset old_backing in
         if is_market_issued old_backing_asset then
           let! b := get_bitasset_of old_backing in
           require! bo_short_backing_asset (bd_options b) =? CORE in ret tt
         else require! old_backing =? CORE in ret tt
       else check_children_of_bitasset op new_backing_asset false) in
  if is_market_issued new_backing_asset then
    let! b := get_bitasset_of new_backing in
    let backing_backing := bo_short_backing_asset (bd_options b) in
    if backing_backing =? CORE then ret tt
    else do! get_asset backing_backing in ret tt
  else ret tt.

Definition asset_update_bitasset_do_evaluate (i : fee_info) (op : asset_update_bitasset_operation)
    : DB unit :=
  let id := aub_asset_to_update op in
  let! asset_obj := get_asset id in
  require! is_market_issued asset_obj in
  require! aub_issuer op =? as_issuer asset_obj in
  let! data := get_bitasset_of id in
  require! negb (has_settlement data) in
  let! maint_time := next_maintenance_time in
  let after_hf_core_922_931 := HARDFORK_CORE_922_931_TIME <? maint_time in
  let new_backing := bo_short_backing_asset (aub_new_options op) in
  do! (if negb (new_backing =? bo_short_backing_asset (bd_options data)) then
         let! dyn := get_dynamic_of id in
         require! current_supply dyn =? 0 in
         let! new_backing_asset := get_asset new_backing in
         if after_hf_core_922_931
         then new_backing_ok op asset_obj data new_backing_asset
         else old_backing_ok op asset_obj data new_backing_asset
       else ret tt) in
  let! params := global_parameters in
  require! negb after_hf_core_922_931 ||
           ((cp_block_interval params <? bo_feed_lifetime_sec (aub_new_options op)) &&
            (cp_block_interval params <? bo_force_settlement_delay_sec (aub_new_options op))) in
  ret tt.

Definition asset_update_bitasset_do_apply (i : fee_info) (_ : unit)
    (op : asset_update_bitasset_operation) (_ : unit) : DB operation_result :=
  let id := aub_asset_to_update op in
  let! a := get_asset id in
  let! now := head_block_time in
  let! maint_time := next_maintenance_time in
  let! bdo := get_bitasset_of id in
  let! r := lift (update_bitasset_object_options op maint_time now (o_flags (as_options a)) bdo) in
  do! modify_bitasset_of id (λ _, Ok (fst r)) in
  do! (if snd r then do! check_call_orders id true false in ret tt else ret tt) in
  ret void_result.

#[export] Instance asset_update_bitasset_evaluator : Evaluator asset_update_bitasset_operation unit unit :=
  plain_evaluator op_asset_update_bitasset asset_update_bitasset_do_evaluate asset_update_bitasset_do_apply.

(** ** asset_update_feed_producers_evaluator *)

Definition asset_update_feed_producers_do_evaluate (i : fee_info)
    (o : asset_update_feed_producers_operation) : DB unit :=
  let! params := global_parameters in
  require! Z.of_nat (size (afp_new_feed_producers o)) <=? cp_maximum_asset_feed_publishers params in
  do! accounts_exist (elements (afp_new_feed_producers o)) in
  let! a := get_asset (afp_asset_to_update o) in
  require! is_market_issued a in
  require! negb (has_flag (o_flags (as_options a)) committee_fed_asset) in
  require! negb (has_flag (o_flags (as_options a)) witness_fed_asset) in
  do! get_bitasset_of (afp_asset_to_update o) in
  require! as_issuer a =? afp_issuer o in
  ret tt.

(** The feeds of the producers that stay, and an unpublished feed for each
    new one. *)
Definition replace_producers (producers : gset Z) (feeds : gmap Z (Z * price_feed))
    : gmap Z (Z * price_feed) :=
  filter (λ kv, kv.1 ∈ producers) feeds ∪ gset_to_gmap (time_zero, null_feed) producers.

Definition asset_update_feed_producers_do_apply (i : fee_info) (_ : unit)
    (o : asset_update_feed_producers_operation) (_ : unit) : DB operation_result :=
  let! now := head_block_time in
  do! modify_bitasset_of (afp_asset_to_update o) (λ a,
        update_median_feeds now
          (set_bd_feeds (replace_producers (afp_new_feed_producers o) (bd_feeds a)) a)) in
  do! check_call_orders (afp_asset_to_update o) true false in
  ret void_result.

#[export] Instance asset_update_feed_producers_evaluator :
    Evaluator asset_update_feed_producers_operation unit unit :=
  plain_evaluator op_asset_update_feed_producers asset_update_feed_producers_do_evaluate
                  asset_update_feed_producers_do_apply.

(** ** asset_global_settle_evaluator *)

Definition asset_global_settle_do_evaluate (i : fee_info) (op : asset_global_settle_operation) : DB unit :=
  let id := ags_asset_to_settle op in
  let! a := get_asset id in
  require! is_market_issued a in
  require! can_global_settle a in
  require! as_issuer a =? ags_issuer op in
  let! dyn := get_dynamic_of id in
  require! 0 <? current_supply dyn in
  let! data := get_bitasset_of id in
  require! negb (has_settlement data) in
  let! call_min := lift (price_min (bo_short_backing_asset (bd_options data)) id) in
  let! itr := gets (collateral_lower_bound call_min) in
  let! least := lift (of_option NotFound itr) in
  let! call := get_call least in
  let! pays := lift (asset_mul (get_debt call) (ags_settle_price op)) in
  let! enough := lift (asset_le pays (get_collateral call)) in
  require! enough in
  ret tt.

Definition asset_global_settle_do_apply (i : fee_info) (_ : unit)
    (op : asset_global_settle_operation) (_ : unit) : DB operation_result :=
  do! get_asset (ags_asset_to_settle op) in
  do! globally_settle_asset (ags_asset_to_settle op) (ags_settle_price op) in
  ret void_result.

#[export] Instance asset_global_settle_evaluator : Evaluator asset_global_settle_operation unit unit :=
  plain_evaluator op_asset_global_settle asset_global_settle_do_evaluate asset_global_settle_do_apply.

(** ** asset_settle_evaluator *)

Definition asset_settle_do_evaluate (i : fee_info) (op : asset_settle_operation) : DB unit :=
  let id := asset_id (ase_amount op) in
  let! a := get_asset id in
  require! is_market_issued a in
  let! bitasset := get_bitasset_of id in
  require! can_force_settle a || has_settlement bitasset in
  let! now := head_block_time in
  if bd_is_prediction_market bitasset && negb (has_settlement bitasset) then fail AssertFailure
  else if negb (bd_is_prediction_market bitasset) &&
          is_null (settlement_price (bd_current_feed bitasset)) &&
          ((now <=? HARDFORK_CORE_216_TIME) || negb (has_settlement bitasset))
  then fail InsufficientFeeds
  else
    do! get_account (ase_account op) in
    let! balance := get_balance (ase_account op) id in
    let! enough := lift (asset_ge balance (ase_amount op)) in
    require! enough in
    ret tt.

(** What a holder of a globally settled asset gives and gets. *)
Definition settled_amounts (op_amount : asset) (supply maint_time : Z)
    (b : asset_bitasset_data_object) : res (asset * asset) :=
  let? settled := asset_mul op_amount (bd_settlement_price b) in
  let all := amount op_amount =? supply in
  let settled := if all then mk_asset (bd_settlement_fund b) (asset_id settled) else settled in
  require? all || (amount settled <=? bd_settlement_fund b) in
  require? negb ((amount settled =? 0) && negb (bd_is_prediction_market b) &&
                 (HARDFORK_CORE_184_TIME <? maint_time)) in
  let? pays :=
    if negb all && negb (amount settled =? 0) && (HARDFORK_CORE_342_TIME <? maint_time)
    then multiply_and_round_up settled (bd_settlement_price b)
    else Ok op_amount in
  Ok (pays, settled).

(** The branch for a globally settled asset. *)
Definition settle_from_fund (op : asset_settle_operation) : DB operation_result :=
  let id := asset_id (ase_amount op) in
  let! bitasset := get_bitasset_of id in
  let! mia_dyn := get_dynamic_of id in
  let! maint_time := next_maintenance_time in
  let! r := lift (settled_amounts (ase_amount op) (current_supply mia_dyn) maint_time bitasset) in
  let '(pays, settled_amount) := r in
  let! neg := lift (asset_neg pays) in
  do! adjust_balance (ase_account op) neg in
  do! (if 0 <? amount settled_amount then
         do! modify_bitasset_of id (λ obj,
               let? v := safe (bd_settlement_fund obj - amount settled_amount) in
               Ok (set_bd_settlement_fund v obj)) in
         adjust_balance (ase_account op) settled_amount
       else ret tt) in
  do! modify_dynamic_of id (λ obj,
        let? v := safe (current_supply obj - amount pays) in Ok (set_current_supply v obj)) in
  ret (asset_result settled_amount).

Definition asset_settle_do_apply (i : fee_info) (_ : unit)
    (op : asset_settle_operation) (_ : unit) : DB operation_result :=
  let! bitasset := get_bitasset_of (asset_id (ase_amount op)) in
  if has_settlement bitasset then settle_from_fund op
  else
    let! neg := lift (asset_neg (ase_amount op)) in
    do! adjust_balance (ase_account op) neg in
    let! now := head_block_time in
    let! id := create_settle (mk_force_settlement (ase_account op) (ase_amount op)
                 (time_add now (bo_force_settlement_delay_sec (bd_options bitasset)))) in
    ret (object_id_result id).

#[export] Instance asset_settle_evaluator : Evaluator asset_settle_operation unit unit :=
  plain_evaluator op_asset_settle asset_settle_do_evaluate asset_settle_do_apply.

(** ** asset_publish_feeds_evaluator *)

Definition is_publisher (flags publisher : Z) (feeds : gmap Z (Z * price_feed)) : DB bool :=
  let member_of (account : Z) :=
    let! a := get_account account in
    ret (bool_decide (is_Some (au_account_auths (ac_active a) !! publisher))) in
  if has_flag flags witness_fed_asset then member_of GRAPHENE_WITNESS_ACCOUNT
  else if has_flag flags committee_fed_asset then member_of GRAPHENE_COMMITTEE_ACCOUNT
  else ret (bool_decide (is_Some (feeds !! publisher))).

Definition asset_publish_feed_do_evaluate (i : fee_info) (o : asset_publish_feed_operation) : DB unit :=
  let! a := get_asset (apf_asset_id o) in
  require! is_market_issued a in
  let! bitasset := get_bitasset_of (apf_asset_id o) in
  let! now := head_block_time in
  let sp := settlement_price (apf_feed o) in
  let cer := core_exchange_rate (apf_feed o) in
  require! negb (bd_is_prediction_market bitasset || (now <=? HARDFORK_CORE_216_TIME))
           || negb (has_settlement bitasset) in
  require! asset_id (quote sp) =? bo_short_backing_asset (bd_options bitasset) in
  require! (if HARDFORK_480_TIME <? now
            then is_null cer || (asset_id (quote cer) =? CORE)
            else is_null sp || is_null cer || (asset_id (quote sp) =? asset_id (quote cer))) in
  let! ok := is_publisher (o_flags (as_options a)) (apf_publisher o) (bd_feeds bitasset) in
  require! ok in
  ret tt.

(** The condition to revive a globally settled asset at the new feed. *)
Definition can_revive (a supply : Z) (bad : asset_bitasset_data_object) : res bool :=
  let feed := bd_current_feed bad in
  if is_null (settlement_price feed) then Ok false
  else if supply =? 0 then Ok true
  else
    let? cp := call_price (mk_asset supply a)
                 (mk_asset (bd_settlement_fund bad) (bo_short_backing_asset (bd_options bad)))
                 (maintenance_collateral_ratio feed) in
    Ok (price_ltb (price_inv cp) (settlement_price feed)).

Definition asset_publish_feed_do_apply (i : fee_info) (_ : unit)
    (o : asset_publish_feed_operation) (_ : unit) : DB operation_result :=
  let a := apf_asset_id o in
  let! now := head_block_time in
  let! bad := get_bitasset_of a in
  let old_feed := bd_current_feed bad in
  do! modify_bitasset_of a (λ b,
        update_median_feeds now
          (set_bd_feeds (<[apf_publisher o := (now, apf_feed o)]> (bd_feeds b)) b)) in
  let! bad := get_bitasset_of a in
  do! (if price_feed_eqb old_feed (bd_current_feed bad) then ret tt
       else
         do! (if has_settlement bad then
                let! mia_dyn := get_dynamic_of a in
                let! revive := lift (can_revive a (current_supply mia_dyn) bad) in
                if revive then revive_bitasset a else ret tt
              else ret tt) in
         do! check_call_orders a true false in ret tt) in
  ret void_result.

#[export] Instance asset_publish_feeds_evaluator : Evaluator asset_publish_feed_operation unit unit :=
  plain_evaluator op_asset_publish_feed asset_publish_feed_do_evaluate asset_publish_feed_do_apply.

(** ** asset_claim_fees_evaluator and asset_claim_pool_evaluator *)

Definition asset_claim_fees_do_evaluate (i : fee_info) (o : asset_claim_fees_operation) : DB unit :=
  let! now := head_block_time in
  require! HARDFORK_413_TIME <? now in
  let! a := get_asset (asset_id (acf_amount_to_claim o)) in
  require! as_issuer a =? acf_issuer o in
  ret tt.

Definition asset_claim_fees_do_apply (i : fee_info) (_ : unit)
    (o : asset_claim_fees_operation) (_ : unit) : DB operation_result :=
  let a := asset_id (acf_amount_to_claim o) in
  let! addo := get_dynamic_of a in
  require! amount (acf_amount_to_claim o) <=? accumulated_fees addo in
  do! modify_dynamic_of a (λ d,
        let? v := safe (accumulated_fees d - amount (acf_amount_to_claim o)) in
        Ok (set_accumulated_fees v d)) in
  do! adjust_balance (acf_issuer o) (acf_amount_to_claim o) in
  ret void_result.

#[export] Instance asset_claim_fees_evaluator : Evaluator asset_claim_fees_operation unit unit :=
  plain_evaluator op_asset_claim_fees asset_claim_fees_do_evaluate asset_claim_fees_do_apply.

Definition asset_claim_pool_do_evaluate (i : fee_info) (o : asset_claim_pool_operation) : DB unit :=
  let! now := head_block_time in
  require! HARDFORK_CORE_188_TIME <=? now in
  let! a := get_asset (acp_asset_id o) in
  require! as_issuer a =? acp_issuer o in
  ret tt.

Definition asset_claim_pool_do_apply (i : fee_info) (_ : unit)
    (o : asset_claim_pool_operation) (_ : unit) : DB operation_result :=
  let a := acp_asset_id o in
  let! addo := get_dynamic_of a in
  require! amount (acp_amount_to_claim o) <=? fee_pool addo in
  do! modify_dynamic_of a (λ d,
        let? v := safe (fee_pool d - amount (acp_amount_to_claim o)) in Ok (set_fee_pool v d)) in
  do! adjust_balance (acp_issuer o) (acp_amount_to_claim o) in
  ret void_result.

#[export] Instance asset_claim_pool_evaluator : Evaluator asset_claim_pool_operation unit unit :=
  plain_evaluator op_asset_claim_pool asset_claim_pool_do_evaluate asset_claim_pool_do_apply.
End bitasset_evaluators.
