(* ===== verification/TransferEval.v ===== *)
(** * The evaluators of transfers, messages and vesting balances

    Models chain/transfer_evaluator.cpp, chain/pio_evaluator.cpp and
    chain/vesting_balance_evaluator.cpp. *)

From S2P Require Import Prelude Ext Config Asset Objects Parameters Governance Blocks Names Operations Validation Fees Ledger Database Vesting Balance Evaluator AssetEval.

Section transfer_evaluators.
Context {X : Ext} {P : Packing}.

(** ** transfer_evaluator *)

Definition transfer_do_evaluate (i : fee_info) (op : transfer_operation) : DB unit :=
  let a := asset_id (tr_amount op) in
  let! from_account := get_account (tr_from op) in
  let! to_account := get_account (tr_to op) in
  let! asset_type := get_asset a in
  let! a1 := is_authorized_asset from_account a asset_type in
  require! a1 in
  let! a2 := is_authorized_asset to_account a asset_type in
  require! a2 in
  require! negb (is_transfer_restricted asset_type) ||
           (tr_from op =? as_issuer asset_type) || (tr_to op =? as_issuer asset_type) in
  let! balance := get_balance (tr_from op) a in
  require! amount (tr_amount op) <=? amount balance in
  ret tt.

Definition transfer_do_apply (i : fee_info) (_ : unit)
    (o : transfer_operation) (_ : unit) : DB operation_result :=
  let! neg := lift (asset_neg (tr_amount o)) in
  do! adjust_balance (tr_from o) neg in
  do! adjust_balance (tr_to o) (tr_amount o) in
  ret void_result.

#[export] Instance transfer_evaluator : Evaluator transfer_operation unit unit :=
  plain_evaluator op_transfer transfer_do_evaluate transfer_do_apply.

(** ** override_transfer_evaluator *)

Definition override_transfer_do_evaluate (i : fee_info) (op : override_transfer_operation) : DB unit :=
  let a := asset_id (ov_amount op) in
  let! asset_type := get_asset a in
  require! can_override asset_type in
  require! as_issuer asset_type =? ov_issuer op in
  let! from_account := get_account (ov_from op) in
  let! to_account := get_account (ov_to op) in
  let! a1 := is_authorized_asset to_account a asset_type in
  require! a1 in
  let! a2 := is_authorized_asset from_account a asset_type in
  require! a2 in
  let! balance := get_balance (ov_from op) a in
  require! amount (ov_amount op) <=? amount balance in
  ret tt.

Definition override_transfer_do_apply (i : fee_info) (_ : unit)
    (o : override_transfer_operation) (_ : unit) : DB operation_result :=
  let! neg := lift (asset_neg (ov_amount o)) in
  do! adjust_balance (ov_from o) neg in
  do! adjust_balance (ov_to o) (ov_amount o) in
  ret void_result.

#[export] Instance override_transfer_evaluator : Evaluator override_transfer_operation unit unit :=
  plain_evaluator op_override_transfer override_transfer_do_evaluate override_transfer_do_apply.

(** ** send_message_evaluator and pio_evaluator: only the fee is moved *)

Definition send_message_do_evaluate (i : fee_info) (op : send_message_operation) : DB unit :=
  do! get_account (sm_from op) in
  do! get_account (sm_to op) in
  ret tt.
Definition send_message_do_apply (i : fee_info) (_ : unit)
    (o : send_message_operation) (_ : unit) : DB operation_result := ret void_result.

#[export] Instance send_message_evaluator : Evaluator send_message_operation unit unit :=
  plain_evaluator op_send_message send_message_do_evaluate send_message_do_apply.

Definition pio_do_evaluate (i : fee_info) (op : pio_operation) : DB unit :=
  do! get_account (pio_from op) in ret tt.
Definition pio_do_apply (i : fee_info) (_ : unit)
    (o : pio_operation) (_ : unit) : DB operation_result := ret void_result.

#[export] Instance pio_evaluator : Evaluator pio_operation unit unit :=
  plain_evaluator op_pio pio_do_evaluate pio_do_apply.

(** ** vesting_balance_create_evaluator *)

Definition vesting_balance_create_do_evaluate (i : fee_info) (op : vesting_balance_create_operation)
    : DB unit :=
  do! get_account (vbc_creator op) in
  do! get_account (vbc_owner op) in
  require! 0 <? amount (vbc_amount op) in
  let! balance := get_balance (vbc_creator op) (asset_id (vbc_amount op)) in
  let! enough := lift (asset_ge balance (vbc_amount op)) in
  require! enough in
  let! a := get_asset (asset_id (vbc_amount op)) in
  require! negb (is_transfer_restricted a) in
  ret tt.

(** [init_policy_visitor] *)
Definition init_policy (init_balance now : Z) (i : vesting_policy_initializer) : vesting_policy :=
  match i with
  | linear_initializer i =>
      linear_policy (mk_linear_policy (lvi_begin_timestamp i) (lvi_vesting_cliff_seconds i)
                                      (lvi_vesting_duration_seconds i) init_balance)
  | cdd_initializer i =>
      cdd_policy (mk_cdd_policy (cvi_vesting_seconds i) 0 (cvi_start_claim i) now)
  end.

Definition vesting_balance_create_do_apply (i : fee_info) (_ : unit)
    (op : vesting_balance_create_operation) (_ : unit) : DB operation_result :=
  let! now := head_block_time in
  let! balance := get_balance (vbc_creator op) (asset_id (vbc_amount op)) in
  let! enough := lift (asset_ge balance (vbc_amount op)) in
  require! enough in
  let! neg := lift (asset_neg (vbc_amount op)) in
  do! adjust_balance (vbc_creator op) neg in
  let! id := create_vesting (mk_vesting_balance (vbc_owner op) (vbc_amount op)
               (init_policy (amount (vbc_amount op)) now (vbc_policy op))) in
  ret (object_id_result id).

#[export] Instance vesting_balance_create_evaluator : Evaluator vesting_balance_create_operation unit unit :=
  plain_evaluator op_vesting_balance_create vesting_balance_create_do_evaluate
                  vesting_balance_create_do_apply.

(** ** vesting_balance_withdraw_evaluator *)

Definition vesting_balance_withdraw_do_evaluate (i : fee_info)
    (op : vesting_balance_withdraw_operation) : DB unit :=
  let! now := head_block_time in
  let! vbo := get_vesting (vbw_vesting_balance op) in
  require! vbw_owner op =? vb_owner vbo in
  let! allowed := lift (vb_is_withdraw_allowed vbo now (vbw_amount op)) in
  require! allowed in
  do! get_account (vbw_owner op) in
  ret tt.

Definition vesting_balance_withdraw_do_apply (i : fee_info) (_ : unit)
    (op : vesting_balance_withdraw_operation) (_ : unit) : DB operation_result :=
  let! now := head_block_time in
  do! modify_vesting (vbw_vesting_balance op) (λ vbo, vb_withdraw vbo now (vbw_amount op)) in
  do! adjust_balance (vbw_owner op) (vbw_amount op) in
  ret void_result.

#[export] Instance vesting_balance_withdraw_evaluator :
    Evaluator vesting_balance_withdraw_operation unit unit :=
  plain_evaluator op_vesting_balance_withdraw vesting_balance_withdraw_do_evaluate
                  vesting_balance_withdraw_do_apply.
End transfer_evaluators.
