(* ===== verification/GovernanceEval.v ===== *)
(** * The evaluators of memberships, witnesses, committee members and workers

    Models the white and black lists and the upgrade of chain/account_evaluator.cpp,
    chain/witness_evaluator.cpp, chain/committee_member_evaluator.cpp and
    chain/worker_evaluator.cpp. *)

From S2P Require Import Prelude Ext Config Asset Objects Parameters Governance Blocks Names Operations Validation Fees Ledger Database Vesting Balance Evaluator AssetEval.

Section governance_evaluators.
Context {X : Ext} {P : Packing}.

(** ** account_whitelist_evaluator *)

Definition account_whitelist_do_evaluate (i : fee_info) (o : account_whitelist_operation) : DB unit :=
  do! get_account (awl_account_to_list o) in
  let! params := global_parameters in
  if cp_allow_non_member_whitelists params then ret tt
  else
    let! authorizing := get_account (awl_authorizing_account o) in
    require! is_lifetime_member authorizing in
    ret tt.

(** [insert] or [erase] *)
Definition list_if (b : bool) (a : Z) (l : gset Z) : gset Z := if b then {[ a ]} ∪ l else l ∖ {[ a ]}.

Definition account_whitelist_do_apply (i : fee_info) (_ : unit)
    (o : account_whitelist_operation) (_ : unit) : DB operation_result :=
  let white := has_flag (awl_new_listing o) white_listed in
  let black := has_flag (awl_new_listing o) black_listed in
  do! modify_account (awl_account_to_list o) (λ a, Ok
        (set_ac_blacklisting_accounts (list_if black (awl_authorizing_account o) (ac_blacklisting_accounts a))
          (set_ac_whitelisting_accounts (list_if white (awl_authorizing_account o) (ac_whitelisting_accounts a)) a))) in
  do! modify_account (awl_authorizing_account o) (λ a, Ok
        (set_ac_blacklisted_accounts (list_if black (awl_account_to_list o) (ac_blacklisted_accounts a))
          (set_ac_whitelisted_accounts (list_if white (awl_account_to_list o) (ac_whitelisted_accounts a)) a))) in
  ret void_result.

#[export] Instance account_whitelist_evaluator : Evaluator account_whitelist_operation unit unit :=
  plain_evaluator op_account_whitelist account_whitelist_do_evaluate account_whitelist_do_apply.

(** ** account_upgrade_evaluator *)

Definition days (n : Z) : Z := n * (24 * 60 * 60).

Definition account_upgrade_do_evaluate (i : fee_info) (o : account_upgrade_operation) : DB unit :=
  let! account := get_account (agr_account_to_upgrade o) in
  require! negb (is_lifetime_member account) in
  ret tt.

(** The fees are processed inside the [modify] of the account, which sees the
    changes they make to it. *)
Definition account_upgrade_do_apply (i : fee_info) (_ : unit)
    (o : account_upgrade_operation) (_ : unit) : DB operation_result :=
  let id := agr_account_to_upgrade o in
  let! a := get_account id in
  let! now := head_block_time in
  do! (if agr_upgrade_to_lifetime_member o then
         do! process_fees (ac_statistics a) id in
         modify_account id (λ a, Ok
           (set_ac_lifetime_referrer_fee_percentage (GRAPHENE_100_PERCENT - ac_network_fee_percentage a)
             (set_ac_lifetime_referrer id (set_ac_registrar id (set_ac_referrer id
               (set_ac_membership_expiration_date time_max a))))))
       else if is_annual_member a now then
         require! now <=? HARDFORK_613_TIME in
         require! ac_membership_expiration_date a - now <? days 3650 in
         modify_account id (λ a, Ok
           (set_ac_membership_expiration_date (time_add (ac_membership_expiration_date a) (days 365)) a))
       else
         require! now <=? HARDFORK_613_TIME in
         do! process_fees (ac_statistics a) id in
         modify_account id (λ a, Ok
           (set_ac_membership_expiration_date (time_add now (days 365)) (set_ac_referrer id a)))) in
  ret void_result.

#[export] Instance account_upgrade_evaluator : Evaluator account_upgrade_operation unit unit :=
  plain_evaluator op_account_upgrade account_upgrade_do_evaluate account_upgrade_do_apply.

(** ** Vote ids *)

(** [get_next_vote_id] *)
Definition get_next_vote_id (type : Z) : DB Z :=
  let! next := get_gov gv_next_available_vote_id in
  do! put_gov (set_gv_next_available_vote_id (u32 (next + 1))) in
  ret (vote_id type next).

(** ** witness_create_evaluator and witness_update_evaluator *)

Definition witness_create_do_evaluate (i : fee_info) (op : witness_create_operation) : DB unit :=
  let! a := get_account (wcr_witness_account op) in
  require! is_lifetime_member a in
  ret tt.

Definition witness_create_do_apply (i : fee_info) (_ : unit)
    (op : witness_create_operation) (_ : unit) : DB operation_result :=
  let! v := get_next_vote_id vote_witness in
  let! id := create_witness
    (mk_witness (wcr_witness_account op) (wcr_block_signing_key op) None v 0 (wcr_url op)) in
  ret (object_id_result id).

#[export] Instance witness_create_evaluator : Evaluator witness_create_operation unit unit :=
  plain_evaluator op_witness_create witness_create_do_evaluate witness_create_do_apply.

Definition witness_update_do_evaluate (i : fee_info) (op : witness_update_operation) : DB unit :=
  let! w := get_witness (wup_witness op) in
  require! wit_witness_account w =? wup_witness_account op in
  ret tt.

Definition witness_update_do_apply (i : fee_info) (_ : unit)
    (op : witness_update_operation) (_ : unit) : DB operation_result :=
  do! modify_witness (wup_witness op) (λ w,
        let w := from_option (λ url, set_wit_url url w) w (wup_new_url op) in
        Ok (from_option (λ key, set_wit_signing_key key w) w (wup_new_signing_key op))) in
  ret void_result.

#[export] Instance witness_update_evaluator : Evaluator witness_update_operation unit unit :=
  plain_evaluator op_witness_update witness_update_do_evaluate witness_update_do_apply.

(** ** The committee *)

Definition committee_member_create_do_evaluate (i : fee_info) (op : committee_member_create_operation) : DB unit :=
  let! a := get_account (cmc_committee_member_account op) in
  require! is_lifetime_member a in
  ret tt.

Definition committee_member_create_do_apply (i : fee_info) (_ : unit)
    (op : committee_member_create_operation) (_ : unit) : DB operation_result :=
  let! v := get_next_vote_id vote_committee in
  let! id := create_committee_member (mk_committee_member (cmc_committee_member_account op) v 0 (cmc_url op)) in
  ret (object_id_result id).

#[export] Instance committee_member_create_evaluator : Evaluator committee_member_create_operation unit unit :=
  plain_evaluator op_committee_member_create committee_member_create_do_evaluate committee_member_create_do_apply.

Definition committee_member_update_do_evaluate (i : fee_info) (op : committee_member_update_operation) : DB unit :=
  let! c := get_committee_member (cmu_committee_member op) in
  require! cm_committee_member_account c =? cmu_committee_member_account op in
  ret tt.

Definition committee_member_update_do_apply (i : fee_info) (_ : unit)
    (op : committee_member_update_operation) (_ : unit) : DB operation_result :=
  do! modify_committee_member (cmu_committee_member op) (λ c,
        Ok (from_option (λ url, set_cm_url url c) c (cmu_new_url op))) in
  ret void_result.

#[export] Instance committee_member_update_evaluator : Evaluator committee_member_update_operation unit unit :=
  plain_evaluator op_committee_member_update committee_member_update_do_evaluate committee_member_update_do_apply.

Definition update_global_parameters_do_evaluate (ts : trx_state) (i : fee_info)
    (o : committee_member_update_global_parameters_operation) : DB unit :=
  require! is_proposed_trx ts in
  ret tt.

Definition update_global_parameters_do_apply (i : fee_info) (_ : unit)
    (o : committee_member_update_global_parameters_operation) (_ : unit) : DB operation_result :=
  do! put_gov (set_gv_pending_parameters (Some (ugp_new_parameters o))) in
  ret void_result.

#[export] Instance update_global_parameters_evaluator :
    Evaluator committee_member_update_global_parameters_operation unit unit := {|
  ev_operation := op_committee_member_update_global_parameters;
  ev_convert_fee := convert_fee;
  ev_pay_fee := generic_pay_fee;
  ev_do_evaluate := update_global_parameters_do_evaluate;
  ev_do_apply := update_global_parameters_do_apply;
|}.

(** ** worker_create_evaluator *)

Definition worker_create_do_evaluate (i : fee_info) (o : worker_create_operation) : DB unit :=
  let! a := get_account (wkc_owner o) in
  require! is_lifetime_member a in
  let! now := head_block_time in
  require! now <=? wkc_work_begin_date o in
  ret tt.

(** [worker_init_visitor]; the vesting seconds are a [uint32_t]. *)
Definition worker_init (owner : Z) (i : worker_initializer) : DB worker_type :=
  match i with
  | refund_worker_initializer => ret (refund_worker 0)
  | vesting_balance_worker_initializer pay_vesting_period_days =>
    let! now := head_block_time in
    let! id := create_vesting (mk_vesting_balance owner (mk_asset 0 CORE)
      (cdd_policy (mk_cdd_policy (u32 (days pay_vesting_period_days)) 0 time_zero now))) in
    ret (vesting_balance_worker id)
  | burn_worker_initializer => ret (burn_worker 0)
  end.

Definition worker_create_do_apply (i : fee_info) (_ : unit)
    (o : worker_create_operation) (_ : unit) : DB operation_result :=
  let! for_id := get_next_vote_id vote_worker in
  let! against_id := get_next_vote_id vote_worker in
  let! w := worker_init (wkc_owner o) (wkc_initializer o) in
  let! id := create_worker
    (mk_worker (wkc_owner o) (wkc_work_begin_date o) (wkc_work_end_date o) (wkc_daily_pay o) w
       (wkc_name o) (wkc_url o) for_id against_id 0 0) in
  ret (object_id_result id).

#[export] Instance worker_create_evaluator : Evaluator worker_create_operation unit unit :=
  plain_evaluator op_worker_create worker_create_do_evaluate worker_create_do_apply.
End governance_evaluators.
