(* ===== verification/AccountEval.v ===== *)
(** * The evaluators of account creation and update

    Models [account_create_evaluator] and [account_update_evaluator] of
    chain/account_evaluator.cpp, and the checks of special authorities and buyback
    accounts (chain/special_authority.cpp, chain/buyback.cpp). *)

From S2P Require Import Prelude Ext Config Asset Objects Parameters Governance Blocks Names Operations Validation Fees Ledger Database Balance Evaluator AssetEval.

(** ** Checks shared by both *)

Definition verify_authority_accounts (a : authority) : DB unit :=
  let! params := global_parameters in
  require! num_auths a <=? cp_maximum_authority_membership params in
  let! accounts := gets d_accounts in
  require! bool_decide (dom (au_account_auths a) ⊆ dom accounts) in
  ret tt.

(** An object of an index has the vote id. *)
Definition has_vote {V} (vote : V → Z) (m : gmap Z V) (id : Z) : bool :=
  bool_decide (is_Some (find_first (λ x, vote x.2 =? id) (map_to_list m))).

(** The [switch] on the type of a vote that exists. *)
Definition vote_exists (s : database) (id : Z) : bool :=
  if vote_type id =? vote_committee then has_vote cm_vote_id (d_committee_members s) id
  else if vote_type id =? vote_witness then has_vote wit_vote_id (d_witnesses s) id
  else if vote_type id =? vote_worker then has_vote wk_vote_for (d_workers s) id
  else false.

Definition verify_account_votes (options : account_options) : DB unit :=
  let! params := global_parameters in
  require! ao_num_witness options <=? cp_maximum_witness_count params in
  require! ao_num_committee options <=? cp_maximum_committee_count params in
  let! accounts := gets d_accounts in
  require! bool_decide (is_Some (accounts !! ao_voting_account options)) in
  let! max_vote_id := get_gov gv_next_available_vote_id in
  let votes := elements (ao_votes options) in
  require! forallb (λ id, vote_instance id <? max_vote_id) votes in
  let! now := head_block_time in
  let! workers := gets d_workers in
  require! negb (HARDFORK_607_TIME <=? now) ||
           forallb (λ id, negb (vote_type id =? vote_worker) || negb (has_vote wk_vote_against workers id)) votes in
  let! s := gets id in
  require! negb (HARDFORK_CORE_143_TIME <=? now) || forallb (vote_exists s) votes in
  ret tt.

(** [evaluate_special_authority] *)
Definition evaluate_special_authority (a : special_authority) : DB unit :=
  match a with
  | no_special_authority => ret tt
  | top_holders_special_authority x _ => do! get_asset x in ret tt
  end.
Definition if_valid {A} (o : option A) (f : A → DB unit) : DB unit :=
  match o with Some a => f a | None => ret tt end.

(** [evaluate_buyback_account_options] *)
Definition evaluate_buyback_account_options (bbo : buyback_account_options) : DB unit :=
  let! now := head_block_time in
  require! HARDFORK_538_TIME <=? now in
  let! a := get_asset (bbo_asset_to_buy bbo) in
  require! as_issuer a =? bbo_asset_to_buy_issuer bbo in
  require! bool_decide (as_buyback_account a = None) in
  require! Z.of_nat (size (bbo_markets bbo)) <? GRAPHENE_DEFAULT_MAX_BUYBACK_MARKETS in
  ret tt.

(** [op.extensions.value.….valid()] *)
Definition valid {A} (o : option A) : bool := bool_decide (is_Some o).

Section account_evaluators.
Context {X : Ext} {P : Packing}.

(** ** account_create_evaluator *)

Definition account_create_do_evaluate (i : fee_info) (op : account_create_operation) : DB unit :=
  let! now := head_block_time in
  require! negb (now <? HARDFORK_516_TIME) ||
           (negb (valid (acc_owner_special_authority op)) && negb (valid (acc_active_special_authority op))) in
  require! negb (now <? HARDFORK_599_TIME) ||
           (negb (acc_null_ext op) && negb (valid (acc_owner_special_authority op)) &&
            negb (valid (acc_active_special_authority op)) && negb (valid (acc_buyback_options op))) in
  let! payer := get_account (fee_paying_account i) in
  require! is_lifetime_member payer in
  let! referrer := get_account (acc_referrer op) in
  require! is_member referrer now in
  do! verify_authority_accounts (acc_owner op) in
  do! verify_authority_accounts (acc_active op) in
  do! if_valid (acc_owner_special_authority op) evaluate_special_authority in
  do! if_valid (acc_active_special_authority op) evaluate_special_authority in
  do! if_valid (acc_buyback_options op) evaluate_buyback_account_options in
  do! verify_account_votes (acc_options op) in
  let! existing := gets (find_account_by_name (acc_name op)) in
  require! bool_decide (acc_name op = ""%string) || bool_decide (existing = None) in
  ret tt.

(** The percentage of the referrer: before a hard fork a small one counts as
    whole percents. *)
Definition effective_referrer_percent (now : Z) (o : account_create_operation) : Z :=
  let has_small_percent :=
    (now <=? HARDFORK_453_TIME) && negb (acc_referrer o =? acc_registrar o) &&
    negb (acc_referrer_percent o =? 0) && (acc_referrer_percent o <=? 256) in
  if has_small_percent then Z.min (u16 (acc_referrer_percent o * 100)) GRAPHENE_100_PERCENT
  else acc_referrer_percent o.

(** [account_options::is_voting] *)
Definition is_voting (o : account_options) : bool :=
  negb (ao_voting_account o =? GRAPHENE_PROXY_TO_SELF_ACCOUNT) || negb (bool_decide (ao_votes o = ∅)).

(** The new account; the other members have their initial values. *)
Definition new_account (p : chain_parameters) (lifetime_referrer referrer_percent statistics : Z)
    (o : account_create_operation) : account_object :=
  mk_account_object 0 (acc_registrar o) (acc_referrer o) lifetime_referrer
    (cp_network_percent_of_fee p) (cp_lifetime_referrer_percent_of_fee p) referrer_percent
    (acc_name o) (acc_owner o) (acc_active o) (acc_options o) statistics ∅ ∅ ∅ ∅ None
    (default no_special_authority (acc_owner_special_authority o))
    (default no_special_authority (acc_active_special_authority o)) 0
    ((λ b, {[ bbo_asset_to_buy b ]} ∪ bbo_markets b) <$> acc_buyback_options o).

(** The registration fee is raised after a number of accounts: [basic_fee] is
    shifted; a shift by 64 or more is undefined. *)
Definition scale_fees (p : chain_parameters) : res chain_parameters :=
  match fs_parameters (cp_current_fees p) !! 5 with
  | Some (fee_account basic premium kb) =>
    if 64 <=? cp_account_fee_scale_bitshifts p then Err Undefined
    else Ok (set_cp_current_fees
               (mk_fee_schedule (<[5 := fee_account (u64 (Z.shiftl basic (cp_account_fee_scale_bitshifts p))) premium kb]>
                                   (fs_parameters (cp_current_fees p))) (fs_scale (cp_current_fees p))) p)
  | _ => Err AssertFailure
  end.

(** The account is counted; every [accounts_per_fee_scale] of them scale the fee. *)
Definition count_account : DB unit :=
  do! put_gov (λ g, set_gv_accounts_registered_this_interval (u32 (gv_accounts_registered_this_interval g + 1)) g) in
  let! registered := get_gov gv_accounts_registered_this_interval in
  let! params := global_parameters in
  if cp_accounts_per_fee_scale params =? 0 then fail Undefined
  else if (registered mod cp_accounts_per_fee_scale params =? 0) &&
          negb (cp_account_fee_scale_bitshifts params =? 0) then
    let! params := lift (scale_fees params) in
    put (set_d_parameters params)
  else ret tt.

(** The statistics are created while the account, whose identifier is known, is
    being built. *)
Definition account_create_do_apply (i : fee_info) (_ : unit)
    (o : account_create_operation) (_ : unit) : DB operation_result :=
  let! now := head_block_time in
  let! params := global_parameters in
  let! id := gets (λ s, ni_account (d_next_ids s)) in
  let! referrer := get_account (acc_referrer o) in
  let! stats := create_statistics
    (mk_account_statistics id (acc_name o) 0 0 false (is_voting (acc_options o)) 0 0 0) in
  let! id := create_account
    (new_account params (ac_lifetime_referrer referrer) (effective_referrer_percent now o) stats o) in
  do! count_account in
  do! (if valid (acc_owner_special_authority o) || valid (acc_active_special_authority o)
       then do! create_special_authority id in ret tt else ret tt) in
  do! if_valid (acc_buyback_options o) (λ b,
        do! create_buyback (bbo_asset_to_buy b) in
        modify_asset (bbo_asset_to_buy b) (λ a, Ok (set_as_buyback_account (Some id) a))) in
  ret (object_id_result id).

#[export] Instance account_create_evaluator : Evaluator account_create_operation unit unit :=
  plain_evaluator op_account_create account_create_do_evaluate account_create_do_apply.

(** ** account_update_evaluator *)

Definition account_update_do_evaluate (i : fee_info) (o : account_update_operation) : DB unit :=
  let! now := head_block_time in
  require! negb (now <? HARDFORK_516_TIME) ||
           (negb (valid (acu_owner_special_authority o)) && negb (valid (acu_active_special_authority o))) in
  require! negb (now <? HARDFORK_599_TIME) ||
           (negb (acu_null_ext o) && negb (valid (acu_owner_special_authority o)) &&
            negb (valid (acu_active_special_authority o))) in
  do! if_valid (acu_owner o) verify_authority_accounts in
  do! if_valid (acu_active o) verify_authority_accounts in
  do! if_valid (acu_owner_special_authority o) evaluate_special_authority in
  do! if_valid (acu_active_special_authority o) evaluate_special_authority in
  do! get_account (acu_account o) in
  if_valid (acu_new_options o) verify_account_votes.

(** [account_object::has_special_authority] *)
Definition has_special_authority (a : account_object) : bool :=
  negb (match ac_owner_special_authority a with no_special_authority => true | _ => false end) ||
  negb (match ac_active_special_authority a with no_special_authority => true | _ => false end).

(** The change of the account object; an authority that is set is taken out of
    the control of the holders of an asset. *)
Definition set_if {A} (o : option A) (f : A → account_object → account_object)
    (a : account_object) : account_object :=
  match o with Some x => set_ac_top_n_control_flags 0 (f x a) | None => a end.
Definition updated_account (o : account_update_operation) (a : account_object) : account_object :=
  let a := set_if (acu_owner o) set_ac_owner a in
  let a := set_if (acu_active o) set_ac_active a in
  let a := match acu_new_options o with Some n => set_ac_options n a | None => a end in
  let a := set_if (acu_owner_special_authority o) set_ac_owner_special_authority a in
  set_if (acu_active_special_authority o) set_ac_active_special_authority a.

(** special_authority_index, [by_account]; the iterator of an account without
    entry is dereferenced. *)
Definition find_special_authority (account : Z) (s : database) : option Z :=
  find_first (λ x, x.2 =? account) (map_to_list (d_special_authorities s)).

Definition account_update_do_apply (i : fee_info) (_ : unit)
    (o : account_update_operation) (_ : unit) : DB operation_result :=
  let! acnt := get_account (acu_account o) in
  do! if_valid (acu_new_options o) (λ new_options,
        if Bool.eqb (is_voting new_options) (is_voting (ac_options acnt)) then ret tt
        else modify_statistics (ac_statistics acnt) (λ st, Ok (set_st_is_voting (negb (st_is_voting st)) st))) in
  do! modify_account (acu_account o) (λ a, Ok (updated_account o a)) in
  let! updated := get_account (acu_account o) in
  do! (if has_special_authority acnt && negb (has_special_authority updated) then
         let! sa := gets (find_special_authority (acu_account o)) in
         match sa with
         | Some sa => remove_special_authority sa
         | None => fail Undefined
         end
       else if negb (has_special_authority acnt) && has_special_authority updated then
         do! create_special_authority (acu_account o) in ret tt
       else ret tt) in
  ret void_result.

#[export] Instance account_update_evaluator : Evaluator account_update_operation unit unit :=
  plain_evaluator op_account_update account_update_do_evaluate account_update_do_apply.
End account_evaluators.
