(* ===== verification/ContractEval.v ===== *)
(** * The evaluators of smart contracts, assertions and custom operations

    Models the smart contract evaluators of chain/account_evaluator.cpp with
    [update_contract_activate_status] of chain/db_balance.cpp,
    chain/assert_evaluator.cpp and chain/custom_evaluator.hpp. The virtual machine
    of the contracts is not part of the repository: class [ContractMachine]. *)

From S2P Require Import Prelude Ext Config Asset Objects Parameters Governance Blocks Names Operations Validation Fees Ledger Database Balance Evaluator AssetEval.

(** [construct_smart_contract] and [call_smart_contract]: the state of a contract
    after its construction and after a call, or an exception. *)
Class ContractMachine := {
  construct_smart_contract : string → string → string → string → res string;
  call_smart_contract : string → string → string → string → string → res string;
}.

(** The contract with an address, asserted to exist. *)
Definition contract_at (addr : string) : DB Z :=
  let! found := gets (find_contract_by_addr addr) in
  lift (of_option AssertFailure found).

(** [database::update_contract_activate_status] *)
Definition update_contract_activate_status (addr : string) (activated : bool) : DB bool :=
  let! found := gets (find_contract_by_addr addr) in
  match found with
  | None => ret false
  | Some id =>
    let! c := get_contract id in
    require! negb (Bool.eqb (ct_activated c) activated) in
    do! modify_contract id (λ c, Ok (set_ct_activated activated c)) in
    ret true
  end.

Section contract_evaluators.
Context {X : Ext} {P : Packing} {C : ContractMachine}.

(** The smart contract evaluators evaluate nothing. *)
Definition contract_do_evaluate {Op} (i : fee_info) (o : Op) : DB unit := ret tt.

(** ** smart_contract_deploy_evaluator *)

Definition smart_contract_deploy_do_apply (i : fee_info) (_ : unit)
    (o : smart_contract_deploy_operation) (_ : unit) : DB operation_result :=
  require! negb (bool_decide (scd_abi_json o = ""%string)) in
  let rehash := sha256 (scd_bytecode o ++ scd_abi_json o ++ scd_construct_data o)%string in
  require! bool_decide (scd_contract_addr o = rehash) in
  let! state := lift (construct_smart_contract (scd_bytecode o) (scd_contract_addr o)
                                               (scd_construct_data o) (scd_abi_json o)) in
  let! id := create_contract (mk_contract (scd_owner o) (scd_contract_addr o) (scd_bytecode o)
               (scd_abi_json o) (scd_construct_data o) (scd_contract_name o) true state) in
  ret (object_id_result id).

#[export] Instance smart_contract_deploy_evaluator : Evaluator smart_contract_deploy_operation unit unit :=
  plain_evaluator op_smart_contract_deploy contract_do_evaluate smart_contract_deploy_do_apply.

(** ** smart_contract_activate_evaluator and smart_contract_deactivate_evaluator *)

Definition set_activation (addr : string) (account : Z) (activated : bool) : DB operation_result :=
  let! id := contract_at addr in
  let! c := get_contract id in
  require! ct_owner c =? account in
  do! update_contract_activate_status addr activated in
  ret void_result.

Definition smart_contract_activate_do_apply (i : fee_info) (_ : unit)
    (o : smart_contract_activate_operation) (_ : unit) : DB operation_result :=
  set_activation (sca_contract_addr o) (sca_activator o) true.

#[export] Instance smart_contract_activate_evaluator : Evaluator smart_contract_activate_operation unit unit :=
  plain_evaluator op_smart_contract_activate contract_do_evaluate smart_contract_activate_do_apply.

Definition smart_contract_deactivate_do_apply (i : fee_info) (_ : unit)
    (o : smart_contract_deactivate_operation) (_ : unit) : DB operation_result :=
  set_activation (scx_contract_addr o) (scx_deactivator o) false.

#[export] Instance smart_contract_deactivate_evaluator : Evaluator smart_contract_deactivate_operation unit unit :=
  plain_evaluator op_smart_contract_deactivate contract_do_evaluate smart_contract_deactivate_do_apply.

(** ** smart_contract_kill_evaluator *)

Definition smart_contract_kill_do_apply (i : fee_info) (_ : unit)
    (o : smart_contract_kill_operation) (_ : unit) : DB operation_result :=
  let! id := contract_at (sck_contract_addr o) in
  let! c := get_contract id in
  require! ct_owner c =? sck_killer o in
  do! remove_contract id in
  ret void_result.

#[export] Instance smart_contract_kill_evaluator : Evaluator smart_contract_kill_operation unit unit :=
  plain_evaluator op_smart_contract_kill contract_do_evaluate smart_contract_kill_do_apply.

(** ** smart_contract_call_evaluator: anybody may call *)

Definition smart_contract_call_do_apply (i : fee_info) (_ : unit)
    (o : smart_contract_call_operation) (_ : unit) : DB operation_result :=
  let! id := contract_at (scc_contract_addr o) in
  let! c := get_contract id in
  require! ct_activated c in
  do! modify_contract id (λ c,
        let? state := call_smart_contract (ct_bytecode c) (ct_contract_addr c) (scc_call_data o)
                                          (ct_abi_json c) (ct_contract_state c) in
        Ok (set_ct_contract_state state c)) in
  ret void_result.

#[export] Instance smart_contract_call_evaluator : Evaluator smart_contract_call_operation unit unit :=
  plain_evaluator op_smart_contract_call contract_do_evaluate smart_contract_call_do_apply.

(** ** custom_evaluator *)

Definition custom_do_evaluate (i : fee_info) (o : custom_operation) : DB unit := ret tt.
Definition custom_do_apply (i : fee_info) (_ : unit) (o : custom_operation) (_ : unit) : DB operation_result :=
  ret void_result.

#[export] Instance custom_evaluator : Evaluator custom_operation unit unit :=
  plain_evaluator op_custom custom_do_evaluate custom_do_apply.

(** ** assert_evaluator *)

(** [predicate::which] and [predicate_evaluator] *)
Definition predicate_which (p : predicate) : Z :=
  match p with
  | account_name_eq_lit_predicate _ _ => 0
  | asset_symbol_eq_lit_predicate _ _ => 1
  | block_id_predicate _ => 2
  end.
Definition predicate_evaluator (p : predicate) : DB unit :=
  match p with
  | account_name_eq_lit_predicate account name =>
    let! a := get_account account in require! bool_decide (ac_name a = name) in ret tt
  | asset_symbol_eq_lit_predicate asset symbol =>
    let! a := get_asset asset in require! bool_decide (as_symbol a = symbol) in ret tt
  | block_id_predicate id =>
    let! b := get_block_summary (Z.land (num_from_id id) 65535) in require! bool_decide (b = id) in ret tt
  end.

Definition assert_do_evaluate (ts : trx_state) (i : fee_info) (o : assert_operation) : DB unit :=
  let! params := global_parameters in
  if skip_assert_evaluation ts then ret tt
  else for_each (λ p,
         require! predicate_which p <? cp_max_predicate_opcode params in
         predicate_evaluator p) (ast_predicates o).
Definition assert_do_apply (i : fee_info) (_ : unit) (o : assert_operation) (_ : unit) : DB operation_result :=
  ret void_result.

#[export] Instance assert_evaluator : Evaluator assert_operation unit unit := {|
  ev_operation := op_assert;
  ev_convert_fee := convert_fee;
  ev_pay_fee := generic_pay_fee;
  ev_do_evaluate := assert_do_evaluate;
  ev_do_apply := assert_do_apply;
|}.
End contract_evaluators.
