(* ===== verification/ConfidentialEval.v ===== *)
(** * The evaluators of confidential transfers

    Models chain/confidential_evaluator.cpp: amounts that leave the balances of
    accounts for commitments, whose sum the asset keeps as its confidential
    supply, transfers between commitments, and the way back. *)

From S2P Require Import Prelude Ext Config Asset Objects Parameters Governance Blocks Names Operations Validation Fees Ledger Database Balance Evaluator AssetEval.

(** The accounts in the authorities of the outputs exist. *)
Definition owners_exist (outputs : list blind_output) : DB unit :=
  for_each (λ out, accounts_exist (by_id (au_account_auths (bout_owner out))).*1) outputs.

(** Every input is a commitment in the asset of the fee, of the given owner. *)
Definition inputs_known (asset : Z) (inputs : list blind_input) : DB unit :=
  for_each (λ i,
    let! found := gets (find_by_commitment (bin_commitment i)) in
    let! id := lift (of_option AssertFailure found) in
    let! b := get_blinded_balance id in
    require! bb_asset_id b =? asset in
    require! bool_decide (bb_owner b = bin_owner i) in
    ret tt) inputs.

(** The inputs are spent, the outputs created. *)
Definition remove_inputs (inputs : list blind_input) : DB unit :=
  for_each (λ i,
    let! found := gets (find_by_commitment (bin_commitment i)) in
    let! id := lift (of_option AssertFailure found) in
    remove_blinded_balance id) inputs.
Definition create_outputs (asset : Z) (outputs : list blind_output) : DB unit :=
  for_each (λ out,
    do! create_blinded_balance (mk_blinded_balance (bout_commitment out) asset (bout_owner out)) in
    ret tt) outputs.

Section confidential_evaluators.
Context {X : Ext} {P : Packing}.

(** [obj.confidential_supply += x], which may not become negative *)
Definition add_confidential_supply (asset x : Z) : DB unit :=
  modify_dynamic_of asset (λ d,
    let? v := safe (confidential_supply d + x) in
    require? 0 <=? v in Ok (set_confidential_supply v d)).

(** The overridden [pay_fee]s *)
Definition confidential_pay_fee (fba_id : Z) (ts : trx_state) (i : fee_info) : DB unit :=
  let! now := head_block_time in
  if HARDFORK_563_TIME <=? now then pay_fba_fee ts i fba_id else generic_pay_fee ts i.

(** ** transfer_to_blind_evaluator *)

Definition transfer_to_blind_do_evaluate (i : fee_info) (o : transfer_to_blind_operation) : DB unit :=
  let! atype := get_asset (asset_id (ttb_amount o)) in
  require! allow_confidential atype in
  require! negb (is_transfer_restricted atype) in
  require! negb (has_flag (o_flags (as_options atype)) white_list) in
  owners_exist (ttb_outputs o).

Definition transfer_to_blind_do_apply (i : fee_info) (_ : unit)
    (o : transfer_to_blind_operation) (_ : unit) : DB operation_result :=
  let! neg := lift (asset_neg (ttb_amount o)) in
  do! adjust_balance (ttb_from o) neg in
  do! add_confidential_supply (asset_id (ttb_amount o)) (amount (ttb_amount o)) in
  do! create_outputs (asset_id (ttb_amount o)) (ttb_outputs o) in
  ret void_result.

#[export] Instance transfer_to_blind_evaluator : Evaluator transfer_to_blind_operation unit unit := {|
  ev_operation := op_transfer_to_blind;
  ev_convert_fee := convert_fee;
  ev_pay_fee := confidential_pay_fee fba_accumulator_id_transfer_to_blind;
  ev_do_evaluate _ := transfer_to_blind_do_evaluate;
  ev_do_apply := transfer_to_blind_do_apply;
|}.

(** ** transfer_from_blind_evaluator *)

Definition transfer_from_blind_do_evaluate (i : fee_info) (o : transfer_from_blind_operation) : DB unit :=
  do! get_asset (asset_id (tfb_fee o)) in
  inputs_known (asset_id (tfb_fee o)) (tfb_inputs o).

(** The fee is deposited with its payer, the temporary account. *)
Definition transfer_from_blind_do_apply (i : fee_info) (_ : unit)
    (o : transfer_from_blind_operation) (_ : unit) : DB operation_result :=
  do! adjust_balance GRAPHENE_TEMP_ACCOUNT (tfb_fee o) in
  do! adjust_balance (tfb_to o) (tfb_amount o) in
  do! remove_inputs (tfb_inputs o) in
  let! sum := lift (safe (amount (tfb_amount o) + amount (tfb_fee o))) in
  do! add_confidential_supply (asset_id (tfb_amount o)) (- sum) in
  ret void_result.

#[export] Instance transfer_from_blind_evaluator : Evaluator transfer_from_blind_operation unit unit := {|
  ev_operation := op_transfer_from_blind;
  ev_convert_fee := convert_fee;
  ev_pay_fee := confidential_pay_fee fba_accumulator_id_transfer_from_blind;
  ev_do_evaluate _ := transfer_from_blind_do_evaluate;
  ev_do_apply := transfer_from_blind_do_apply;
|}.

(** ** blind_transfer_evaluator *)

Definition blind_transfer_do_evaluate (i : fee_info) (o : blind_transfer_operation) : DB unit :=
  do! get_asset (asset_id (blt_fee o)) in
  do! owners_exist (blt_outputs o) in
  inputs_known (asset_id (blt_fee o)) (blt_inputs o).

Definition blind_transfer_do_apply (i : fee_info) (_ : unit)
    (o : blind_transfer_operation) (_ : unit) : DB operation_result :=
  do! adjust_balance GRAPHENE_TEMP_ACCOUNT (blt_fee o) in
  do! remove_inputs (blt_inputs o) in
  do! create_outputs (asset_id (blt_fee o)) (blt_outputs o) in
  do! add_confidential_supply (asset_id (blt_fee o)) (- amount (blt_fee o)) in
  ret void_result.

#[export] Instance blind_transfer_evaluator : Evaluator blind_transfer_operation unit unit := {|
  ev_operation := op_blind_transfer;
  ev_convert_fee := convert_fee;
  ev_pay_fee := confidential_pay_fee fba_accumulator_id_blind_transfer;
  ev_do_evaluate _ := blind_transfer_do_evaluate;
  ev_do_apply := blind_transfer_do_apply;
|}.
End confidential_evaluators.
