(* ===== verification/ProposalEval.v ===== *)
(** * The evaluators of proposals

    Models chain/proposal_evaluator.cpp and [is_authorized_to_execute] of
    chain/proposal_object.cpp. The update of a proposal executes it once it is
    approved: how is [database::push_proposal], a parameter here, because the
    operations of a proposal are evaluated by the code that evaluates the update
    (Transactions.v). *)

From S2P Require Import Prelude Ext Config Asset Objects Parameters Governance Blocks Names Operations Validation Fees Ledger Authority Database Balance Evaluator AssetEval.

Section proposal_evaluators.
Context {X : Ext} {P : Packing} {K : KeyAddresses}.

(** ** proposal_create_evaluator *)

(** [proposal_operation_hardfork_visitor] *)
Fixpoint proposal_operation_hardfork_visitor (block_time next_maintenance_time : Z) (op : operation) : res unit :=
  match op with
  | op_call_order_update v =>
    require? negb (next_maintenance_time <=? HARDFORK_CORE_834_TIME) ||
             bool_decide (cou_target_collateral_ratio v = None) in Ok tt
  | op_asset_create v =>
    require? negb (block_time <? HARDFORK_CORE_620_TIME) || ends_with_alpha (acr_symbol v) in Ok tt
  | op_asset_update_issuer _ => require? negb (block_time <? HARDFORK_CORE_199_TIME) in Ok tt
  | op_asset_claim_pool _ => require? negb (block_time <? HARDFORK_CORE_188_TIME) in Ok tt
  | op_asset_settle_cancel _ => require? negb (HARDFORK_CORE_588_TIME <? block_time) in Ok tt
  | op_proposal_create v =>
    validate_all (proposal_operation_hardfork_visitor block_time next_maintenance_time) (prc_proposed_ops v)
  | _ => Ok tt
  end.

(** [hardfork_visitor_214] *)
Definition hardfork_visitor_214 (op : operation) : res unit :=
  match op with
  | op_proposal_update _ => Err AssertFailure
  | _ => Ok tt
  end.

(** The review of a proposal that needs the committee's authority. *)
Definition review_sufficient (params : chain_parameters) (review_period : option Z) (required : required) : bool :=
  if bool_decide (GRAPHENE_COMMITTEE_ACCOUNT ∈ rq_active required ∪ rq_owner required) then
    match review_period with
    | Some r => cp_committee_proposal_review_period params <=? r
    | None => false
    end
  else true.

Definition proposal_create_do_evaluate (i : fee_info) (o : proposal_create_operation operation) : DB unit :=
  let! block_time := head_block_time in
  let! next_maint_time := next_maintenance_time in
  do! lift (proposal_operation_hardfork_visitor block_time next_maint_time (op_proposal_create o)) in
  do! lift (if block_time <? HARDFORK_CORE_214_TIME
            then validate_all hardfork_visitor_214 (prc_proposed_ops o) else Ok tt) in
  let! params := global_parameters in
  require! block_time <? prc_expiration_time o in
  require! prc_expiration_time o <=? time_add block_time (cp_maximum_proposal_lifetime params) in
  require! from_option (λ r, r <? prc_expiration_time o - block_time) true (prc_review_period_seconds o) in
  let required := required_of (prc_proposed_ops o) in
  require! bool_decide (rq_other required = []) in
  require! review_sufficient params (prc_review_period_seconds o) required in
  lift (transaction_validate (prc_proposed_ops o)).

(** The new proposal; [_proposed_trx] is a transaction of the proposed operations
    that refers to no block. *)
Definition new_proposal (o : proposal_create_operation operation) : proposal_object :=
  let required := required_of (prc_proposed_ops o) in
  mk_proposal (prc_expiration_time o)
    ((λ r, prc_expiration_time o - r) <$> prc_review_period_seconds o)
    (mk_transaction 0 0 (prc_expiration_time o) (prc_proposed_ops o))
    (rq_active required ∖ rq_owner required) ∅ (rq_owner required) ∅ ∅
    (prc_fee_paying_account o).

Definition proposal_create_do_apply (i : fee_info) (_ : unit)
    (o : proposal_create_operation operation) (_ : unit) : DB operation_result :=
  let! id := create_proposal (new_proposal o) in
  ret (object_id_result id).

#[export] Instance proposal_create_evaluator : Evaluator (proposal_create_operation operation) unit unit :=
  plain_evaluator op_proposal_create proposal_create_do_evaluate proposal_create_do_apply.

(** ** proposal_update_evaluator *)

(** The functions from accounts to their authorities *)
Definition authority_of (f : account_object → authority) (s : database) (id : Z) : res (option authority) :=
  match d_accounts s !! id with
  | Some a => Ok (Some (f a))
  | None => Err NotFound
  end.

(** [proposal_object::is_authorized_to_execute] *)
Definition is_authorized_to_execute (p : proposal_object) : DB bool :=
  λ s, match verify_authority (authority_of ac_active s) (authority_of ac_owner s)
               (trx_operations (po_proposed_transaction p)) (po_available_key_approvals p)
               (cp_max_authority_depth (d_parameters s)) true
               (po_available_active_approvals p) (po_available_owner_approvals p) with
       | Ok _ => Ok (true, s)
       | Err e => if is_fc_exception e then Ok (false, s) else Err e
       end.

Definition proposal_update_do_evaluate (i : fee_info) (o : proposal_update_operation) : DB unit :=
  let! p := get_proposal (pru_proposal o) in
  let! now := head_block_time in
  require! negb (from_option (λ t, t <=? now) false (po_review_period_time p)) ||
           (bool_decide (pru_active_approvals_to_add o = ∅) && bool_decide (pru_owner_approvals_to_add o = ∅)) in
  require! bool_decide (pru_active_approvals_to_remove o ⊆ po_available_active_approvals p) in
  require! bool_decide (pru_owner_approvals_to_remove o ⊆ po_available_owner_approvals p) in
  ret tt.

(** The change of the approvals *)
Definition update_approvals (o : proposal_update_operation) (p : proposal_object) : proposal_object :=
  set_po_available_key_approvals
    ((po_available_key_approvals p ∪ pru_key_approvals_to_add o) ∖ pru_key_approvals_to_remove o)
    (set_po_available_owner_approvals
      ((po_available_owner_approvals p ∪ pru_owner_approvals_to_add o) ∖ pru_owner_approvals_to_remove o)
      (set_po_available_active_approvals
        ((po_available_active_approvals p ∪ pru_active_approvals_to_add o) ∖ pru_active_approvals_to_remove o) p)).

(** [try] around [push_proposal]: after an exception the state is the one before,
    which the undo session of [push_proposal] restores; the proposal is tried
    again when it expires. *)
Definition try_push (push_proposal : Z → DB unit) (id : Z) : DB unit :=
  λ s, match push_proposal id s with
       | Ok r => Ok r
       | Err e => if is_fc_exception e then Ok (tt, s) else Err e
       end.

Definition proposal_update_do_apply (push_proposal : Z → DB unit) (i : fee_info) (_ : unit)
    (o : proposal_update_operation) (_ : unit) : DB operation_result :=
  do! modify_proposal (pru_proposal o) (λ p, Ok (update_approvals o p)) in
  let! p := get_proposal (pru_proposal o) in
  if bool_decide (is_Some (po_review_period_time p)) then ret void_result
  else
    let! authorized := is_authorized_to_execute p in
    do! (if authorized then try_push push_proposal (pru_proposal o) else ret tt) in
    ret void_result.

Definition proposal_update_evaluator (push_proposal : Z → DB unit) : Evaluator proposal_update_operation unit unit :=
  plain_evaluator op_proposal_update proposal_update_do_evaluate (proposal_update_do_apply push_proposal).

(** ** proposal_delete_evaluator *)

Definition proposal_delete_do_evaluate (i : fee_info) (o : proposal_delete_operation) : DB unit :=
  let! p := get_proposal (prd_proposal o) in
  let required_approvals :=
    if prd_using_owner_authority o then po_required_owner_approvals p else po_required_active_approvals p in
  require! bool_decide (prd_fee_paying_account o ∈ required_approvals) in
  ret tt.

Definition proposal_delete_do_apply (i : fee_info) (_ : unit)
    (o : proposal_delete_operation) (_ : unit) : DB operation_result :=
  do! remove_proposal (prd_proposal o) in
  ret void_result.

#[export] Instance proposal_delete_evaluator : Evaluator proposal_delete_operation unit unit :=
  plain_evaluator op_proposal_delete proposal_delete_do_evaluate proposal_delete_do_apply.
End proposal_evaluators.
