(* ===== verification/WithdrawEval.v ===== *)
(** * The evaluators of withdraw permissions and genesis balances

    Models chain/withdraw_permission_evaluator.cpp and chain/balance_evaluator.cpp.
    Whether a public key belongs to the address that owns a balance is decided
    by the cryptographic library: class [KeyAddresses]. *)

From S2P Require Import Prelude Ext Config Asset Objects Parameters Governance Blocks Names Operations Validation Fees Ledger Authority Database Vesting Balance Evaluator AssetEval.

(** The address of the key, or one of its four PTS addresses, is the owner. *)
Definition owns_address `{KeyAddresses} (key owner : Z) : bool :=
  bool_decide (owner ∈ addresses_of key).

Section withdraw_evaluators.
Context {X : Ext} {P : Packing}.

(** ** withdraw_permission_create_evaluator *)

(** [op.period_start_time + op.periods_until_expiration * op.withdrawal_period_sec]:
    the product is one of [uint32_t]. *)
Definition permission_expiration (start periods period_sec : Z) : Z :=
  time_add start (u32 (periods * period_sec)).

(** [d.find_object(id)] *)
Definition exists_in {V} (proj : database → gmap Z V) (id : Z) : DB bool :=
  gets (λ s, bool_decide (is_Some (proj s !! id))).

Definition withdraw_permission_create_do_evaluate (i : fee_info)
    (op : withdraw_permission_create_operation) : DB unit :=
  let! from := exists_in d_accounts (wpc_withdraw_from_account op) in
  require! from in
  let! authorized := exists_in d_accounts (wpc_authorized_account op) in
  require! authorized in
  let! a := exists_in d_assets (asset_id (wpc_withdrawal_limit op)) in
  require! a in
  let! now := head_block_time in
  require! now <? wpc_period_start_time op in
  require! now <? permission_expiration (wpc_period_start_time op) (wpc_periods_until_expiration op)
                    (wpc_withdrawal_period_sec op) in
  let! params := global_parameters in
  require! cp_block_interval params <=? wpc_withdrawal_period_sec op in
  ret tt.

Definition new_permission (op : withdraw_permission_create_operation) : withdraw_permission_object :=
  mk_withdraw_permission (wpc_withdraw_from_account op) (wpc_authorized_account op)
    (wpc_withdrawal_limit op) (wpc_withdrawal_period_sec op) (wpc_period_start_time op)
    (permission_expiration (wpc_period_start_time op) (wpc_periods_until_expiration op)
       (wpc_withdrawal_period_sec op)) 0.

Definition withdraw_permission_create_do_apply (i : fee_info) (_ : unit)
    (op : withdraw_permission_create_operation) (_ : unit) : DB operation_result :=
  let! id := create_withdraw_permission (new_permission op) in
  ret (object_id_result id).

#[export] Instance withdraw_permission_create_evaluator :
    Evaluator withdraw_permission_create_operation unit unit :=
  plain_evaluator op_withdraw_permission_create withdraw_permission_create_do_evaluate
                  withdraw_permission_create_do_apply.

(** ** withdraw_permission_claim_evaluator *)

Definition withdraw_permission_claim_do_evaluate (i : fee_info)
    (op : withdraw_permission_claim_operation) : DB unit :=
  let! now := head_block_time in
  let! permit := get_withdraw_permission (wpl_withdraw_permission op) in
  require! now <? wp_expiration permit in
  require! wp_authorized_account permit =? wpl_withdraw_to_account op in
  require! wp_withdraw_from_account permit =? wpl_withdraw_from_account op in
  require! (now <? HARDFORK_23_TIME) || (wp_period_start_time permit <=? now) in
  let! available := lift (available_this_period now permit) in
  let! within := lift (asset_le (wpl_amount_to_withdraw op) available) in
  require! within in
  let! balance := get_balance (wpl_withdraw_from_account op) (asset_id (wpl_amount_to_withdraw op)) in
  let! enough := lift (asset_ge balance (wpl_amount_to_withdraw op)) in
  require! enough in
  let! a := get_asset (asset_id (wpl_amount_to_withdraw op)) in
  require! negb (is_transfer_restricted a) || (as_issuer a =? wp_authorized_account permit) ||
           (as_issuer a =? wp_withdraw_from_account permit) in
  let! to := get_account (wp_authorized_account permit) in
  let! to_authorized := is_authorized_asset to (asset_id (wpl_amount_to_withdraw op)) a in
  require! to_authorized in
  let! from := get_account (wpl_withdraw_from_account op) in
  let! from_authorized := is_authorized_asset from (asset_id (wpl_amount_to_withdraw op)) a in
  require! (now <=? HARDFORK_CORE_942_TIME) || from_authorized in
  ret tt.

(** The modification of the permission: the period of [now] begins, and counts
    the claim. *)
Definition claim_permission (now claimed : Z) (p : withdraw_permission_object) : res withdraw_permission_object :=
  if wp_withdrawal_period_sec p =? 0 then Err Undefined
  else
    let periods := Z.quot (now - wp_period_start_time p) (wp_withdrawal_period_sec p) in
    let p := set_wp_period_start_time
               (time_add (wp_period_start_time p) (u32 (periods * wp_withdrawal_period_sec p))) p in
    if periods =? 0 then
      let? v := safe (wp_claimed_this_period p + claimed) in Ok (set_wp_claimed_this_period v p)
    else Ok (set_wp_claimed_this_period claimed p).

Definition withdraw_permission_claim_do_apply (i : fee_info) (_ : unit)
    (op : withdraw_permission_claim_operation) (_ : unit) : DB operation_result :=
  let! now := head_block_time in
  do! modify_withdraw_permission (wpl_withdraw_permission op)
        (claim_permission now (amount (wpl_amount_to_withdraw op))) in
  let! neg := lift (asset_neg (wpl_amount_to_withdraw op)) in
  do! adjust_balance (wpl_withdraw_from_account op) neg in
  do! adjust_balance (wpl_withdraw_to_account op) (wpl_amount_to_withdraw op) in
  ret void_result.

#[export] Instance withdraw_permission_claim_evaluator :
    Evaluator withdraw_permission_claim_operation unit unit :=
  plain_evaluator op_withdraw_permission_claim withdraw_permission_claim_do_evaluate
                  withdraw_permission_claim_do_apply.

(** ** withdraw_permission_update_evaluator *)

Definition withdraw_permission_update_do_evaluate (i : fee_info)
    (op : withdraw_permission_update_operation) : DB unit :=
  let! permit := get_withdraw_permission (wpu_permission_to_update op) in
  require! wp_authorized_account permit =? wpu_authorized_account op in
  require! wp_withdraw_from_account permit =? wpu_withdraw_from_account op in
  let! a := exists_in d_assets (asset_id (wpu_withdrawal_limit op)) in
  require! a in
  let! now := head_block_time in
  require! now <=? wpu_period_start_time op in
  require! now <? permission_expiration (wpu_period_start_time op) (wpu_periods_until_expiration op)
                    (wpu_withdrawal_period_sec op) in
  let! params := global_parameters in
  require! cp_block_interval params <=? wpu_withdrawal_period_sec op in
  ret tt.

Definition update_permission (op : withdraw_permission_update_operation)
    (p : withdraw_permission_object) : withdraw_permission_object :=
  set_wp_withdrawal_period_sec (wpu_withdrawal_period_sec op)
    (set_wp_withdrawal_limit (wpu_withdrawal_limit op)
      (set_wp_expiration (permission_expiration (wpu_period_start_time op) (wpu_periods_until_expiration op)
                            (wpu_withdrawal_period_sec op))
        (set_wp_period_start_time (wpu_period_start_time op) p))).

Definition withdraw_permission_update_do_apply (i : fee_info) (_ : unit)
    (op : withdraw_permission_update_operation) (_ : unit) : DB operation_result :=
  do! modify_withdraw_permission (wpu_permission_to_update op) (λ p, Ok (update_permission op p)) in
  ret void_result.

#[export] Instance withdraw_permission_update_evaluator :
    Evaluator withdraw_permission_update_operation unit unit :=
  plain_evaluator op_withdraw_permission_update withdraw_permission_update_do_evaluate
                  withdraw_permission_update_do_apply.

(** ** withdraw_permission_delete_evaluator *)

Definition withdraw_permission_delete_do_evaluate (i : fee_info)
    (op : withdraw_permission_delete_operation) : DB unit :=
  let! permit := get_withdraw_permission (wpd_withdrawal_permission op) in
  require! wp_authorized_account permit =? wpd_authorized_account op in
  require! wp_withdraw_from_account permit =? wpd_withdraw_from_account op in
  ret tt.

Definition withdraw_permission_delete_do_apply (i : fee_info) (_ : unit)
    (op : withdraw_permission_delete_operation) (_ : unit) : DB operation_result :=
  do! remove_withdraw_permission (wpd_withdrawal_permission op) in
  ret void_result.

#[export] Instance withdraw_permission_delete_evaluator :
    Evaluator withdraw_permission_delete_operation unit unit :=
  plain_evaluator op_withdraw_permission_delete withdraw_permission_delete_do_evaluate
                  withdraw_permission_delete_do_apply.

(** ** balance_claim_evaluator *)
Section balance_claim.
Context {K : KeyAddresses}.

Definition balance_claim_do_evaluate (i : fee_info) (op : balance_claim_operation) : DB unit :=
  let! balance := get_genesis_balance (bcl_balance_to_claim op) in
  require! owns_address (bcl_balance_owner_key op) (ba_owner balance) in
  require! asset_id (bcl_total_claimed op) =? ba_asset_type balance in
  match ba_vesting_policy balance with
  | Some policy =>
    let! now := head_block_time in
    let! allowed := lift (linear_is_withdraw_allowed policy
                            (mk_context (ba_balance balance) now (bcl_total_claimed op))) in
    require! allowed in
    require! 24 * 60 * 60 <=? now - ba_last_claim_date balance in
    ret tt
  | None =>
    require! asset_eqb (bcl_total_claimed op) (ba_balance balance) in
    ret tt
  end.

(** [on_withdraw] of a linear policy does nothing. *)
Definition balance_claim_do_apply (i : fee_info) (_ : unit)
    (op : balance_claim_operation) (_ : unit) : DB operation_result :=
  let id := bcl_balance_to_claim op in
  let! balance := get_genesis_balance id in
  let! now := head_block_time in
  let! partly := (if is_vesting_balance balance
                  then lift (asset_lt (bcl_total_claimed op) (ba_balance balance)) else ret false) in
  do! (if partly then
         modify_genesis_balance id (λ b,
           let? v := asset_sub (ba_balance b) (bcl_total_claimed op) in
           Ok (set_ba_last_claim_date now (set_ba_balance v b)))
       else remove_genesis_balance id) in
  do! adjust_balance (bcl_deposit_to_account op) (bcl_total_claimed op) in
  ret void_result.

#[export] Instance balance_claim_evaluator : Evaluator balance_claim_operation unit unit :=
  plain_evaluator op_balance_claim balance_claim_do_evaluate balance_claim_do_apply.
End balance_claim.
End withdraw_evaluators.
