(* ===== verification/Elections.v ===== *)
(** * Elections

    Models the vote counting of chain/db_maint.cpp and vote_count.hpp: the tally
    of the stake behind every vote, the number of witnesses and committee
    members the stake asks for, the objects with most votes, the authorities
    these elections and the holders of an asset give rise to. *)

From S2P Require Import Prelude Ext Config Asset Objects Parameters Governance Blocks Names Operations Validation Fees Ledger Database.

Section elections.
Context {X : Ext}.

(** ** Votable objects *)

(** What [sort_votable_objects] and the vote updates use of an index. *)
Class Votable (O : Type) := {
  votable_vote_id : O → Z;
}.
#[export] Instance witness_votable : Votable witness_object := {| votable_vote_id := wit_vote_id |}.
#[export] Instance committee_member_votable : Votable committee_member_object :=
  {| votable_vote_id := cm_vote_id |}.

(** [_vote_tally_buffer[id]]: the index is the instance of the vote id, and is
    not checked. *)
Definition votes_at (buffer : list Z) (id : Z) : option Z := buffer !! Z.to_nat (vote_instance id).
Definition votes_of (buffer : list Z) (id : Z) : res Z := of_option Undefined (votes_at buffer id).

(** The comparison of [sort_votable_objects]: more votes first, then the smaller
    vote id. *)
Definition more_votes {O} `{Votable O} (buffer : list Z) (a b : Z * O) : bool :=
  let votes o := i64_of_u64 (default 0 (votes_at buffer (votable_vote_id o))) in
  if negb (votes a.2 =? votes b.2) then votes b.2 <? votes a.2
  else votable_vote_id a.2 <? votable_vote_id b.2.

(** [database::sort_votable_objects]: [std::partial_sort] puts the [count] first
    objects in order at the front; no two objects share a vote id, so the
    comparison determines them. Every vote id is read, so one that is not in the
    buffer is an error. *)
Definition sort_votable_objects {O} `{Votable O} (buffer : list Z) (all_objects : list (Z * O))
    (count : nat) : res (list (Z * O)) :=
  if forallb (λ x, bool_decide (is_Some (votes_at buffer (votable_vote_id x.2)))) all_objects
  then Ok (take (Nat.min count (length all_objects)) (sorted_by (more_votes buffer) all_objects))
  else Err Undefined.

(** ** The tally *)

(** [vector::resize] *)
Definition resize (n : nat) (l : list Z) : list Z := take n l ++ replicate (n - length l) 0.
(** [buffer[offset] += stake] on [uint64_t] *)
Definition add_at (offset : nat) (stake : Z) (buffer : list Z) : list Z :=
  alter (λ v, u64 (v + stake)) offset buffer.

(** The constructor of [vote_tally_helper]. *)
Definition start_tally : DB unit :=
  let! params := global_parameters in
  put_gov (λ g,
    set_gv_total_voting_stake 0
      (set_gv_committee_count_histogram_buffer
         (resize (Z.to_nat (cp_maximum_committee_count params / 2 + 1)) (gv_committee_count_histogram_buffer g))
         (set_gv_witness_count_histogram_buffer
            (resize (Z.to_nat (cp_maximum_witness_count params / 2 + 1)) (gv_witness_count_histogram_buffer g))
            (set_gv_vote_tally_buffer (resize (Z.to_nat (gv_next_available_vote_id g)) (gv_vote_tally_buffer g)) g)))).

(** The votes an account option casts with a stake; a vote outside the buffer is
    ignored. *)
Definition cast_votes (votes : gset Z) (stake : Z) (buffer : list Z) : list Z :=
  foldl (λ b id, add_at (Z.to_nat (vote_instance id)) stake b) buffer (elements votes).
(** The entry of a histogram for a number of witnesses or committee members. *)
Definition cast_count (num maximum stake : Z) (histogram : list Z) : list Z :=
  if num <=? maximum
  then add_at (Nat.min (Z.to_nat (num / 2)) (length histogram - 1)) stake histogram
  else histogram.

(** The account whose opinion the stake of [stake_account] backs. *)
Definition opinion_account (stake_account : account_object) : DB account_object :=
  if ao_voting_account (ac_options stake_account) =? GRAPHENE_PROXY_TO_SELF_ACCOUNT
  then ret stake_account
  else get_account (ao_voting_account (ac_options stake_account)).

(** [vote_tally_helper::operator()] *)
Definition tally (stake_account : account_object) (stats : account_statistics_object) : DB unit :=
  let! params := global_parameters in
  let! now := head_block_time in
  if cp_count_non_member_votes params || is_member stake_account now then
    let! opinion := opinion_account stake_account in
    let! cashback := match ac_cashback_vb stake_account with
                     | Some vb => let! v := get_vesting vb in ret (amount (vb_balance v))
                     | None => ret 0
                     end in
    let voting_stake := u64 (st_total_core_in_orders stats + cashback + st_core_in_balance stats) in
    put_gov (λ g,
      set_gv_total_voting_stake (u64 (gv_total_voting_stake g + voting_stake))
        (set_gv_committee_count_histogram_buffer
           (cast_count (ao_num_committee (ac_options opinion)) (cp_maximum_committee_count params) voting_stake
              (gv_committee_count_histogram_buffer g))
           (set_gv_witness_count_histogram_buffer
              (cast_count (ao_num_witness (ac_options opinion)) (cp_maximum_witness_count params) voting_stake
                 (gv_witness_count_histogram_buffer g))
              (set_gv_vote_tally_buffer
                 (cast_votes (ao_votes (ac_options opinion)) voting_stake (gv_vote_tally_buffer g)) g))))
  else ret tt.

(** The destructors of [clear_canary]. *)
Definition clear_tally : DB unit :=
  put_gov (λ g, set_gv_vote_tally_buffer []
    (set_gv_committee_count_histogram_buffer [] (set_gv_witness_count_histogram_buffer [] g))).

(** ** The number of witnesses and committee members *)

(** The loop that adds up the histogram from its second entry on, until more than
    [stake_target] is behind [count] or less. [add] is the addition of the type
    of [stake_tally]. *)
Fixpoint count_votes (add : Z → Z → res Z) (stake_target : Z) (histogram : list Z)
    (count stake_tally : Z) : res Z :=
  match histogram with
  | [] => Ok count
  | votes :: histogram' =>
    if stake_tally <=? stake_target then
      let? t := add stake_tally votes in
      count_votes add stake_target histogram' (count + 1) t
    else Ok count
  end.

(** The count before the minimum is applied: [stake_target] and the loop. *)
Definition elected_count (add : Z → Z → res Z) (total_voting_stake : Z) (histogram : list Z) : res Z :=
  match histogram with
  | [] => Err Undefined
  | abstained :: histogram' =>
    let stake_target := u64 (total_voting_stake - abstained) / 2 in
    if 0 <? stake_target then count_votes add stake_target histogram' 0 0 else Ok 0
  end.

Definition add_share (a b : Z) : res Z := safe (a + i64_of_u64 b).
Definition add_uint64 (a b : Z) : res Z := Ok (u64 (a + b)).

(** ** Authorities from votes *)

Record vote_counter := mk_vote_counter {
  vc_total_votes : Z;   (* uint64_t *)
  vc_bitshift : Z;   (* int8_t *)
  vc_auth : authority;
}.
Definition new_vote_counter : vote_counter := mk_vote_counter 0 (-1) empty_authority.

(** [find_msb(votes) - 15], not below zero *)
Definition bits_to_drop (votes : Z) : Z := Z.max (Z.log2 votes - 15) 0.

(** [vote_counter::add]; the assertions are not part of a release build. *)
Definition vc_add (who votes : Z) (vc : vote_counter) : vote_counter :=
  if votes =? 0 then vc
  else
    let bitshift := if vc_bitshift vc =? -1 then bits_to_drop votes else vc_bitshift vc in
    let scaled_votes := Z.max (Z.shiftr votes bitshift) 1 in
    mk_vote_counter (u64 (vc_total_votes vc + scaled_votes)) bitshift
      (mk_authority (au_weight_threshold (vc_auth vc))
         (<[who := u16 scaled_votes]> (au_account_auths (vc_auth vc)))
         (au_key_auths (vc_auth vc)) (au_address_auths (vc_auth vc))).

Definition vc_add_all (l : list (Z * Z)) (vc : vote_counter) : vote_counter :=
  foldl (λ vc x, vc_add x.1 x.2 vc) vc l.

(** [vote_counter::finish] *)
Definition vc_finish (vc : vote_counter) (out_auth : authority) : authority :=
  if vc_total_votes vc =? 0 then out_auth
  else
    let weight := u32 (vc_total_votes vc) in
    mk_authority (u32 (Z.shiftr weight 1 + 1)) (au_account_auths (vc_auth vc))
      (au_key_auths (vc_auth vc)) (au_address_auths (vc_auth vc)).

Definition vc_is_empty (vc : vote_counter) : bool := vc_total_votes vc =? 0.

(** The authority of a list of accounts and votes before hard fork 533: an
    account that occurs twice keeps its first votes, and [find_msb] of zero is
    undefined. *)
Definition authority_before_hardfork_533 (l : list (Z * Z)) (a : authority) : res authority :=
  let total_votes := foldl (λ t x, u64 (t + x.2)) 0 l in
  let weights : gmap Z Z := foldl (λ m x, match m !! x.1 with Some _ => m | None => <[x.1 := x.2]> m end) ∅ l in
  if total_votes =? 0 then Err Undefined
  else
    let drop := bits_to_drop total_votes in
    let votes_of w := u16 (Z.max (Z.shiftr w drop) 1) in
    let threshold := foldl (λ t x, u32 (t + votes_of x.2)) 0 (map_to_list weights) in
    Ok (mk_authority (u32 (threshold / 2 + 1)) (votes_of <$> weights) ∅ (au_address_auths a)).

(** The authority of the elected accounts. *)
Definition elected_authority (now : Z) (l : list (Z * Z)) (a : authority) : res authority :=
  if now <? HARDFORK_533_TIME then authority_before_hardfork_533 l a
  else Ok (vc_finish (vc_add_all l new_vote_counter) a).

(** ** The elections *)

Definition update_witness_total_votes (buffer : list Z) (id : Z) : DB unit :=
  modify_witness id (λ w, let? v := votes_of buffer (wit_vote_id w) in Ok (set_wit_total_votes v w)).
Definition update_committee_member_total_votes (buffer : list Z) (id : Z) : DB unit :=
  modify_committee_member id (λ c, let? v := votes_of buffer (cm_vote_id c) in Ok (set_cm_total_votes v c)).

(** The accounts of the elected objects with their votes. *)
Definition accounts_and_votes {O} `{Votable O} (account : O → Z) (buffer : list Z) (l : list (Z * O)) : list (Z * Z) :=
  (λ x, (account x.2, default 0 (votes_at buffer (votable_vote_id x.2)))) <$> l.

(** [database::update_active_witnesses] *)
Definition update_active_witnesses : DB unit :=
  let! buffer := get_gov gv_vote_tally_buffer in
  let! histogram := get_gov gv_witness_count_histogram_buffer in
  let! stake := get_gov gv_total_voting_stake in
  let! count := lift (elected_count add_share stake histogram) in
  let! minimum := get_gov gv_min_witness_count in
  let witness_count := Z.max (count * 2 + 1) minimum in
  let! all_witnesses := gets (λ s, by_id (d_witnesses s)) in
  let! wits := lift (sort_votable_objects buffer all_witnesses (Z.to_nat witness_count)) in
  let! track := get_gov gv_track_standby_votes in
  do! for_each (update_witness_total_votes buffer) (if track then all_witnesses.*1 else wits.*1) in
  let! now := head_block_time in
  do! modify_account GRAPHENE_WITNESS_ACCOUNT (λ a,
        let? active := elected_authority now (accounts_and_votes wit_witness_account buffer wits) (ac_active a) in
        Ok (set_ac_active active a)) in
  put_gov (set_gv_active_witnesses (list_to_set wits.*1)).

(** [database::update_active_committee_members] *)
Definition update_active_committee_members : DB unit :=
  let! buffer := get_gov gv_vote_tally_buffer in
  let! histogram := get_gov gv_committee_count_histogram_buffer in
  let! stake := get_gov gv_total_voting_stake in
  let! count := lift (elected_count add_uint64 stake histogram) in
  let! minimum := get_gov gv_min_committee_member_count in
  let committee_member_count := Z.max (count * 2 + 1) minimum in
  let! all_members := gets (λ s, by_id (d_committee_members s)) in
  let! members := lift (sort_votable_objects buffer all_members (Z.to_nat committee_member_count)) in
  let! track := get_gov gv_track_standby_votes in
  do! for_each (update_committee_member_total_votes buffer) (if track then all_members.*1 else members.*1) in
  do! (if bool_decide (members = []) then ret tt
       else
         let! now := head_block_time in
         do! modify_account GRAPHENE_COMMITTEE_ACCOUNT (λ a,
               let? active := elected_authority now
                 (accounts_and_votes cm_committee_member_account buffer members) (ac_active a) in
               Ok (set_ac_active active a)) in
         let! committee_account := get_account GRAPHENE_COMMITTEE_ACCOUNT in
         modify_account GRAPHENE_RELAXED_COMMITTEE_ACCOUNT (λ a, Ok (set_ac_active (ac_active committee_account) a))) in
  put_gov (set_gv_active_committee_members members.*1).

(** [database::update_worker_votes] *)
Definition update_worker_votes : DB unit :=
  let! buffer := get_gov gv_vote_tally_buffer in
  let! workers := gets d_workers in
  let! now := head_block_time in
  let allow_negative_votes := now <? HARDFORK_607_TIME in
  for_each (λ id, modify_worker id (λ w,
      let? total_for := votes_of buffer (wk_vote_for w) in
      let? total_against := (if allow_negative_votes then votes_of buffer (wk_vote_against w) else Ok 0) in
      Ok (set_wk_total_votes_against total_against (set_wk_total_votes_for total_for w))))
    (map_to_list workers).*1.

(** ** Authorities of the holders of an asset *)

(** account_balance_index, [by_asset_balance], at an asset: decreasing balance,
    increasing owner; the owners with their balances. *)
Definition holders_less (a b : Z * Z) : bool :=
  if b.2 <? a.2 then true else if a.2 <? b.2 then false else a.1 <? b.1.
Definition holders_of (a : Z) (s : database) : list (Z * Z) :=
  sorted_by holders_less
    (omap (λ x, if x.1.2 =? a then Some (x.1.1, ab_balance x.2) else None) (map_to_list (d_balances s))).

(** The body of [update_top_n_authorities] for one special authority of an
    account. *)
Definition update_top_n_authority (acct : Z) (is_owner : bool) (auth : special_authority) : DB unit :=
  match auth with
  | no_special_authority => ret tt
  | top_holders_special_authority asset num_top_holders =>
    if num_top_holders =? 0 then ret tt
    else
      let! holders := gets (holders_of asset) in
      let top := take (Z.to_nat num_top_holders) (filter (λ x, x.1 ≠ acct) holders) in
      let vc := vc_add_all ((λ x, (x.1, u64 x.2)) <$> top) new_vote_counter in
      modify_account acct (λ a,
        let a := if is_owner then set_ac_owner (vc_finish vc (ac_owner a)) a
                 else set_ac_active (vc_finish vc (ac_active a)) a in
        Ok (if vc_is_empty vc then a
            else set_ac_top_n_control_flags (Z.lor (ac_top_n_control_flags a)
                   (if is_owner then top_n_control_owner else top_n_control_active)) a))
  end.

(** [update_top_n_authorities] with [visit_special_authorities] *)
Definition update_top_n_authorities : DB unit :=
  let! authorities := get_gov (λ g, by_id (gv_special_authorities g)) in
  for_each (λ x,
      let! acct := get_account x.2 in
      do! update_top_n_authority x.2 true (ac_owner_special_authority acct) in
      let! acct := get_account x.2 in
      update_top_n_authority x.2 false (ac_active_special_authority acct))
    authorities.
End elections.
