(* ===== verification/Budget.v ===== *)
(** * The budget of witnesses and workers

    Models [initialize_budget_record], [process_budget] and [pay_workers] of
    chain/db_maint.cpp, and what the types of workers do with their pay
    (chain/worker_evaluator.cpp). *)

From S2P Require Import Prelude Ext Config Asset Objects Parameters Governance Blocks Names Operations Validation Fees Ledger Database Vesting Balance Elections.

Section budget.
Context {X : Ext}.

(** ** Paying a worker *)

(** The [pay_worker] member functions, called in [modify(active_worker)]: the
    worker type afterwards. *)
Definition pay_worker (w : worker_type) (pay : Z) : DB worker_type :=
  match w with
  | refund_worker total_burned =>
    let! b := lift (safe (total_burned + pay)) in
    do! modify_dynamic_of CORE (λ d,
          let? v := safe (current_supply d - pay) in Ok (set_current_supply v d)) in
    ret (refund_worker b)
  | vesting_balance_worker balance =>
    let! now := head_block_time in
    do! modify_vesting balance (λ b, vb_deposit b now (mk_asset pay CORE)) in
    ret w
  | burn_worker total_burned =>
    let! b := lift (safe (total_burned + pay)) in
    do! adjust_balance GRAPHENE_NULL_ACCOUNT (mk_asset pay CORE) in
    ret (burn_worker b)
  end.

(** A worker with more approving stake is preferred, then one with a smaller
    identifier. *)
Definition worker_before (a b : Z * worker_object) : bool :=
  if negb (approving_stake a.2 =? approving_stake b.2) then approving_stake b.2 <? approving_stake a.2
  else a.1 <? b.1.

(** The workers to be paid, in the order they are paid. *)
Definition active_workers (now : Z) (workers : gmap Z worker_object) : list (Z * worker_object) :=
  sorted_by worker_before
    (List.filter (λ x, is_active x.2 now && (0 <? approving_stake x.2)) (by_id workers)).

Definition microseconds (seconds : Z) : Z := seconds * 1000000.
Definition day_count : Z := microseconds (24 * 60 * 60).

(** The pay of a worker for the time passed. *)
Definition requested_pay (daily_pay passed_time_count : Z) : Z :=
  i64_of_u64 (to_uint64 (fc_u128 (fc_u128 daily_pay * fc_u128 passed_time_count) / day_count)).

(** The loop of [pay_workers]: what is left of the budget. *)
Fixpoint pay_each (workers : list (Z * worker_object)) (passed_time_count budget : Z) : DB Z :=
  match workers with
  | [] => ret budget
  | (id, _) :: workers' =>
    if 0 <? budget then
      let! active_worker := get_worker id in
      let actual_pay := Z.min budget (requested_pay (wk_daily_pay active_worker) passed_time_count) in
      let! w := pay_worker (wk_worker active_worker) actual_pay in
      do! modify_worker id (λ o, Ok (set_wk_worker w o)) in
      let! budget := lift (safe (budget - actual_pay)) in
      pay_each workers' passed_time_count budget
    else ret budget
  end.

(** [database::pay_workers] *)
Definition pay_workers (budget : Z) : DB Z :=
  let! head_time := head_block_time in
  let! workers := gets d_workers in
  let! last_budget_time := get_gov gv_last_budget_time in
  pay_each (active_workers head_time workers) (microseconds (head_time - last_budget_time)) budget.

(** ** The budget *)

(** [GRAPHENE_CORE_ASSET_CYCLE_RATE] of the reserve per second, rounded up. *)
Definition reserve_share (reserve dt : Z) : Z :=
  let budget := fc_u128 (fc_u128 reserve * u64 dt) in
  let budget := fc_u128 (budget * GRAPHENE_CORE_ASSET_CYCLE_RATE) in
  let budget := fc_u128 (budget + (Z.shiftl 1 GRAPHENE_CORE_ASSET_CYCLE_RATE_BITS - 1)) in
  Z.shiftr budget GRAPHENE_CORE_ASSET_CYCLE_RATE_BITS.

(** [database::initialize_budget_record] *)
Definition initialize_budget_record (now : Z) : DB budget_record :=
  let! core := get_asset CORE in
  let! core_dd := get_dynamic_of CORE in
  let! dpo_witness_budget := gets d_witness_budget in
  let! last_budget_time := get_gov gv_last_budget_time in
  let! reserved := lift (safe (o_max_supply (as_options core) - current_supply core_dd)) in
  let rec := mk_budget_record 0 reserved (accumulated_fees core_dd) dpo_witness_budget 0 0 0 0 0 0 in
  if (last_budget_time =? time_zero) || (now <=? last_budget_time) then ret rec
  else
    let dt := now - last_budget_time in
    let rec := set_br_time_since_last_budget (u64 dt) rec in
    let! reserve := lift (safe (br_from_initial_reserve rec + accumulated_fees core_dd)) in
    let! reserve := lift (safe (reserve + dpo_witness_budget)) in
    let budget := reserve_share reserve dt in
    ret (set_br_total_budget
           (if budget <? fc_u128 reserve then i64_of_u64 (to_uint64 budget) else reserve) rec).

(** The blocks until the next maintenance, in [uint64_t]. *)
Definition blocks_to_maint (time_to_maint interval : Z) : res Z :=
  if interval =? 0 then Err Undefined
  else Ok (u64 (u64 time_to_maint + interval - 1) / interval).

(** The budget of the workers until the next maintenance, bounded by
    [available_funds]. *)
Definition worker_share (worker_budget_per_day time_to_maint available_funds : Z) : Z :=
  let budget := fc_u128 (fc_u128 worker_budget_per_day * u64 time_to_maint) / (60 * 60 * 24) in
  if fc_u128 available_funds <=? budget then available_funds else i64_of_u64 (to_uint64 budget).

(** [database::process_budget] *)
Definition process_budget : DB unit :=
  let! params := global_parameters in
  let! now := head_block_time in
  let! next := next_maintenance_time in
  let time_to_maint := next - now in
  let! blocks := lift (blocks_to_maint time_to_maint (cp_block_interval params)) in
  let! rec := initialize_budget_record now in
  let requested := i64_of_u64 (u64 (u64 (cp_witness_pay_per_block params) * blocks)) in
  let witness_budget := Z.min requested (br_total_budget rec) in
  let rec := set_br_witness_budget witness_budget (set_br_requested_witness_budget requested rec) in
  let! available_funds := lift (safe (br_total_budget rec - witness_budget)) in
  let worker_budget := worker_share (cp_worker_budget_per_day params) time_to_maint available_funds in
  let rec := set_br_worker_budget worker_budget rec in
  let! available_funds := lift (safe (available_funds - worker_budget)) in
  let! leftover_worker_funds := pay_workers worker_budget in
  let rec := set_br_leftover_worker_funds leftover_worker_funds rec in
  let! available_funds := lift (safe (available_funds + leftover_worker_funds)) in
  let! supply_delta := lift (
    let? v := safe (br_witness_budget rec + br_worker_budget rec) in
    let? v := safe (v - br_leftover_worker_funds rec) in
    let? v := safe (v - br_from_accumulated_fees rec) in
    safe (v - br_from_unused_witness_budget rec)) in
  let rec := set_br_supply_delta supply_delta rec in
  do! modify_dynamic_of CORE (λ core,
        let? v := safe (current_supply core + br_supply_delta rec) in
        Ok (set_accumulated_fees 0 (set_current_supply v core))) in
  do! put (set_d_witness_budget witness_budget) in
  put_gov (λ g, set_gv_budget_records (gv_budget_records g ++ [(now, rec)]) (set_gv_last_budget_time now g)).
End budget.
