(* ===== verification/Maintenance.v ===== *)
(** * The maintenance of the chain

    Models [perform_chain_maintenance] of chain/db_maint.cpp and what it calls:
    the fees of the accounts, the fee backed assets and their buyback orders, the
    end of annual memberships, the bids on globally settled assets, the one-time
    passes of hard forks, and the time of the next maintenance. The elections
    are in Elections.v, the budget in Budget.v. *)

From S2P Require Import Prelude Ext Config Asset Objects Parameters Governance Blocks Names Operations Validation Fees Ledger Database Vesting Balance CallOrder Market Matching OrderBook Feeds Evaluator MarketEval AssetEval BitassetEval GovernanceEval Elections Budget.

(** ** Operations inside [try] *)

Section maintenance.
Context {X : Ext} {P : Packing} {N : NthElement}.

(** [database::apply_operation] inside [try]: [None] when an exception was
    caught. The evaluation changes nothing but the log of operations, so the
    state is known after an exception there; after one in the application it is
    not represented. *)
Definition try_operation {Op E F} `{Evaluator Op E F} (ts : trx_state) (op : Op) : DB (option operation_result) :=
  do! push_applied_operation (ev_operation op) in
  λ s, match evaluate ts op s with
       | Err e => if is_fc_exception e then Ok (None, s) else Err e
       | Ok (r, s1) =>
         match apply ts op (fst r) (snd r) s1 with
         | Err e => Err (if is_fc_exception e then PartialState else e)
         | Ok (x, s2) => Ok (Some x, s2)
         end
       end.

(** The evaluation state of the operations of the maintenance. *)
Definition maintenance_context : trx_state := mk_trx_state false true false false.

(** ** The accounts *)

(** The balances whose maintenance flag is set; the flag is set on core balances
    only, of which an account has one, so the order is of no importance. *)
Definition flagged_balances (s : database) : list (Z * Z) :=
  (List.filter (λ x, ab_maintenance_flag x.2) (map_to_list (d_balances s))).*1.

(** [get_account_stats_by_owner] *)
Definition find_statistics_by_owner (owner : Z) (s : database) : option Z :=
  find_first (λ x, st_owner x.2 =? owner) (map_to_list (d_statistics s)).

Definition copy_balance (k : Z * Z) : DB unit :=
  let! b := gets (λ s, d_balances s !! k) in
  let! b := lift (of_option NotFound b) in
  let! stats := gets (find_statistics_by_owner (fst k)) in
  let! stats := lift (of_option AssertFailure stats) in
  do! modify_statistics stats (λ st, Ok (set_st_core_in_balance (ab_balance b) st)) in
  put (λ s, set_d_balances (<[k := mk_account_balance (ab_balance b) false]> (d_balances s)) s).

(** account_stats_index, [by_maintenance_seq]: need of maintenance, then name. *)
Definition maintenance_less (a b : Z * account_statistics_object) : bool :=
  if Bool.eqb (need_maintenance a.2) (need_maintenance b.2)
  then String.ltb (st_name a.2) (st_name b.2)
  else need_maintenance b.2.
Definition maintenance_index (s : database) : list (Z * account_statistics_object) :=
  sorted_by maintenance_less (map_to_list (d_statistics s)).

(** The loop over the statistics that need maintenance; the iterator moves on
    before the body runs. *)
Fixpoint maintain_accounts (fuel : nat) (itr : option Z) : DB unit :=
  match fuel with
  | O => fail OutOfFuel
  | S fuel' =>
    match itr with
    | None => ret tt
    | Some id =>
      let! acc_stat := get_statistics id in
      let! acc_obj := get_account (st_owner acc_stat) in
      let! next := gets (λ s, next_of id (maintenance_index s)) in
      do! (if has_some_core_voting acc_stat then tally acc_obj acc_stat else ret tt) in
      do! (if has_pending_fees acc_stat then process_fees id (st_owner acc_stat) else ret tt) in
      maintain_accounts fuel' next
    end
  end.

(** [database::perform_account_maintenance] *)
Definition perform_account_maintenance : DB unit :=
  let! flagged := gets flagged_balances in
  do! for_each copy_balance flagged in
  let! first := gets (λ s, find_first (λ x, need_maintenance x.2) (maintenance_index s)) in
  let! fuel := gets (λ s, S (size (d_statistics s))) in
  maintain_accounts fuel first.

(** ** Fee backed assets *)

(** A percentage of the accumulated fees. *)
Definition fba_share (fees pct : Z) : Z :=
  i64_of_u64 (to_uint64 (fc_u128 (fc_u128 fees * pct) / GRAPHENE_100_PERCENT)).

(** Pay a part of the fees to an account, with the virtual operation. *)
Definition distribute_fba (account fba_id x : Z) : DB unit :=
  if x =? 0 then ret tt
  else
    do! adjust_balance account (mk_asset x CORE) in
    push_applied_operation (op_fba_distribute (mk_fba_distribute account fba_id x)).

Definition clear_fba (fba_id : Z) : DB unit :=
  modify_fba fba_id (λ f, Ok (set_fba_accumulated_fba_fees 0 f)).

Definition burn_core (x : Z) : DB unit :=
  modify_dynamic_of CORE (λ d, let? v := safe (current_supply d - x) in Ok (set_current_supply v d)).

(** [split_fba_balance] *)
Definition split_fba_balance (fba_id network_pct buyback_pct issuer_pct : Z) : DB unit :=
  require! network_pct + buyback_pct + issuer_pct =? GRAPHENE_100_PERCENT in
  let! fba := get_fba fba_id in
  let fees := fba_accumulated_fba_fees fba in
  if fees =? 0 then ret tt
  else
    let! configured := is_configured fba in
    if negb configured then
      do! burn_core fees in
      clear_fba fba_id
    else
      let buyback_amount := fba_share fees buyback_pct in
      let issuer_amount := fba_share fees issuer_pct in
      let! paid := lift (safe (buyback_amount + issuer_amount)) in
      require! paid <=? fees in
      let! network_amount := lift (safe (fees - paid)) in
      let! a := lift (of_option Undefined (fba_designated_asset fba)) in
      let! designated_asset := get_asset a in
      do! (if network_amount =? 0 then ret tt else burn_core network_amount) in
      let! buyback_account := lift (of_option Undefined (as_buyback_account designated_asset)) in
      do! distribute_fba buyback_account fba_id buyback_amount in
      do! distribute_fba (as_issuer designated_asset) fba_id issuer_amount in
      clear_fba fba_id.

Definition distribute_fba_balances : DB unit :=
  for_each (λ id, split_fba_balance id (20 * GRAPHENE_1_PERCENT) (60 * GRAPHENE_1_PERCENT) (20 * GRAPHENE_1_PERCENT))
    [fba_accumulator_id_transfer_to_blind; fba_accumulator_id_blind_transfer;
     fba_accumulator_id_transfer_from_blind].

(** account_balance_index, [by_account_asset]: the balance of the account in the
    first asset from [next_asset] on. *)
Definition balance_lower_bound (account next_asset : Z) (s : database) : option (Z * account_balance_object) :=
  head (sorted_by (λ a b, a.1 <? b.1)
    (omap (λ x, if (x.1.1 =? account) && (next_asset <=? x.1.2) then Some (x.1.2, x.2) else None)
          (map_to_list (d_balances s)))).

(** Sell the holdings of the buyback account in one asset: an order that is
    cancelled if it is not filled. *)
Definition buyback_order (account asset_to_buy asset_to_sell amount_to_sell : Z) : DB unit :=
  let! r := try_operation maintenance_context
    (mk_limit_order_create (mk_asset 0 CORE) account (mk_asset amount_to_sell asset_to_sell)
       (mk_asset 1 asset_to_buy) time_max false) in
  match r with
  | Some (object_id_result order_id) =>
    let! found := gets (λ s, bool_decide (is_Some (d_limits s !! order_id))) in
    if found then
      let! _r := try_operation maintenance_context
        (mk_limit_order_cancel (mk_asset 0 CORE) order_id account) in
      ret tt
    else ret tt
  | Some _ => fail Undefined
  | None => ret tt
  end.

(** The [while(true)] loop over the holdings. *)
Fixpoint buyback_holdings (fuel : nat) (account asset_to_buy : Z) (allowed : gset Z) (next_asset : Z) : DB unit :=
  match fuel with
  | O => fail OutOfFuel
  | S fuel' =>
    let! it := gets (balance_lower_bound account next_asset) in
    match it with
    | None => ret tt
    | Some (asset_to_sell, b) =>
      do! (if (asset_to_sell =? asset_to_buy) || (ab_balance b =? 0) || negb (bool_decide (asset_to_sell ∈ allowed))
           then ret tt
           else buyback_order account asset_to_buy asset_to_sell (ab_balance b)) in
      buyback_holdings fuel' account asset_to_buy allowed (asset_to_sell + 1)
    end
  end.

Definition create_buyback_orders : DB unit :=
  let! buybacks := get_gov (λ g, by_id (gv_buybacks g)) in
  for_each (λ x,
      let! asset_to_buy := get_asset x.2 in
      let! account := lift (of_option Undefined (as_buyback_account asset_to_buy)) in
      let! buyback_account := get_account account in
      match ac_allowed_assets buyback_account with
      | None => ret tt
      | Some allowed =>
        let! fuel := gets (λ s, S (Z.to_nat (ni_asset (d_next_ids s)))) in
        buyback_holdings fuel account x.2 allowed CORE
      end)
    buybacks.

(** ** Annual members *)

Definition deprecate_annual_members : DB unit :=
  let! accounts := gets (λ s, by_id (d_accounts s)) in
  let! now := head_block_time in
  for_each (λ x,
      let! acct := get_account (fst x) in
      if is_annual_member acct now then
        let! _r := try_operation maintenance_context (mk_account_upgrade (mk_asset 0 CORE) (fst x) true) in
        ret tt
      else ret tt)
    accounts.

(** ** Bids on a globally settled asset *)

(** The first loop of [process_bids]: the bids, from the best on, until the
    supply is covered; the debt covered and the bid after the last one. *)
Fixpoint covering_bids (fuel : nat) (to_revive : Z) (bad : asset_bitasset_data_object)
    (supply covered : Z) (itr : option Z) : DB (Z * option Z) :=
  match fuel with
  | O => fail OutOfFuel
  | S fuel' =>
    match itr with
    | None => ret (covered, None)
    | Some id =>
      let! bid := get_bid id in
      let swan := cb_inv_swan_price bid in
      if (covered <? supply) && (asset_id (quote swan) =? to_revive) then
        let! total_collateral := lift (asset_mul (quote swan) (bd_settlement_price bad)) in
        let! total_collateral := lift (asset_add total_collateral (base swan)) in
        let! cp := lift (call_price (quote swan) total_collateral
                           (maintenance_collateral_ratio (bd_current_feed bad))) in
        if price_geb (price_inv cp) (settlement_price (bd_current_feed bad)) then ret (covered, itr)
        else
          let! covered := lift (safe (covered + amount (quote swan))) in
          let! next := gets (λ s, next_of id (bid_price_index s)) in
          covering_bids fuel' to_revive bad supply covered next
      else ret (covered, itr)
    end
  end.

(** The second loop: execute them; the last one takes what is left. *)
Fixpoint execute_bids (fuel : nat) (bad : asset_bitasset_data_object) (to_cover remaining_fund : Z)
    (itr bids_end : option Z) : DB (Z * Z) :=
  match fuel with
  | O => fail OutOfFuel
  | S fuel' =>
    if bool_decide (itr = bids_end) then ret (to_cover, remaining_fund)
    else
      let! id := lift (of_option NotFound itr) in
      let! bid := get_bid id in
      let! next := gets (λ s, next_of id (bid_price_index s)) in
      let bid_debt := amount (quote (cb_inv_swan_price bid)) in
      let! x := lift (asset_mul (quote (cb_inv_swan_price bid)) (bd_settlement_price bad)) in
      let debt := if to_cover <=? bid_debt then to_cover else bid_debt in
      let collateral := if to_cover <=? bid_debt then remaining_fund else amount x in
      let! to_cover := lift (safe (to_cover - debt)) in
      let! remaining_fund := lift (safe (remaining_fund - collateral)) in
      do! execute_bid id debt collateral (bd_current_feed bad) in
      execute_bids fuel' bad to_cover remaining_fund next bids_end
  end.

(** [database::process_bids] *)
Definition process_bids (bad_id : Z) : DB unit :=
  let! bad := get_bitasset bad_id in
  if bd_is_prediction_market bad then ret tt
  else if is_null (settlement_price (bd_current_feed bad)) then ret tt
  else
    let backing := bo_short_backing_asset (bd_options bad) in
    let! zero := lift (asset_mul (mk_asset 0 backing) (bd_settlement_price bad)) in
    let to_revive := asset_id zero in
    let! bdd := get_dynamic_of to_revive in
    let! pmax := lift (price_max backing to_revive) in
    let! start := gets (bid_lower_bound to_revive pmax) in
    let! fuel := gets bids_fuel in
    let! r := covering_bids fuel to_revive bad (current_supply bdd) 0 start in
    if fst r <? current_supply bdd then ret tt
    else
      let! left := execute_bids fuel bad (current_supply bdd) (bd_settlement_fund bad) start (snd r) in
      require! snd left =? 0 in
      require! fst left =? 0 in
      cancel_bids_and_revive_mpa to_revive.

(** The update of [process_bitassets]: no settlement volume, and no expired
    feeds of an asset fed by witnesses or the committee. *)
Definition reset_bitasset (head_time flags : Z) (b : asset_bitasset_data_object) : asset_bitasset_data_object :=
  let b := set_bd_force_settled_volume 0 b in
  if (HARDFORK_CORE_518_TIME <=? head_time) && has_flag flags (Z.lor witness_fed_asset committee_fed_asset) &&
     (bo_feed_lifetime_sec (bd_options b) <? head_time)
  then set_bd_feeds (filter (λ x, head_time - bo_feed_lifetime_sec (bd_options b) ≤ fst (snd x)) (bd_feeds b)) b
  else b.

Definition process_bitassets : DB unit :=
  let! head_time := head_block_time in
  let! bitassets := gets (λ s, by_id (d_bitassets s)) in
  for_each (λ x,
      let! b := get_bitasset (fst x) in
      let! a := get_asset (bd_asset_id b) in
      do! modify_bitasset (fst x) (λ b, Ok (reset_bitasset head_time (o_flags (as_options a)) b)) in
      let! d := get_bitasset (fst x) in
      if has_settlement d then process_bids (fst x) else ret tt)
    bitassets.

(** ** Hard forks *)

(** asset_index, [by_type], from [lower_bound(true)] on. *)
Definition market_issued_assets (s : database) : list Z :=
  (List.filter (λ x, is_market_issued x.2) (by_id (d_assets s))).*1.

(** The passes over the call orders and the markets for hard fork core-343:
    the asset of the last call order and its bitasset data go from one call
    order to the next. *)
Fixpoint update_call_prices (calls : list Z) (current_asset : Z) (abd : option Z) : DB unit :=
  match calls with
  | [] => ret tt
  | id :: calls' =>
    let! call := get_call id in
    let! abd := (if co_debt_type call =? current_asset then ret abd
                 else let! b := bitasset_id_of (co_debt_type call) in ret (Some b)) in
    let current_asset := co_debt_type call in
    do! match abd with
        | None => ret tt
        | Some b =>
          let! bad := get_bitasset b in
          if bd_is_prediction_market bad then ret tt
          else modify_call id (λ c,
                 let? p := call_price (get_debt c) (get_collateral c)
                             (maintenance_collateral_ratio (bd_current_feed bad)) in
                 Ok (set_co_call_price p c))
        end in
    update_call_prices calls' current_asset abd
  end.

Definition update_and_match_call_orders : DB unit :=
  let! calls := gets call_collateral_index in
  do! update_call_prices calls.*1 CORE None in
  let! assets := gets market_issued_assets in
  for_each (λ a, do! check_call_orders a true false in ret tt) assets.

(** The feeds of another backing asset are erased, or nullified. *)
Definition wrong_backing (backing : Z) (f : Z * price_feed) : bool :=
  negb (asset_id (quote (settlement_price (snd f))) =? backing).
Definition nullify_feed (f : Z * price_feed) : Z * price_feed :=
  (fst f, mk_price_feed null_price (core_exchange_rate (snd f))
            (maintenance_collateral_ratio (snd f)) (maximum_short_squeeze_ratio (snd f))).
Definition drop_wrong_feeds (flags : Z) (b : asset_bitasset_data_object) : asset_bitasset_data_object :=
  let backing := bo_short_backing_asset (bd_options b) in
  if has_flag flags (Z.lor witness_fed_asset committee_fed_asset)
  then set_bd_feeds (filter (λ x, wrong_backing backing (snd x) = false) (bd_feeds b)) b
  else set_bd_feeds ((λ f, if wrong_backing backing f then nullify_feed f else f) <$> bd_feeds b) b.

Definition process_hf_868_890 (skip_check_call_orders : bool) : DB unit :=
  let! head_time := head_block_time in
  let! assets := gets market_issued_assets in
  for_each (λ a,
      let! current_asset := get_asset a in
      let! bid := bitasset_id_of a in
      let! old := get_bitasset bid in
      do! modify_bitasset bid (λ b, Ok (drop_wrong_feeds (o_flags (as_options current_asset)) b)) in
      do! modify_bitasset bid (update_median_feeds head_time) in
      let! new := get_bitasset bid in
      let median_changed := negb (price_eqb (settlement_price (bd_current_feed old))
                                            (settlement_price (bd_current_feed new))) in
      if negb skip_check_call_orders && median_changed
      then do! check_call_orders a true false in ret tt
      else ret tt)
    assets.

Definition process_hf_935 : DB unit :=
  let! assets := gets market_issued_assets in
  for_each (λ a, do! check_call_orders a true false in ret tt) assets.

(** ** The end of the interval *)

(** The registration fee without its scaling; a shift by 64 or more is undefined,
    and so is a division by zero. *)
Definition unscale_fees (registered : Z) (p : chain_parameters) : res chain_parameters :=
  if cp_accounts_per_fee_scale p =? 0 then Err Undefined
  else
    let shift := u32 (cp_account_fee_scale_bitshifts p * (registered / cp_accounts_per_fee_scale p)) in
    match fs_parameters (cp_current_fees p) !! 5 with
    | Some (fee_account basic premium kb) =>
      if 64 <=? shift then Err Undefined
      else Ok (set_cp_current_fees
                 (mk_fee_schedule (<[5 := fee_account (Z.shiftr basic shift) premium kb]>
                                     (fs_parameters (cp_current_fees p))) (fs_scale (cp_current_fees p))) p)
    | _ => Err AssertFailure
    end.

Definition update_parameters : DB unit :=
  let! registered := get_gov gv_accounts_registered_this_interval in
  let! params := global_parameters in
  let! params := lift (unscale_fees registered params) in
  let! pending := get_gov gv_pending_parameters in
  match pending with
  | Some p =>
    do! put (set_d_parameters p) in
    put_gov (set_gv_pending_parameters None)
  | None => put (set_d_parameters params)
  end.

(** The smallest time of the maintenance schedule after the head block. *)
Definition next_maintenance (next interval timestamp block_num head_time : Z) : res Z :=
  if next <=? timestamp then
    if interval =? 0 then Err Undefined
    else if block_num =? 1 then Ok (time_add time_zero (u32 ((timestamp / interval + 1) * interval)))
    else
      let y := Z.quot (head_time - next) interval in
      Ok (time_add next (u32 ((y + 1) * interval)))
  else Ok next.

(** The hard forks the interval passes, and what they ask for. *)
Definition passes (before after hardfork : Z) : bool := (before <=? hardfork) && (hardfork <? after).

Definition process_hardforks (before after : Z) : DB unit :=
  do! (if (before <? HARDFORK_613_TIME) && (HARDFORK_613_TIME <=? after)
       then deprecate_annual_members else ret tt) in
  let to_update_and_match_call_orders := passes before after HARDFORK_CORE_343_TIME in
  do! (if passes before after HARDFORK_CORE_868_890_TIME
       then process_hf_868_890 to_update_and_match_call_orders else ret tt) in
  if passes before after HARDFORK_CORE_935_TIME && negb to_update_and_match_call_orders
  then process_hf_935 else ret tt.

(** [database::perform_chain_maintenance] for a block with this time and number. *)
Definition perform_chain_maintenance (timestamp block_num : Z) : DB unit :=
  do! distribute_fba_balances in
  do! create_buyback_orders in
  do! start_tally in
  do! perform_account_maintenance in
  do! update_top_n_authorities in
  do! update_active_witnesses in
  do! update_active_committee_members in
  do! update_worker_votes in
  do! update_parameters in
  let! before := next_maintenance_time in
  let! params := global_parameters in
  let! head_time := head_block_time in
  let! after := lift (next_maintenance before (cp_maintenance_interval params) timestamp block_num head_time) in
  do! process_hardforks before after in
  do! put (set_d_next_maintenance_time after) in
  do! put_gov (set_gv_accounts_registered_this_interval 0) in
  do! (if passes before after HARDFORK_CORE_343_TIME then update_and_match_call_orders else ret tt) in
  do! process_bitassets in
  do! process_budget in
  clear_tally.
End maintenance.
