(* ===== verification/Update.v ===== *)
(** * Maintenance of the markets at every block

    Models [clear_expired_orders], [update_expired_feeds],
    [update_core_exchange_rates] and [update_withdraw_permissions] of
    chain/db_update.cpp. *)

From S2P Require Import Prelude Ext Config Asset Objects Parameters Governance Blocks Names Operations Validation Fees Ledger Database Balance Market Matching OrderBook Feeds.

Section update.
Context {X : Ext} {P : Packing} {N : NthElement}.

(** ** Expired limit orders *)

Fixpoint clear_expired_limits (fuel : nat) : DB unit :=
  match fuel with
  | O => fail OutOfFuel
  | S fuel' =>
    let! head_time := head_block_time in
    let! first := gets (λ s, head (limit_expiration_index s)) in
    match first with
    | None => ret tt
    | Some (id, order) =>
      if lo_expiration order <=? head_time then
        do! cancel_limit_order id true false in
        let! maint_time := next_maintenance_time in
        do! (if maint_time <=? HARDFORK_CORE_606_TIME then
               do! check_call_orders (asset_id (base (lo_sell_price order))) true false in
               do! check_call_orders (asset_id (quote (lo_sell_price order))) true false in
               ret tt
             else ret tt) in
        clear_expired_limits fuel'
      else ret tt
    end
  end.

(** ** Expired force settlements *)

(** The variables of the loop over the settlements. *)
Record settling := mk_settling {
  sg_current_asset : Z;
  sg_max_settlement_volume : asset;
  sg_settlement_fill_price : price;
  sg_settlement_price : price;
  sg_current_asset_finished : bool;
}.

(** [next_asset()]: the loop state moved to the next asset with settlements. *)
Definition next_asset (g : settling) : DB (option settling) :=
  let! bound := gets (settlement_upper_bound (sg_current_asset g)) in
  match bound with
  | None => ret None
  | Some id =>
    let! order := get_settle id in
    ret (Some (mk_settling (fs_settlement_asset_id order) (sg_max_settlement_volume g)
                 (sg_settlement_fill_price g) (sg_settlement_price g) false))
  end.

(** [catch( const black_swan_exception& )] around [match]: it is raised
    before any object is modified. *)
Definition catch_black_swan {A} (m handler : DB A) : DB A :=
  λ s, match m s with Err BlackSwan => handler s | r => r end.

(** "Match against the least collateralized short until the settlement is
    finished or we reach max settlements": returns [settled], and whether the
    asset is finished. *)
Fixpoint settle_order (fuel : nat) (mia order_id : Z) (settlement_price fill_price : price)
    (max_settlement_volume settled : asset) : DB (asset * bool) :=
  match fuel with
  | O => fail OutOfFuel
  | S fuel' =>
    let! below := lift (asset_lt settled max_settlement_volume) in
    let! found := gets (λ s, d_settles s !! order_id) in
    match found with
    | Some order =>
      if below then
        let! bitasset := get_bitasset_of mia in
        let! call_min := lift (price_min (bo_short_backing_asset (bd_options bitasset)) mia) in
        let! itr := gets (collateral_lower_bound call_min) in
        let! max_settlement := lift (asset_sub max_settlement_volume settled) in
        if amount (fs_balance order) =? 0 then
          do! cancel_settle_order order_id true in
          ret (settled, false)
        else
          let! call_id := lift (of_option NotFound itr) in
          let! new_settled := catch_black_swan
            (let! a := match_call_settle call_id order_id settlement_price max_settlement fill_price in
             ret (Some a))
            (do! cancel_settle_order order_id true in ret None) in
          match new_settled with
          | None => ret (settled, false)
          | Some new_settled =>
            let! maint_time := next_maintenance_time in
            if (HARDFORK_CORE_184_TIME <? maint_time) && (amount new_settled =? 0) then
              let! still := gets (λ s, d_settles s !! order_id) in
              ret (settled, bool_decide (is_Some still))
            else
              let! settled := lift (asset_add settled new_settled) in
              settle_order fuel' mia order_id settlement_price fill_price
                           max_settlement_volume settled
          end
      else ret (settled, false)
    | None => ret (settled, false)
    end
  end.

(** The prices and the volume of the current asset, computed once for it. *)
Definition prepare_settlement (mia : Z) (bitasset : asset_bitasset_data_object)
    (order : force_settlement_object) (g : settling) : DB settling :=
  let! maint_time := next_maintenance_time in
  let offset := GRAPHENE_100_PERCENT - u16 (bo_force_settlement_offset_percent (bd_options bitasset)) in
  let feed := settlement_price (bd_current_feed bitasset) in
  let! fill_price :=
    (if asset_id (base (sg_settlement_fill_price g)) =? mia then ret (sg_settlement_fill_price g)
     else
       let! r := lift (of_option BadRational (ratio_make offset GRAPHENE_100_PERCENT)) in
       lift (price_div_ratio feed r)) in
  let! settle_price :=
    (if maint_time <=? HARDFORK_CORE_342_TIME then
       let! receives := lift (asset_mul (fs_balance order) feed) in
       let v := to_uint64 (fc_u128 (fc_u128 (amount receives) * offset) / GRAPHENE_100_PERCENT) in
       lift (asset_div (fs_balance order) (mk_asset (i64_of_u64 v) (asset_id receives)))
     else if asset_id (base (sg_settlement_price g)) =? mia then ret (sg_settlement_price g)
     else ret fill_price) in
  ret (mk_settling (sg_current_asset g) (sg_max_settlement_volume g) fill_price settle_price
                   (sg_current_asset_finished g)).

(** One pass over the first settlement of the current asset: the next loop
    state, or the end of the loop. *)
Definition settlement_pass (order_id : Z) (g : settling) : DB (option settling) :=
  let! order := get_settle order_id in
  let mia := fs_settlement_asset_id order in
  let g := mk_settling mia (sg_max_settlement_volume g) (sg_settlement_fill_price g)
                       (sg_settlement_price g) (sg_current_asset_finished g) in
  let! bitasset := get_bitasset_of mia in
  let! head_time := head_block_time in
  if has_settlement bitasset then
    do! cancel_settle_order order_id true in ret (Some g)
  else if head_time <? fs_settlement_date order then next_asset g
  else if is_null (settlement_price (bd_current_feed bitasset)) then
    do! cancel_settle_order order_id true in ret (Some g)
  else
    let! g :=
      (if asset_id (sg_max_settlement_volume g) =? mia then ret g
       else
         let! dyn := get_dynamic_of mia in
         let! v := lift (max_force_settlement_volume bitasset (current_supply dyn)) in
         ret (mk_settling mia (mk_asset v mia) (sg_settlement_fill_price g)
                          (sg_settlement_price g) (sg_current_asset_finished g))) in
    if (amount (sg_max_settlement_volume g) <=? bd_force_settled_volume bitasset)
       || sg_current_asset_finished g
    then next_asset g
    else
      let! g := prepare_settlement mia bitasset order g in
      let! fuel := gets (λ s, 3 + size (d_calls s))%nat in
      let! r := settle_order fuel mia order_id (sg_settlement_price g) (sg_settlement_fill_price g)
                  (sg_max_settlement_volume g) (mk_asset (bd_force_settled_volume bitasset) mia) in
      do! (if bd_force_settled_volume bitasset =? amount (fst r) then ret tt
           else modify_bitasset_of mia (λ b, Ok (set_bd_force_settled_volume (amount (fst r)) b))) in
      ret (Some (mk_settling mia (sg_max_settlement_volume g) (sg_settlement_fill_price g)
                   (sg_settlement_price g) (sg_current_asset_finished g || snd r))).

Fixpoint clear_expired_settlements (fuel : nat) (g : settling) : DB unit :=
  match fuel with
  | O => fail OutOfFuel
  | S fuel' =>
    let! itr := gets (settlement_lower_bound (sg_current_asset g)) in
    match itr with
    | None => ret tt
    | Some order_id =>
      let! next := settlement_pass order_id g in
      match next with
      | None => ret tt
      | Some g' => clear_expired_settlements fuel' g'
      end
    end
  end.

(** [database::clear_expired_orders] *)
Definition clear_expired_orders : DB unit :=
  let! fuel := gets book_fuel in
  do! clear_expired_limits fuel in
  let! first := gets (λ s, head (settlement_index s)) in
  match first with
  | None => ret tt
  | Some (_, order) =>
    let! fuel := gets (λ s, S (4 * size (d_settles s))) in
    clear_expired_settlements fuel
      (mk_settling (fs_settlement_asset_id order) (mk_asset 0 CORE) null_price null_price false)
  end.

(** ** Expired feeds and core exchange rates *)

(** bitasset index, [by_feed_expiration] *)
Definition feed_expiration_less (a b : Z * asset_bitasset_data_object) : bool :=
  if feed_expiration_time a.2 <? feed_expiration_time b.2 then true
  else if feed_expiration_time b.2 <? feed_expiration_time a.2 then false
  else bd_asset_id a.2 <? bd_asset_id b.2.
Definition feed_expiration_index (s : database) : list (Z * asset_bitasset_data_object) :=
  sorted_by feed_expiration_less (map_to_list (d_bitassets s)).

(** Copy the core exchange rate of the current feed to the asset. *)
Definition copy_cer (b : asset_bitasset_data_object) : DB unit :=
  let! a := get_asset (bd_asset_id b) in
  let cer := core_exchange_rate (bd_current_feed b) in
  if price_eqb (o_core_exchange_rate (as_options a)) cer then ret tt
  else modify_asset (bd_asset_id b) (λ ao,
         Ok (set_as_options (set_o_core_exchange_rate cer (as_options ao)) ao)).

Definition clear_cer_flags (b : asset_bitasset_data_object) : asset_bitasset_data_object :=
  set_bd_feed_cer_updated false (set_bd_asset_cer_updated false b).

(** The body of the loop of [update_expired_feeds] for the object [id]. *)
Definition update_expired_feed (id : Z) : DB unit :=
  let! head_time := head_block_time in
  let! b := get_bitasset id in
  if (HARDFORK_615_TIME <=? head_time) || feed_is_expired_before_hardfork_615 b head_time then
    let! updated := lift (update_median_feeds head_time b) in
    let update_cer := need_to_update_cer updated in
    do! modify_bitasset id (λ _, Ok (if update_cer then clear_cer_flags updated else updated)) in
    let! b' := get_bitasset id in
    do! (if negb (is_null (settlement_price (bd_current_feed b'))) &&
            negb (price_feed_eqb (bd_current_feed b') (bd_current_feed b))
         then do! check_call_orders (bd_asset_id b') true false in ret tt
         else ret tt) in
    if update_cer then let! b' := get_bitasset id in copy_cer b' else ret tt
  else ret tt.

Fixpoint update_feeds (fuel : nat) (itr : option Z) : DB unit :=
  match fuel with
  | O => fail OutOfFuel
  | S fuel' =>
    match itr with
    | None => ret tt
    | Some id =>
      let! head_time := head_block_time in
      let! b := get_bitasset id in
      if feed_is_expired b head_time then
        let! next := gets (λ s, next_of id (feed_expiration_index s)) in
        do! update_expired_feed id in
        update_feeds fuel' next
      else ret tt
    end
  end.

Fixpoint check_affected (assets : list Z) : DB unit :=
  match assets with
  | [] => ret tt
  | a :: assets' => do! check_call_orders a true false in check_affected assets'
  end.

(** [database::update_expired_feeds] *)
Definition update_expired_feeds : DB unit :=
  let! head_time := head_block_time in
  let! first := gets (λ s, fst <$> head (feed_expiration_index s)) in
  let! fuel := gets (λ s, S (2 * size (d_bitassets s))) in
  do! update_feeds fuel first in
  if HARDFORK_615_TIME <=? head_time then ret tt
  else
    let! affected := gets (λ s, merge_sort (λ a b, Is_true (a <=? b))
                                  (elements (d_issue_453_affected_assets s))) in
    check_affected affected.

(** The objects of the index [by_cer_update] that need an update; the code
    takes the last, whose position among its equals is that of its insertion,
    here the one with the largest identifier. *)
Definition next_cer_update (s : database) : option Z :=
  find_first (λ x, need_to_update_cer x.2)
    (sorted_by (λ a b, b.1 <? a.1) (map_to_list (d_bitassets s))).

Fixpoint update_cers (fuel : nat) : DB unit :=
  match fuel with
  | O => fail OutOfFuel
  | S fuel' =>
    let! next := gets next_cer_update in
    match next with
    | None => ret tt
    | Some id =>
      let! b := get_bitasset id in
      do! copy_cer b in
      do! modify_bitasset id (λ b, Ok (clear_cer_flags b)) in
      update_cers fuel'
    end
  end.

(** [database::update_core_exchange_rates] *)
Definition update_core_exchange_rates : DB unit :=
  let! fuel := gets (λ s, S (size (d_bitassets s))) in
  update_cers fuel.

(** ** Permissions to withdraw that expire *)

Fixpoint expire_permissions (fuel : nat) : DB unit :=
  match fuel with
  | O => fail OutOfFuel
  | S fuel' =>
    let! now := head_block_time in
    let! permits := gets d_withdraw_permissions in
    match first_by wp_expiration permits with
    | Some (id, p) =>
      if wp_expiration p <=? now then do! remove_withdraw_permission id in expire_permissions fuel' else ret tt
    | None => ret tt
    end
  end.

(** [database::update_withdraw_permissions] *)
Definition update_withdraw_permissions : DB unit :=
  λ s, expire_permissions (S (size (d_withdraw_permissions s))) s.
End update.
