(* ===== verification/Transactions.v ===== *)
(** * Applying operations and proposals

    [database::apply_operation] and [database::push_proposal] of
    chain/db_block.cpp: the dispatch to the registered evaluator (chain/db_init.cpp,
    [initialize_evaluators]), and the execution of the operations of an approved
    proposal, which the update of a proposal calls and which applies operations in
    turn. *)

From S2P Require Import Prelude Ext Config Asset Objects Parameters Governance Blocks Names Operations Validation Fees Ledger Authority Database Balance Market Evaluator MarketEval AssetEval BitassetEval TransferEval GovernanceEval AccountEval ContractEval ConfidentialEval ProposalEval WithdrawEval.

Section chain.
Context {X : Ext} {P : Packing} {N : NthElement} {K : KeyAddresses} {C : ContractMachine}.

(** The registered evaluator of an operation; virtual operations and the transfer
    of an account have none. *)
Definition evaluate_operation (push_proposal : Z → DB unit) (ts : trx_state) (op : operation) : DB operation_result :=
  match op with
  | op_transfer o => start_evaluate ts o
  | op_limit_order_create o => start_evaluate ts o
  | op_limit_order_cancel o => start_evaluate ts o
  | op_call_order_update o => start_evaluate ts o
  | op_asset_create o => start_evaluate ts o
  | op_asset_update o => start_evaluate ts o
  | op_asset_update_bitasset o => start_evaluate ts o
  | op_asset_update_feed_producers o => start_evaluate ts o
  | op_asset_issue o => start_evaluate ts o
  | op_asset_reserve o => start_evaluate ts o
  | op_asset_fund_fee_pool o => start_evaluate ts o
  | op_asset_settle o => start_evaluate ts o
  | op_asset_global_settle o => start_evaluate ts o
  | op_asset_publish_feed o => start_evaluate ts o
  | op_vesting_balance_create o => start_evaluate ts o
  | op_vesting_balance_withdraw o => start_evaluate ts o
  | op_override_transfer o => start_evaluate ts o
  | op_asset_claim_fees o => start_evaluate ts o
  | op_bid_collateral o => start_evaluate ts o
  | op_pio o => start_evaluate ts o
  | op_send_message o => start_evaluate ts o
  | op_asset_claim_pool o => start_evaluate ts o
  | op_asset_update_issuer o => start_evaluate ts o
  | op_account_whitelist o => start_evaluate ts o
  | op_account_upgrade o => start_evaluate ts o
  | op_witness_create o => start_evaluate ts o
  | op_witness_update o => start_evaluate ts o
  | op_withdraw_permission_create o => start_evaluate ts o
  | op_withdraw_permission_update o => start_evaluate ts o
  | op_withdraw_permission_claim o => start_evaluate ts o
  | op_withdraw_permission_delete o => start_evaluate ts o
  | op_committee_member_create o => start_evaluate ts o
  | op_committee_member_update o => start_evaluate ts o
  | op_committee_member_update_global_parameters o => start_evaluate ts o
  | op_worker_create o => start_evaluate ts o
  | op_balance_claim o => start_evaluate ts o
  | op_account_create o => start_evaluate ts o
  | op_account_update o => start_evaluate ts o
  | op_proposal_create o => start_evaluate ts o
  | op_proposal_update o => start_evaluate (Ev := proposal_update_evaluator push_proposal) ts o
  | op_proposal_delete o => start_evaluate ts o
  | op_custom o => start_evaluate ts o
  | op_assert o => start_evaluate ts o
  | op_transfer_to_blind o => start_evaluate ts o
  | op_blind_transfer o => start_evaluate ts o
  | op_transfer_from_blind o => start_evaluate ts o
  | op_smart_contract_deploy o => start_evaluate ts o
  | op_smart_contract_activate o => start_evaluate ts o
  | op_smart_contract_deactivate o => start_evaluate ts o
  | op_smart_contract_kill o => start_evaluate ts o
  | op_smart_contract_call o => start_evaluate ts o
  | op_fill_order _ | op_asset_settle_cancel _ | op_execute_bid _ | op_fba_distribute _
  | op_account_transfer _ => fail AssertFailure
  end.

(** [database::apply_operation] *)
Definition apply_operation (push_proposal : Z → DB unit) (ts : trx_state) (op : operation) : DB operation_result :=
  do! push_applied_operation op in
  evaluate_operation push_proposal ts op.

(** ** Proposals *)

(** The evaluation state of the operations of a proposal. *)
Definition proposal_context (skip_assert : bool) : trx_state := mk_trx_state false false true skip_assert.

(** The loop over the operations of a proposal. The loop refers to the proposal,
    which must outlive every operation. *)
Definition apply_proposed (push_proposal : Z → DB unit) (skip_assert : bool) (id : Z) : list operation → DB unit :=
  for_each (λ op,
    do! apply_operation push_proposal (proposal_context skip_assert) op in
    let! proposals := gets d_proposals in
    if bool_decide (is_Some (proposals !! id)) then ret tt else fail Undefined).

(** [database::push_proposal]; [depth] is [_push_proposal_nesting_depth]. An
    exception carries no state: the caller that catches it goes on from the state
    the undo session restores. *)
Fixpoint push_proposal (fuel : nat) (skip_assert : bool) (depth : Z) (id : Z) : DB unit :=
  match fuel with
  | O => fail OutOfFuel
  | S fuel' =>
    let! proposal := get_proposal id in
    let! witnesses := get_gov gv_active_witnesses in
    require! depth <? Z.of_nat (size witnesses) * 2 in
    do! apply_proposed (push_proposal fuel' skip_assert (depth + 1)) skip_assert id
          (trx_operations (po_proposed_transaction proposal)) in
    remove_proposal id
  end.

(** Proposals nest no deeper than twice the number of witnesses, so that many
    passes are enough. *)
Definition nesting_fuel (s : database) : nat :=
  S (Z.to_nat (Z.of_nat (size (gv_active_witnesses (d_governance s))) * 2)).
Definition push (skip_assert : bool) (id : Z) : DB unit :=
  λ s, push_proposal (nesting_fuel s) skip_assert 0 id s.
End chain.

(** * Applying a transaction

    [database::_apply_transaction] of chain/db_block.cpp with the signatures of
    protocol/transaction.cpp, and the expiry of transactions and proposals of
    chain/db_update.cpp. Hashing a transaction and recovering the key of a
    signature are functions of the cryptography library: class
    [TransactionCrypto]. *)

(** [transaction::id], the truncated [digest], and [public_key( sig, sig_digest )],
    which throws for a malformed signature; the chain id is fixed *)
Class TransactionCrypto := {
  trx_digest_id : transaction → Z;
  recover_key : transaction → Z → res Z;
}.

(** The [validation_steps] that a transaction may skip *)
Record skip_steps := mk_skip_steps {
  skip_transaction_signatures : bool;
  skip_transaction_dupe_check : bool;
  skip_tapos_check : bool;
  skip_authority_check : bool;
  skip_assert : bool;
}.
Definition skip_nothing : skip_steps := mk_skip_steps false false false false false.

Section transactions.
Context {X : Ext} {P : Packing} {N : NthElement} {K : KeyAddresses} {C : ContractMachine} {T : TransactionCrypto}.

(** [signed_transaction::get_signature_keys] *)
Fixpoint signature_keys (trx : transaction) (sigs : list Z) (result : gset Z) : res (gset Z) :=
  match sigs with
  | [] => Ok result
  | sig :: sigs' =>
    let? k := recover_key trx sig in
    if bool_decide (k ∈ result) then Err DuplicateSignature
    else signature_keys trx sigs' ({[ k ]} ∪ result)
  end.
Definition get_signature_keys (trx : signed_transaction) : res (gset Z) :=
  signature_keys (stx_transaction trx) (stx_signatures trx) ∅.

(** [signed_transaction::verify_authority] with the authorities of the accounts *)
Definition check_signatures (trx : signed_transaction) : DB unit :=
  λ s, lift (let? keys := get_signature_keys trx in
             verify_authority (authority_of ac_active s) (authority_of ac_owner s)
               (trx_operations (stx_transaction trx)) keys
               (cp_max_authority_depth (d_parameters s)) false ∅ ∅) s.

(** [block_id._hash[1]] *)
Definition id_prefix (id : block_id) : Z := u32 (id_hash id).

(** TaPoS and expiration, once there is a block *)
Definition check_reference (skip : skip_steps) (head_block_num : Z) (trx : transaction) : DB unit :=
  if 0 <? head_block_num then
    do! (if skip_tapos_check skip then ret tt
         else let! block := get_block_summary (trx_ref_block_num trx) in
              require! trx_ref_block_prefix trx =? id_prefix block in ret tt) in
    let! now := head_block_time in
    let! params := global_parameters in
    require! trx_expiration trx <=? time_add now (cp_maximum_time_until_expiration params) in
    require! now <=? trx_expiration trx in
    ret tt
  else ret tt.

(** The operations of a transaction, in order, with their results *)
Fixpoint apply_operations (ts : trx_state) (ops : list operation) : DB (list operation_result) :=
  match ops with
  | [] => ret []
  | op :: ops' =>
    let! r := apply_operation (push (skip_assert_evaluation ts)) ts op in
    let! rs := apply_operations ts ops' in
    ret (r :: rs)
  end.

(** Until a hard fork the temporary account is empty after a transaction. *)
Definition temp_account_empty (s : database) : bool :=
  forallb (λ x, negb (fst x.1 =? GRAPHENE_TEMP_ACCOUNT) || (ab_balance x.2 =? 0)) (map_to_list (d_balances s)).

(** [database::_apply_transaction] *)
Definition apply_transaction (skip : skip_steps) (head_block_num : Z) (trx : signed_transaction)
    : DB (list operation_result) :=
  let ops := trx_operations (stx_transaction trx) in
  let trx_id := trx_digest_id (stx_transaction trx) in
  do! lift (transaction_validate ops) in
  let! known := gets d_transactions in
  require! skip_transaction_dupe_check skip || fresh_key to_trx_id (mk_transaction_object trx trx_id) known in
  do! (if skip_transaction_signatures skip || skip_authority_check skip then ret tt
       else check_signatures trx) in
  do! check_reference skip head_block_num (stx_transaction trx) in
  do! (if skip_transaction_dupe_check skip then ret tt
       else do! create_transaction (mk_transaction_object trx trx_id) in ret tt) in
  let! results := apply_operations (mk_trx_state false false false (skip_assert skip)) ops in
  let! now := head_block_time in
  let! empty := gets temp_account_empty in
  require! negb (now <? HARDFORK_CORE_1040_TIME) || empty in
  ret results.

(** ** What expires *)

(** [clear_expired_transactions]; transactions that expire together are removed
    in the order of their identifiers here. *)
Fixpoint clear_transactions (fuel : nat) : DB unit :=
  match fuel with
  | O => fail OutOfFuel
  | S fuel' =>
    let! now := head_block_time in
    let! transactions := gets d_transactions in
    match first_by to_get_expiration transactions with
    | Some (id, t) =>
      if to_get_expiration t <? now then do! remove_transaction id in clear_transactions fuel' else ret tt
    | None => ret tt
    end
  end.
Definition clear_expired_transactions : DB unit :=
  λ s, clear_transactions (S (size (d_transactions s))) s.

(** One pass of [clear_expired_proposals]: the exception of the execution is
    caught, and the proposal removed. *)
Definition expire_proposal (skip_assert : bool) (id : Z) (p : proposal_object) : DB unit :=
  let! authorized := is_authorized_to_execute p in
  if authorized then
    λ s, match push skip_assert id s with
         | Ok r => Ok r
         | Err e => if is_fc_exception e then remove_proposal id s else Err e
         end
  else remove_proposal id.

Fixpoint clear_proposals (fuel : nat) (skip_assert : bool) : DB unit :=
  match fuel with
  | O => fail OutOfFuel
  | S fuel' =>
    let! now := head_block_time in
    let! proposals := gets d_proposals in
    match first_by po_expiration_time proposals with
    | Some (id, p) =>
      if po_expiration_time p <=? now then
        do! expire_proposal skip_assert id p in clear_proposals fuel' skip_assert
      else ret tt
    | None => ret tt
    end
  end.
(** [clear_expired_proposals] *)
Definition clear_expired_proposals (skip_assert : bool) : DB unit :=
  λ s, clear_proposals (S (size (d_proposals s))) skip_assert s.

(** [create_block_summary] *)
Definition create_block_summary (id : block_id) (block_num : Z) : DB unit :=
  modify_block_summary (Z.land block_num 65535) (λ _, Ok id).
End transactions.
