(* ===== verification/SignedBlocks.v ===== *)
(** * Signed blocks and the root of their transactions

    Models protocol/block.cpp and protocol/block.hpp: a block with its
    transactions, and the Merkle root of the header, which the code computes in
    place, one level of the tree after the other. The hashes are functions of the
    cryptography library: class [MerkleHash]. *)

From S2P Require Import Prelude Blocks Ledger Evaluator.

(** [processed_transaction] *)
Record processed_transaction := mk_processed_transaction {
  ptx_transaction :> signed_transaction;
  ptx_operation_results : list operation_result;
}.

(** [signed_block] *)
Record signed_block := mk_signed_block {
  sb_header :> block_header;
  sb_transactions : list processed_transaction;
}.

(** [processed_transaction::merkle_digest], the digest of two digests, and the
    checksum of a digest *)
Class MerkleHash := {
  merkle_digest : processed_transaction → Z;
  pair_hash : Z → Z → Z;
  checksum : Z → Z;
}.

Section merkle.
Context {H : MerkleHash}.

(** [ids[i]] *)
Definition at_index (ids : list Z) (i : nat) : res Z := of_option Undefined (ids !! i).

(** "hash ID's in pairs": the entries [2 * k] and [2 * k + 1] go to entry [k]. *)
Fixpoint hash_pairs (ks : list nat) (ids : list Z) : res (list Z) :=
  match ks with
  | [] => Ok ids
  | k :: ks =>
    let? a := at_index ids (2 * k) in
    let? b := at_index ids (2 * k + 1) in
    hash_pairs ks (<[k := pair_hash a b]> ids)
  end.

(** One pass of the loop over the first [n] entries: the number of entries it
    leaves, and the vector. *)
Definition hash_level (n : nat) (ids : list Z) : res (nat * list Z) :=
  let i_max := (n - n mod 2)%nat in
  let k := (i_max / 2)%nat in
  let? ids := hash_pairs (seq 0 k) ids in
  if (n mod 2 =? 0)%nat then Ok (k, ids)
  else let? last := at_index ids i_max in Ok (S k, <[k := last]> ids).

Fixpoint hash_levels (fuel n : nat) (ids : list Z) : res (list Z) :=
  if (n <=? 1)%nat then Ok ids
  else match fuel with
       | O => Err OutOfFuel
       | S fuel => let? r := hash_level n ids in hash_levels fuel (fst r) (snd r)
       end.

(** [signed_block::calculate_merkle_root]; every pass halves the number of
    hashes, so that their number is fuel enough. *)
Definition calculate_merkle_root (transactions : list processed_transaction) : res Z :=
  match transactions with
  | [] => Ok 0
  | _ =>
    let ids := map merkle_digest transactions in
    let? ids := hash_levels (length ids) (length ids) ids in
    let? root := at_index ids 0 in
    Ok (checksum root)
  end.
End merkle.
