(* ===== verification/WitnessSchedule.v ===== *)
(** * Block slots and the witness schedule

    Models db_witness_schedule.cpp, the functions of db_update.cpp that keep the
    dynamic global properties of the chain, and the validation of a block header
    (db_block.cpp). *)

From S2P Require Import Prelude Ext Config Blocks.

(** ** State *)

(** [dynamic_global_property_object]: the members of the schedule *)
Record dynamic_global_property_object := mk_dgp {
  head_block_number : Z;
  head_block_id : block_id;
  dgp_time : Z;
  current_witness : Z;
  recently_missed_count : Z;
  current_aslot : Z;
  recent_slots_filled : Z;
  dynamic_flags : Z;
  last_irreversible_block_num : Z;
}.

(** [global_property_object], with the two parameters the slots depend on.
    [active_witnesses] is a [flat_set]: its elements in order. *)
Record global_property_object := mk_gpo {
  block_interval : Z;
  maintenance_skip_slots : Z;
  active_witnesses : list Z;
}.

(** [witness_object]: what the schedule keeps of a witness *)
Record witness_counters := mk_witness_counters {
  total_missed : Z;
  last_aslot : Z;
  last_confirmed_block_num : Z;
}.

Record schedule_db := mk_schedule_db {
  dgp : dynamic_global_property_object;
  gpo : global_property_object;
  current_shuffled_witnesses : list Z;
  witnesses : gmap Z witness_counters;
  undo_max_size : Z;
  fork_max_size : Z;
}.

Definition set_dgp (v : dynamic_global_property_object) (d : schedule_db) : schedule_db :=
  mk_schedule_db v (gpo d) (current_shuffled_witnesses d) (witnesses d) (undo_max_size d) (fork_max_size d).
Definition set_shuffled (v : list Z) (d : schedule_db) : schedule_db :=
  mk_schedule_db (dgp d) (gpo d) v (witnesses d) (undo_max_size d) (fork_max_size d).
Definition set_witnesses (v : gmap Z witness_counters) (d : schedule_db) : schedule_db :=
  mk_schedule_db (dgp d) (gpo d) (current_shuffled_witnesses d) v (undo_max_size d) (fork_max_size d).
Definition set_max_sizes (v : Z) (d : schedule_db) : schedule_db :=
  mk_schedule_db (dgp d) (gpo d) (current_shuffled_witnesses d) (witnesses d) v v.

Definition set_last_irreversible (v : Z) (g : dynamic_global_property_object) : dynamic_global_property_object :=
  mk_dgp (head_block_number g) (head_block_id g) (dgp_time g) (current_witness g) (recently_missed_count g)
    (current_aslot g) (recent_slots_filled g) (dynamic_flags g) v.
Definition set_dynamic_flags (v : Z) (g : dynamic_global_property_object) : dynamic_global_property_object :=
  mk_dgp (head_block_number g) (head_block_id g) (dgp_time g) (current_witness g) (recently_missed_count g)
    (current_aslot g) (recent_slots_filled g) v (last_irreversible_block_num g).

(** ** Slots *)
Section slots.
Context {X : Ext}.

(** [database::get_slot_time]; [block_interval] is at least one
    ([chain_parameters::validate]). *)
Definition maintenance_flag : Z := 1.
Definition get_slot_time (d : schedule_db) (slot_num : Z) : Z :=
  if slot_num =? 0 then 0
  else
    let interval := block_interval (gpo d) in
    if head_block_number (dgp d) =? 0 then time_add (dgp_time (dgp d)) (u32 (slot_num * interval))
    else
      let head_block_abs_slot := dgp_time (dgp d) / interval in
      let head_slot_time := u32 (head_block_abs_slot * interval) in
      let slot_num :=
        if Z.land (dynamic_flags (dgp d)) maintenance_flag =? 0 then slot_num
        else u32 (slot_num + maintenance_skip_slots (gpo d)) in
      time_add head_slot_time (u32 (slot_num * interval)).

(** [database::get_slot_at_time] *)
Definition get_slot_at_time (d : schedule_db) (when : Z) : Z :=
  let first_slot_time := get_slot_time d 1 in
  if when <? first_slot_time then 0
  else u32 ((when - first_slot_time) / block_interval (gpo d) + 1).

(** [database::get_scheduled_witness] *)
Definition get_scheduled_witness (d : schedule_db) (slot_num : Z) : res Z :=
  let aslot := u64 (current_aslot (dgp d) + slot_num) in
  let shuffled := current_shuffled_witnesses d in
  of_option Undefined (shuffled !! Z.to_nat (aslot mod Z.of_nat (length shuffled))).

(** [database::update_witness_missed_blocks] *)
Definition miss_block (w : witness_counters) : witness_counters :=
  mk_witness_counters (total_missed w + 1) (last_aslot w) (last_confirmed_block_num w).
Definition modify_witness (w : Z) (f : witness_counters → witness_counters) : M schedule_db unit :=
  λ d, match witnesses d !! w with
       | Some o => Ok (tt, set_witnesses (<[w := f o]> (witnesses d)) d)
       | None => Err NotFound
       end.
Fixpoint miss_slots (slots : list Z) : M schedule_db unit :=
  match slots with
  | [] => ret tt
  | i :: slots =>
    let! d := gets id in
    let! w := lift (get_scheduled_witness d (i + 1)) in
    do! modify_witness w miss_block in
    miss_slots slots
  end.
Definition update_witness_missed_blocks (b : block_header) : M schedule_db Z :=
  let! d := gets id in
  let missed_blocks := get_slot_at_time d (bh_timestamp b) in
  require! negb (missed_blocks =? 0) in
  let missed_blocks := missed_blocks - 1 in
  do! (if missed_blocks <? Z.of_nat (length (current_shuffled_witnesses d))
       then miss_slots (seqZ 0 missed_blocks) else ret tt) in
  ret missed_blocks.

(** [database::witness_participation_rate]; the percentage of the last 128
    slots that were filled. *)
Definition popcount (x : Z) : Z := Z.of_nat (length (List.filter (Z.testbit x) (seqZ 0 128))).
Definition witness_participation_rate (d : schedule_db) : Z :=
  u32 (GRAPHENE_100_PERCENT * popcount (recent_slots_filled (dgp d)) / 128).

(** ** The shuffled schedule *)

(** The generator of [update_witness_schedule]. *)
Definition xorshift (now_hi i : Z) : Z :=
  let k := u64 (now_hi + u64 (i * 2685821657736338717)) in
  let k := Z.lxor k (Z.shiftr k 12) in
  let k := Z.lxor k (u64 (Z.shiftl k 25)) in
  let k := Z.lxor k (Z.shiftr k 27) in
  u64 (k * 2685821657736338717).

(** [std::swap( v[i], v[j] )]; an index out of range is undefined. *)
Definition swap {A} (i j : nat) (l : list A) : res (list A) :=
  match l !! i, l !! j with
  | Some x, Some y => Ok (<[j := x]> (<[i := y]> l))
  | _, _ => Err Undefined
  end.

(** The loop, from index [i] on. *)
Fixpoint shuffle_loop (now_hi : Z) (indices : list nat) (l : list Z) : res (list Z) :=
  match indices with
  | [] => Ok l
  | i :: indices =>
    let k := xorshift now_hi (Z.of_nat i) in
    let jmax := u32 (Z.of_nat (length l) - Z.of_nat i) in
    let j := u32 (Z.of_nat i + k mod jmax) in
    let? l := swap i (Z.to_nat j) l in
    shuffle_loop now_hi indices l
  end.
Definition shuffle (now_hi : Z) (l : list Z) : res (list Z) :=
  shuffle_loop now_hi (seq 0 (length l)) l.

(** [database::update_witness_schedule]; the remainder of a division by zero is
    undefined. *)
Definition update_witness_schedule : M schedule_db unit :=
  let! d := gets id in
  let active := active_witnesses (gpo d) in
  if bool_decide (active = []) then fail Undefined
  else if head_block_number (dgp d) mod Z.of_nat (length active) =? 0 then
    let now_hi := u64 (Z.shiftl (dgp_time (dgp d)) 32) in
    let! shuffled := lift (shuffle now_hi active) in
    put (set_shuffled shuffled)
  else ret tt.

(** ** The dynamic global properties *)

(** [database::update_global_dynamic_data]; [last_checkpoint] is the greatest
    block number with a checkpoint. *)
Definition update_global_dynamic_data `{BlockHash} (last_checkpoint : option Z) (skip_undo_history_check : bool)
    (b : block_header) (missed_blocks : Z) : M schedule_db unit := λ d,
  let g := dgp d in
  let num := block_num b in
  let recently_missed :=
    if num =? 1 then 0
    else if from_option (λ c, num <=? c) false last_checkpoint then 0
    else if negb (missed_blocks =? 0) then
      u32 (recently_missed_count g + u32 (GRAPHENE_RECENTLY_MISSED_COUNT_INCREMENT * missed_blocks))
    else if GRAPHENE_RECENTLY_MISSED_COUNT_INCREMENT <? recently_missed_count g then
      recently_missed_count g - GRAPHENE_RECENTLY_MISSED_COUNT_DECREMENT
    else if 0 <? recently_missed_count g then recently_missed_count g - 1
    else recently_missed_count g in
  let g' := mk_dgp num (header_id b) (bh_timestamp b) (bh_witness b) recently_missed
    (u64 (current_aslot g + u32 (missed_blocks + 1)))
    (fc_u128 (Z.shiftl (fc_u128 (fc_u128 (Z.shiftl (recent_slots_filled g) 1) + 1)) missed_blocks))
    (dynamic_flags g) (last_irreversible_block_num g) in
  let depth := u32 (num - last_irreversible_block_num g) in
  if skip_undo_history_check || (depth <? GRAPHENE_MAX_UNDO_HISTORY) then
    Ok (tt, set_max_sizes (u32 (depth + 1)) (set_dgp g' d))
  else Err AssertFailure.

(** [database::update_signing_witness]: the record of the block; the pay is
    [deposit_witness_pay] of Balance.v. *)
Definition update_signing_witness (signing_witness : Z) (b : block_header) : M schedule_db unit :=
  let! d := gets id in
  let new_block_aslot := u64 (current_aslot (dgp d) + get_slot_at_time d (bh_timestamp b)) in
  modify_witness signing_witness (λ w, mk_witness_counters (total_missed w) new_block_aslot (block_num b)).

(** [database::update_last_irreversible_block] *)
Fixpoint get_witnesses (ids : list Z) (d : schedule_db) : res (list witness_counters) :=
  match ids with
  | [] => Ok []
  | wid :: ids =>
    let? w := of_option NotFound (witnesses d !! wid) in
    let? l := get_witnesses ids d in
    Ok (w :: l)
  end.
Definition confirmed_before (a b : witness_counters) : bool :=
  last_confirmed_block_num a <? last_confirmed_block_num b.
Definition irreversible_offset (n : nat) : nat :=
  Z.to_nat ((GRAPHENE_100_PERCENT - GRAPHENE_IRREVERSIBLE_THRESHOLD) * Z.of_nat n / GRAPHENE_100_PERCENT).
Definition update_last_irreversible_block `{NthElement} : M schedule_db unit :=
  let! d := gets id in
  let! wit_objs := lift (get_witnesses (active_witnesses (gpo d)) d) in
  let offset := irreversible_offset (length wit_objs) in
  let! nth := lift (of_option Undefined (nth_element confirmed_before offset wit_objs !! offset)) in
  let new_last_irreversible_block_num := last_confirmed_block_num nth in
  if last_irreversible_block_num (dgp d) <? new_last_irreversible_block_num
  then put (λ d, set_dgp (set_last_irreversible new_last_irreversible_block_num (dgp d)) d)
  else ret tt.

(** [database::update_maintenance_flag] *)
Definition update_maintenance_flag (new_maintenance_flag : bool) : M schedule_db unit :=
  put (λ d, set_dgp (set_dynamic_flags
    (Z.lor (Z.land (dynamic_flags (dgp d)) (Z.lxor (2 ^ 32 - 1) maintenance_flag))
           (if new_maintenance_flag then maintenance_flag else 0)) (dgp d)) d).

(** ** The header of a block *)

(** [database::validate_block_header]; [validate_signee] is the check of the
    signature with the key of the witness. *)
Definition validate_block_header (skip_witness_signature skip_witness_schedule_check : bool)
    (validate_signee : Z → block_header → bool) (next_block : block_header) : M schedule_db Z :=
  let! d := gets id in
  require! bool_decide (head_block_id (dgp d) = bh_previous next_block) in
  require! (dgp_time (dgp d) <? bh_timestamp next_block) in
  do! lift (of_option NotFound (witnesses d !! bh_witness next_block)) in
  require! (skip_witness_signature || validate_signee (bh_witness next_block) next_block) in
  if skip_witness_schedule_check then ret (bh_witness next_block)
  else
    let slot_num := get_slot_at_time d (bh_timestamp next_block) in
    require! (0 <? slot_num) in
    let! scheduled_witness := lift (get_scheduled_witness d slot_num) in
    require! (bh_witness next_block =? scheduled_witness) in
    ret (bh_witness next_block).
End slots.
