(* ===== verification/ApplyBlock.v ===== *)
(** * Applying a block

    [database::apply_block] and [_apply_block] of chain/db_block.cpp: the
    transactions, the schedule, the maintenance and what expires, in the order of
    the code, on a state that joins the objects of Database.v and the schedule of
    WitnessSchedule.v. Recovering the key of a block's signature is a function of
    the cryptography library: class [BlockSigner]. *)

From S2P Require Import Prelude Ext Config Asset Objects Parameters Governance Blocks Names Operations Validation Fees Ledger Authority Database Balance Evaluator ContractEval ProposalEval Maintenance Update Transactions SignedBlocks WitnessSchedule.

(** ** State *)

(** The state of the chain between two blocks. The time of the head block is that
    of [c_db]; [c_counters] holds what the schedule counts of the witnesses that
    did produce or miss a block. *)
Record chain := mk_chain {
  c_db : database;
  c_dgp : dynamic_global_property_object;
  c_shuffled : list Z;
  c_counters : gmap Z witness_counters;
  c_undo_max_size : Z;
  c_fork_max_size : Z;
}.

Definition set_c_db (s : database) (c : chain) : chain :=
  mk_chain s (c_dgp c) (c_shuffled c) (c_counters c) (c_undo_max_size c) (c_fork_max_size c).

(** The counters of a new [witness_object] *)
Definition new_counters : witness_counters := mk_witness_counters 0 0 0.
Definition counters_of (c : chain) : gmap Z witness_counters :=
  map_imap (λ w _, Some (default new_counters (c_counters c !! w))) (d_witnesses (c_db c)).

(** The objects the schedule reads. *)
Definition schedule_of (c : chain) : schedule_db :=
  let g := c_dgp c in
  let params := d_parameters (c_db c) in
  mk_schedule_db
    (mk_dgp (head_block_number g) (head_block_id g) (d_head_block_time (c_db c)) (current_witness g)
       (recently_missed_count g) (current_aslot g) (recent_slots_filled g) (dynamic_flags g)
       (last_irreversible_block_num g))
    (mk_gpo (cp_block_interval params) (cp_maintenance_skip_slots params)
       (in_order (gv_active_witnesses (d_governance (c_db c)))))
    (c_shuffled c) (counters_of c) (c_undo_max_size c) (c_fork_max_size c).
Definition put_schedule (d : schedule_db) (c : chain) : chain :=
  mk_chain (set_d_head_block_time (dgp_time (dgp d)) (c_db c)) (dgp d) (current_shuffled_witnesses d)
    (witnesses d) (undo_max_size d) (fork_max_size d).

Definition on_schedule {A} (m : M schedule_db A) : M chain A :=
  λ c, let? r := m (schedule_of c) in Ok (fst r, put_schedule (snd r) c).
Definition on_db {A} (m : DB A) : M chain A :=
  λ c, let? r := m (c_db c) in Ok (fst r, set_c_db (snd r) c).

(** ** The flags of [validation_steps] *)

Definition skip_witness_signature (skip : Z) : bool := Z.testbit skip 0.
Definition skip_merkle_check (skip : Z) : bool := Z.testbit skip 7.
Definition skip_undo_history_check (skip : Z) : bool := Z.testbit skip 9.
Definition skip_witness_schedule_check (skip : Z) : bool := Z.testbit skip 10.
Definition transaction_steps (skip : Z) : skip_steps :=
  mk_skip_steps (Z.testbit skip 1) (Z.testbit skip 2) (Z.testbit skip 5) (Z.testbit skip 6) (Z.testbit skip 8).

(** [signed_block_header::signee], which throws when the signature is malformed *)
Class BlockSigner := signee : block_header → option Z.

Section apply_block.
Context {X : Ext} {P : Packing} {N : NthElement} {K : KeyAddresses} {C : ContractMachine} {T : TransactionCrypto}.
Context {B : BlockHash} {H : MerkleHash} {G : BlockSigner}.

(** [validate_signee] with the key of the witness *)
Definition signed_by_witness (s : database) (w : Z) (b : block_header) : bool :=
  match d_witnesses s !! w, signee b with
  | Some o, Some key => key =? wit_signing_key o
  | _, _ => false
  end.

(** ** The steps of a block *)

Definition check_merkle_root (skip : Z) (b : signed_block) : res unit :=
  if skip_merkle_check skip then Ok tt
  else let? root := calculate_merkle_root (sb_transactions b) in
       require? bh_transaction_merkle_root b =? root in Ok tt.

(** The loop over the transactions; the results are not compared with those the
    block carries. *)
Fixpoint apply_transactions (skip : skip_steps) (head_block_num : Z) (trxs : list processed_transaction) : DB unit :=
  match trxs with
  | [] => ret tt
  | trx :: trxs =>
    do! apply_transaction skip head_block_num trx in
    apply_transactions skip head_block_num trxs
  end.

(** The pay in [update_signing_witness]. *)
Definition pay_signing_witness (w : Z) : DB unit :=
  let! params := global_parameters in
  let! budget := gets d_witness_budget in
  let witness_pay := Z.min (cp_witness_pay_per_block params) budget in
  let! rest := lift (safe (budget - witness_pay)) in
  do! put (set_d_witness_budget rest) in
  deposit_witness_pay w witness_pay.

(** What expires, after the maintenance. *)
Definition expire (skip_assert : bool) (b : block_header) : DB unit :=
  do! create_block_summary (header_id b) (block_num b) in
  do! clear_expired_transactions in
  do! clear_expired_proposals skip_assert in
  do! clear_expired_orders in
  do! update_expired_feeds in
  do! update_core_exchange_rates in
  update_withdraw_permissions.

(** The block becomes the head of the chain. *)
Definition record_block (checkpoint : option Z) (skip : Z) (b : block_header) : M chain unit :=
  let! missed := on_schedule (update_witness_missed_blocks b) in
  on_schedule (update_global_dynamic_data checkpoint (skip_undo_history_check skip) b missed).

(** [database::_apply_block] up to [update_global_dynamic_data]: the witness that
    signed the block, and whether the maintenance is due. [checkpoint] is the number
    of the last checkpoint. *)
Definition begin_block (checkpoint : option Z) (skip : Z) (b : signed_block) : M chain (Z * bool) :=
  do! on_db (put (set_d_applied_ops [])) in
  do! lift (check_merkle_root skip b) in
  let! s := gets c_db in
  let! signing_witness := on_schedule
    (validate_block_header (skip_witness_signature skip) (skip_witness_schedule_check skip) (signed_by_witness s) b) in
  let maint_needed := d_next_maintenance_time s <=? bh_timestamp b in
  do! on_db (put (set_d_issue_453_affected_assets ∅)) in
  let! head_num := gets (λ c, head_block_number (c_dgp c)) in
  do! on_db (apply_transactions (transaction_steps skip) head_num (sb_transactions b)) in
  do! record_block checkpoint skip b in
  ret (signing_witness, maint_needed).

(** The rest of [_apply_block]; debug updates and the notification of observers
    are left out. *)
Definition finish_block (skip : Z) (b : signed_block) (signing_witness : Z) (maint_needed : bool) : M chain unit :=
  do! on_db (pay_signing_witness signing_witness) in
  do! on_schedule (update_signing_witness signing_witness b) in
  do! on_schedule update_last_irreversible_block in
  do! (if maint_needed then on_db (perform_chain_maintenance (bh_timestamp b) (block_num b)) else ret tt) in
  do! on_db (expire (skip_assert (transaction_steps skip)) b) in
  do! on_schedule (update_maintenance_flag maint_needed) in
  do! on_schedule update_witness_schedule in
  on_db (put (set_d_applied_ops [])).

Definition apply_block_body (checkpoint : option Z) (skip : Z) (b : signed_block) : M chain unit :=
  let! r := begin_block checkpoint skip b in
  finish_block skip b (fst r) (snd r).

(** [database::apply_block]: a block at a checkpoint is that of the checkpoint,
    and almost nothing is checked up to the last one. *)
Definition skip_everything : Z := 2 ^ 32 - 1.
Definition checkpoint_flags (checkpoints : gmap Z block_id) (skip : Z) (b : block_header) : res (option Z * Z) :=
  match last (by_id checkpoints) with
  | Some (n, id) =>
    if bool_decide (id = null_id) then Ok (Some n, skip)
    else
      require? from_option (λ id, bool_decide (header_id b = id)) true (checkpoints !! block_num b) in
      Ok (Some n, if block_num b <=? n then skip_everything else skip)
  | None => Ok (None, skip)
  end.
Definition apply_block (checkpoints : gmap Z block_id) (skip : Z) (b : signed_block) : M chain unit :=
  let! p := lift (checkpoint_flags checkpoints skip b) in
  apply_block_body (fst p) (snd p) b.

(** The size [update_global_dynamic_data] gives to the undo and the fork database,
    which no exception takes back, when the block gets that far. *)
Definition block_window (checkpoints : gmap Z block_id) (skip : Z) (b : signed_block) (c : chain) : option Z :=
  match bind (lift (checkpoint_flags checkpoints skip b)) (λ p, begin_block (fst p) (snd p) b) c with
  | Ok (_, c') => Some (c_undo_max_size c')
  | Err _ => None
  end.
End apply_block.
