(* ===== verification/Genesis.v ===== *)
(** * The state of genesis

    [database::init_genesis] of chain/db_init.cpp and the genesis state it reads
    (chain/genesis_state.hpp): the accounts with a fixed role, the core asset, the
    objects of the genesis state, part of them by operations that are applied
    without fees, and the supplies they add up to. The chain id, a hash of the
    genesis state, is left out. *)

From stdpp Require Import pretty.
From S2P Require Import Prelude Ext Config Asset Objects Parameters Governance Blocks Names Operations Validation Fees Ledger Authority Database Balance Evaluator AssetEval ContractEval Transactions WitnessSchedule ApplyBlock.

(** ** The genesis state *)

Record initial_account := mk_initial_account {
  ia_name : string;
  ia_owner_key : Z;
  ia_active_key : Z;
  ia_is_lifetime_member : bool;
}.
Record initial_collateral_position := mk_collateral_position {
  icp_owner : Z;   (* an address *)
  icp_collateral : Z;
  icp_debt : Z;
}.
Record initial_asset := mk_initial_asset {
  ias_symbol : string;
  ias_issuer_name : string;
  ias_description : string;
  ias_precision : Z;   (* uint8_t *)
  ias_max_supply : Z;
  ias_accumulated_fees : Z;
  ias_is_bitasset : bool;
  ias_collateral_records : list initial_collateral_position;
}.
Record initial_balance := mk_initial_balance {
  ib_owner : Z;   (* an address *)
  ib_asset_symbol : string;
  ib_amount : Z;
}.
Record initial_vesting_balance := mk_initial_vesting {
  iv_owner : Z;   (* an address *)
  iv_asset_symbol : string;
  iv_amount : Z;
  iv_begin_timestamp : Z;
  iv_vesting_duration_seconds : Z;   (* uint32_t *)
  iv_begin_balance : Z;
}.
Record initial_witness := mk_initial_witness {
  iw_owner_name : string;
  iw_block_signing_key : Z;
}.
Record initial_worker := mk_initial_worker {
  iwk_owner_name : string;
  iwk_daily_pay : Z;
}.

(** [immutable_chain_parameters] *)
Record immutable_parameters := mk_immutable_parameters {
  min_committee_member_count : Z;   (* uint16_t *)
  min_witness_count : Z;   (* uint16_t *)
  num_special_accounts : Z;   (* uint32_t *)
  num_special_assets : Z;   (* uint32_t *)
}.

(** [genesis_state_type]; an initial committee member is the name of its owner *)
Record genesis_state := mk_genesis_state {
  initial_timestamp : Z;
  max_core_supply : Z;
  initial_parameters : chain_parameters;
  immutable : immutable_parameters;
  initial_accounts : list initial_account;
  initial_assets : list initial_asset;
  initial_balances : list initial_balance;
  initial_vesting_balances : list initial_vesting_balance;
  initial_active_witnesses : Z;   (* uint64_t *)
  initial_witness_candidates : list initial_witness;
  initial_committee_candidates : list string;
  initial_worker_candidates : list initial_worker;
}.

(** ** Fees *)

(** [fee_schedule::get_default]: the default of every operation *)
Definition get_default : fee_schedule :=
  let P := GRAPHENE_BLOCKCHAIN_PRECISION in
  mk_fee_schedule (list_to_map
    [(0, fee_kbyte (20 * P) (10 * P)); (1, fee_flat (5 * P)); (2, fee_flat 0); (3, fee_flat (20 * P)); (4, fee_none);
     (5, fee_account (5 * P) (2000 * P) P); (6, fee_kbyte (20 * P) P); (7, fee_flat 300000);
     (8, fee_membership (2000 * P) (10000 * P)); (9, fee_flat (500 * P));
     (10, fee_symbols (500000 * P) (300000 * P) (5000 * P) 10); (11, fee_kbyte (500 * P) 10); (12, fee_flat (500 * P));
     (13, fee_flat (500 * P)); (14, fee_kbyte (20 * P) P); (15, fee_flat (20 * P)); (16, fee_flat P);
     (17, fee_flat (100 * P)); (18, fee_flat (500 * P)); (19, fee_flat P); (20, fee_flat (5000 * P));
     (21, fee_flat (20 * P)); (22, fee_kbyte (20 * P) 10); (23, fee_kbyte (20 * P) 10); (24, fee_flat P);
     (25, fee_flat P); (26, fee_flat P); (27, fee_kbyte (20 * P) 10); (28, fee_flat 0); (29, fee_flat (5000 * P));
     (30, fee_flat (20 * P)); (31, fee_flat P); (32, fee_flat P); (33, fee_flat (20 * P)); (34, fee_flat (5000 * P));
     (35, fee_kbyte P 10); (36, fee_flat P); (37, fee_none); (38, fee_kbyte (20 * P) 10);
     (39, fee_outputs (5 * P) (5 * P)); (40, fee_outputs (5 * P) (5 * P)); (41, fee_flat (5 * P)); (42, fee_none);
     (43, fee_flat (20 * P)); (44, fee_none); (45, fee_flat (500 * P)); (46, fee_flat (500 * P));
     (47, fee_flat (500 * P)); (48, fee_flat (500 * P)); (49, fee_flat (500 * P)); (50, fee_flat (20 * P));
     (51, fee_none); (52, fee_kbyte (20 * P) (10 * P)); (53, fee_kbyte (20 * P) (10 * P));
     (54, fee_flat (20 * P)); (55, fee_flat (20 * P))]) GRAPHENE_100_PERCENT.

(** [zero_fee_visitor] and [fee_schedule::zero_all_fees] *)
Definition zero_fee (p : fee_parameters) : fee_parameters :=
  match p with
  | fee_flat _ => fee_flat 0
  | fee_kbyte _ _ => fee_kbyte 0 0
  | fee_symbols _ _ _ _ => fee_symbols 0 0 0 0
  | fee_account _ _ _ => fee_account 0 0 0
  | fee_membership _ _ => fee_membership 0 0
  | fee_outputs _ _ => fee_outputs 0 0
  | fee_none => fee_none
  end.
Definition zero_all_fees : fee_schedule := mk_fee_schedule (zero_fee <$> fs_parameters get_default) 0.

(** ** The empty database

    All indices are empty; the global properties do not exist yet, and nothing
    reads them. The undo database and the fork database have their initial sizes
    ([initialize_indexes], fork_database.hpp). *)
Definition no_governance : governance := {|
  gv_last_budget_time := time_zero;
  gv_accounts_registered_this_interval := 0;
  gv_pending_parameters := None;
  gv_next_available_vote_id := 0;
  gv_active_committee_members := [];
  gv_active_witnesses := ∅;
  gv_min_committee_member_count := 0;
  gv_min_witness_count := 0;
  gv_committee_members := ∅;
  gv_workers := ∅;
  gv_buybacks := ∅;
  gv_special_authorities := ∅;
  gv_budget_records := [];
  gv_vote_tally_buffer := [];
  gv_witness_count_histogram_buffer := [];
  gv_committee_count_histogram_buffer := [];
  gv_total_voting_stake := 0;
  gv_track_standby_votes := true;
|}.
Definition empty_database (params : chain_parameters) : database := {|
  d_head_block_time := time_zero;
  d_next_maintenance_time := time_zero;
  d_witness_budget := 0;
  d_parameters := params;
  d_accounts := ∅;
  d_statistics := ∅;
  d_balances := ∅;
  d_assets := ∅;
  d_dynamic := ∅;
  d_bitassets := ∅;
  d_limits := ∅;
  d_calls := ∅;
  d_settles := ∅;
  d_bids := ∅;
  d_vestings := ∅;
  d_genesis_balances := ∅;
  d_withdraw_permissions := ∅;
  d_fbas := ∅;
  d_witnesses := ∅;
  d_governance := no_governance;
  d_next_ids := mk_next_ids 0 0 0 0 0 0 0 0 0 0 0 0 0 0 0 0 0 0 0 0;
  d_applied_ops := [];
  d_issue_453_affected_assets := ∅;
  d_ledger := empty_ledger;
|}.

Definition GRAPHENE_DEFAULT_BLOCK_INTERVAL : Z := 5.
Definition GRAPHENE_MIN_UNDO_HISTORY : Z := 10.

(** ** Accounts with a fixed role *)

Definition weight_threshold (n : Z) : authority := mk_authority n ∅ ∅ ∅.
(** [account_options()] *)
Definition default_account_options : account_options := mk_account_options GRAPHENE_PROXY_TO_SELF_ACCOUNT 0 0 ∅.
Definition GRAPHENE_DEFAULT_NETWORK_PERCENT_OF_FEE : Z := 20 * GRAPHENE_1_PERCENT.

(** An account whose registrar and referrers are [patron], with its statistics *)
Definition create_special_account (name : string) (threshold patron network_percent core_in_balance : Z) : DB Z :=
  let! id := gets (λ s, ni_account (d_next_ids s)) in
  let! stats := create_statistics (mk_account_statistics id name 0 core_in_balance false false 0 0 0) in
  create_account
    (mk_account_object time_max patron patron patron network_percent (GRAPHENE_100_PERCENT - network_percent) 0
       name (weight_threshold threshold) (weight_threshold threshold) default_account_options stats
       ∅ ∅ ∅ ∅ None no_special_authority no_special_authority 0 None).

(** [FC_ASSERT( create<…>(…).get_id() == id )] *)
Definition create_at (id : Z) (m : DB Z) : DB unit := let! i := m in require! i =? id in ret tt.

Definition create_fixed_accounts : DB unit :=
  let percent := GRAPHENE_DEFAULT_NETWORK_PERCENT_OF_FEE in
  do! put (λ s, set_d_balances
        (<[(GRAPHENE_COMMITTEE_ACCOUNT, CORE) := mk_account_balance GRAPHENE_MAX_SHARE_SUPPLY false]> (d_balances s)) s) in
  do! create_at GRAPHENE_COMMITTEE_ACCOUNT
        (create_special_account "committee-account" 1 0 percent GRAPHENE_MAX_SHARE_SUPPLY) in
  do! create_at GRAPHENE_WITNESS_ACCOUNT
        (create_special_account "witness-account" 1 GRAPHENE_WITNESS_ACCOUNT percent 0) in
  do! create_at GRAPHENE_RELAXED_COMMITTEE_ACCOUNT
        (create_special_account "relaxed-committee-account" 1 GRAPHENE_RELAXED_COMMITTEE_ACCOUNT percent 0) in
  do! create_at GRAPHENE_NULL_ACCOUNT (create_special_account "null-account" 1 GRAPHENE_NULL_ACCOUNT 0 0) in
  do! create_at GRAPHENE_TEMP_ACCOUNT (create_special_account "temp-account" 0 GRAPHENE_TEMP_ACCOUNT percent 0) in
  create_at GRAPHENE_PROXY_TO_SELF_ACCOUNT (create_special_account "proxy-to-self" 1 GRAPHENE_NULL_ACCOUNT 0 0).

(** The loop that reserves the identifiers of accounts up to [n]: each account is
    created and removed, its statistics stay. Every pass uses up an identifier. *)
Definition remove_account : Z → DB unit := remove_from d_accounts set_d_accounts.
Fixpoint reserve_accounts (fuel : nat) (n : Z) : DB unit :=
  match fuel with
  | O => fail OutOfFuel
  | S fuel' =>
    let! id := gets (λ s, ni_account (d_next_ids s)) in
    if n <=? id then ret tt
    else
      do! create_at id (create_special_account ("special-account-" +:+ pretty id) 1 id
                          GRAPHENE_DEFAULT_NETWORK_PERCENT_OF_FEE 0) in
      do! remove_account id in
      reserve_accounts fuel' n
  end.

(** ** Assets with a fixed role *)

Definition GRAPHENE_SYMBOL : string := "BTS".
Definition GRAPHENE_BLOCKCHAIN_PRECISION_DIGITS : Z := 5.

Definition special_asset (symbol : string) (max_supply dynamic : Z) : asset_object :=
  mk_asset_object symbol GRAPHENE_BLOCKCHAIN_PRECISION_DIGITS GRAPHENE_NULL_ACCOUNT
    (mk_asset_options max_supply 0 GRAPHENE_MAX_SHARE_SUPPLY 0 0
       (mk_price (mk_asset 1 CORE) (mk_asset 1 CORE)) ∅ ∅ ∅ ∅ "") dynamic None None.

Definition create_core_asset (max_core_supply : Z) : DB unit :=
  let! dyn_asset := create_dynamic (mk_asset_dynamic_data GRAPHENE_MAX_SHARE_SUPPLY 0 0 0) in
  let! core_asset := create_asset (special_asset GRAPHENE_SYMBOL max_core_supply dyn_asset) in
  require! dyn_asset =? 0 in
  require! core_asset =? CORE in
  let! balance := get_balance GRAPHENE_COMMITTEE_ACCOUNT CORE in
  let! d := get_dynamic dyn_asset in
  require! amount balance =? current_supply d in
  ret tt.

Definition remove_asset : Z → DB unit := remove_from d_assets set_d_assets.
Fixpoint reserve_assets (fuel : nat) (n : Z) : DB unit :=
  match fuel with
  | O => fail OutOfFuel
  | S fuel' =>
    let! id := gets (λ s, ni_asset (d_next_ids s)) in
    if n <=? id then ret tt
    else
      let! dyn_asset := create_dynamic (mk_asset_dynamic_data 0 0 0 0) in
      do! create_at id (create_asset (special_asset ("SPECIAL" +:+ pretty id) 0 dyn_asset)) in
      do! remove_asset id in
      reserve_assets fuel' n
  end.

(** ** Global properties *)

Definition create_global_properties (g : genesis_state) : DB unit :=
  put (λ s, set_d_head_block_time (initial_timestamp g)
              (set_d_parameters (set_cp_current_fees zero_all_fees (initial_parameters g)) s)).
Definition set_min_counts (p : immutable_parameters) (v : governance) : governance :=
  mk_governance (gv_last_budget_time v) (gv_accounts_registered_this_interval v) (gv_pending_parameters v)
    (gv_next_available_vote_id v) (gv_active_committee_members v) (gv_active_witnesses v)
    (min_committee_member_count p) (min_witness_count p) (gv_committee_members v) (gv_workers v) (gv_buybacks v)
    (gv_special_authorities v) (gv_budget_records v) (gv_vote_tally_buffer v) (gv_witness_count_histogram_buffer v)
    (gv_committee_count_histogram_buffer v) (gv_total_voting_stake v) (gv_track_standby_votes v).
Definition create_chain_properties (p : immutable_parameters) : DB unit :=
  require! Z.land (min_witness_count p) 1 =? 1 in
  require! Z.land (min_committee_member_count p) 1 =? 1 in
  put_gov (set_min_counts p).
(** Summaries of blocks from [i] on *)
Fixpoint new_block_summaries (n : nat) (i : Z) (m : gmap Z block_id) : gmap Z block_id :=
  match n with
  | O => m
  | S n => new_block_summaries n (i + 1) (<[i := null_id]> m)
  end.
Definition create_block_summaries : DB unit :=
  put (set_d_block_summaries (new_block_summaries (Z.to_nat 65537) 0 ∅)).

(** ** The objects of the genesis state *)
Section genesis.
Context {X : Ext} {P : Packing} {N : NthElement} {K : KeyAddresses} {C : ContractMachine}.

(** [apply_operation( genesis_eval_state, op )] *)
Definition genesis_eval_state : trx_state := mk_trx_state false false false false.
Definition genesis_apply (op : operation) : DB operation_result :=
  apply_operation (push false) genesis_eval_state op.

Definition no_fee : asset := mk_asset 0 CORE.
Definition address_authority (a : Z) : authority := mk_authority 1 ∅ ∅ {[ a := 1 ]}.

Definition genesis_account (name : string) (owner active : authority) : account_create_operation :=
  mk_account_create no_fee GRAPHENE_TEMP_ACCOUNT 0 0 name owner active default_account_options false None None None.
(** [apply_operation(…).get<object_id_type>()] *)
Definition create_genesis_account (o : account_create_operation) : DB Z :=
  let! r := genesis_apply (op_account_create o) in
  match r with object_id_result id => ret id | _ => fail AssertFailure end.

(** The null key is 0. *)
Definition create_initial_account (a : initial_account) : DB unit :=
  let owner := key_authority (ia_owner_key a) in
  let active := if ia_active_key a =? 0 then owner else key_authority (ia_active_key a) in
  let! id := create_genesis_account (genesis_account (ia_name a) owner active) in
  if ia_is_lifetime_member a then
    do! genesis_apply (op_account_upgrade (mk_account_upgrade no_fee id true)) in ret tt
  else ret tt.

(** [get_account_id] and [get_asset_id] *)
Definition get_account_id (name : string) : DB Z :=
  let! i := gets (find_account_by_name name) in lift (of_option AssertFailure i).
Definition get_asset_id (symbol : string) : DB Z :=
  let! i := gets (find_asset_by_symbol symbol) in lift (of_option AssertFailure i).

(** [total[ a ] += v] on a [map<asset_id_type,share_type>] *)
Definition add_total (a v : Z) (total : gmap Z Z) : res (gmap Z Z) :=
  let? t := safe (default 0 (total !! a) + v) in Ok (<[a := t]> total).

(** [boost::algorithm::to_lower] *)
Definition lower (c : Ascii.ascii) : Ascii.ascii :=
  if is_upper c then Ascii.ascii_of_nat (Ascii.nat_of_ascii c + 32) else c.
Definition to_lower (s : string) : string :=
  String.string_of_list_ascii (map lower (String.list_ascii_of_string s)).

(** The loop over the collateral records of an asset, with the totals of supply
    and debt; [n] is [collateral_holder_number]. *)
Definition create_position (symbol : string) (new_asset_id : Z) (n : nat) (rec : initial_collateral_position) : DB unit :=
  let name := to_lower (symbol +:+ "-collateral-holder-" +:+ pretty n) in
  let owner := address_authority (icp_owner rec) in
  let! id := create_genesis_account (genesis_account name owner owner) in
  do! modify_statistics_of id (λ st, Ok (set_st_total_core_in_orders (icp_collateral rec) st)) in
  let! p := lift (call_price (mk_asset (icp_debt rec) new_asset_id) (mk_asset (icp_collateral rec) CORE)
                    GRAPHENE_DEFAULT_MAINTENANCE_COLLATERAL_RATIO) in
  do! create_call (mk_call_order id (icp_collateral rec) (icp_debt rec) p None) in
  ret tt.
Fixpoint create_positions (symbol : string) (new_asset_id : Z) (n : nat) (recs : list initial_collateral_position)
    (supplies debts : gmap Z Z) : DB (gmap Z Z * gmap Z Z) :=
  match recs with
  | [] => ret (supplies, debts)
  | rec :: recs =>
    do! create_position symbol new_asset_id n rec in
    let! supplies := lift (add_total CORE (icp_collateral rec) supplies) in
    let! debts := lift (add_total new_asset_id (icp_debt rec) debts) in
    create_positions symbol new_asset_id (S n) recs supplies debts
  end.

Definition GRAPHENE_DEFAULT_MINIMUM_FEEDS : Z := 7.
Definition genesis_bitasset_options : bitasset_options :=
  mk_bitasset_options GRAPHENE_DEFAULT_PRICE_FEED_LIFETIME GRAPHENE_DEFAULT_MINIMUM_FEEDS
    GRAPHENE_DEFAULT_FORCE_SETTLEMENT_DELAY GRAPHENE_DEFAULT_FORCE_SETTLEMENT_OFFSET
    GRAPHENE_DEFAULT_FORCE_SETTLEMENT_MAX_VOLUME CORE.
Definition genesis_permissions (is_bitasset : bool) : Z :=
  Z.lor (Z.lor (Z.lor (Z.lor charge_market_fee override_authority) white_list)
           (Z.lor transfer_restricted disable_confidential))
    (if is_bitasset then Z.lor (Z.lor disable_force_settle global_settle) (Z.lor witness_fed_asset committee_fed_asset)
     else 0).
Definition genesis_asset (a : initial_asset) (issuer dynamic : Z) (bitasset : option Z) : asset_object :=
  mk_asset_object (ias_symbol a) (ias_precision a) issuer
    (mk_asset_options (ias_max_supply a) 0 GRAPHENE_MAX_SHARE_SUPPLY (genesis_permissions (ias_is_bitasset a))
       witness_fed_asset null_price ∅ ∅ ∅ ∅ (ias_description a)) dynamic bitasset None.

(** One initial asset, with the totals *)
Definition create_initial_asset (a : initial_asset) (totals : gmap Z Z * gmap Z Z) : DB (gmap Z Z * gmap Z Z) :=
  let! new_asset_id := gets (λ s, ni_asset (d_next_ids s)) in
  let supplies := <[new_asset_id := 0]> (fst totals) in
  let! r :=
    (if ias_is_bitasset a then
       let! t := create_positions (ias_symbol a) new_asset_id 0 (ias_collateral_records a)
                   supplies (<[new_asset_id := 0]> (snd totals)) in
       let! b := create_bitasset (new_bitasset_data new_asset_id genesis_bitasset_options false) in
       ret (t, Some b)
     else ret ((supplies, snd totals), None)) in
  let! dynamic := create_dynamic (mk_asset_dynamic_data 0 0 (ias_accumulated_fees a) 0) in
  let! supplies := lift (add_total new_asset_id (ias_accumulated_fees a) (fst (fst r))) in
  let! issuer := get_account_id (ias_issuer_name a) in
  do! create_asset (genesis_asset a issuer dynamic (snd r)) in
  ret (supplies, snd (fst r)).
Fixpoint create_initial_assets (l : list initial_asset) (totals : gmap Z Z * gmap Z Z) : DB (gmap Z Z * gmap Z Z) :=
  match l with
  | [] => ret totals
  | a :: l => let! totals := create_initial_asset a totals in create_initial_assets l totals
  end.

(** ** Balances

    Nothing but the state of genesis creates a balance to be claimed, so that
    their number is the next identifier. *)
Definition create_genesis_balance (b : balance_object) : DB unit :=
  put (λ s, set_d_genesis_balances (<[Z.of_nat (size (d_genesis_balances s)) := b]> (d_genesis_balances s)) s).
Fixpoint create_initial_balances (l : list initial_balance) (supplies : gmap Z Z) : DB (gmap Z Z) :=
  match l with
  | [] => ret supplies
  | h :: l =>
    let! a := get_asset_id (ib_asset_symbol h) in
    do! create_genesis_balance (mk_balance (ib_owner h) (mk_asset (ib_amount h) a) None time_zero) in
    let! supplies := lift (add_total a (ib_amount h) supplies) in
    create_initial_balances l supplies
  end.
Fixpoint create_vesting_balances (l : list initial_vesting_balance) (supplies : gmap Z Z) : DB (gmap Z Z) :=
  match l with
  | [] => ret supplies
  | v :: l =>
    let! a := get_asset_id (iv_asset_symbol v) in
    do! create_genesis_balance
          (mk_balance (iv_owner v) (mk_asset (iv_amount v) a)
             (Some (mk_linear_policy (iv_begin_timestamp v) 0 (iv_vesting_duration_seconds v) (iv_begin_balance v)))
             time_zero) in
    let! supplies := lift (add_total a (iv_amount v) supplies) in
    create_vesting_balances l supplies
  end.

(** ** Supplies *)

(** The balance of the committee gives way to what the genesis state holds of the
    core asset, unless it holds none. *)
Definition settle_core (supplies : gmap Z Z) : DB (gmap Z Z) :=
  if 0 <? default 0 (supplies !! CORE) then
    let! balance := get_balance GRAPHENE_COMMITTEE_ACCOUNT CORE in
    let! neg := lift (asset_neg balance) in
    do! adjust_balance GRAPHENE_COMMITTEE_ACCOUNT neg in
    ret supplies
  else ret (<[CORE := GRAPHENE_MAX_SHARE_SUPPLY]> supplies).

(** What the loop over the assets asserts of a market issued one, and then of all
    of them. *)
Definition asset_tallied (supplies debts : gmap Z Z) (x : Z * asset_object) : bool :=
  negb (is_market_issued (snd x)) ||
  (bool_decide (is_Some (supplies !! fst x)) && bool_decide (is_Some (debts !! fst x))).
Definition asset_balanced (supplies debts : gmap Z Z) (x : Z * asset_object) : bool :=
  negb (is_market_issued (snd x)) || (default 0 (supplies !! fst x) =? default 0 (debts !! fst x)).
Definition check_balanced (supplies debts : gmap Z Z) : DB unit :=
  let! assets := gets d_assets in
  require! forallb (asset_tallied supplies debts) (map_to_list assets) in
  require! forallb (asset_balanced supplies debts) (map_to_list assets) in
  ret tt.

(** "Save tallied supplies" *)
Definition save_supplies (supplies : gmap Z Z) : DB unit :=
  for_each (λ x, modify_dynamic_of (fst x) (λ d, Ok (set_current_supply (snd x) d))) (by_id supplies).

(** ** Witnesses, the committee and workers *)

Definition remove_witness : Z → DB unit := remove_from d_witnesses set_d_witnesses.
Definition create_null_witness : DB unit :=
  do! create_at 0 (create_witness (mk_witness 0 0 None 0 0 "")) in
  remove_witness 0.

Definition create_initial_witness (w : initial_witness) : DB unit :=
  let! a := get_account_id (iw_owner_name w) in
  do! genesis_apply (op_witness_create (mk_witness_create no_fee a "" (iw_block_signing_key w))) in ret tt.
Definition create_initial_member (owner_name : string) : DB unit :=
  let! a := get_account_id owner_name in
  do! genesis_apply (op_committee_member_create (mk_committee_member_create no_fee a "")) in ret tt.
Definition create_initial_worker (now : Z) (w : initial_worker) : DB unit :=
  let! a := get_account_id (iwk_owner_name w) in
  do! genesis_apply (op_worker_create (mk_worker_create no_fee a now time_max (iwk_daily_pay w)
        ("Genesis-Worker-" +:+ iwk_owner_name w) "" (vesting_balance_worker_initializer 0))) in ret tt.

(** The witnesses from 1 on are active. *)
Definition set_active_witnesses (n : Z) : DB unit :=
  put_gov (set_gv_active_witnesses (list_to_set (seqZ 1 n))).
Definition enable_fees (params : chain_parameters) : DB unit :=
  put (λ s, set_d_parameters (set_cp_current_fees (cp_current_fees params) (d_parameters s)) s).

(** [GRAPHENE_FBA_STEALTH_DESIGNATED_ASSET] *)
Definition new_fba : fba_accumulator_object := mk_fba_accumulator 0 (Some 743).
Definition create_fbas : DB unit :=
  put (set_d_fbas (list_to_map
    [(fba_accumulator_id_transfer_to_blind, new_fba); (fba_accumulator_id_blind_transfer, new_fba);
     (fba_accumulator_id_transfer_from_blind, new_fba)])).

(** ** [init_genesis] *)

(** The objects that do not depend on the lists of the genesis state *)
Definition create_fixed_objects (g : genesis_state) : DB unit :=
  do! create_fixed_accounts in
  do! reserve_accounts (S (Z.to_nat (num_special_accounts (immutable g)))) (num_special_accounts (immutable g)) in
  do! create_core_asset (max_core_supply g) in
  do! reserve_assets (S (Z.to_nat (num_special_assets (immutable g)))) (num_special_assets (immutable g)) in
  do! create_global_properties g in
  do! create_chain_properties (immutable g) in
  create_block_summaries.

(** Who holds what *)
Definition create_holdings (g : genesis_state) : DB unit :=
  do! for_each create_initial_account (initial_accounts g) in
  let! totals := create_initial_assets (initial_assets g) (∅, ∅) in
  let! supplies := create_initial_balances (initial_balances g) (fst totals) in
  let! supplies := create_vesting_balances (initial_vesting_balances g) supplies in
  let! supplies := settle_core supplies in
  do! check_balanced supplies (snd totals) in
  save_supplies supplies.

Definition create_elected (g : genesis_state) : DB unit :=
  do! create_null_witness in
  do! for_each create_initial_witness (initial_witness_candidates g) in
  do! for_each create_initial_member (initial_committee_candidates g) in
  do! for_each (create_initial_worker (initial_timestamp g)) (initial_worker_candidates g) in
  do! set_active_witnesses (initial_active_witnesses g) in
  do! enable_fees (initial_parameters g) in
  create_fbas.

Definition init_database (g : genesis_state) : DB unit :=
  require! negb (initial_timestamp g =? time_zero) in
  require! initial_timestamp g mod GRAPHENE_DEFAULT_BLOCK_INTERVAL =? 0 in
  require! 0 <? Z.of_nat (length (initial_witness_candidates g)) in
  require! initial_active_witnesses g <=? Z.of_nat (length (initial_witness_candidates g)) in
  do! create_fixed_objects g in
  do! create_holdings g in
  create_elected g.

(** The chain before the first block: the dynamic global properties, the witness
    schedule, and the sizes of the undo and the fork database *)
Definition genesis_chain (s : database) : chain :=
  mk_chain s (mk_dgp 0 null_id (d_head_block_time s) 0 0 0 (2 ^ 128 - 1) 0 0)
    (in_order (gv_active_witnesses (d_governance s))) ∅ GRAPHENE_MIN_UNDO_HISTORY 1024.
Definition init_genesis (g : genesis_state) : res chain :=
  let? r := init_database g (empty_database (initial_parameters g)) in
  Ok (genesis_chain (snd r)).
End genesis.
