(* ===== verification/ForkDatabase.v ===== *)
(** * The fork database

    Models fork_database.cpp and fork_database.hpp: the tree of the recent
    blocks, its head, and the branches that lead back to a common ancestor. An
    item is an object on the heap: [items] is the heap, shared pointers are
    addresses, and a weak pointer can be locked while its item is in an index, is
    the head, or is held by a caller. *)

From S2P Require Import Prelude Ext Blocks SignedBlocks WitnessSchedule.

(** ** State *)

Definition address : Type := nat.

(** [fork_item]; [fi_data] is the block. *)
Record fork_item := mk_fork_item {
  fi_prev : option address;
  fi_num : Z;
  fi_id : block_id;
  fi_data : signed_block;
}.
(** [fork_item::previous_id] *)
Definition previous_id (item : fork_item) : block_id := bh_previous (fi_data item).

#[export] Instance block_id_countable : Countable block_id.
Proof.
  refine (inj_countable' (λ b, (id_num b, id_hash b)) (λ p, mk_block_id (fst p) (snd p)) _).
  by intros [].
Defined.

(** [fork_database]: the indices map the identifier of a block, which is unique
    in them, to its item. [next_address] is the first address that was never
    used; [held] are the items to which a caller of the database has shared
    pointers. *)
Record fork_database := mk_fork_database {
  items : gmap address fork_item;
  next_address : address;
  index : gmap block_id address;
  unlinked_index : gmap block_id address;
  head : option address;
  max_size : Z;
  held : list address;
}.

Definition set_index (v : gmap block_id address) (f : fork_database) : fork_database :=
  mk_fork_database (items f) (next_address f) v (unlinked_index f) (head f) (max_size f) (held f).
Definition set_unlinked_index (v : gmap block_id address) (f : fork_database) : fork_database :=
  mk_fork_database (items f) (next_address f) (index f) v (head f) (max_size f) (held f).
Definition set_head_address (v : option address) (f : fork_database) : fork_database :=
  mk_fork_database (items f) (next_address f) (index f) (unlinked_index f) v (max_size f) (held f).
Definition set_size (v : Z) (f : fork_database) : fork_database :=
  mk_fork_database (items f) (next_address f) (index f) (unlinked_index f) (head f) v (held f).
Definition set_held (v : list address) (f : fork_database) : fork_database :=
  mk_fork_database (items f) (next_address f) (index f) (unlinked_index f) (head f) (max_size f) v.

(** [fork_database::fork_database] *)
Definition empty_fork_database : fork_database := mk_fork_database ∅ 0%nat ∅ ∅ None 1024 [].

Section fork_database.
Context {B : BlockHash}.

(** [std::make_shared<fork_item>], and the insertion into [_index], which does
    nothing when the identifier is taken. *)
Definition new_item (b : signed_block) (prev : option address) : fork_item :=
  mk_fork_item prev (block_num b) (header_id b) b.
Definition alloc (item : fork_item) (f : fork_database) : fork_database :=
  mk_fork_database (<[next_address f := item]> (items f)) (S (next_address f)) (index f)
    (unlinked_index f) (head f) (max_size f) (held f).
Definition insert_index (id : block_id) (a : address) (f : fork_database) : fork_database :=
  match index f !! id with
  | Some _ => f
  | None => set_index (<[id := a]> (index f)) f
  end.

(** [weak_ptr::lock] *)
Definition alive (f : fork_database) (a : address) : bool :=
  bool_decide (head f = Some a) || existsb (λ p, bool_decide (snd p = a)) (map_to_list (index f))
  || existsb (λ p, bool_decide (snd p = a)) (map_to_list (unlinked_index f))
  || bool_decide (a ∈ held f).
Definition lock (f : fork_database) (prev : option address) : option address :=
  match prev with
  | Some a => if alive f a then Some a else None
  | None => None
  end.

(** A pointer that is dereferenced. *)
Definition deref (f : fork_database) (a : address) : res fork_item := of_option Undefined (items f !! a).

(** The items of an index with a lower number are erased. *)
Definition erase_below (f : fork_database) (n : Z) (m : gmap block_id address) : gmap block_id address :=
  filter (λ p, from_option (λ i, n <=? fi_num i) false (items f !! snd p) = true) m.
Definition erase_number (f : fork_database) (n : Z) (m : gmap block_id address) : gmap block_id address :=
  filter (λ p, from_option (λ i, negb (fi_num i =? n)) false (items f !! snd p) = true) m.

(** [fork_database::reset] *)
Definition reset (f : fork_database) : fork_database := set_index ∅ (set_head_address None f).

(** [fork_database::pop_block] *)
Definition pop_block : M fork_database unit :=
  let! f := gets id in
  let! h := lift (of_option AssertFailure (head f)) in
  let! item := lift (deref f h) in
  let! prev := lift (of_option AssertFailure (lock f (fi_prev item))) in
  put (set_head_address (Some prev)).

(** [fork_database::start_block] *)
Definition start_block (b : signed_block) : M fork_database unit := put (λ f,
  let a := next_address f in
  set_head_address (Some a) (insert_index (header_id b) a (alloc (new_item b None) f))).

(** [fork_database::_push_block] and [push_block]: a block that does not link is
    refused, the exception is thrown again before it is cached. *)
Definition push_block (b : signed_block) : M fork_database (option address) :=
  let! f := gets id in
  let! head_num := lift (match head f with
                         | None => Ok None
                         | Some h => let? i := deref f h in Ok (Some (fi_num i))
                         end) in
  require! from_option (λ n, Z.max 0 (n - max_size f) <? block_num b) true head_num in
  let! prev := lift (if bool_decide (head f ≠ None) && negb (bool_decide (bh_previous b = null_id)) then
                       let? p := of_option AssertFailure (index f !! bh_previous b) in Ok (Some p)
                     else Ok None) in
  let a := next_address f in
  do! put (λ f, insert_index (header_id b) a (alloc (new_item b prev) f)) in
  do! match head_num with
      | None => put (set_head_address (Some a))
      | Some n =>
        if n <? block_num b then
          let min_num := block_num b - Z.min (max_size f) (block_num b) in
          do! put (set_head_address (Some a)) in
          do! put (λ f, set_index (erase_below f min_num (index f)) f) in
          put (λ f, set_unlinked_index (erase_number f (u32 (block_num b - max_size f)) (unlinked_index f)) f)
        else ret tt
      end in
  gets head.

(** [fork_database::set_max_size] *)
Definition set_max_size (s : Z) : M fork_database unit :=
  do! put (set_size s) in
  let! f := gets id in
  match head f with
  | None => ret tt
  | Some h =>
    let! i := lift (deref f h) in
    let least := Z.max 0 (fi_num i - s) in
    do! put (λ f, set_index (erase_below f least (index f)) f) in
    put (λ f, set_unlinked_index (erase_below f least (unlinked_index f)) f)
  end.

(** [fork_database::is_known_block] and [fetch_block] *)
Definition fetch_block (f : fork_database) (id : block_id) : option address :=
  match index f !! id with Some a => Some a | None => unlinked_index f !! id end.
Definition is_known_block (f : fork_database) (id : block_id) : bool :=
  bool_decide (is_Some (fetch_block f id)).

(** [fork_database::fetch_block_by_number]: the items of a number, those that
    were inserted first in front. *)
Definition fetch_block_by_number (f : fork_database) (n : Z) : list address :=
  merge_sort le (List.filter (λ a, from_option (λ i, fi_num i =? n) false (items f !! a))
                             (map snd (map_to_list (index f)))).

(** The loops of [fork_database::fetch_branch_from]. *)
Fixpoint descend (fuel : nat) (f : fork_database) (down_to : Z) (branch : list address) (a : address)
    : res (list address * address) :=
  match fuel with
  | O => Err OutOfFuel
  | S fuel =>
    let? i := deref f a in
    if down_to <? fi_num i then
      let? p := of_option AssertFailure (lock f (fi_prev i)) in
      descend fuel f down_to (branch ++ [a]) p
    else Ok (branch, a)
  end.
Fixpoint descend_both (fuel : nat) (f : fork_database) (first second : list address) (a b : address)
    : res (list address * list address) :=
  match fuel with
  | O => Err OutOfFuel
  | S fuel =>
    let? i := deref f a in
    let? j := deref f b in
    if bool_decide (previous_id i = previous_id j) then Ok (first ++ [a], second ++ [b])
    else
      let? p := of_option AssertFailure (lock f (fi_prev i)) in
      let? q := of_option AssertFailure (lock f (fi_prev j)) in
      descend_both fuel f (first ++ [a]) (second ++ [b]) p q
  end.

(** [fork_database::fetch_branch_from] *)
Definition fetch_branch_from (f : fork_database) (first second : block_id) : res (list address * list address) :=
  let fuel := S (next_address f) in
  let? a := of_option AssertFailure (index f !! first) in
  let? b := of_option AssertFailure (index f !! second) in
  let? j := deref f b in
  let? r1 := descend fuel f (fi_num j) [] a in
  let? i := deref f (snd r1) in
  let? r2 := descend fuel f (fi_num i) [] b in
  descend_both fuel f (fst r1) (fst r2) (snd r1) (snd r2).

(** [fork_database::set_head] and [remove] *)
Definition set_head (h : option address) : M fork_database unit := put (set_head_address h).
Definition remove (id : block_id) : M fork_database unit := put (λ f, set_index (delete id (index f)) f).
End fork_database.
