(* ===== verification/BlockLog.v ===== *)
(** * The block log

    Models chain/block_database.cpp: the blocks of the chain, packed one after the
    other in a file, and an index file with an entry for each block number. The
    index is only written an entry at a time, so it is a list of entries; what lies
    between its end and an entry written beyond it is zero. A read past the end of
    a stream throws and leaves the stream failed. How a block is packed is decided
    by the serialisation library: class [BlockFormat], with an instance that packs
    blocks without transactions at the end of the file. Files are not opened and
    closed.

    The specification is a map from block numbers to blocks, and one from block
    numbers to the identifiers recorded last, which removing a block does not
    change; every sequence of calls on the files is one on the maps. *)

From S2P Require Import Prelude Blocks SignedBlocks.

Module BlockDatabase.

(** [fc::raw::pack] and [fc::raw::unpack<signed_block>], which throws on data that
    is not a packed block. A block that is [packable] has members of their width and
    takes less than 2^32 bytes: it is read back as it was written. *)
Class BlockFormat := {
  pack_block : signed_block → list Z;
  unpack_block : list Z → option signed_block;
  packable : signed_block → Prop;
  unpack_pack b : packable b → unpack_block (pack_block b) = Some b;
  unpack_nothing : unpack_block [] = None;
  pack_size b : packable b → Z.of_nat (length (pack_block b)) < 2 ^ 32;
}.

Record index_entry := mk_index_entry {
  block_pos : Z;   (* uint64_t *)
  block_size : Z;   (* uint32_t *)
  entry_id : block_id;
}.
Definition empty_entry : index_entry := mk_index_entry 0 0 null_id.

(** [block_database]: the contents of the files, and whether [_blocks] has failed *)
Record block_database := mk_block_database {
  block_num_to_pos : list index_entry;
  blocks : list Z;
  blocks_failed : bool;
}.
Definition set_block_num_to_pos (i : list index_entry) (l : block_database) : block_database :=
  mk_block_database i (blocks l) (blocks_failed l).

Section block_log.
Context {B : BlockHash} {F : BlockFormat}.
Implicit Types (l : block_database) (e : index_entry).

(** Writing an entry at the position of a block number, over an entry or beyond the end *)
Definition write_entry (n : Z) e (index : list index_entry) : list index_entry :=
  let i := Z.to_nat n in
  if (i <? length index)%nat then <[i := e]> index
  else index ++ replicate (i - length index) empty_entry ++ [e].
(** Reading it; there is nothing past the end. *)
Definition read_entry (n : Z) l : option index_entry := block_num_to_pos l !! Z.to_nat n.

(** [store]; writing to a failed stream has no specified result. *)
Definition store (_id : block_id) (b : signed_block) l : res block_database :=
  let id := if bool_decide (_id = null_id) then header_id b else _id in
  if blocks_failed l then Err Undefined
  else
    let vec := pack_block b in
    let e := mk_index_entry (Z.of_nat (length (blocks l))) (u32 (Z.of_nat (length vec))) id in
    Ok (mk_block_database (write_entry (num_from_id id) e (block_num_to_pos l)) (blocks l ++ vec) false).

Definition remove (id : block_id) l : res block_database :=
  match read_entry (num_from_id id) l with
  | None => Err NotFound
  | Some e =>
    if bool_decide (entry_id e = id) then
      Ok (set_block_num_to_pos
            (write_entry (num_from_id id) (mk_index_entry (block_pos e) 0 (entry_id e)) (block_num_to_pos l)) l)
    else Ok l
  end.

Definition contains (id : block_id) l : bool :=
  if bool_decide (id = null_id) then false
  else match read_entry (num_from_id id) l with
       | Some e => bool_decide (entry_id e = id) && (0 <? block_size e)
       | None => false
       end.

Definition fetch_block_id (n : Z) l : res block_id :=
  match read_entry n l with
  | Some e => require? negb (bool_decide (entry_id e = null_id)) in Ok (entry_id e)
  | None => Err NotFound
  end.

(** [_blocks.seekg( e.block_pos ); _blocks.read( data.data(), e.block_size );] *)
Definition read_blocks e l : option (list Z) * block_database :=
  if blocks_failed l then (None, l)
  else if (block_size e =? 0) || (block_pos e + block_size e <=? Z.of_nat (length (blocks l))) then
    (Some (take (Z.to_nat (block_size e)) (drop (Z.to_nat (block_pos e)) (blocks l))), l)
  else (None, mk_block_database (block_num_to_pos l) (blocks l) true).
(** The block of an entry; every exception is caught. *)
Definition unpack_entry e (data : list Z) : option signed_block :=
  match unpack_block data with
  | Some b => if bool_decide (header_id b = entry_id e) then Some b else None
  | None => None
  end.
Definition fetch_entry e l : option signed_block * block_database :=
  let (data, l) := read_blocks e l in (data ≫= unpack_entry e, l).

Definition fetch_optional (id : block_id) l : option signed_block * block_database :=
  match read_entry (num_from_id id) l with
  | None => (None, l)
  | Some e => if bool_decide (entry_id e = id) then fetch_entry e l else (None, l)
  end.
Definition fetch_by_number (n : Z) l : option signed_block * block_database :=
  match read_entry n l with
  | None => (None, l)
  | Some e => fetch_entry e l
  end.

(** What the loop of [last_index_entry] asks of an entry *)
Definition entry_valid e l : bool :=
  (0 <? block_size e) && (block_pos e + block_size e <=? Z.of_nat (length (blocks l))) &&
  bool_decide (is_Some (fst (read_blocks e l) ≫= unpack_entry e)).
(** The loop over the index from its end, [n] entries of which are left: an entry
    that is not valid is cut off ([fc::resize_file]). *)
Fixpoint last_valid_entry (n : nat) l : option index_entry * block_database :=
  match n with
  | O => (None, l)
  | S n =>
    match block_num_to_pos l !! n with
    | Some e =>
      if entry_valid e l then (Some e, l)
      else last_valid_entry n (set_block_num_to_pos (take n (block_num_to_pos l)) l)
    | None => (None, l)
    end
  end.
Definition last_index_entry l : option index_entry * block_database :=
  if blocks_failed l then (None, l) else last_valid_entry (length (block_num_to_pos l)) l.

Definition last_block l : option signed_block * block_database :=
  match last_index_entry l with
  | (Some e, l) => fetch_by_number (num_from_id (entry_id e)) l
  | (None, l) => (None, l)
  end.
Definition last_id l : option block_id * block_database :=
  let (e, l) := last_index_entry l in (entry_id <$> e, l).

(** A sequence of calls, with their results *)
Inductive log_call :=
  | call_store (b : signed_block)   (* with the identifier of the block, or none *)
  | call_remove (id : block_id)
  | call_contains (id : block_id)
  | call_fetch_optional (id : block_id)
  | call_fetch_by_number (n : Z)
  | call_fetch_block_id (n : Z)
  | call_last
  | call_last_id.
Inductive log_result :=
  | returns
  | throws
  | returns_bool (b : bool)
  | returns_block (b : option signed_block)
  | returns_id (id : option block_id).

Definition log_step (c : log_call) l : res (log_result * block_database) :=
  match c with
  | call_store b => let? l' := store (header_id b) b l in Ok (returns, l')
  | call_remove id => match remove id l with Ok l' => Ok (returns, l') | Err _ => Ok (throws, l) end
  | call_contains id => Ok (returns_bool (contains id l), l)
  | call_fetch_optional id => let (b, l') := fetch_optional id l in Ok (returns_block b, l')
  | call_fetch_by_number n => let (b, l') := fetch_by_number (u32 n) l in Ok (returns_block b, l')
  | call_fetch_block_id n =>
    Ok (match fetch_block_id (u32 n) l with Ok id => returns_id (Some id) | Err _ => throws end, l)
  | call_last => let (b, l') := last_block l in Ok (returns_block b, l')
  | call_last_id => let (i, l') := last_id l in Ok (returns_id i, l')
  end.
Fixpoint log_run (cs : list log_call) l : res (list log_result * block_database) :=
  match cs with
  | [] => Ok ([], l)
  | c :: cs =>
    let? r := log_step c l in
    let? rs := log_run cs (snd r) in
    Ok (fst r :: fst rs, snd rs)
  end.
Definition empty_log : block_database := mk_block_database [] [] false.

(** ** The specification: maps from numbers to blocks and identifiers *)

Record block_map := mk_block_map {
  bm_blocks : gmap Z signed_block;
  bm_ids : gmap Z block_id;   (* as last recorded, also of removed blocks *)
}.

Definition stored_under (id : block_id) (m : gmap Z signed_block) : option signed_block :=
  match (m !! num_from_id id : option signed_block) with
  | Some b => if bool_decide (header_id b = id) then Some b else None
  | None => None
  end.
Definition is_last (m : gmap Z signed_block) (o : option signed_block) : Prop :=
  match o with
  | None => m = ∅
  | Some b => m !! block_num b = Some b ∧ ∀ n, is_Some (m !! n) → n ≤ block_num b
  end.
(** The search for the last block cuts off the entries after it. *)
Definition up_to (o : option signed_block) (n : Z) : bool :=
  match o with Some b => n <=? block_num b | None => false end.
Definition cut_ids (o : option signed_block) (ids : gmap Z block_id) : gmap Z block_id :=
  filter (λ p, up_to o (fst p) = true) ids.
(** The identifier recorded for a number: there is none, or it is zero, and the call
    throws. *)
Definition recorded_id (n : Z) (ids : gmap Z block_id) : block_id := default null_id (ids !! n).
Definition id_result (id : block_id) : log_result :=
  if bool_decide (id = null_id) then throws else returns_id (Some id).

Inductive spec_step : log_call → block_map → log_result → block_map → Prop :=
  | spec_store b m ids :
      spec_step (call_store b) (mk_block_map m ids) returns
        (mk_block_map (<[block_num b := b]> m) (<[block_num b := header_id b]> ids))
  | spec_remove id m ids :
      is_Some (stored_under id m) →
      spec_step (call_remove id) (mk_block_map m ids) returns (mk_block_map (delete (num_from_id id) m) ids)
  | spec_remove_none id s r :
      stored_under id (bm_blocks s) = None → r = returns ∨ r = throws → spec_step (call_remove id) s r s
  | spec_contains id s :
      spec_step (call_contains id) s
        (returns_bool (negb (bool_decide (id = null_id)) && bool_decide (is_Some (stored_under id (bm_blocks s))))) s
  | spec_fetch_optional id s :
      spec_step (call_fetch_optional id) s (returns_block (stored_under id (bm_blocks s))) s
  | spec_fetch_by_number n s : spec_step (call_fetch_by_number n) s (returns_block (bm_blocks s !! u32 n)) s
  | spec_fetch_block_id n s : spec_step (call_fetch_block_id n) s (id_result (recorded_id (u32 n) (bm_ids s))) s
  | spec_last m ids o :
      is_last m o → spec_step call_last (mk_block_map m ids) (returns_block o) (mk_block_map m (cut_ids o ids))
  | spec_last_id m ids o :
      is_last m o →
      spec_step call_last_id (mk_block_map m ids) (returns_id ((λ b : signed_block, header_id b) <$> o))
        (mk_block_map m (cut_ids o ids)).
Inductive spec_run : list log_call → block_map → list log_result → block_map → Prop :=
  | spec_run_nil s : spec_run [] s [] s
  | spec_run_cons c cs s s1 s2 r rs :
      spec_step c s r s1 → spec_run cs s1 rs s2 → spec_run (c :: cs) s (r :: rs) s2.

(** ** The files hold the map *)

Definition held (e : index_entry) (data : list Z) (b : signed_block) : Prop :=
  packable b ∧ 0 ≤ block_pos e ∧ block_size e = Z.of_nat (length (pack_block b)) ∧
  block_pos e + block_size e ≤ Z.of_nat (length data) ∧
  take (Z.to_nat (block_size e)) (drop (Z.to_nat (block_pos e)) data) = pack_block b.

Record represents l (m : gmap Z signed_block) : Prop := mk_represents {
  rp_good : blocks_failed l = false;
  rp_block n (b : signed_block) : m !! n = Some b →
    block_num b = n ∧ ∃ e, read_entry n l = Some e ∧ entry_id e = header_id b ∧ held e (blocks l) b;
  rp_none n e : 0 ≤ n → m !! n = None → read_entry n l = Some e → block_size e = 0;
}.

(** The entries have the identifiers. *)
Definition records l (ids : gmap Z block_id) : Prop :=
  ∀ n, 0 ≤ n → default null_id (entry_id <$> read_entry n l) = recorded_id n ids.

Lemma block_num_range (b : block_header) : 0 ≤ block_num b < 2 ^ 32.
Proof. unfold block_num, u32. apply Z.mod_pos_bound. lia. Qed.
Lemma pack_not_empty b : packable b → (0 < length (pack_block b))%nat.
Proof.
  intros Hp. destruct (pack_block b) eqn:E; [|simpl; lia]. pose proof (unpack_pack b Hp) as Hu.
  by rewrite E, unpack_nothing in Hu.
Qed.

(** Writing an entry *)
Lemma read_write_entry n e l m f :
  0 ≤ n → 0 ≤ m → read_entry m (mk_block_database (write_entry n e (block_num_to_pos l)) f (blocks_failed l)) =
    if decide (n = m) then Some e
    else match read_entry m l with
         | Some e' => Some e'
         | None => if m <? n then Some empty_entry else None
         end.
Proof.
  intros Hn Hm. unfold read_entry, write_entry. simpl. set (ix := block_num_to_pos l).
  destruct (Nat.ltb_spec (Z.to_nat n) (length ix)) as [Hlt|Hge]; destruct (decide (n = m)) as [->|Hne].
  - by rewrite list_lookup_insert_eq.
  - rewrite list_lookup_insert_ne by lia. destruct (ix !! Z.to_nat m) eqn:E; [done|].
    apply lookup_ge_None in E. by rewrite (proj2 (Z.ltb_ge _ _)) by lia.
  - rewrite lookup_app_r by lia. rewrite lookup_app_r by (rewrite length_replicate; lia).
    rewrite length_replicate, Nat.sub_diag. done.
  - destruct (ix !! Z.to_nat m) eqn:E; [by apply lookup_app_l_Some|]. apply lookup_ge_None in E.
    rewrite lookup_app_r by lia. destruct (Z.ltb_spec m n).
    + rewrite lookup_app_l by (rewrite length_replicate; lia). by apply lookup_replicate_2; lia.
    + rewrite lookup_app_r by (rewrite length_replicate; lia). apply lookup_ge_None. rewrite length_replicate. simpl. lia.
Qed.

Lemma held_app e data more b : held e data b → held e (data ++ more) b.
Proof.
  intros (Hpk & Hp & Hs & Hle & Hd). split_and!; [done|done|done|rewrite length_app; lia|].
  rewrite drop_app_le by lia. rewrite take_app_le; [done|]. rewrite length_drop. lia.
Qed.
Lemma held_last data b id :
  packable b → held (mk_index_entry (Z.of_nat (length data)) (u32 (Z.of_nat (length (pack_block b)))) id) (data ++ pack_block b) b.
Proof.
  intros Hpk. assert (u32 (Z.of_nat (length (pack_block b))) = Z.of_nat (length (pack_block b))) as E.
  { apply Z.mod_small. pose proof (pack_size b Hpk). lia. }
  unfold held. simpl. rewrite E. split_and!; [done|lia|done|rewrite length_app; lia|].
  by rewrite !Nat2Z.id, drop_app_length, firstn_all.
Qed.

Lemma store_represents (b : signed_block) l m :
  represents l m → packable b → ∃ l', store (header_id b) b l = Ok l' ∧ represents l' (<[block_num b := b]> m).
Proof.
  intros [Hgood Hb Hnone] Hpk. unfold store. rewrite Hgood.
  assert ((if bool_decide (header_id b = null_id) then header_id b else header_id b) = header_id b) as -> by (by case_bool_decide).
  eexists. split; [done|]. pose proof (block_num_range b) as Hr. change (num_from_id (header_id b)) with (block_num b).
  rewrite <- Hgood. split; [done| |]; simpl.
  - intros n c [[<- <-]|[Hne Hc]]%lookup_insert_Some.
    + split; [done|]. eexists. rewrite read_write_entry, decide_True by (done || lia). split; [done|]. split; [done|]. by apply held_last.
    + destruct (Hb n c Hc) as (Hn & e & He & Hid & Hheld). split; [done|]. exists e.
      rewrite read_write_entry, decide_False, He by (done || (rewrite <- Hn; apply block_num_range) || lia).
      split; [done|]. split; [done|]. by apply held_app.
  - intros n e Hn [Hm Hne]%lookup_insert_None He. rewrite read_write_entry, decide_False in He by (done || lia).
    destruct (read_entry n l) as [e'|] eqn:E; [injection He as <-; by eapply Hnone|]. case_match; [|done].
    by injection He as <-.
Qed.

(** A number that is not one of a block reads the first entry, as position 0. *)
Lemma to_nat_position (n : Z) : Z.to_nat (Z.max 0 n) = Z.to_nat n.
Proof. lia. Qed.
Lemma read_position n l : read_entry (Z.max 0 n) l = read_entry n l.
Proof. unfold read_entry. by rewrite to_nat_position. Qed.
Lemma write_position n e ix : write_entry (Z.max 0 n) e ix = write_entry n e ix.
Proof. unfold write_entry. by rewrite to_nat_position. Qed.

(** The entry at the number of an identifier: the block stored under it, or no block *)
Lemma entry_of_id l m id e :
  represents l m → read_entry (num_from_id id) l = Some e → entry_id e = id →
  (∃ b, stored_under id m = Some b ∧ m !! num_from_id id = Some b ∧ held e (blocks l) b ∧ header_id b = id) ∨
  stored_under id m = None ∧ m !! Z.max 0 (num_from_id id) = None ∧ block_size e = 0.
Proof.
  intros [Hgood Hb Hnone] He Hid. rewrite <- read_position in He. unfold stored_under.
  destruct (m !! Z.max 0 (num_from_id id)) as [b|] eqn:Hm.
  - left. destruct (Hb _ b Hm) as (Hn & e' & He' & Hid' & Hheld). assert (e' = e) as -> by congruence.
    rewrite Hid in Hid'. assert (num_from_id id = block_num b) as Hnum by (by rewrite Hid').
    assert (Z.max 0 (num_from_id id) = num_from_id id) as Emax.
    { pose proof (block_num_range b). lia. }
    rewrite Emax in Hm.
    exists b. rewrite Hm, bool_decide_eq_true_2 by done. done.
  - right. pose proof (Hnone (Z.max 0 (num_from_id id)) e ltac:(lia) Hm He). split_and!; try done.
    destruct (m !! num_from_id id) as [b|] eqn:Hm'; [|done]. destruct (Hb _ b Hm') as (Hn & _).
    pose proof (block_num_range b). replace (Z.max 0 (num_from_id id)) with (num_from_id id) in Hm by lia. congruence.
Qed.
Lemma stored_under_none l m id :
  represents l m → (∀ e, read_entry (num_from_id id) l = Some e → entry_id e ≠ id) → stored_under id m = None.
Proof.
  intros [_ Hb _] He. unfold stored_under. destruct (m !! num_from_id id) as [b|] eqn:Hm; [|done].
  destruct (Hb _ b Hm) as (_ & e & Hr & Hid & _). case_bool_decide; [|done]. destruct (He e Hr). congruence.
Qed.

Lemma erase_represents l m n e :
  represents l m → 0 ≤ n → read_entry n l = Some e →
  represents (set_block_num_to_pos (write_entry n (mk_index_entry (block_pos e) 0 (entry_id e)) (block_num_to_pos l)) l)
    (delete n m).
Proof.
  intros [Hgood Hb Hnone] Hn He. split; [done| |].
  - intros k b [Hne Hk]%lookup_delete_Some. destruct (Hb k b Hk) as (Hkn & e' & He' & Hid & Hheld).
    split; [done|]. exists e'. pose proof (block_num_range b). unfold set_block_num_to_pos.
    by rewrite read_write_entry, decide_False, He' by (done || lia).
  - intros k e' Hk Hm. unfold set_block_num_to_pos. rewrite read_write_entry by done. case_decide as Hd; [by intros [= <-]|].
    rewrite lookup_delete_ne in Hm by done. destruct (read_entry k l) as [e''|] eqn:E; [intros [= <-]; by eapply Hnone|].
    case_match; [|done]. by intros [= <-].
Qed.
Lemma remove_represents id l m :
  represents l m →
  match remove id l with
  | Ok l' => represents l' (if bool_decide (is_Some (stored_under id m)) then delete (num_from_id id) m else m)
  | Err _ => stored_under id m = None
  end.
Proof.
  intros Hl. unfold remove. destruct (read_entry (num_from_id id) l) as [e|] eqn:He.
  - case_bool_decide as Hid.
    + destruct (entry_of_id l m id e Hl He Hid) as [(b & Hs & Hm & Hheld & Hb)|(Hs & Hm & Hz)].
      * rewrite Hs, bool_decide_eq_true_2 by eauto. apply erase_represents; [done| |done].
        rewrite <- Hb. apply block_num_range.
      * rewrite Hs, bool_decide_eq_false_2 by (by intros [? ?]). rewrite <- write_position.
        rewrite <- (delete_id m _ Hm). apply erase_represents; [done|lia|]. by rewrite read_position.
    + rewrite (stored_under_none l m id), bool_decide_eq_false_2 by (done || (by intros [? ?]) || congruence). done.
  - apply (stored_under_none l); [done|congruence].
Qed.

Lemma fetch_held l e b :
  blocks_failed l = false → held e (blocks l) b → entry_id e = header_id b → fetch_entry e l = (Some b, l).
Proof.
  intros Hgood (Hpk & Hp & Hs & Hle & Hd) Hid. unfold fetch_entry, read_blocks. rewrite Hgood.
  rewrite (proj2 (Z.leb_le _ _) Hle), orb_true_r, Hd. simpl. unfold unpack_entry.
  by rewrite unpack_pack, bool_decide_eq_true_2.
Qed.
Lemma fetch_erased l e : blocks_failed l = false → block_size e = 0 → fetch_entry e l = (None, l).
Proof.
  intros Hgood Hs. unfold fetch_entry, read_blocks. rewrite Hgood, Hs. simpl. unfold unpack_entry.
  by rewrite unpack_nothing.
Qed.

Lemma fetch_by_number_represents n l m : represents l m → 0 ≤ n → fetch_by_number n l = (m !! n, l).
Proof.
  intros [Hgood Hb Hnone] Hn. unfold fetch_by_number. destruct (m !! n) as [b|] eqn:Hm.
  - destruct (Hb n b Hm) as (_ & e & -> & Hid & Hheld). by apply fetch_held.
  - destruct (read_entry n l) as [e|] eqn:He; [|done]. apply fetch_erased; [done|]. by eapply Hnone.
Qed.
Lemma fetch_optional_represents id l m : represents l m → fetch_optional id l = (stored_under id m, l).
Proof.
  intros Hl. unfold fetch_optional. pose proof (rp_good l m Hl).
  destruct (read_entry (num_from_id id) l) as [e|] eqn:He.
  - case_bool_decide as Hid; [|rewrite (stored_under_none l m); [done|done|congruence]].
    destruct (entry_of_id l m id e Hl He Hid) as [(b & -> & _ & Hheld & Hb)|(-> & _ & Hz)].
    + apply fetch_held; [done|done|congruence].
    + by apply fetch_erased.
  - rewrite (stored_under_none l m); [done|done|congruence].
Qed.
Lemma contains_represents id l m :
  represents l m → contains id l = negb (bool_decide (id = null_id)) && bool_decide (is_Some (stored_under id m)).
Proof.
  intros Hl. unfold contains. case_bool_decide; [done|]. simpl.
  destruct (read_entry (num_from_id id) l) as [e|] eqn:He.
  - case_bool_decide as Hid; simpl.
    + destruct (entry_of_id l m id e Hl He Hid) as [(b & -> & _ & Hheld & _)|(-> & _ & ->)].
      * rewrite bool_decide_eq_true_2 by eauto. destruct Hheld as (Hpk & _ & -> & _). apply Z.ltb_lt.
        pose proof (pack_not_empty b Hpk). lia.
      * by rewrite bool_decide_eq_false_2 by (by intros [? ?]).
    + rewrite (stored_under_none l m), bool_decide_eq_false_2 by (done || (by intros [? ?]) || congruence). done.
  - rewrite (stored_under_none l m), bool_decide_eq_false_2 by (done || (by intros [? ?]) || congruence). done.
Qed.

(** The loop from the end of the index *)
Lemma valid_entry l m n b e :
  represents l m → m !! n = Some b → read_entry n l = Some e → entry_valid e l = true.
Proof.
  intros [Hgood Hb _] Hm He. destruct (Hb n b Hm) as (_ & e' & He' & Hid & Hheld). assert (e' = e) as -> by congruence.
  unfold entry_valid. pose proof (fetch_held l e b Hgood Hheld Hid) as Hf. unfold fetch_entry in Hf.
  destruct (read_blocks e l) as [data l'] eqn:E. simpl. injection Hf as -> _. rewrite bool_decide_eq_true_2 by eauto.
  destruct Hheld as (Hpk & _ & Hs & Hle & _). pose proof (pack_not_empty b Hpk).
  rewrite (proj2 (Z.ltb_lt _ _)) by lia. by rewrite (proj2 (Z.leb_le _ _)).
Qed.
Lemma truncate_represents l m n :
  represents l m → (∀ k, is_Some (m !! k) → k < Z.of_nat n) →
  represents (set_block_num_to_pos (take n (block_num_to_pos l)) l) m.
Proof.
  intros [Hgood Hb Hnone] Hn. split; [done| |].
  - intros k b Hk. destruct (Hb k b Hk) as (Hkn & e & He & Hrest). split; [done|]. exists e. split; [|done].
    pose proof (block_num_range b). unfold read_entry in *. simpl. rewrite lookup_take_lt; [done|].
    specialize (Hn k (mk_is_Some _ _ Hk)). lia.
  - intros k e Hk Hm He. unfold read_entry in He. simpl in He. apply lookup_take_Some in He as [He _].
    by apply (Hnone k e).
Qed.
Lemma last_valid_entry_represents n : ∀ l m,
  represents l m → length (block_num_to_pos l) = n →
  let (e, l') := last_valid_entry n l in
  represents l' m ∧ ∃ o, is_last m o ∧ entry_id <$> e = (λ b : signed_block, header_id b) <$> o ∧
    ∀ k, 0 ≤ k → read_entry k l' = if up_to o k then read_entry k l else None.
Proof.
  induction n as [|n IH]; intros l m Hl Hlen; simpl.
  all: assert (∀ k, is_Some (m !! k) → k < Z.of_nat (length (block_num_to_pos l))) as Hkeys by
    (intros k [b Hk]; destruct (rp_block l m Hl k b Hk) as (Hkn & e & He & _); unfold read_entry in He;
     apply lookup_lt_Some in He; pose proof (block_num_range b); lia).
  - split; [done|]. exists None. split_and!; [|done|].
    + apply map_empty. intros k. destruct (m !! k) as [b|] eqn:Hk; [|done].
      destruct (rp_block l m Hl k b Hk) as (Hkn & _). pose proof (block_num_range b).
      specialize (Hkeys k (mk_is_Some _ _ Hk)). lia.
    + intros k Hk. unfold read_entry. simpl. apply lookup_ge_None. lia.
  - destruct (lookup_lt_is_Some_2 (block_num_to_pos l) n) as [e He]; [lia|]. rewrite He.
    assert (read_entry (Z.of_nat n) l = Some e) as Hr by (unfold read_entry; by rewrite Nat2Z.id).
    destruct (m !! Z.of_nat n) as [b|] eqn:Hm.
    + rewrite (valid_entry l m (Z.of_nat n) b e) by done. split; [done|]. exists (Some b).
      destruct (rp_block l m Hl _ b Hm) as (Hkn & e' & He' & Hid & _). assert (e' = e) as -> by congruence.
      split_and!; [|by simpl; rewrite Hid|].
      { split; [by rewrite Hkn|]. intros k Hk. specialize (Hkeys k Hk). lia. }
      intros k Hk. simpl. destruct (Z.leb_spec k (block_num b)); [done|].
      unfold read_entry. apply lookup_ge_None. lia.
    + assert (entry_valid e l = false) as ->.
      { unfold entry_valid. by rewrite (rp_none l m Hl (Z.of_nat n) e) by (done || lia). }
      assert (∀ k, is_Some (m !! k) → k < Z.of_nat n) as Hkeys'.
      { intros k Hk. pose proof (Hkeys k Hk). assert (k ≠ Z.of_nat n) by (intros ->; rewrite Hm in Hk; by destruct Hk). lia. }
      specialize (IH _ m (truncate_represents l m n Hl Hkeys')). simpl in IH. rewrite length_take in IH.
      specialize (IH ltac:(lia)). destruct (last_valid_entry n _) as [e' l']. destruct IH as (Hl' & o & Ho & Hid & Hread).
      split; [done|]. exists o. split_and!; [done|done|]. intros k Hk. rewrite Hread by done.
      destruct (up_to o k) eqn:Hup; [|done]. destruct o as [b|]; [|done]. simpl in Hup. destruct Ho as [Hb _].
      specialize (Hkeys' _ (mk_is_Some _ _ Hb)). unfold read_entry. simpl. apply lookup_take_lt. lia.
Qed.
Lemma last_index_entry_represents l m ids :
  represents l m → records l ids →
  let (e, l') := last_index_entry l in
  represents l' m ∧ ∃ o, is_last m o ∧ entry_id <$> e = (λ b : signed_block, header_id b) <$> o ∧ records l' (cut_ids o ids).
Proof.
  intros Hl Hids. unfold last_index_entry. rewrite (rp_good l m Hl).
  pose proof (last_valid_entry_represents _ l m Hl eq_refl) as Hv. destruct (last_valid_entry _ l) as [e l'].
  destruct Hv as (Hl' & o & Ho & Hid & Hread). split; [done|]. exists o. split_and!; [done|done|].
  intros k Hk. rewrite (Hread k Hk). unfold recorded_id, cut_ids. rewrite map_lookup_filter.
  destruct (up_to o k) eqn:Hup.
  - rewrite (Hids k Hk). unfold recorded_id. destruct (ids !! k); [|done]. simpl. by rewrite option_guard_True.
  - destruct (ids !! k); [|done]. simpl. by rewrite option_guard_False by (simpl; congruence).
Qed.

(** Writing an entry, by the identifiers *)
Lemma records_write l n e f ids :
  records l ids → 0 ≤ n →
  records (mk_block_database (write_entry n e (block_num_to_pos l)) f (blocks_failed l)) (<[n := entry_id e]> ids).
Proof.
  intros Hids Hn k Hk. rewrite read_write_entry by done. unfold recorded_id. case_decide as Hd.
  - subst. by rewrite lookup_insert_eq.
  - rewrite lookup_insert_ne by done. fold (recorded_id k ids). rewrite <- (Hids k Hk).
    destruct (read_entry k l); [done|]. by case_match.
Qed.
Lemma records_rewrite l n e e' ids :
  records l ids → read_entry n l = Some e → entry_id e' = entry_id e →
  records (set_block_num_to_pos (write_entry n e' (block_num_to_pos l)) l) ids.
Proof.
  intros Hids He Hid k Hk. rewrite <- (Hids k Hk). unfold set_block_num_to_pos. rewrite <- write_position.
  rewrite <- read_position in He. rewrite read_write_entry by lia. case_decide as Hd.
  - subst k. rewrite He. simpl. by rewrite Hid.
  - destruct (read_entry k l); [done|]. by case_match.
Qed.

Lemma store_records (b : signed_block) l l' ids :
  records l ids → store (header_id b) b l = Ok l' → records l' (<[block_num b := header_id b]> ids).
Proof.
  intros Hids. unfold store.
  assert ((if bool_decide (header_id b = null_id) then header_id b else header_id b) = header_id b) as -> by (by case_bool_decide).
  destruct (blocks_failed l) eqn:Hgood; [done|]. intros [= <-]. rewrite <- Hgood.
  change (num_from_id (header_id b)) with (block_num b).
  exact (records_write l (block_num b) _ _ ids Hids (proj1 (block_num_range b))).
Qed.
Lemma remove_records id l l' ids : records l ids → remove id l = Ok l' → records l' ids.
Proof.
  intros Hids. unfold remove. destruct (read_entry (num_from_id id) l) as [e|] eqn:He; [|done].
  case_bool_decide; intros [= <-]; [|done]. by apply (records_rewrite l _ e).
Qed.
Lemma fetch_block_id_records n l ids :
  records l ids → 0 ≤ n →
  match fetch_block_id n l with Ok id => returns_id (Some id) | Err _ => throws end = id_result (recorded_id n ids).
Proof.
  intros Hids Hn. rewrite <- (Hids n Hn). unfold fetch_block_id, id_result. destruct (read_entry n l) as [e|]; simpl; [|done].
  by case_bool_decide.
Qed.

(** The blocks that are stored are packable. *)
Definition stores_packable (c : log_call) : Prop :=
  match c with call_store b => packable b | _ => True end.

(** Every call does on the files what the specification does on the maps. *)
Lemma log_step_refines c l s :
  stores_packable c → represents l (bm_blocks s) → records l (bm_ids s) →
  ∃ r l' s', log_step c l = Ok (r, l') ∧ spec_step c s r s' ∧ represents l' (bm_blocks s') ∧ records l' (bm_ids s').
Proof.
  destruct s as [m ids]. simpl. intros Hpk Hl Hids. destruct c as [b|id|id|id|n|n| |]; simpl.
  - destruct (store_represents b l m Hl Hpk) as (l' & E & Hl'). pose proof (store_records b l l' ids Hids E). rewrite E. simpl.
    eexists _, l', _. split; [done|]. split; [constructor|done].
  - pose proof (remove_represents id l m Hl) as H. destruct (remove id l) as [l'|e] eqn:E.
    + pose proof (remove_records id l l' ids Hids E). case_bool_decide as Hs.
      * eexists returns, l', _. split; [done|]. split; [by apply spec_remove|done].
      * exists returns, l', (mk_block_map m ids). split; [done|]. split; [|done]. apply spec_remove_none; [|by left].
        by apply eq_None_not_Some.
    + exists throws, l, (mk_block_map m ids). split; [done|]. split; [|done]. apply spec_remove_none; [done|by right].
  - rewrite (contains_represents id l m) by done. eexists _, l, (mk_block_map m ids). split; [done|]. split; [constructor|done].
  - rewrite (fetch_optional_represents id l m) by done. eexists _, l, (mk_block_map m ids). split; [done|]. split; [constructor|done].
  - rewrite (fetch_by_number_represents (u32 n) l m) by (done || (apply Z.mod_pos_bound; lia)).
    eexists _, l, (mk_block_map m ids). split; [done|]. split; [constructor|done].
  - rewrite (fetch_block_id_records (u32 n) l ids) by (done || (apply Z.mod_pos_bound; lia)).
    eexists _, l, (mk_block_map m ids). split; [done|]. split; [constructor|done].
  - pose proof (last_index_entry_represents l m ids Hl Hids) as H. unfold last_block.
    destruct (last_index_entry l) as [e l']. destruct H as (Hl' & o & Ho & E & Hids').
    assert (match e with Some e => fetch_by_number (num_from_id (entry_id e)) l' | None => (None, l') end = (o, l')) as ->.
    { destruct e as [e|], o as [b|]; try done. injection E as Hid. rewrite Hid.
      change (num_from_id (header_id b)) with (block_num b).
      rewrite (fetch_by_number_represents _ l' m); [|done|apply block_num_range]. destruct Ho as [Hm _].
      by rewrite Hm. }
    eexists (returns_block o), l', _. split; [done|]. split; [by apply spec_last|done].
  - pose proof (last_index_entry_represents l m ids Hl Hids) as H. unfold last_id.
    destruct (last_index_entry l) as [e l']. destruct H as (Hl' & o & Ho & E & Hids').
    rewrite E. eexists _, l', _. split; [done|]. split; [by apply spec_last_id|done].
Qed.
Lemma log_run_refines cs : ∀ l s,
  Forall stores_packable cs → represents l (bm_blocks s) → records l (bm_ids s) →
  ∃ rs l' s', log_run cs l = Ok (rs, l') ∧ spec_run cs s rs s' ∧ represents l' (bm_blocks s') ∧ records l' (bm_ids s').
Proof.
  induction cs as [|c cs IH]; intros l s Hpk Hl Hids; simpl; [eauto 7 using spec_run|].
  inversion Hpk as [|? ? Hc Hcs]; subst.
  destruct (log_step_refines c l s Hc Hl Hids) as (r & l1 & s1 & -> & Hstep & Hl1 & Hids1). simpl.
  destruct (IH l1 s1 Hcs Hl1 Hids1) as (rs & l2 & s2 & -> & Hrun & Hl2 & Hids2). simpl. eauto 8 using spec_run.
Qed.
Lemma empty_log_represents : represents empty_log ∅.
Proof.
  split; [done| |].
  - intros k b H. by rewrite lookup_empty in H.
  - intros k e _ _ H. unfold read_entry in H. simpl in H. by rewrite lookup_nil in H.
Qed.

Lemma empty_log_records : records empty_log ∅.
Proof. intros n _. unfold recorded_id. rewrite lookup_empty. reflexivity. Qed.

Definition empty_map : block_map := mk_block_map ∅ ∅.

(** C25. The block log is a map from block numbers to blocks: whatever is called on new
    files, in any order, with blocks that the format can pack, every call returns
    what the map gives: a block is fetched by its number or its identifier until
    another block of that number is stored or it is removed, and the last block is
    the one with the greatest number. [fetch_block_id] alone follows another map: it
    returns the identifier stored last for its number, also after the block was
    removed, until the search for the last block cuts off what comes after it. No
    read goes past the end of a file. *)
Theorem block_log_refines cs :
  Forall stores_packable cs →
  ∃ rs l s, log_run cs empty_log = Ok (rs, l) ∧ spec_run cs empty_map rs s ∧
    represents l (bm_blocks s) ∧ records l (bm_ids s).
Proof. intros Hcs. by apply log_run_refines; [|apply empty_log_represents|apply empty_log_records]. Qed.

(** [fetch_block_id] does not look at the size that [remove] sets to zero: the
    identifier of a removed block is still found. *)
Lemma removed_block_id (b : signed_block) :
  packable b → header_id b ≠ null_id →
  ∃ l l', store (header_id b) b empty_log = Ok l ∧ remove (header_id b) l = Ok l' ∧
    contains (header_id b) l' = false ∧ fetch_block_id (block_num b) l' = Ok (header_id b).
Proof.
  intros Hpk Hid. destruct (store_represents b empty_log ∅ empty_log_represents Hpk) as (l & Hl & Hrep). exists l.
  destruct (rp_block _ _ Hrep (block_num b) b) as (_ & e & He & Hide & _); [apply lookup_insert_eq|].
  pose proof (remove_represents (header_id b) l _ Hrep) as Hr. unfold remove in *.
  change (num_from_id (header_id b)) with (block_num b) in *. rewrite He, bool_decide_eq_true_2 in * by done.
  eexists. split; [done|]. split; [done|]. pose proof (block_num_range b).
  unfold contains, fetch_block_id. rewrite bool_decide_eq_false_2 by done.
  change (num_from_id (header_id b)) with (block_num b). unfold set_block_num_to_pos.
  rewrite read_write_entry, decide_True by (done || lia). simpl. rewrite bool_decide_eq_true_2 by done.
  rewrite Hide, bool_decide_eq_false_2 by done. done.
Qed.
End block_log.

(** ** A format

    Blocks without transactions: the members of the header, 8 bytes each with the
    lowest first, and the number of transactions, zero. *)
Fixpoint to_bytes (n : nat) (v : Z) : list Z :=
  match n with O => [] | S n => v mod 256 :: to_bytes n (v / 256) end.
Fixpoint of_bytes (l : list Z) : Z :=
  match l with [] => 0 | x :: l => x + 256 * of_bytes l end.

Lemma to_bytes_length n v : length (to_bytes n v) = n.
Proof. revert v. induction n as [|n IH]; intros v; simpl; [done|]. by rewrite IH. Qed.
Lemma of_to_bytes n : ∀ v, 0 ≤ v < 256 ^ Z.of_nat n → of_bytes (to_bytes n v) = v.
Proof.
  induction n as [|n IH]; intros v Hv; [simpl in *; lia|]. simpl to_bytes. cbn [of_bytes].
  rewrite Nat2Z.inj_succ, Z.pow_succ_r in Hv by lia.
  rewrite IH; [|split; [apply Z.div_pos; lia|apply Z.div_lt_upper_bound; lia]].
  pose proof (Z.div_mod v 256). lia.
Qed.

Definition header_members (b : block_header) : list Z :=
  [id_num (bh_previous b); id_hash (bh_previous b); bh_timestamp b; bh_witness b; bh_transaction_merkle_root b; bh_digest b].
Definition pack_words (ws : list Z) : list Z := ws ≫= to_bytes 8.
Fixpoint unpack_words (n : nat) (data : list Z) : list Z :=
  match n with O => [] | S n => of_bytes (take 8 data) :: unpack_words n (drop 8 data) end.

Lemma unpack_pack_words ws more :
  Forall (λ v, 0 ≤ v < 2 ^ 64) ws → unpack_words (length ws) (pack_words ws ++ more) = ws.
Proof.
  induction 1 as [|v ws Hv _ IH]; [done|].
  change (pack_words (v :: ws)) with (to_bytes 8 v ++ pack_words ws). cbn [length unpack_words].
  rewrite <- app_assoc. rewrite take_app_length', drop_app_length' by (by rewrite to_bytes_length).
  by rewrite of_to_bytes, IH by exact Hv.
Qed.

Definition plain_pack (b : signed_block) : list Z := pack_words (header_members b) ++ [0].
Definition plain_unpack (data : list Z) : option signed_block :=
  if bool_decide (length data = 49%nat) then
    match unpack_words 6 data with
    | [n; h; t; w; r; d] => Some (mk_signed_block (mk_block_header (mk_block_id n h) t w r d) [])
    | _ => None
    end
  else None.
Definition plain_packable (b : signed_block) : Prop :=
  sb_transactions b = [] ∧ Forall (λ v, 0 ≤ v < 2 ^ 64) (header_members b).

Lemma plain_pack_length b : length (plain_pack b) = 49%nat.
Proof. unfold plain_pack, pack_words, header_members. simpl. by rewrite ?length_app. Qed.
Lemma plain_unpack_pack b : plain_packable b → plain_unpack (plain_pack b) = Some b.
Proof.
  intros [Ht Hm]. unfold plain_unpack. rewrite bool_decide_eq_true_2 by apply plain_pack_length.
  pose proof (unpack_pack_words (header_members b) [0] Hm) as E. change (length (header_members b)) with 6%nat in E.
  unfold plain_pack. rewrite E. destruct b as [[[] ? ? ? ?] ?]. simpl in *. by subst.
Qed.

#[local] Instance plain_format : BlockFormat := {|
  pack_block := plain_pack;
  unpack_block := plain_unpack;
  packable := plain_packable;
  unpack_pack := plain_unpack_pack;
  unpack_nothing := eq_refl;
  pack_size b _ := ltac:(rewrite plain_pack_length; reflexivity);
|}.
#[local] Instance digest_hash : BlockHash := bh_digest.

(** Two blocks, and another one of the number of the second. *)
Definition log_block (n digest : Z) : signed_block :=
  mk_signed_block (mk_block_header (mk_block_id (n - 1) (digest - 1)) (1000 + 5 * n) 3 0 digest) [].
Definition log_calls : list log_call :=
  [call_store (log_block 1 71); call_store (log_block 2 72); call_fetch_by_number 2; call_store (log_block 2 82);
   call_contains (mk_block_id 2 72); call_fetch_optional (mk_block_id 2 82); call_remove (mk_block_id 2 82);
   call_fetch_by_number 2; call_fetch_block_id 2; call_last; call_fetch_block_id 2].
Definition log_results : list log_result :=
  [returns; returns; returns_block (Some (log_block 2 72)); returns; returns_bool false;
   returns_block (Some (log_block 2 82)); returns; returns_block None; returns_id (Some (mk_block_id 2 82));
   returns_block (Some (log_block 1 71)); throws].

Lemma block_log_refines_witness :
  (∃ l, log_run log_calls empty_log = Ok (log_results, l)) ∧
  ∃ rs l s, log_run log_calls empty_log = Ok (rs, l) ∧ spec_run log_calls empty_map rs s ∧
    represents l (bm_blocks s) ∧ records l (bm_ids s).
Proof.
  split; [vm_compute; eauto|]. apply block_log_refines.
  repeat constructor; simpl; lia.
Defined.
End BlockDatabase.
