(* ===== verification/PushBlock.v ===== *)
(** * Pushing blocks and switching forks

    Models [database::_push_block] and [pop_block] (db_block.cpp) on top of the
    fork database. What a block does to the state of the chain is the class
    [ChainState]; the undo history is the stack of saved states that
    UndoSessions.v shows the undo database to be. *)

From S2P Require Import Prelude Ext Blocks SignedBlocks WitnessSchedule ForkDatabase BlockLog.

(** [database::apply_block] on a state: the exception or the new state, and the
    maximal size the call gave to the undo and the fork database
    ([update_global_dynamic_data]), which is not undone. An applied block extended
    the head block, and is the head block. *)
Class ChainState (St : Type) `{BlockHash} := {
  apply_block : signed_block → St → res St;
  window : signed_block → St → option Z;
  head_block : St → block_id;
  apply_block_head b s s' :
    apply_block b s = Ok s' → bh_previous b = head_block s ∧ head_block s' = header_id b;
}.

(** The state of the node: [history] has the newest saved state first, [block_log]
    is the map from numbers to blocks that BlockLog.v shows the files of
    [_block_id_to_block] to hold, and [popped_tx] has the transactions of popped
    blocks. *)
Record node (St : Type) := mk_node {
  fork_db : fork_database;
  state : St;
  history : list St;
  undo_max : Z;
  block_log : gmap Z signed_block;
  popped_tx : list processed_transaction;
}.
Arguments mk_node {St}.
Arguments fork_db {St}.
Arguments state {St}.
Arguments history {St}.
Arguments undo_max {St}.
Arguments block_log {St}.
Arguments popped_tx {St}.

(** How [_push_block] ends: it returns whether it switched forks, or throws the
    exception of the refused block after the clean-up, or it throws elsewhere. *)
Inductive push_result :=
  | Switched
  | NotSwitched
  | Refused (e : error)
  | Failed (e : error).

Section push_block.
Context {St : Type} {B : BlockHash} {C : ChainState St}.
Implicit Types (n : node St) (b : signed_block).

Definition set_fork_db (f : fork_database) n : node St :=
  mk_node f (state n) (history n) (undo_max n) (block_log n) (popped_tx n).
Definition head_block_id n : block_id := head_block (state n).
Definition head_block_num n : Z := num_from_id (head_block_id n).

(** [undo_database::set_max_size] and [fork_database::set_max_size] *)
Definition set_window (w : option Z) n : node St :=
  match w with
  | None => n
  | Some w =>
    let f := match set_max_size w (fork_db n) with Ok (_, f) => f | Err _ => fork_db n end in
    mk_node f (state n) (history n) w (block_log n) (popped_tx n)
  end.

(** [auto session = _undo_db.start_undo_session(); apply_block( b, skip );
    _block_id_to_block.store( b.id(), b ); session.commit();] *)
Definition apply_in_session b n : node St * res unit :=
  let older := take (Z.to_nat (undo_max n)) (history n) in
  let n' := set_window (window b (state n)) n in
  match apply_block b (state n) with
  | Ok s => (mk_node (fork_db n') s (state n :: older) (undo_max n') (<[block_num b := b]> (block_log n))
                     (popped_tx n), Ok tt)
  | Err e => (mk_node (fork_db n') (state n) older (undo_max n') (block_log n) (popped_tx n), Err e)
  end.

(** [database::fetch_block_by_id] *)
Definition fetch_block_by_id n (id : block_id) : option signed_block :=
  match fetch_block (fork_db n) id with
  | Some a => fi_data <$> items (fork_db n) !! a
  | None => BlockDatabase.stored_under id (block_log n)
  end.

(** [database::is_known_block] and [database::fetch_block_by_number] *)
Definition knows_block n (id : block_id) : bool :=
  is_known_block (fork_db n) id ||
  (negb (bool_decide (id = null_id)) && bool_decide (is_Some (BlockDatabase.stored_under id (block_log n)))).
Definition block_by_number n (num : Z) : option signed_block :=
  match fetch_block_by_number (fork_db n) num with
  | [a] => fi_data <$> items (fork_db n) !! a
  | _ => block_log n !! num
  end.

(** [database::pop_block]; the block is fetched from the fork database or the
    log, the head of the fork database moves to its previous block, the last
    committed session is undone, and the transactions of the block are kept. *)
Definition pop_head n : node St * res unit :=
  match fetch_block_by_id n (head_block_id n) with
  | Some b =>
    match pop_block (fork_db n) with
    | Err e => (n, Err e)
    | Ok (_, f) =>
      match history n with
      | [] => (set_fork_db f n, Err AssertFailure)
      | s :: older => (mk_node f s older (undo_max n) (block_log n) (sb_transactions b ++ popped_tx n), Ok tt)
      end
    end
  | None => (n, Err AssertFailure)
  end.

(** [while( head_block_id() != id ) pop_block();] *)
Fixpoint pop_until (fuel : nat) (id : block_id) n : node St * res unit :=
  if bool_decide (head_block_id n = id) then (n, Ok tt)
  else match fuel with
       | O => (n, Err OutOfFuel)
       | S fuel => match pop_head n with (n, Ok _) => pop_until fuel id n | r => r end
       end.

(** The block of an item. *)
Definition block_of n (a : address) : res fork_item := deref (fork_db n) a.

(** The loop that pushes the blocks of the new fork: where a block is refused, its
    exception with that block and those that are left. *)
Fixpoint push_fork (branch : list address) n : node St * res (option (error * list address)) :=
  match branch with
  | [] => (n, Ok None)
  | a :: branch' =>
    match block_of n a with
    | Err e => (n, Err e)
    | Ok item =>
      match apply_in_session (fi_data item) n with
      | (n, Ok _) => push_fork branch' n
      | (n, Err e) => (n, Ok (Some (e, branch)))
      end
    end
  end.

(** [fork_database::remove] for each of them. *)
Fixpoint remove_items (l : list address) n : node St :=
  match l with
  | [] => n
  | a :: l =>
    let f := match block_of n a with
             | Ok item => set_index (delete (fi_id item) (index (fork_db n))) (fork_db n)
             | Err _ => fork_db n
             end in
    remove_items l (set_fork_db f n)
  end.

(** The loop that restores the blocks of the old fork. *)
Fixpoint restore_fork (branch : list address) n : node St * res unit :=
  match branch with
  | [] => (n, Ok tt)
  | a :: branch =>
    match block_of n a with
    | Err e => (n, Err e)
    | Ok item =>
      match apply_in_session (fi_data item) n with
      | (n, Ok _) => restore_fork branch n
      | r => r
      end
    end
  end.

(** The clean-up after a refused block of the new fork. *)
Definition switch_back (ancestor : block_id) (rest second : list address) (e : error) n : node St * push_result :=
  let n := remove_items rest n in
  let n := set_fork_db (set_head_address (hd_error second) (fork_db n)) n in
  match pop_until (S (length (history n))) ancestor n with
  | (n, Err e') => (n, Failed e')
  | (n, Ok _) =>
    match restore_fork (rev second) n with
    | (n, Err e') => (n, Failed e')
    | (n, Ok _) => (n, Refused e)
    end
  end.

Definition hold (l : list address) n : node St := set_fork_db (set_held l (fork_db n)) n.

(** The switch to the fork of the item [new_head]. *)
Definition switch_fork (new_head : fork_item) n : node St * push_result :=
  match fetch_branch_from (fork_db n) (header_id (fi_data new_head)) (head_block_id n) with
  | Err e => (n, Failed e)
  | Ok (first, second) =>
    let n := hold (first ++ second) n in
    match rbind (of_option Undefined (last second)) (block_of n) with
    | Err e => (hold [] n, Failed e)
    | Ok item =>
      let ancestor := bh_previous (fi_data item) in
      let '(n, r) :=
        match pop_until (S (length (history n))) ancestor n with
        | (n, Err e) => (n, Failed e)
        | (n, Ok _) =>
          match push_fork (rev first) n with
          | (n, Err e) => (n, Failed e)
          | (n, Ok None) => (n, Switched)
          | (n, Ok (Some (e, rest))) => switch_back ancestor rest second e n
          end
        end in
      (hold [] n, r)
    end
  end.

(** The end of [_push_block], for a block that extends the head block. *)
Definition extend b n : node St * push_result :=
  match apply_in_session b n with
  | (n, Ok _) => (n, NotSwitched)
  | (n, Err e) => (set_fork_db (set_index (delete (header_id b) (index (fork_db n))) (fork_db n)) n, Refused e)
  end.

(** [database::_push_block], with the fork database in use *)
Definition node_push_block b n : node St * push_result :=
  match push_block b (fork_db n) with
  | Err e => (n, Failed e)
  | Ok (None, f) => (set_fork_db f n, Failed Undefined)
  | Ok (Some h, f) =>
    let n := set_fork_db f n in
    match block_of n h with
    | Err e => (n, Failed e)
    | Ok new_head =>
      if bool_decide (bh_previous (fi_data new_head) = head_block_id n) then extend b n
      else if head_block_num n <? fi_num new_head then switch_fork new_head n
      else (n, NotSwitched)
    end
  end.
End push_block.
