(* ===== verification/Production.v ===== *)
(** * Pending transactions and the production of blocks

    [database::push_transaction], [push_block], [generate_block] and
    [clear_pending] of chain/db_block.cpp with the clean-up of db_with.hpp, on top
    of the node of PushBlock.v. Keys, signatures and the sizes of packed data are
    those of libraries: classes [BlockProducer] and [BlockPacking]. *)

From S2P Require Import Prelude Ext Config Asset Objects Parameters Governance Blocks Names Operations Validation Fees Ledger Authority Database Evaluator ContractEval Transactions SignedBlocks WitnessSchedule ApplyBlock ForkDatabase PushBlock.

(** The public key of a private one; the digest of the members of a header that
    are only hashed, before it is signed and when it is signed with a key. *)
Class BlockProducer := {
  public_key : Z → Z;
  unsigned_digest : Z;
  signed_digest : Z → block_header → Z;
}.

(** [fc::raw::pack_size] of a transaction, of a block, and of an empty header with
    four bytes to spare *)
Class BlockPacking := {
  pack_size_transaction : processed_transaction → Z;
  pack_size_block : signed_block → Z;
  max_block_header_size : Z;
}.

(** The node with its pending transactions: [fn_session] is the state of the chain
    in the session [_pending_tx_session], when there is one; the state without it
    is that of [fn_node]. *)
Record full_node := mk_full_node {
  fn_node : node chain;
  fn_session : option chain;
  fn_pending_tx : list processed_transaction;
}.
Definition current (n : full_node) : chain := default (state (fn_node n)) (fn_session n).

Section production.
Context {X : Ext} {P : Packing} {N : NthElement} {K : KeyAddresses} {C : ContractMachine} {T : TransactionCrypto}.
Context {B : BlockHash} {G : BlockSigner} {D : BlockProducer} {S : BlockPacking} {St : ChainState chain}.
Context {H : MerkleHash}.
Implicit Types (n : full_node) (c : chain) (b : signed_block).

(** [_apply_transaction] on the state of the chain, with the transaction it
    returns *)
Definition process_transaction (skip : Z) (trx : signed_transaction) : M chain processed_transaction :=
  let! head_num := gets (λ c, head_block_number (c_dgp c)) in
  let! results := on_db (apply_transaction (transaction_steps skip) head_num trx) in
  ret (mk_processed_transaction trx results).

(** [database::push_transaction]: a transaction that fails leaves the state of the
    pending session. *)
Definition push_transaction (skip : Z) (trx : signed_transaction) n : full_node * res processed_transaction :=
  let c := current n in
  match process_transaction skip trx c with
  | Ok (ptx, c') => (mk_full_node (fn_node n) (Some c') (fn_pending_tx n ++ [ptx]), Ok ptx)
  | Err e => (mk_full_node (fn_node n) (Some c) (fn_pending_tx n), Err e)
  end.

(** [database::clear_pending] *)
Definition clear_pending n : full_node := mk_full_node (fn_node n) None [].

(** [database::is_known_transaction] *)
Definition is_known_transaction (trx : signed_transaction) (s : database) : bool :=
  let id := trx_digest_id (stx_transaction trx) in
  existsb (λ x, to_trx_id (snd x) =? id) (map_to_list (d_transactions s)).

(** The loops of [~pending_transactions_restorer]: transactions that do not apply
    any more are dropped; an exception of another kind would leave the destructor
    and end the process. *)
Fixpoint restore_transactions (skip : Z) (trxs : list processed_transaction) n : full_node * res unit :=
  match trxs with
  | [] => (n, Ok tt)
  | trx :: trxs =>
    if is_known_transaction trx (c_db (current n)) then restore_transactions skip trxs n
    else match push_transaction skip trx n with
         | (n, Ok _) => restore_transactions skip trxs n
         | (n, Err e) => if is_fc_exception e then restore_transactions skip trxs n else (n, Err e)
         end
  end.

Definition clear_popped n : full_node :=
  let m := fn_node n in
  mk_full_node (mk_node (fork_db m) (state m) (history m) (undo_max m) (block_log m) [])
    (fn_session n) (fn_pending_tx n).
Definition restore_pending (skip : Z) (pending : list processed_transaction) n : full_node * res unit :=
  match restore_transactions skip (popped_tx (fn_node n)) n with
  | (n, Ok _) => restore_transactions skip pending (clear_popped n)
  | r => r
  end.

(** [database::push_block], with or without the fork database *)
Definition skip_fork_db (skip : Z) : bool := Z.testbit skip 3.
Definition push_new_block (skip : Z) b n : full_node * push_result :=
  let pending := fn_pending_tx n in
  let '(m, r) := (if skip_fork_db skip then extend else node_push_block) b (fn_node (clear_pending n)) in
  match restore_pending skip pending (mk_full_node m None []) with
  | (n, Ok _) => (n, r)
  | (n, Err e) => (n, Failed e)
  end.

(** ** Producing a block *)

(** The checks of the witness and its key. *)
Definition check_producer (when witness_id key skip : Z) c : res unit :=
  let slot_num := get_slot_at_time (schedule_of c) when in
  require? 0 <? slot_num in
  let? scheduled_witness := get_scheduled_witness (schedule_of c) slot_num in
  require? scheduled_witness =? witness_id in
  let? witness := of_option NotFound (d_witnesses (c_db c) !! witness_id) in
  require? skip_witness_signature skip || (wit_signing_key witness =? public_key key) in
  Ok tt.

(** The loop over the pending transactions, in a session: the transactions of the
    block, whose size so far is [size]. A transaction that does not fit is
    postponed, one that does not apply is left out. *)
Fixpoint fill_block (skip max_size : Z) (pending : list processed_transaction)
    (size : Z) (trxs : list processed_transaction) c : chain * res (list processed_transaction) :=
  match pending with
  | [] => (c, Ok trxs)
  | tx :: pending =>
    if max_size <=? size + pack_size_transaction tx then fill_block skip max_size pending size trxs c
    else match process_transaction skip tx c with
         | Ok (ptx, c') => fill_block skip max_size pending (size + pack_size_transaction ptx) (trxs ++ [ptx]) c'
         | Err e => if is_fc_exception e then fill_block skip max_size pending size trxs c else (c, Err e)
         end
  end.

(** [signed_block_header::sign] *)
Definition sign (key : Z) (h : block_header) : block_header :=
  mk_block_header (bh_previous h) (bh_timestamp h) (bh_witness h) (bh_transaction_merkle_root h) (signed_digest key h).

(** The transactions as a block on top of the head. *)
Definition assemble_block (when witness_id key skip : Z) (head_id : block_id) (trxs : list processed_transaction)
    : res signed_block :=
  let? root := calculate_merkle_root trxs in
  let h := mk_block_header head_id when witness_id root unsigned_digest in
  Ok (mk_signed_block (if skip_witness_signature skip then h else sign key h) trxs).

(** [database::_generate_block] up to its call of [push_block]: the session of the
    pending transactions is dropped for one in which they are applied again, and
    that one too. *)
Definition skip_block_size_check (skip : Z) : bool := Z.testbit skip 4.
Definition build_block (when witness_id key skip : Z) n : full_node * res signed_block :=
  match check_producer when witness_id key skip (current n) with
  | Err e => (n, Err e)
  | Ok _ =>
    let maximum_block_size := cp_maximum_block_size (d_parameters (c_db (current n))) in
    let head := state (fn_node n) in
    match fill_block skip maximum_block_size (fn_pending_tx n) max_block_header_size [] head with
    | (c, Err e) => (mk_full_node (fn_node n) (Some c) (fn_pending_tx n), Err e)
    | (_, Ok trxs) =>
      (mk_full_node (fn_node n) None (fn_pending_tx n),
       let? b := assemble_block when witness_id key skip (WitnessSchedule.head_block_id (c_dgp head)) trxs in
       require? skip_block_size_check skip ||
                (pack_size_block b <=? cp_maximum_block_size (d_parameters (c_db head))) in
       Ok b)
    end
  end.

(** [database::generate_block] *)
Definition generate_block (when witness_id key skip : Z) n : full_node * res signed_block :=
  match build_block when witness_id key skip n with
  | (n, Err e) => (n, Err e)
  | (n, Ok b) =>
    match push_new_block skip b n with
    | (n, Switched) | (n, NotSwitched) => (n, Ok b)
    | (n, Refused e) | (n, Failed e) => (n, Err e)
    end
  end.
End production.
