(* ===== verification/UndoDatabase.v ===== *)
(** * Undo sessions of the object database

    Models db/undo_database.cpp and undo_database.hpp, with the operations of
    an index that feed it (db/index.hpp, chain/generic_index.hpp): the record of
    the changes of a session, their undoing, and the merging of nested sessions.
    The objects are of an abstract type; the uniqueness constraints of their
    multi_index containers are a parameter. *)

From S2P Require Import Prelude.

(** ** Data *)

(** [object_id_type]: the space and type, which select the index, and the
    instance. *)
Definition index_id : Type := Z * Z.
Definition object_id : Type := index_id * Z.

(** The order in which the elements of a [std::unordered_map] or [set] are
    visited is that of their hash: any permutation. *)
Class HashOrder := {
  hash_order {A} : list A → list A;
  hash_order_perm {A} (l : list A) : hash_order l ≡ₚ l;
}.

(** [undo_state] *)
Record undo_state (Obj : Type) := mk_undo_state {
  old_values : gmap object_id Obj;
  old_index_next_ids : gmap index_id Z;
  new_ids : gset object_id;
  removed : gmap object_id Obj;
}.
Arguments mk_undo_state {Obj}.
Arguments old_values {Obj}.
Arguments old_index_next_ids {Obj}.
Arguments new_ids {Obj}.
Arguments removed {Obj}.

(** The objects of every index, and [_next_id] of every registered index. *)
Record contents (Obj : Type) := mk_contents {
  objects : gmap object_id Obj;
  next_id : gmap index_id Z;
}.
Arguments mk_contents {Obj}.
Arguments objects {Obj}.
Arguments next_id {Obj}.

(** The object database with its [undo_database]; [stack] has the back of the
    deque first. *)
Record undo_db (Obj : Type) := mk_undo_db {
  current : contents Obj;
  active_sessions : Z;
  disabled : bool;
  stack : list (undo_state Obj);
  max_size : nat;
}.
Arguments mk_undo_db {Obj}.
Arguments current {Obj}.
Arguments active_sessions {Obj}.
Arguments disabled {Obj}.
Arguments stack {Obj}.
Arguments max_size {Obj}.

Section undo_database.
Context {Obj : Type} {H : HashOrder}.

(** The constraints of the indices: the object cannot be in the container with
    these objects, its own identifier apart. *)
Variable collides : gmap object_id Obj → object_id → Obj → bool.

Definition empty_undo : undo_state Obj := mk_undo_state ∅ ∅ ∅ ∅.

Definition set_current (c : contents Obj) (s : undo_db Obj) : undo_db Obj :=
  mk_undo_db c (active_sessions s) (disabled s) (stack s) (max_size s).
Definition set_stack (l : list (undo_state Obj)) (s : undo_db Obj) : undo_db Obj :=
  mk_undo_db (current s) (active_sessions s) (disabled s) l (max_size s).
Definition set_disabled (b : bool) (s : undo_db Obj) : undo_db Obj :=
  mk_undo_db (current s) (active_sessions s) b (stack s) (max_size s).
Definition set_active (n : Z) (s : undo_db Obj) : undo_db Obj :=
  mk_undo_db (current s) n (disabled s) (stack s) (max_size s).

(** A call either returns or throws; the changes made before an exception stay. *)
Definition outcome : Type := undo_db Obj * res unit.
Definition then_do (r : outcome) (k : undo_db Obj → outcome) : outcome :=
  match r with (s, Ok _) => k s | (s, Err e) => (s, Err e) end.
(** [try { .. } catch( const fc::exception& ) { elog(..); }] *)
Definition try_catch (r : outcome) : outcome := (fst r, Ok tt).

(** ** Recording changes *)

(** [if( _stack.empty() ) _stack.emplace_back(); auto& state = _stack.back();] *)
Definition on_back (f : undo_state Obj → undo_state Obj) (s : undo_db Obj) : undo_db Obj :=
  match stack s with
  | [] => set_stack [f empty_undo] s
  | u :: l => set_stack (f u :: l) s
  end.

(** [undo_database::on_create] *)
Definition record_create (id : object_id) (u : undo_state Obj) : undo_state Obj :=
  mk_undo_state (old_values u)
    (match old_index_next_ids u !! fst id with
     | Some _ => old_index_next_ids u
     | None => <[fst id := snd id]> (old_index_next_ids u)
     end) ({[ id ]} ∪ new_ids u) (removed u).
Definition on_create (id : object_id) (s : undo_db Obj) : undo_db Obj :=
  if disabled s then s else on_back (record_create id) s.

(** [undo_database::on_modify] *)
Definition record_modify (id : object_id) (obj : Obj) (u : undo_state Obj) : undo_state Obj :=
  if bool_decide (id ∈ new_ids u) then u
  else match old_values u !! id with
       | Some _ => u
       | None => mk_undo_state (<[id := obj]> (old_values u)) (old_index_next_ids u) (new_ids u) (removed u)
       end.
Definition on_modify (id : object_id) (obj : Obj) (s : undo_db Obj) : undo_db Obj :=
  if disabled s then s else on_back (record_modify id obj) s.

(** [undo_database::on_remove] *)
Definition record_remove (id : object_id) (obj : Obj) (u : undo_state Obj) : undo_state Obj :=
  if bool_decide (id ∈ new_ids u) then
    mk_undo_state (old_values u) (old_index_next_ids u) (new_ids u ∖ {[ id ]}) (removed u)
  else match old_values u !! id with
       | Some old => mk_undo_state (delete id (old_values u)) (old_index_next_ids u) (new_ids u)
                       (<[id := old]> (removed u))
       | None =>
         match removed u !! id with
         | Some _ => u
         | None => mk_undo_state (old_values u) (old_index_next_ids u) (new_ids u) (<[id := obj]> (removed u))
         end
       end.
Definition on_remove (id : object_id) (obj : Obj) (s : undo_db Obj) : undo_db Obj :=
  if disabled s then s else on_back (record_remove id obj) s.

(** ** The operations of an index *)

(** [multi_index_container::insert] refuses an object whose identifier is
    taken, or that violates another unique index. *)
Definition rejects (objs : gmap object_id Obj) (id : object_id) (o : Obj) : bool :=
  bool_decide (is_Some (objs !! id)) || collides objs id o.

(** [primary_index::create] and [generic_index::create] *)
Definition create (i : index_id) (constructor : Z → Obj) (s : undo_db Obj) : outcome :=
  match next_id (current s) !! i with
  | None => (s, Err AssertFailure)
  | Some n =>
    let item := constructor n in
    if rejects (objects (current s)) (i, n) item then (s, Err AssertFailure)
    else (on_create (i, n) (set_current (mk_contents (<[(i, n) := item]> (objects (current s)))
                                                     (<[i := n + 1]> (next_id (current s)))) s), Ok tt)
  end.

(** [primary_index::insert] and [generic_index::insert] *)
Definition insert_object (id : object_id) (o : Obj) (s : undo_db Obj) : outcome :=
  match next_id (current s) !! fst id with
  | None => (s, Err AssertFailure)
  | Some _ =>
    if rejects (objects (current s)) id o then (s, Err AssertFailure)
    else (on_create id (set_current (mk_contents (<[id := o]> (objects (current s)))
                                                 (next_id (current s))) s), Ok tt)
  end.

(** [object_database::modify], [primary_index::modify] and
    [generic_index::modify]: [m] gives the object as the lambda leaves it and
    the exception it throws. The container erases an object that collides after
    its modification. *)
Definition modify (id : object_id) (m : Obj → Obj * option error) (s : undo_db Obj) : outcome :=
  match objects (current s) !! id with
  | None => (s, Err AssertFailure)
  | Some o =>
    let s := on_modify id o s in
    let '(o', exc) := m o in
    let others := delete id (objects (current s)) in
    let ok := negb (collides others id o') in
    let s := set_current (mk_contents (if ok then <[id := o']> (objects (current s)) else others)
                                      (next_id (current s))) s in
    (s, match exc with Some e => Err e | None => if ok then Ok tt else Err AssertFailure end)
  end.

(** [object_database::remove] and [primary_index::remove] *)
Definition remove (id : object_id) (s : undo_db Obj) : outcome :=
  match objects (current s) !! id with
  | None => (s, Err AssertFailure)
  | Some o =>
    let s := on_remove id o s in
    (set_current (mk_contents (delete id (objects (current s))) (next_id (current s))) s, Ok tt)
  end.

(** [primary_index::set_next_id], through [get_mutable_index]. *)
Definition set_next_id (i : index_id) (n : Z) (s : undo_db Obj) : outcome :=
  match next_id (current s) !! i with
  | None => (s, Err AssertFailure)
  | Some _ => (set_current (mk_contents (objects (current s)) (<[i := n]> (next_id (current s)))) s, Ok tt)
  end.

(** ** Sessions *)

(** A loop over the elements of an unordered container. *)
Fixpoint for_each {A} (f : A → undo_db Obj → outcome) (l : list A) (s : undo_db Obj) : outcome :=
  match l with
  | [] => (s, Ok tt)
  | x :: l => then_do (f x s) (for_each f l)
  end.

(** The four loops that undo a state. *)
Definition undo_state_loops (u : undo_state Obj) (s : undo_db Obj) : outcome :=
  then_do (for_each (λ p, λ s, try_catch (modify (fst p) (λ _, (snd p, None)) s))
                    (hash_order (map_to_list (old_values u))) s) (λ s,
  then_do (for_each (λ id, λ s, try_catch (remove id s)) (hash_order (elements (new_ids u))) s) (λ s,
  then_do (for_each (λ p, set_next_id (fst p) (snd p)) (hash_order (map_to_list (old_index_next_ids u))) s) (λ s,
  for_each (λ p, insert_object (fst p) (snd p)) (hash_order (map_to_list (removed u))) s))).

(** [undo_database::undo]; the back of an empty deque is undefined. *)
Definition undo (s : undo_db Obj) : outcome :=
  if disabled s then (s, Err AssertFailure)
  else if active_sessions s <=? 0 then (s, Err AssertFailure)
  else
    match stack s with
    | [] => (s, Err Undefined)
    | u :: _ =>
      then_do (undo_state_loops u (set_disabled true s)) (λ s,
      (set_active (active_sessions s - 1) (set_disabled false (set_stack (tail (stack s)) s)), Ok tt))
    end.

(** [undo_database::merge]: the changes of the back go to the state before it. *)
Definition merge_old_values (u p : undo_state Obj) : undo_state Obj :=
  mk_undo_state
    (map_fold (λ id o acc, if bool_decide (id ∈ new_ids p) then acc
                           else match old_values p !! id with Some _ => acc | None => <[id := o]> acc end)
              (old_values p) (old_values u))
    (old_index_next_ids p) (new_ids p) (removed p).
Definition merge_new_ids (u p : undo_state Obj) : undo_state Obj :=
  mk_undo_state (old_values p) (old_index_next_ids p) (new_ids u ∪ new_ids p) (removed p).
Definition merge_next_ids (u p : undo_state Obj) : undo_state Obj :=
  mk_undo_state (old_values p) (old_index_next_ids p ∪ old_index_next_ids u) (new_ids p) (removed p).
Definition merge_removed_one (id : object_id) (o : Obj) (p : undo_state Obj) : undo_state Obj :=
  if bool_decide (id ∈ new_ids p) then
    mk_undo_state (old_values p) (old_index_next_ids p) (new_ids p ∖ {[ id ]}) (removed p)
  else
    match old_values p !! id with
    | Some old => mk_undo_state (delete id (old_values p)) (old_index_next_ids p) (new_ids p)
                                (<[id := old]> (removed p))
    | None => mk_undo_state (old_values p) (old_index_next_ids p) (new_ids p) (<[id := o]> (removed p))
    end.
Definition merge_removed (u p : undo_state Obj) : undo_state Obj :=
  map_fold merge_removed_one p (removed u).
Definition merge_states (u p : undo_state Obj) : undo_state Obj :=
  merge_removed u (merge_next_ids u (merge_new_ids u (merge_old_values u p))).

Definition merge (s : undo_db Obj) : outcome :=
  if active_sessions s <=? 0 then (s, Err AssertFailure)
  else if (active_sessions s =? 1) && (length (stack s) =? 1)%nat then
    (set_active (active_sessions s - 1) (set_stack (tail (stack s)) s), Ok tt)
  else
    match stack s with
    | u :: p :: l => (set_active (active_sessions s - 1) (set_stack (merge_states u p :: l) s), Ok tt)
    | _ => (s, Err AssertFailure)
    end.

(** [undo_database::commit] *)
Definition commit (s : undo_db Obj) : outcome :=
  if active_sessions s <=? 0 then (s, Err AssertFailure)
  else (set_active (active_sessions s - 1) s, Ok tt).

(** [undo_database::pop_commit] *)
Definition pop_commit (s : undo_db Obj) : outcome :=
  if negb (active_sessions s =? 0) then (s, Err AssertFailure)
  else
    match stack s with
    | [] => (s, Err AssertFailure)
    | u :: _ =>
      match undo_state_loops u (set_disabled true s) with
      | (s, Ok _) => (set_disabled false (set_stack (tail (stack s)) s), Ok tt)
      | (s, Err e) => (set_disabled false s, Err e)
      end
    end.

(** [undo_database::start_undo_session]: a new state, after the oldest ones
    beyond [max_size] are dropped. *)
Definition start_undo_session (force_enable : bool) (s : undo_db Obj) : outcome :=
  if disabled s && negb force_enable then (s, Ok tt)
  else
    let s := if force_enable then set_disabled false s else s in
    (set_active (active_sessions s + 1) (set_stack (empty_undo :: take (max_size s) (stack s)) s), Ok tt).

(** [undo_database::session]: the object the caller holds. A member function
    changes it and the database. *)
Record session := mk_session { apply_undo : bool; disable_on_exit : bool }.

Definition start_session (force_enable : bool) (s : undo_db Obj) : undo_db Obj * session :=
  (fst (start_undo_session force_enable s), mk_session true (disabled s && force_enable)).

Definition session_commit (h : session) (s : undo_db Obj) : session * outcome :=
  (mk_session false (disable_on_exit h), commit s).
(** [if( _apply_undo ) f(); _apply_undo = false;] *)
Definition session_call (f : undo_db Obj → outcome) (h : session) (s : undo_db Obj) : session * outcome :=
  let spent := mk_session false (disable_on_exit h) in
  if apply_undo h then
    match f s with
    | (s, Ok _) => (spent, (s, Ok tt))
    | (s, Err e) => (h, (s, Err e))
    end
  else (spent, (s, Ok tt)).
Definition session_undo : session → undo_db Obj → session * outcome := session_call undo.
Definition session_merge : session → undo_db Obj → session * outcome := session_call merge.

(** [~session()]: a session that was neither committed nor merged is undone. *)
Definition session_end (h : session) (s : undo_db Obj) : outcome :=
  then_do (if apply_undo h then undo s else (s, Ok tt)) (λ s,
  (if disable_on_exit h then set_disabled true s else s, Ok tt)).
End undo_database.
