(* ===== verification/UndoSessions.v ===== *)
(** * Undo sessions are a stack of snapshots

    The specification of UndoDatabase.v: a machine that saves a whole copy of
    the database when a session starts and puts it back when the session is
    undone. The unique indices of the containers are given by the keys of an
    object ([unique_keys]); an object that is created with the key of another
    one is refused by both machines. [simulates] relates the two, and every call
    preserves it in a [clash_free] run: no object is modified to the key of
    another one, and, when a session is undone, no object that was there at its
    start and still is gets a key back that another object has now. Without the
    second condition the code loses objects ([undo_loses_exchanged_object]). *)

From S2P Require Import Prelude UndoDatabase.

(** ** The specification *)

Record snapshots (Obj : Type) := mk_snapshots {
  sn_current : contents Obj;
  sn_active : Z;
  sn_saved : list (contents Obj);
}.
Arguments mk_snapshots {Obj}.
Arguments sn_current {Obj}.
Arguments sn_active {Obj}.
Arguments sn_saved {Obj}.

(** The calls on the database. *)
Inductive call (Obj : Type) :=
  | call_create (i : index_id) (constructor : Z → Obj)
  | call_modify (id : object_id) (m : Obj → Obj * option error)
  | call_remove (id : object_id)
  | call_start
  | call_undo
  | call_merge
  | call_commit
  | call_pop_commit.
Arguments call_create {Obj}.
Arguments call_modify {Obj}.
Arguments call_remove {Obj}.
Arguments call_start {Obj}.
Arguments call_undo {Obj}.
Arguments call_merge {Obj}.
Arguments call_commit {Obj}.
Arguments call_pop_commit {Obj}.

(** ** Unique indices

    The keys an object takes in the unique indices of its container; a key says
    which index it is of. *)
Class UniqueKeys (Obj : Type) := {
  key : Type;
  #[global] key_eq_decision :: EqDecision key;
  unique_keys : object_id → Obj → list key;
}.

Section unique_indices.
Context {Obj : Type} {U : UniqueKeys Obj}.
Implicit Types (id : object_id) (o : Obj) (d c : gmap object_id Obj).

(** Two objects of different identifiers with a key in common. *)
Definition clash id o id' o' : bool :=
  bool_decide (id ≠ id') && existsb (λ k, bool_decide (k ∈ unique_keys id' o')) (unique_keys id o).

Definition key_taken d id o : bool := existsb (λ p, clash id o (fst p) (snd p)) (map_to_list d).

(** The objects of [c] that exist in [d] take no key another object of [d] has. *)
Definition restorable d c : bool :=
  forallb (λ p, bool_decide (d !! fst p = None) || negb (key_taken d (fst p) (snd p))) (map_to_list c).

Definition consistent d : Prop := ∀ id o, d !! id = Some o → key_taken d id o = false.

Lemma clash_sym id o id' o' : clash id o id' o' = clash id' o' id o.
Proof.
  unfold clash. f_equal; [apply bool_decide_ext; split; congruence|].
  apply eq_true_iff_eq. rewrite !existsb_exists. setoid_rewrite bool_decide_eq_true.
  setoid_rewrite <- list_elem_of_In. naive_solver.
Qed.

Lemma key_taken_false d id o :
  key_taken d id o = false ↔ ∀ id' o', d !! id' = Some o' → clash id o id' o' = false.
Proof.
  unfold key_taken. rewrite <- not_true_iff_false, existsb_exists. split.
  - intros Hd id' o' Hid'. apply not_true_iff_false. intros Hc. apply Hd. exists (id', o').
    by rewrite <- list_elem_of_In, elem_of_map_to_list.
  - intros Hd ([id' o'] & Hin & Hc). rewrite <- list_elem_of_In, elem_of_map_to_list in Hin.
    simpl in Hc. by rewrite (Hd _ _ Hin) in Hc.
Qed.

Lemma clash_self id o o' : clash id o id o' = false.
Proof. unfold clash. by rewrite bool_decide_eq_false_2 by naive_solver. Qed.

Lemma restorable_spec d c :
  restorable d c = true → ∀ id o, c !! id = Some o → is_Some (d !! id) → key_taken d id o = false.
Proof.
  unfold restorable. rewrite forallb_forall. intros Hc id o Hid [x Hx].
  specialize (Hc (id, o)). rewrite <- list_elem_of_In, elem_of_map_to_list in Hc. specialize (Hc Hid).
  simpl in Hc. rewrite Hx in Hc. by apply negb_true_iff.
Qed.

Lemma consistent_insert d id o : consistent d → key_taken d id o = false → consistent (<[id := o]> d).
Proof.
  intros Hd Ho j x Hj. apply key_taken_false. intros j' x' Hj'. rewrite key_taken_false in Ho.
  apply lookup_insert_Some in Hj as [[<- <-]|[Hne Hj]], Hj' as [[<- <-]|[Hne' Hj']].
  - apply clash_self.
  - by apply Ho.
  - rewrite clash_sym. by apply Ho.
  - by apply (proj1 (key_taken_false d j x) (Hd _ _ Hj)).
Qed.

Lemma consistent_delete d id : consistent d → consistent (delete id d).
Proof.
  intros Hd j x [_ Hj]%lookup_delete_Some. apply key_taken_false. intros j' x' [_ Hj']%lookup_delete_Some.
  by apply (proj1 (key_taken_false d j x) (Hd _ _ Hj)).
Qed.

Lemma key_taken_delete d id o : key_taken (delete id d) id o = key_taken d id o.
Proof.
  apply eq_true_iff_eq. rewrite <- !not_false_iff_true, !key_taken_false. apply not_iff_compat. split.
  - intros Hd id' o' Hid'. destruct (decide (id' = id)) as [->|]; [apply clash_self|].
    apply Hd. by rewrite lookup_delete_ne.
  - intros Hd id' o' [_ Hid']%lookup_delete_Some. by apply Hd.
Qed.
End unique_indices.

Section specification.
Context {Obj : Type} {U : UniqueKeys Obj}.
Implicit Types (c : contents Obj) (a : snapshots Obj).

(** New contents; the first change outside a session saves a copy as well. *)
Definition change c a : snapshots Obj :=
  mk_snapshots c (sn_active a) (match sn_saved a with [] => [sn_current a] | l => l end).

(** Back to the last copy. *)
Definition put_back a : option (snapshots Obj) :=
  match sn_saved a with
  | [] => None
  | c :: l => Some (mk_snapshots c (sn_active a) l)
  end.

Definition end_session a : snapshots Obj := mk_snapshots (sn_current a) (sn_active a - 1) (sn_saved a).

Definition spec_call (max : nat) (k : call Obj) a : snapshots Obj * res unit :=
  let c := sn_current a in
  match k with
  | call_create i constructor =>
    match next_id c !! i with
    | None => (a, Err AssertFailure)
    | Some n =>
      if key_taken (objects c) (i, n) (constructor n) then (a, Err AssertFailure)
      else (change (mk_contents (<[(i, n) := constructor n]> (objects c)) (<[i := n + 1]> (next_id c))) a, Ok tt)
    end
  | call_modify id m =>
    match objects c !! id with
    | None => (a, Err AssertFailure)
    | Some o => (change (mk_contents (<[id := fst (m o)]> (objects c)) (next_id c)) a,
                 match snd (m o) with Some e => Err e | None => Ok tt end)
    end
  | call_remove id =>
    match objects c !! id with
    | None => (a, Err AssertFailure)
    | Some _ => (change (mk_contents (delete id (objects c)) (next_id c)) a, Ok tt)
    end
  | call_start => (mk_snapshots c (sn_active a + 1) (c :: take max (sn_saved a)), Ok tt)
  | call_undo =>
    if sn_active a <=? 0 then (a, Err AssertFailure)
    else match put_back a with
         | None => (a, Err Undefined)
         | Some a' => (end_session a', Ok tt)
         end
  | call_merge =>
    if sn_active a <=? 0 then (a, Err AssertFailure)
    else if (sn_active a =? 1) && (length (sn_saved a) =? 1)%nat then
      (end_session (mk_snapshots c (sn_active a) []), Ok tt)
    else match sn_saved a with
         | _ :: p :: l => (end_session (mk_snapshots c (sn_active a) (p :: l)), Ok tt)
         | _ => (a, Err AssertFailure)
         end
  | call_commit =>
    if sn_active a <=? 0 then (a, Err AssertFailure) else (end_session a, Ok tt)
  | call_pop_commit =>
    if negb (sn_active a =? 0) then (a, Err AssertFailure)
    else match put_back a with
         | None => (a, Err AssertFailure)
         | Some a' => (a', Ok tt)
         end
  end.

(** A sequence of calls, with their results. *)
Fixpoint spec_calls (max : nat) (l : list (call Obj)) a : snapshots Obj * list (res unit) :=
  match l with
  | [] => (a, [])
  | k :: l =>
    let '(a, r) := spec_call max k a in
    let '(a, rs) := spec_calls max l a in (a, r :: rs)
  end.

(** The calls that meet no key of another object, the creation of an object
    apart, which is refused. *)
Definition meets_no_key (k : call Obj) a : bool :=
  match k with
  | call_modify id m =>
    match objects (sn_current a) !! id with
    | Some o => negb (key_taken (objects (sn_current a)) id (fst (m o)))
    | None => true
    end
  | call_undo | call_pop_commit =>
    match sn_saved a with
    | c :: _ => restorable (objects (sn_current a)) (objects c)
    | [] => true
    end
  | _ => true
  end.

Fixpoint clash_free (max : nat) (l : list (call Obj)) a : bool :=
  match l with
  | [] => true
  | k :: l => meets_no_key k a && clash_free max l (fst (spec_call max k a))
  end.
End specification.

(** ** The implementation, call by call *)
Section implementation.
Context {Obj : Type} {H : HashOrder}.
Variable collides : gmap object_id Obj → object_id → Obj → bool.

Definition run_call (k : call Obj) (s : undo_db Obj) : undo_db Obj * res unit :=
  match k with
  | call_create i constructor => create collides i constructor s
  | call_modify id m => modify collides id m s
  | call_remove id => remove id s
  | call_start => start_undo_session false s
  | call_undo => undo collides s
  | call_merge => merge s
  | call_commit => commit s
  | call_pop_commit => pop_commit collides s
  end.

Fixpoint run_calls (l : list (call Obj)) (s : undo_db Obj) : undo_db Obj * list (res unit) :=
  match l with
  | [] => (s, [])
  | k :: l =>
    let '(s, r) := run_call k s in
    let '(s, rs) := run_calls l s in (s, r :: rs)
  end.
End implementation.

(** ** The relation between a state of changes and a snapshot *)
Section saved.
Context {Obj : Type} {U : UniqueKeys Obj}.
Implicit Types (u p : undo_state Obj) (c d : contents Obj) (id : object_id) (i : index_id).

(** Identifiers in use are below the next one of their index. *)
Definition bounded c : Prop :=
  ∀ id o, objects c !! id = Some o → ∃ n, next_id c !! fst id = Some n ∧ snd id < n.

(** What the state records of one object, now [d] and [s] in the snapshot. *)
Definition entry u (id : object_id) (d s : option Obj) : Prop :=
  match removed u !! id with
  | Some o => s = Some o ∧ d = None ∧ id ∉ new_ids u ∧ old_values u !! id = None
  | None =>
    if bool_decide (id ∈ new_ids u) then s = None ∧ is_Some d ∧ old_values u !! id = None
    else match old_values u !! id with
         | Some o => s = Some o ∧ is_Some d
         | None => s = d
         end
  end.

Definition next_entry u (i : index_id) (d s : option Z) : Prop :=
  match old_index_next_ids u !! i with
  | Some n => s = Some n ∧ ∃ m, d = Some m ∧ n ≤ m
  | None => s = d
  end.

(** Undoing the changes [u] in [d] gives [c]. *)
Record saved u d c : Prop := mk_saved {
  saved_entries id : entry u id (objects d !! id) (objects c !! id);
  saved_next i : next_entry u i (next_id d !! i) (next_id c !! i);
  saved_bounded : bounded c;
  saved_fresh id : id ∈ new_ids u → ∃ n, next_id c !! fst id = Some n ∧ n ≤ snd id;
}.

(** The snapshots of a stack. *)
Fixpoint chain (l : list (undo_state Obj)) d (cs : list (contents Obj)) : Prop :=
  match l, cs with
  | [], [] => True
  | u :: l, c :: cs => saved u d c ∧ chain l c cs
  | _, _ => False
  end.

(** The implementation is in the state the specification says. *)
Record simulates (s : undo_db Obj) (a : snapshots Obj) : Prop := mk_simulates {
  sim_enabled : disabled s = false;
  sim_current : current s = sn_current a;
  sim_active : active_sessions s = sn_active a;
  sim_bounded : bounded (current s);
  sim_chain : chain (stack s) (current s) (sn_saved a);
  sim_consistent : Forall (λ c, consistent (objects c)) (sn_current a :: sn_saved a);
}.

Lemma saved_empty c : bounded c → saved empty_undo c c.
Proof. intros Hc. by split. Qed.

(** ** Recording keeps the snapshot *)

Lemma saved_create u d c id o :
  saved u d c → bounded d → next_id d !! fst id = Some (snd id) →
  saved (record_create id u)
    (mk_contents (<[id := o]> (objects d)) (<[fst id := snd id + 1]> (next_id d))) c.
Proof.
  intros [He Hn Hb Hf] Hd Hi.
  assert (objects d !! id = None) as Hfresh.
  { destruct (objects d !! id) as [x|] eqn:E; [|done]. destruct (Hd _ _ E) as (m & Hm & ?).
    rewrite Hi in Hm. injection Hm as <-. lia. }
  split; [| |done|].
  - intros j. specialize (He j). unfold entry in *; simpl. destruct (decide (j = id)) as [->|Hne].
    + rewrite Hfresh in He. rewrite lookup_insert_eq, (bool_decide_eq_true_2 (_ ∈ {[_]} ∪ _)) by set_solver.
      destruct (removed u !! id) as [x|] eqn:Er.
      { destruct He as (Hs & _). destruct (Hb _ _ Hs) as (m & Hm & ?). specialize (Hn (fst id)). unfold next_entry in Hn.
        destruct (old_index_next_ids u !! fst id); [destruct Hn as (? & ? & ? & ?); simplify_eq; lia|rewrite Hn, Hi in Hm; simplify_eq; lia]. }
      case_bool_decide; [by destruct He as (_ & [] & _)|].
      destruct (old_values u !! id); [by destruct He as (_ & [])|]. by rewrite He.
    + rewrite lookup_insert_ne by done. destruct (removed u !! j); [|case_bool_decide; case_bool_decide; set_solver].
      set_solver.
  - intros j. specialize (Hn j). unfold next_entry in *; simpl. destruct (decide (j = fst id)) as [->|Hne].
    + rewrite lookup_insert_eq. destruct (old_index_next_ids u !! fst id) as [x|] eqn:E; simpl.
      * rewrite E. destruct Hn as (? & m & Hm & ?). simplify_eq. eauto with lia.
      * rewrite lookup_insert_eq. rewrite Hn, Hi. split; [done|]. exists (snd id + 1). split; [done|lia].
    + rewrite lookup_insert_ne by done. destruct (old_index_next_ids u !! fst id); [done|].
      by rewrite lookup_insert_ne.
  - unfold record_create; simpl. intros j [->%elem_of_singleton|Hj]%elem_of_union; [|by apply Hf]. specialize (Hn (fst id)). unfold next_entry in Hn.
    destruct (old_index_next_ids u !! fst id) as [x|]; [|rewrite Hn, Hi; eauto with lia].
    destruct Hn as (Hx & m & Hm & ?). rewrite Hi in Hm. injection Hm as <-. eauto.
Qed.

Lemma saved_modify u d c id o o' :
  saved u d c → objects d !! id = Some o →
  saved (record_modify id o u) (mk_contents (<[id := o']> (objects d)) (next_id d)) c.
Proof.
  intros [He Hn Hb Hf] Hid.
  assert (new_ids (record_modify id o u) = new_ids u ∧ removed (record_modify id o u) = removed u ∧
          old_index_next_ids (record_modify id o u) = old_index_next_ids u) as (En & Er & Ex).
  { unfold record_modify. repeat case_match; done. }
  split; [| |done|].
  - intros j. specialize (He j). unfold entry in *. rewrite En, Er. simpl. destruct (decide (j = id)) as [->|Hne].
    + rewrite Hid in He. rewrite lookup_insert_eq. unfold record_modify.
      destruct (removed u !! id); [naive_solver|]. case_bool_decide; [naive_solver|].
      destruct (old_values u !! id) eqn:Eo; simpl; [rewrite Eo; naive_solver|].
      rewrite lookup_insert_eq. naive_solver.
    + rewrite lookup_insert_ne by done. unfold record_modify.
      destruct (bool_decide (id ∈ new_ids u)); [done|]. destruct (old_values u !! id); [done|]. simpl. by rewrite lookup_insert_ne.
  - intros j. specialize (Hn j). unfold next_entry in *. by rewrite Ex.
  - rewrite En. exact Hf.
Qed.

Lemma saved_remove u d c id o :
  saved u d c → objects d !! id = Some o →
  saved (record_remove id o u) (mk_contents (delete id (objects d)) (next_id d)) c.
Proof.
  intros [He Hn Hb Hf] Hid.
  assert (old_index_next_ids (record_remove id o u) = old_index_next_ids u) as Ex.
  { unfold record_remove. repeat case_match; done. }
  split; [| |done|].
  - intros j. specialize (He j) as Hj. specialize (He id). unfold entry in *. simpl. rewrite Hid in He.
    unfold record_remove. destruct (removed u !! id) eqn:Er; [naive_solver|].
    destruct (decide (j = id)) as [->|Hne].
    + rewrite lookup_delete_eq. case_bool_decide; simpl.
      * rewrite Er, bool_decide_eq_false_2 by set_solver. destruct He as (-> & _ & ->). done.
      * destruct (old_values u !! id) eqn:Eo; simpl; rewrite lookup_insert_eq; [|by rewrite Eo].
        rewrite lookup_delete_eq. naive_solver.
    + rewrite lookup_delete_ne by done. destruct (bool_decide (id ∈ new_ids u)); simpl.
      * destruct (removed u !! j); [set_solver|]. rewrite (bool_decide_ext (j ∈ new_ids u ∖ {[id]}) (j ∈ new_ids u)) by set_solver. done.
      * destruct (old_values u !! id) eqn:Eo; simpl; rewrite lookup_insert_ne by done; [|done].
        by rewrite lookup_delete_ne.
  - intros j. specialize (Hn j). unfold next_entry in *. by rewrite Ex.
  - intros j Hj. apply Hf. unfold record_remove in Hj. repeat case_match; simpl in Hj; set_solver.
Qed.
End saved.

(** ** Undoing puts the snapshot back *)
#[local] Set Default Proof Using "Type*".

Section plain_loops.
Context {Obj : Type}.
Implicit Types (s : undo_db Obj) (id : object_id).

(** The state with other contents. *)
Definition with_objects (objs : gmap object_id Obj) s : undo_db Obj :=
  set_current (mk_contents objs (next_id (current s))) s.
Definition with_next (n : gmap index_id Z) s : undo_db Obj :=
  set_current (mk_contents (objects (current s)) n) s.

Lemma remove_disabled id s :
  disabled s = true → is_Some (objects (current s) !! id) →
  remove id s = (with_objects (delete id (objects (current s))) s, Ok tt).
Proof. intros Hs [x Hx]. unfold remove, on_remove. by rewrite Hx, Hs. Qed.

Lemma removes_loop : ∀ l s,
  disabled s = true → NoDup l → (∀ id, id ∈ l → is_Some (objects (current s) !! id)) →
  ∃ objs, for_each (λ id, λ s, try_catch (remove id s)) l s = (with_objects objs s, Ok tt) ∧
    (∀ id, objs !! id = if bool_decide (id ∈ l) then None else objects (current s) !! id).
Proof.
  induction l as [|id l IH]; intros s Hs Hnd Hin; simpl.
  { exists (objects (current s)). split; [by destruct s as [[] ? ? ? ?]|]. done. }
  apply NoDup_cons in Hnd as [Hid Hnd].
  rewrite remove_disabled by (try done; apply Hin; set_solver). simpl.
  destruct (IH (with_objects (delete id (objects (current s))) s)) as (objs & -> & Ho); [done|done| |].
  { intros id' Hp. simpl. rewrite lookup_delete_ne by set_solver. apply Hin. set_solver. }
  exists objs. split; [done|]. intros id'. rewrite Ho. simpl. destruct (decide (id' = id)) as [->|Hne].
  - rewrite lookup_delete_eq, (bool_decide_eq_true_2 (id ∈ id :: l)) by (by left). by case_match.
  - rewrite lookup_delete_ne by done. assert (id' ∈ id :: l ↔ id' ∈ l) as E.
    { rewrite elem_of_cons. naive_solver. }
    by rewrite (bool_decide_ext _ _ E).
Qed.

Lemma nexts_loop : ∀ l s,
  NoDup (l.*1) → (∀ p, p ∈ l → is_Some (next_id (current s) !! fst p)) →
  ∃ nexts, for_each (λ p, set_next_id (fst p) (snd p)) l s = (with_next nexts s, Ok tt) ∧
    (∀ i n, (i, n) ∈ l → nexts !! i = Some n) ∧
    (∀ i, i ∉ l.*1 → nexts !! i = next_id (current s) !! i).
Proof.
  induction l as [|[i n] l IH]; intros s Hnd Hin; simpl.
  { exists (next_id (current s)). split; [by destruct s as [[] ? ? ? ?]|]. split; [set_solver|done]. }
  apply NoDup_cons in Hnd as [Hid Hnd].
  destruct (Hin (i, n)) as [m Hm]; [set_solver|]. simpl in Hm. unfold set_next_id at 1. rewrite Hm. simpl.
  fold (with_next (<[i := n]> (next_id (current s))) s).
  destruct (IH (with_next (<[i := n]> (next_id (current s))) s)) as (nexts & -> & Hv & Ho); [done| |].
  { intros p Hp. simpl. destruct (decide (fst p = i)) as [->|]; [rewrite lookup_insert_eq; eauto|].
    rewrite lookup_insert_ne by done. apply Hin. set_solver. }
  exists nexts. split; [done|]. split.
  - intros i' n' [[= -> ->]|Hp]%elem_of_cons; [|by apply Hv]. rewrite Ho by done. apply lookup_insert_eq.
  - intros i' Hi'. rewrite Ho by set_solver. apply lookup_insert_ne. set_solver.
Qed.
End plain_loops.

Section loops.
Context {Obj : Type}.
Variable collides : gmap object_id Obj → object_id → Obj → bool.
Implicit Types (s : undo_db Obj) (id : object_id).

Lemma modify_disabled id o s :
  disabled s = true → is_Some (objects (current s) !! id) →
  collides (delete id (objects (current s))) id o = false →
  modify collides id (λ _, (o, None)) s = (with_objects (<[id := o]> (objects (current s))) s, Ok tt).
Proof.
  intros Hs [x Hx] Hc. unfold modify, on_modify. rewrite Hx, Hs. simpl. by rewrite Hc.
Qed.

Lemma insert_disabled id o s :
  disabled s = true → objects (current s) !! id = None → is_Some (next_id (current s) !! fst id) →
  collides (objects (current s)) id o = false →
  insert_object collides id o s = (with_objects (<[id := o]> (objects (current s))) s, Ok tt).
Proof.
  intros Hs Hid [n Hn] Hc. unfold insert_object, rejects, on_create. rewrite Hn, Hid, Hc. simpl. by rewrite Hs.
Qed.

(** The objects of [l] can be put among those of [d] and [l], in any order. *)
Definition fits (d : gmap object_id Obj) (l : list (object_id * Obj)) : Prop :=
  ∀ objs id o, (id, o) ∈ l → (∀ id' o', objs !! id' = Some o' → d !! id' = Some o' ∨ (id', o') ∈ l) →
  collides objs id o = false.

Lemma fits_tail d id o l : fits d ((id, o) :: l) → fits (<[id := o]> d) l.
Proof.
  intros Hl objs j x Hj Hobjs. apply Hl; [set_solver|]. intros id' o' Hid'.
  destruct (Hobjs _ _ Hid') as [[[<- <-]|[_ Hd]]%lookup_insert_Some|]; [|by left|]; right; set_solver.
Qed.

Lemma fits_head d id o l : fits d ((id, o) :: l) → collides d id o = false ∧ collides (delete id d) id o = false.
Proof.
  intros Hl. split; apply Hl; try set_solver.
  intros id' o' [_ ?]%lookup_delete_Some. by left.
Qed.

Lemma values_loop : ∀ l s,
  disabled s = true → NoDup (l.*1) → (∀ p, p ∈ l → is_Some (objects (current s) !! fst p)) →
  fits (objects (current s)) l →
  ∃ objs, for_each (λ p, λ s, try_catch (modify collides (fst p) (λ _, (snd p, None)) s)) l s =
            (with_objects objs s, Ok tt) ∧
    (∀ id o, (id, o) ∈ l → objs !! id = Some o) ∧
    (∀ id, id ∉ l.*1 → objs !! id = objects (current s) !! id).
Proof.
  induction l as [|[id o] l IH]; intros s Hs Hnd Hin Hfit; simpl.
  { exists (objects (current s)). split; [by destruct s as [[] ? ? ? ?]|]. split; [set_solver|done]. }
  apply NoDup_cons in Hnd as [Hid Hnd].
  rewrite modify_disabled by first [done|apply (Hin (id, o)); set_solver|by apply fits_head in Hfit as [_ ?]]. simpl.
  destruct (IH (with_objects (<[id := o]> (objects (current s))) s)) as (objs & -> & Hv & Ho); [done|done| |by apply fits_tail|].
  { intros p Hp. simpl. destruct (decide (fst p = id)) as [->|]; [rewrite lookup_insert_eq; eauto|].
    rewrite lookup_insert_ne by done. apply Hin. set_solver. }
  exists objs. split; [done|]. split.
  - intros id' o' [[= -> ->]|Hp]%elem_of_cons; [|by apply Hv]. rewrite Ho by done. apply lookup_insert_eq.
  - intros id' Hid'. rewrite Ho by set_solver. apply lookup_insert_ne. set_solver.
Qed.

Lemma inserts_loop : ∀ l s,
  disabled s = true → NoDup (l.*1) →
  (∀ p, p ∈ l → objects (current s) !! fst p = None ∧ is_Some (next_id (current s) !! fst (fst p))) →
  fits (objects (current s)) l →
  ∃ objs, for_each (λ p, insert_object collides (fst p) (snd p)) l s = (with_objects objs s, Ok tt) ∧
    (∀ id o, (id, o) ∈ l → objs !! id = Some o) ∧
    (∀ id, id ∉ l.*1 → objs !! id = objects (current s) !! id).
Proof.
  induction l as [|[id o] l IH]; intros s Hs Hnd Hin Hfit; simpl.
  { exists (objects (current s)). split; [by destruct s as [[] ? ? ? ?]|]. split; [set_solver|done]. }
  apply NoDup_cons in Hnd as [Hid Hnd]. destruct (Hin (id, o)) as [Hn Hi]; [set_solver|].
  rewrite insert_disabled by first [done|by apply fits_head in Hfit as [? _]]. simpl.
  destruct (IH (with_objects (<[id := o]> (objects (current s))) s)) as (objs & -> & Hv & Ho); [done|done| |by apply fits_tail|].
  { intros p Hp. simpl. rewrite lookup_insert_ne by set_solver. apply Hin. set_solver. }
  exists objs. split; [done|]. split.
  - intros id' o' [[= -> ->]|Hp]%elem_of_cons; [|by apply Hv]. rewrite Ho by done. apply lookup_insert_eq.
  - intros id' Hid'. rewrite Ho by set_solver. apply lookup_insert_ne. set_solver.
Qed.
End loops.

(** The pairs visited for a map. *)
Lemma hash_pairs {K V} `{Countable K} {HO : HashOrder} (m : gmap K V) :
  NoDup ((hash_order (map_to_list m)).*1) ∧
  (∀ k v, (k, v) ∈ hash_order (map_to_list m) ↔ m !! k = Some v) ∧
  (∀ k, k ∉ (hash_order (map_to_list m)).*1 ↔ m !! k = None).
Proof.
  assert (∀ k v, (k, v) ∈ hash_order (map_to_list m) ↔ m !! k = Some v) as Hin.
  { intros k v. rewrite hash_order_perm. apply elem_of_map_to_list. }
  split_and!; [|done|].
  - rewrite hash_order_perm. apply NoDup_fst_map_to_list.
  - intros k. rewrite list_elem_of_fmap. split.
    + intros Hk. destruct (m !! k) as [v|] eqn:E; [|done]. destruct Hk. exists (k, v). by rewrite Hin.
    + intros Hk ([k' v] & -> & Hkv%Hin). simpl in Hk. congruence.
Qed.

Section undoing.
Context {Obj : Type} {H : HashOrder}.
Variable collides : gmap object_id Obj → object_id → Obj → bool.
Implicit Types (s : undo_db Obj) (id : object_id).

Lemma saved_registered u (d c : contents Obj) : saved u d c →
  ∀ i, is_Some (next_id c !! i) → is_Some (next_id d !! i).
Proof.
  intros [_ Hn _ _] i Hi. specialize (Hn i). unfold next_entry in Hn.
  destruct (old_index_next_ids u !! i); [destruct Hn as (_ & m & -> & _); eauto|by rewrite <- Hn].
Qed.

(** The objects of [c] fit among those of [d] and [c] when they are in [d] as
    well, and the other ones among those of [c]. *)
Definition fitting (d c : gmap object_id Obj) : Prop :=
  ∀ objs id o, c !! id = Some o →
    (∀ id' o', objs !! id' = Some o' → c !! id' = Some o' ∨ is_Some (d !! id) ∧ d !! id' = Some o') →
    collides objs id o = false.

Lemma undo_state_loops_spec u s c :
  disabled s = true → saved u (current s) c → fitting (objects (current s)) (objects c) → undo_state_loops collides u s = (set_current c s, Ok tt).
Proof.
  intros Hs Hsaved Hfit. pose proof Hsaved as [He Hn Hb _]. unfold undo_state_loops.
  destruct (hash_pairs (old_values u)) as (Hnd1 & Hin1 & Hout1).
  assert (∀ id o, (id, o) ∈ hash_order (map_to_list (old_values u)) →
    objects c !! id = Some o ∧ is_Some (objects (current s) !! id)) as Hval.
  { intros id o Hp%Hin1. specialize (He id). unfold entry in He. destruct (removed u !! id); [naive_solver|].
    case_bool_decide; [naive_solver|]. rewrite Hp in He. naive_solver. }
  destruct (values_loop collides _ s Hs Hnd1) as (objs1 & -> & Hv1 & Ho1).
  { intros [id o] Hp. by apply (Hval id o). }
  { intros objs id o Hp Hobjs. destruct (Hval _ _ Hp) as [Hcid Hdid]. apply Hfit; [done|]. intros id' o' Hid'.
    destruct (Hobjs _ _ Hid') as [|Hp']; [by right|left; by apply (Hval id' o')]. }
  simpl. destruct (removes_loop (hash_order (elements (new_ids u))) (with_objects objs1 s)) as (objs2 & -> & Ho2).
  { done. } { rewrite hash_order_perm. apply NoDup_elements. }
  { intros id Hid. rewrite hash_order_perm, elem_of_elements in Hid. simpl. specialize (He id). unfold entry in He.
    destruct (removed u !! id); [naive_solver|]. rewrite bool_decide_eq_true_2 in He by done.
    destruct He as (_ & Hd & Hold). rewrite Ho1; [done|]. by apply Hout1. }
  simpl. destruct (hash_pairs (old_index_next_ids u)) as (Hnd3 & Hin3 & Hout3).
  destruct (nexts_loop _ (with_objects objs2 (with_objects objs1 s)) Hnd3) as (nexts & -> & Hv3 & Ho3).
  { intros [i n] Hp%Hin3. simpl. specialize (Hn i). unfold next_entry in Hn. rewrite Hp in Hn. naive_solver. }
  simpl. destruct (hash_pairs (removed u)) as (Hnd4 & Hin4 & Hout4).
  assert (nexts = next_id c) as ->.
  { apply map_eq. intros i. specialize (Hn i). unfold next_entry in Hn. destruct (old_index_next_ids u !! i) as [n|] eqn:E.
    - rewrite (Hv3 i n) by (by apply Hin3). naive_solver.
    - rewrite Ho3 by (by apply Hout3). done. }
  assert (∀ id, objs2 !! id = if bool_decide (id ∈ new_ids u) then None else objs1 !! id) as Ho2'.
  { intros id. rewrite Ho2. simpl.
    assert (id ∈ hash_order (elements (new_ids u)) ↔ id ∈ new_ids u) as E by (by rewrite hash_order_perm, elem_of_elements).
    by rewrite (bool_decide_ext _ _ E). }
  assert (∀ id o, objs2 !! id = Some o → objects c !! id = Some o) as Hsub.
  { intros id o. rewrite Ho2'. specialize (He id). unfold entry in He. case_bool_decide; [done|].
    destruct (old_values u !! id) as [x|] eqn:Eo.
    - rewrite (Hv1 id x) by (by apply Hin1). intros [= ->]. by apply (Hval id o), Hin1.
    - rewrite Ho1 by (by apply Hout1). intros Hx. destruct (removed u !! id); [|by rewrite He].
      destruct He as (_ & Hd & _). congruence. }
  destruct (inserts_loop collides _ (with_next (next_id c) (with_objects objs2 (with_objects objs1 s)))
              ltac:(done) Hnd4) as (objs4 & -> & Hv4 & Ho4).
  { intros [id o] Hp%Hin4. simpl. specialize (He id). unfold entry in He. rewrite Hp in He.
    destruct He as (Hc & Hd & Hnew & Hold). split.
    - rewrite Ho2', bool_decide_eq_false_2, Ho1 by (done || by apply Hout1). done.
    - destruct (Hb _ _ Hc) as (n & -> & _). eauto. }
  { assert (∀ id o, (id, o) ∈ hash_order (map_to_list (removed u)) → objects c !! id = Some o) as Hrem.
    { intros id o Hp%Hin4. specialize (He id). unfold entry in He. rewrite Hp in He. naive_solver. }
    intros objs id o Hp Hobjs. apply Hfit; [by apply Hrem|]. intros id' o' Hid'. left.
    destruct (Hobjs _ _ Hid'); [by apply Hsub|by apply Hrem]. }
  assert (objs4 = objects c) as ->; [|by destruct s as [[] ? ? ? ?], c].
  apply map_eq. intros id. specialize (He id). unfold entry in He. destruct (removed u !! id) as [o|] eqn:Er.
  { rewrite (Hv4 id o) by (by apply Hin4). naive_solver. }
  rewrite Ho4 by (by apply Hout4). simpl. rewrite Ho2'. case_bool_decide; [naive_solver|].
  destruct (old_values u !! id) as [o|] eqn:Eo.
  - rewrite (Hv1 id o) by (by apply Hin1). naive_solver.
  - rewrite Ho1 by (by apply Hout1). done.
Qed.
End undoing.

(** ** Merging composes the changes *)
Section merging.
Context {Obj : Type}.
Implicit Types (u p : undo_state Obj) (c d : contents Obj) (id : object_id).

Lemma merge_old_values_lookup u p id :
  old_values (merge_old_values u p) !! id =
  if bool_decide (id ∈ new_ids p) then old_values p !! id
  else match old_values p !! id with Some o => Some o | None => old_values u !! id end.
Proof.
  unfold merge_old_values; simpl.
  apply (map_fold_weak_ind (λ acc m, acc !! id =
    if bool_decide (id ∈ new_ids p) then old_values p !! id
    else match old_values p !! id with Some o => Some o | None => m !! id end)).
  - case_bool_decide; [done|]. by destruct (old_values p !! id).
  - intros j o m acc Hj IH. destruct (decide (j = id)) as [->|Hne].
    + rewrite lookup_insert_eq. destruct (bool_decide (id ∈ new_ids p)); [done|].
      destruct (old_values p !! id); [done|]. apply lookup_insert_eq.
    + rewrite (lookup_insert_ne m) by done. rewrite <- IH.
      destruct (bool_decide (j ∈ new_ids p)); [done|]. destruct (old_values p !! j); [done|]. by rewrite lookup_insert_ne.
Qed.

Lemma merge_removed_lookup u p :
  let r := merge_removed u p in
  (∀ id, old_values r !! id =
     match removed u !! id with
     | Some _ => if bool_decide (id ∈ new_ids p) then old_values p !! id else None
     | None => old_values p !! id
     end) ∧
  (∀ id, id ∈ new_ids r ↔ id ∈ new_ids p ∧ removed u !! id = None) ∧
  (∀ id, removed r !! id =
     match removed u !! id with
     | Some o => if bool_decide (id ∈ new_ids p) then removed p !! id
                 else Some (default o (old_values p !! id))
     | None => removed p !! id
     end) ∧
  old_index_next_ids r = old_index_next_ids p.
Proof.
  unfold merge_removed. simpl. apply (map_fold_weak_ind (λ r m,
    (∀ id, old_values r !! id =
       match m !! id with
       | Some _ => if bool_decide (id ∈ new_ids p) then old_values p !! id else None
       | None => old_values p !! id
       end) ∧
    (∀ id, id ∈ new_ids r ↔ id ∈ new_ids p ∧ m !! id = None) ∧
    (∀ id, removed r !! id =
       match m !! id with
       | Some o => if bool_decide (id ∈ new_ids p) then removed p !! id
                   else Some (default o (old_values p !! id))
       | None => removed p !! id
       end) ∧
    old_index_next_ids r = old_index_next_ids p)).
  { split_and!; try done. intros id. rewrite lookup_empty. tauto. }
  intros j o m r Hj (Hold & Hnew & Hrem & Hnext).
  assert (j ∈ new_ids r ↔ j ∈ new_ids p) as Ej by (rewrite Hnew; tauto).
  pose proof (Hold j) as Hoj. rewrite Hj in Hoj.
  unfold merge_removed_one. rewrite (bool_decide_ext _ _ Ej). case_bool_decide as Hin; simpl.
  - split_and!; try done; intros id; (destruct (decide (j = id)) as [->|Hne];
      [rewrite lookup_insert_eq|rewrite lookup_insert_ne by done]); try done.
    + rewrite bool_decide_eq_true_2 by done. by rewrite Hoj.
    + set_solver.
    + set_solver.
    + rewrite bool_decide_eq_true_2 by done. rewrite Hrem. by rewrite Hj.
  - assert (∀ id, id ∈ new_ids r ↔ id ∈ new_ids p ∧ <[j:=o]> m !! id = None) as Hnew'.
    { intros id. rewrite Hnew. destruct (decide (j = id)) as [->|]; [by rewrite lookup_insert_eq; naive_solver|].
      by rewrite lookup_insert_ne. }
    assert (∀ id,
      delete j (old_values r) !! id = match <[j:=o]> m !! id with
        | Some _ => if bool_decide (id ∈ new_ids p) then old_values p !! id else None
        | None => old_values p !! id end) as Hold'.
    { intros id. destruct (decide (j = id)) as [->|].
      - by rewrite lookup_delete_eq, lookup_insert_eq, bool_decide_eq_false_2.
      - by rewrite lookup_delete_ne, lookup_insert_ne. }
    assert (∀ id, <[j:=default o (old_values r !! j)]> (removed r) !! id =
      match <[j:=o]> m !! id with
      | Some o => if bool_decide (id ∈ new_ids p) then removed p !! id else Some (default o (old_values p !! id))
      | None => removed p !! id end) as Hrem'.
    { intros id. destruct (decide (j = id)) as [->|].
      - by rewrite !lookup_insert_eq, bool_decide_eq_false_2, Hoj.
      - by rewrite !lookup_insert_ne. }
    destruct (old_values r !! j) as [x|] eqn:Ex; simpl; split_and!; try done.
    intros id. rewrite <- Hold'. by rewrite delete_id.
Qed.

(** An entry by what is found of the object. *)
Definition entry_of (r : option Obj) (new : bool) (o d s : option Obj) : Prop :=
  match r with
  | Some x => s = Some x ∧ d = None ∧ new = false ∧ o = None
  | None => if new then s = None ∧ is_Some d ∧ o = None
            else match o with Some x => s = Some x ∧ is_Some d | None => s = d end
  end.

Lemma entry_iff u id (d s : option Obj) :
  entry u id d s ↔ entry_of (removed u !! id) (bool_decide (id ∈ new_ids u)) (old_values u !! id) d s.
Proof. unfold entry, entry_of. destruct (removed u !! id); [|done]. by rewrite bool_decide_eq_false. Qed.

(** The matrix of the composition of two states for one object. *)
Lemma entry_compose (ru : option Obj) nu ou rp np op (d c c' : option Obj) :
  entry_of ru nu ou d c → entry_of rp np op c c' → (nu = true → rp = None) →
  let o1 := if np then op else match op with Some o => Some o | None => ou end in
  entry_of (match ru with
            | Some x => if nu || np then rp else Some (default x o1)
            | None => rp
            end)
           ((nu || np) && bool_decide (ru = None))
           (match ru with Some _ => if nu || np then o1 else None | None => o1 end) d c'.
Proof.
  destruct ru, nu, ou, rp, np, op; simpl; intros Hu Hp Hnew; destruct_and?; simplify_eq; try done;
    try (by specialize (Hnew eq_refl));
    repeat match goal with H : is_Some None |- _ => by destruct H end; naive_solver.
Qed.

Lemma saved_merge u p d c c' : saved u d c → saved p c c' → saved (merge_states u p) d c'.
Proof.
  intros [Hu Hnu Hbu Hfu] [Hp Hnp Hbp Hfp]. unfold merge_states.
  destruct (merge_removed_lookup u (merge_next_ids u (merge_new_ids u (merge_old_values u p)))) as (Ho & Hn & Hr & Hx).
  set (q := merge_next_ids u (merge_new_ids u (merge_old_values u p))) in *.
  change (new_ids q) with (new_ids u ∪ new_ids p) in Ho, Hn, Hr.
  change (removed q) with (removed p) in Hr. change (old_values q) with (old_values (merge_old_values u p)) in Ho, Hr.
  change (old_index_next_ids q) with (old_index_next_ids p ∪ old_index_next_ids u) in Hx.
  set (r := merge_removed u q) in *.
  assert (∀ i n, next_id c' !! i = Some n → ∃ m, next_id c !! i = Some m ∧ n ≤ m) as Hmono.
  { intros i n Hi. specialize (Hnp i). unfold next_entry in Hnp. destruct (old_index_next_ids p !! i).
    - destruct Hnp as (Hx' & m & Hm & ?). simplify_eq. eauto.
    - rewrite <- Hnp. eauto with lia. }
  split; [| |done|].
  - intros id. pose proof (entry_compose _ _ _ _ _ _ _ _ _ (proj1 (entry_iff _ _ _ _) (Hu id))
      (proj1 (entry_iff _ _ _ _) (Hp id))) as Hc.
    assert (bool_decide (id ∈ new_ids u) = true → removed p !! id = None) as Hdis.
    { intros Hin%bool_decide_eq_true. destruct (removed p !! id) as [x|] eqn:Ex; [|done].
      specialize (Hp id). unfold entry in Hp. rewrite Ex in Hp. destruct Hp as (Hc' & _).
      destruct (Hbp _ _ Hc') as (n & Hn' & ?). destruct (Hmono _ _ Hn') as (m & Hm & ?).
      destruct (Hfu _ Hin) as (k & Hk & ?). simplify_eq. lia. }
    specialize (Hc Hdis).
    assert (bool_decide (id ∈ new_ids u ∪ new_ids p) =
            bool_decide (id ∈ new_ids u) || bool_decide (id ∈ new_ids p)) as Eu.
    { rewrite <- bool_decide_or. apply bool_decide_ext. set_solver. }
    apply entry_iff. rewrite Ho, Hr, (bool_decide_ext _ _ (Hn id)), bool_decide_and, Eu.
    rewrite merge_old_values_lookup. exact Hc.
  - intros i. specialize (Hnu i). specialize (Hnp i). unfold next_entry in *. rewrite Hx, lookup_union.
    destruct (old_index_next_ids p !! i) as [n|], (old_index_next_ids u !! i) as [k|]; simpl.
    + destruct Hnp as (-> & m & Hm & ?), Hnu as (Hk & x & Hx' & ?). simplify_eq. eauto with lia.
    + destruct Hnp as (-> & m & Hm & ?). rewrite Hnu in Hm. eauto.
    + by rewrite Hnp.
    + by rewrite Hnp.
  - intros id [[Hid|Hid]%elem_of_union _]%Hn; [|by apply Hfp].
    destruct (Hfu id Hid) as (k & Hk & ?). specialize (Hnp (fst id)). unfold next_entry in Hnp.
    destruct (old_index_next_ids p !! fst id).
    + destruct Hnp as (Hx' & m & Hm & ?). simplify_eq. eauto with lia.
    + rewrite Hnp. eauto.
Qed.

Lemma chain_take k : ∀ (l : list (undo_state Obj)) d cs, chain l d cs → chain (take k l) d (take k cs).
Proof.
  induction k as [|k IH]; intros [|u l] d [|c cs] Hl; simpl in *; try done. destruct Hl. split; auto.
Qed.

Lemma chain_length (l : list (undo_state Obj)) : ∀ d cs, chain l d cs → length cs = length l.
Proof. induction l as [|u l IH]; intros d [|c cs] Hl; simpl in *; try done.
  destruct Hl as [_ Hl]. f_equal. by eapply IH.
Qed.
End merging.

(** ** Every call preserves the relation *)
Section simulation.
Context {Obj : Type} {H : HashOrder} {U : UniqueKeys Obj}.
Implicit Types (s : undo_db Obj) (a : snapshots Obj) (id : object_id).

(** Both machines after a call: related, with the same result. *)
Definition agree (max : nat) (x : undo_db Obj * res unit) (y : snapshots Obj * res unit) : Prop :=
  snd x = snd y ∧ simulates (fst x) (fst y) ∧ max_size (fst x) = max.

(** A recorded change: what is recorded in the back of the stack keeps the
    snapshot of its session. *)
Lemma simulates_change s a (f : undo_state Obj → undo_state Obj) c :
  simulates s a → bounded c → consistent (objects c) → (∀ u x, saved u (sn_current a) x → saved (f u) c x) →
  simulates (on_back f (set_current c s)) (change c a) ∧
  simulates (set_current c (on_back f s)) (change c a).
Proof.
  intros [He Hc Ha Hb Hch Hco] Hbc Hcc Hf. inversion Hco; subst. unfold on_back, change, set_current, set_stack.
  rewrite Hc in *. destruct s as [cur act dis l max]; simpl in *. subst.
  destruct l as [|u l], (sn_saved a) as [|x cs]; simpl in Hch; try done.
  - by split; split; simpl; auto; (split; [apply Hf, saved_empty|]).
  - destruct Hch as [Hu Hch]. by split; split; simpl; auto; (split; [by apply Hf|]).
Qed.

Lemma on_back_max (f : undo_state Obj → undo_state Obj) s : max_size (on_back f s) = max_size s.
Proof. unfold on_back. by case_match. Qed.

Lemma bounded_insert c id o :
  bounded c → next_id c !! fst id = Some (snd id) →
  bounded (mk_contents (<[id := o]> (objects c)) (<[fst id := snd id + 1]> (next_id c)) : contents Obj).
Proof.
  intros Hb Hn j x. simpl. intros [[<- <-]|[Hne Hj]]%lookup_insert_Some.
  - rewrite lookup_insert_eq. eauto with lia.
  - destruct (Hb _ _ Hj) as (n & Hjn & ?). destruct (decide (fst j = fst id)) as [E|].
    + rewrite E in *. rewrite lookup_insert_eq. rewrite Hn in Hjn. injection Hjn as <-. eauto with lia.
    + rewrite lookup_insert_ne by done. eauto.
Qed.

Lemma create_simulates s a i constructor :
  simulates s a → agree (max_size s) (run_call key_taken (call_create i constructor) s)
                        (spec_call (max_size s) (call_create i constructor) a).
Proof.
  intros Hs. pose proof Hs as [He Hc Ha Hb Hch Hco]. unfold run_call, spec_call, create. rewrite <- Hc.
  destruct (next_id (current s) !! i) as [n|] eqn:Ei; [|by split_and!].
  assert (rejects key_taken (objects (current s)) (i, n) (constructor n) =
          key_taken (objects (current s)) (i, n) (constructor n)) as ->.
  { unfold rejects. replace (bool_decide _) with false; [done|]. symmetry. apply bool_decide_eq_false. intros [x Hx].
    destruct (Hb _ _ Hx) as (m & Hm & ?). simpl in *. simplify_eq. lia. }
  destruct (key_taken (objects (current s)) (i, n) (constructor n)) eqn:Ek; [by split_and!|].
  unfold on_create. simpl. rewrite He. split_and!; [done| |etransitivity; [apply on_back_max|done]].
  apply simulates_change; [done|by apply (bounded_insert _ (i, n))| |].
  { apply consistent_insert; [|done]. rewrite Hc. by inversion Hco. }
  rewrite <- Hc. intros u x Hu. by apply (saved_create u _ _ (i, n)).
Qed.

Lemma modify_simulates s a id m :
  simulates s a → meets_no_key (call_modify id m) a = true → agree (max_size s) (run_call key_taken (call_modify id m) s) (spec_call (max_size s) (call_modify id m) a).
Proof.
  intros Hs Hk. pose proof Hs as [He Hc Ha Hb Hch Hco]. unfold meets_no_key in Hk. unfold run_call, spec_call, modify.
  rewrite <- Hc in *. destruct (objects (current s) !! id) as [o|] eqn:Eid; [|by split_and!].
  unfold on_modify. rewrite He. destruct (m o) as [o' exc]. simpl in Hk. apply negb_true_iff in Hk.
  assert (current (on_back (record_modify id o) s) = current s) as Ecur by (unfold on_back; by case_match).
  rewrite Ecur, key_taken_delete, Hk. simpl. split_and!; [by destruct exc| |apply on_back_max].
  apply (simulates_change s a (record_modify id o)); [done| | |].
  - intros j x. simpl. intros [[<- <-]|[Hne Hj]]%lookup_insert_Some; [by apply (Hb id o)|by apply (Hb j x)].
  - apply consistent_insert; [|done]. by inversion Hco.
  - rewrite <- Hc. intros u x Hu. by apply saved_modify.
Qed.

Lemma remove_simulates s a id :
  simulates s a → agree (max_size s) (run_call key_taken (call_remove id) s) (spec_call (max_size s) (call_remove id) a).
Proof.
  intros Hs. pose proof Hs as [He Hc Ha Hb Hch Hco]. unfold run_call, spec_call, remove. rewrite <- Hc.
  destruct (objects (current s) !! id) as [o|] eqn:Eid; [|by split_and!].
  unfold on_remove. rewrite He.
  assert (current (on_back (record_remove id o) s) = current s) as Ecur by (unfold on_back; by case_match).
  rewrite Ecur. split_and!; [done| |apply on_back_max].
  apply (simulates_change s a (record_remove id o)); [done| | |].
  - intros j x. simpl. intros [_ Hj]%lookup_delete_Some. by apply (Hb j x).
  - apply consistent_delete. rewrite Hc. by inversion Hco.
  - rewrite <- Hc. intros u x Hu. by apply saved_remove.
Qed.

Lemma restorable_fitting (d c : gmap object_id Obj) :
  consistent c → restorable d c = true → fitting key_taken d c.
Proof.
  intros Hc Hd objs id o Hid Hobjs. apply key_taken_false. intros id' o' Hid'.
  destruct (Hobjs _ _ Hid') as [Hc'|[Hin Hd']].
  - exact (proj1 (key_taken_false _ _ _) (Hc _ _ Hid) _ _ Hc').
  - exact (proj1 (key_taken_false _ _ _) (restorable_spec _ _ Hd _ _ Hid Hin) _ _ Hd').
Qed.

(** A session that is undone, or a committed one that is popped. *)
Lemma undone_simulates s a u l c cs n :
  simulates s a → stack s = u :: l → sn_saved a = c :: cs →
  restorable (objects (sn_current a)) (objects c) = true →
  undo_state_loops key_taken u (set_disabled true s) = (set_current c (set_disabled true s), Ok tt) ∧
  simulates (set_active n (set_disabled false (set_stack l (set_current c (set_disabled true s)))))
            (mk_snapshots c n cs).
Proof.
  intros [He Hc Ha Hb Hch Hco] Hl Hcs Hr. rewrite Hl, Hcs in *. destruct Hch as [Hu Hch].
  inversion Hco as [|? ? ? Hcs']. inversion Hcs'; subst. split.
  - apply undo_state_loops_spec; [done..|]. simpl. rewrite Hc. by apply restorable_fitting.
  - destruct Hu. by split.
Qed.

Lemma undo_simulates s a :
  simulates s a → meets_no_key call_undo a = true → agree (max_size s) (run_call key_taken call_undo s) (spec_call (max_size s) call_undo a).
Proof.
  intros Hs Hk. pose proof Hs as [He Hc Ha Hb Hch Hco]. unfold run_call, spec_call, undo, put_back. rewrite He, Ha.
  case_match; [by split_and!|]. destruct (stack s) as [|u l] eqn:El, (sn_saved a) as [|c cs] eqn:Ecs; simpl in Hch; try done.
  destruct (undone_simulates s a u l c cs (sn_active a - 1)) as [-> Hs']; [done..|by simpl in Hk; rewrite Ecs in Hk|]. simpl. rewrite El, Ha. simpl.
  by split_and!.
Qed.

Lemma pop_commit_simulates s a :
  simulates s a → meets_no_key call_pop_commit a = true → agree (max_size s) (run_call key_taken call_pop_commit s) (spec_call (max_size s) call_pop_commit a).
Proof.
  intros Hs Hk. pose proof Hs as [He Hc Ha Hb Hch Hco]. unfold run_call, spec_call, pop_commit, put_back. rewrite Ha.
  case_match; [by split_and!|]. destruct (stack s) as [|u l] eqn:El, (sn_saved a) as [|c cs] eqn:Ecs; simpl in Hch; try done.
  destruct (undone_simulates s a u l c cs (sn_active a)) as [-> Hs']; [done..|by simpl in Hk; rewrite Ecs in Hk|]. simpl. rewrite El. simpl.
  split_and!; try done. rewrite <- Ha in Hs' at 1. by destruct s.
Qed.

Lemma merge_simulates s a :
  simulates s a → agree (max_size s) (run_call key_taken call_merge s) (spec_call (max_size s) call_merge a).
Proof.
  intros Hs. pose proof Hs as [He Hc Ha Hb Hch Hco]. unfold run_call, spec_call, merge. rewrite Ha.
  case_match; [by split_and!|]. rewrite (chain_length _ _ _ Hch).
  destruct (stack s) as [|u [|p l]] eqn:El, (sn_saved a) as [|c [|c' cs]] eqn:Ecs; simpl in Hch; try (by destruct_and?).
  all: simpl; rewrite ?andb_true_r, ?andb_false_r; inversion Hco as [|? ? Hcc Hcs].
  - by split_and!.
  - destruct (sn_active a =? 1); split_and!; try done. split; simpl; auto.
  - split_and!; try done. destruct Hch as (Hu & Hp & Hch). rewrite Hc in *. split; simpl; try done.
    all: rewrite ?Hc; try done.
    + by split; [eapply saved_merge|].
    + inversion Hcs. by constructor.
Qed.

(** Related machines stay related, and every call has the same result. *)
Lemma run_call_simulates s a k :
  simulates s a → meets_no_key k a = true → agree (max_size s) (run_call key_taken k s) (spec_call (max_size s) k a).
Proof.
  intros Hs Hk. destruct k; [by apply create_simulates|by apply modify_simulates|by apply remove_simulates| |
    by apply undo_simulates|by apply merge_simulates| |by apply pop_commit_simulates];
    pose proof Hs as [He Hc Ha Hb Hch Hco]; unfold run_call, spec_call.
  - unfold start_undo_session. rewrite He. simpl. split_and!; [done| |done]. rewrite Hc in *.
    split; simpl; rewrite ?Hc, ?Ha; try done.
    + split; [by apply saved_empty|by apply chain_take].
    + inversion Hco as [|? ? Hcc Hcs]. auto using Forall_cons_2, Forall_take.
  - unfold commit. rewrite Ha. case_match; by split_and!.
Qed.

Lemma run_calls_simulates l : ∀ s a,
  simulates s a → clash_free (max_size s) l a = true →
  snd (run_calls key_taken l s) = snd (spec_calls (max_size s) l a) ∧
  simulates (fst (run_calls key_taken l s)) (fst (spec_calls (max_size s) l a)) ∧
  max_size (fst (run_calls key_taken l s)) = max_size s.
Proof.
  induction l as [|k l IH]; intros s a Hs Hf; simpl; [done|]. simpl in Hf. apply andb_true_iff in Hf as [Hk Hf].
  pose proof (run_call_simulates s a k Hs Hk) as (Hr & Hs' & Hm).
  destruct (run_call key_taken k s) as [s' r], (spec_call (max_size s) k a) as [a' r']. simpl in *. subst r'.
  destruct (IH _ _ Hs') as (Hrs & Hs'' & Hm'); [by rewrite Hm|]. rewrite Hm in *.
  destruct (run_calls key_taken l s') as [x rs], (spec_calls (max_size s) l a') as [y rs']. simpl in *. by subst.
Qed.
End simulation.

(** * What undo sessions guarantee

    The undo database runs every sequence of calls the way the machine of
    snapshots does; a session that is undone leaves the database as it was; and,
    where two objects exchanged a unique key in the session, undoing it loses an
    object. *)

(** A database without sessions. *)
Definition initial {Obj} (c : contents Obj) (max : nat) : undo_db Obj := mk_undo_db c 0 false [] max.
Definition initial_snapshots {Obj} (c : contents Obj) : snapshots Obj := mk_snapshots c 0 [].

Lemma initial_simulates {Obj} `{UniqueKeys Obj} (c : contents Obj) max :
  bounded c → consistent (objects c) → simulates (initial c max) (initial_snapshots c).
Proof. intros Hc Hco. split; simpl; auto. Qed.

(** ** Balanced sequences of calls *)
Section balanced.
Context {Obj : Type} {U : UniqueKeys Obj}.
Implicit Types (a : snapshots Obj) (k : call Obj) (l : list (call Obj)).






End balanced.

Section implementation.
Context {Obj : Type} {H : HashOrder} {U : UniqueKeys Obj}.

Lemma run_calls_app l l' (s : undo_db Obj) :
  run_calls key_taken (l ++ l') s =
  let '(s, rs) := run_calls key_taken l s in
  let '(s, rs') := run_calls key_taken l' s in (s, rs ++ rs').
Proof.
  revert s. induction l as [|k l IH]; intros s; simpl; [by destruct (run_calls key_taken l' s)|].
  destruct (run_call key_taken k s) as [s' r]. rewrite IH. destruct (run_calls key_taken l s') as [s'' rs].
  by destruct (run_calls key_taken l' s'').
Qed.


(** Without unique indices nothing is left to assume. *)
Lemma clash_free_without_keys max l a : (∀ id o, unique_keys id o = []) → clash_free max l a = true.
Proof.
  intros Hk. assert (∀ (d : gmap object_id Obj) id o, key_taken d id o = false) as Ht.
  { intros d id o. apply key_taken_false. intros id' o' _. unfold clash. rewrite !Hk. apply andb_false_r. }
  revert a. induction l as [|k l IH]; intros a; simpl; [done|]. rewrite IH, andb_true_r.
  assert (∀ d c : gmap object_id Obj, restorable d c = true) as Hr.
  { intros d c. apply forallb_forall. intros p _. by rewrite Ht, orb_true_r. }
  destruct k; simpl; try done; case_match; by rewrite ?Ht.
Qed.

(** C19. The undo database refines the machine of snapshots in every run that is
    free of clashes of unique keys: whatever the unique indices and the order of
    the hash tables, a sequence of changes, sessions, undos, merges, commits and
    pops, in which no object is modified to the key of another one and no undo
    gives an object back a key that another one has at that moment, gives the
    same results, the same objects and next identifiers, and the same number of
    sessions as saving a whole copy of the database at each start and putting it
    back. The creation of an object whose key is taken is covered: it is
    refused. *)
Theorem undo_database_refines_snapshots (c : contents Obj) (max : nat) (l : list (call Obj)) :
  bounded c → consistent (objects c) → clash_free max l (initial_snapshots c) = true →
  let '(s, results) := run_calls key_taken l (initial c max) in
  let '(a, expected) := spec_calls max l (initial_snapshots c) in
  results = expected ∧ current s = sn_current a ∧ active_sessions s = sn_active a ∧
  length (stack s) = length (sn_saved a) ∧ disabled s = false.
Proof.
  intros Hc Hco Hf. destruct (run_calls_simulates l _ _ (initial_simulates c max Hc Hco) Hf) as (Hr & Hs & _).
  simpl max_size in *. destruct (run_calls key_taken l (initial c max)) as [s rs],
    (spec_calls max l (initial_snapshots c)) as [a rs']. simpl in *. destruct Hs. split_and!; try done.
  symmetry. by eapply chain_length.
Qed.

End implementation.

(** ** Concrete runs *)

(** Hash tables visited in the order of the model. *)
Definition in_order : HashOrder := {| hash_order A l := l; hash_order_perm A l := reflexivity l |}.

(** A unique index on the value. *)
#[local] Instance unique_value : UniqueKeys Z := {| key := index_id * Z; unique_keys id o := [(fst id, o)] |}.

Definition accounts : index_id := (1, 2).
Definition two_objects : contents Z := mk_contents {[ (accounts, 0) := 1; (accounts, 1) := 2 ]} {[ accounts := 2 ]}.

Lemma two_objects_bounded : bounded two_objects.
Proof.
  intros id o. simpl. intros [[<- <-]|[_ [<- <-]%lookup_singleton_Some]]%lookup_insert_Some; exists 2; split; (done || lia).
Qed.

Lemma two_objects_consistent : consistent (objects two_objects).
Proof.
  intros id o. simpl. intros [[<- <-]|[_ [<- <-]%lookup_singleton_Some]]%lookup_insert_Some; by vm_compute.
Qed.

(** The first creation is refused, its key is taken. *)
Definition some_changes : list (call Z) :=
  [call_create accounts (λ _, 2); call_create accounts (λ n, 10 * n); call_modify (accounts, 0) (λ _, (7, Some AssertFailure)); call_start;
   call_remove (accounts, 1); call_remove (accounts, 2); call_merge; call_modify (accounts, 9) (λ o, (o, None))].


Lemma undo_database_refines_snapshots_witness :
  bounded two_objects ∧
  let '(s, results) := @run_calls _ in_order key_taken (call_start :: some_changes ++ [call_undo]) (initial two_objects 256) in
  let '(a, expected) := spec_calls 256 (call_start :: some_changes ++ [call_undo]) (initial_snapshots two_objects) in
  results = expected ∧ current s = sn_current a ∧ active_sessions s = sn_active a ∧
  length (stack s) = length (sn_saved a) ∧ disabled s = false.
Proof.
  split; [apply two_objects_bounded|].
  exact (@undo_database_refines_snapshots _ in_order unique_value two_objects 256
    (call_start :: some_changes ++ [call_undo]) two_objects_bounded two_objects_consistent
    (ltac:(vm_compute; reflexivity))).
Defined.


(** ** Exchanged unique keys *)

(** The two objects exchange their values through a third one. *)
Definition exchange_values : list (call Z) :=
  [call_start; call_modify (accounts, 0) (λ _, (3, None)); call_modify (accounts, 1) (λ _, (1, None));
   call_modify (accounts, 0) (λ _, (2, None))].

Definition exchanged : undo_db Z :=
  mk_undo_db (mk_contents {[ (accounts, 0) := 2; (accounts, 1) := 1 ]} {[ accounts := 2 ]}) 1 false
    [mk_undo_state {[ (accounts, 0) := 1; (accounts, 1) := 2 ]} ∅ ∅ ∅] 256.

Lemma exchange_values_run {H : HashOrder} :
  run_calls key_taken exchange_values (initial two_objects 256) = (exchanged, [Ok tt; Ok tt; Ok tt; Ok tt]).
Proof. vm_compute. reflexivity. Qed.

(** The run is not free of clashes. *)
Lemma exchange_clashes : clash_free 256 (exchange_values ++ [call_undo]) (initial_snapshots two_objects) = false.
Proof. vm_compute. reflexivity. Qed.

(** Undoing a session does not restore the database when two objects
    exchanged a unique key in it: whatever the order of the hash table, the
    object that is put back first collides with the other one, the container
    erases it, the exception is caught, and [undo] returns with one of the two
    objects lost. *)
Theorem undo_loses_exchanged_object (H : HashOrder) :
  let '(s, results) := run_calls key_taken (exchange_values ++ [call_undo]) (initial two_objects 256) in
  results = [Ok tt; Ok tt; Ok tt; Ok tt; Ok tt] ∧ size (objects two_objects) = 2%nat ∧
  size (objects (current s)) = 1%nat ∧ active_sessions s = 0.
Proof.
  rewrite run_calls_app, exchange_values_run. unfold run_calls, run_call, undo. simpl.
  unfold undo_state_loops. simpl.
  assert (∀ A (l : list A), l = [] → hash_order l = []) as Hnil.
  { intros A l ->. apply Permutation_nil_r, hash_order_perm. }
  rewrite !(Hnil _ (elements ∅)), !(Hnil _ (map_to_list ∅)) by (vm_compute; reflexivity).
  pose proof (hash_order_perm (map_to_list ({[ (accounts, 0) := 1; (accounts, 1) := 2 ]} : gmap object_id Z))) as Hp.
  destruct (Permutation_length_2_inv (symmetry Hp)) as [-> | ->]; vm_compute; split_and!; reflexivity.
Qed.
