(* ===== verification/Exchange.v ===== *)
(** * Exchanging amounts at a price

    Facts on the arithmetic of Asset.v: the two roundings of an exchange, what
    is lost when an amount is exchanged back and forth, the order of prices, and
    the loops that bring a rational into the range of share amounts. *)

From S2P Require Import Prelude Ext Config Asset.

(** A price between two different assets with positive amounts that fit an
    [int64_t]; [price_validate] checks all but the upper bounds. *)
Definition price_ok (p : price) : Prop :=
  0 < amount (base p) ≤ int64_max ∧ 0 < amount (quote p) ≤ int64_max ∧
  asset_id (base p) ≠ asset_id (quote p).

(** The range in which prices are ordered by their ratio: a base of nothing
    will do. *)
Definition price_range (p : price) : Prop :=
  0 ≤ amount (base p) ≤ int64_max ∧ 0 < amount (quote p) ≤ int64_max.
Lemma price_ok_range p : price_ok p → price_range p.
Proof. unfold price_ok, price_range. lia. Qed.
#[export] Hint Resolve price_ok_range : core.

(** An amount of a kind that may be exchanged. *)
Definition amount_ok (a : asset) : Prop := 0 ≤ amount a ≤ int64_max.

(** The rate of the asset [i] at [p]: what is multiplied and divided by, and
    the asset obtained. *)
Definition rate_of (i : Z) (p : price) : option (Z * Z * Z) :=
  if i =? asset_id (base p) then Some (amount (quote p), amount (base p), asset_id (quote p))
  else if i =? asset_id (quote p) then Some (amount (base p), amount (quote p), asset_id (base p))
  else None.

Definition floor_div (n d : Z) : Z := n / d.
Definition ceil_div (n d : Z) : Z := (n + d - 1) / d.

Section integers.
Lemma ceil_div_spec n d : 0 < d → d * (ceil_div n d - 1) < n ≤ d * ceil_div n d.
Proof.
  intros Hd. unfold ceil_div. pose proof (Z.div_mod (n + d - 1) d ltac:(lia)).
  pose proof (Z.mod_pos_bound (n + d - 1) d Hd). nia.
Qed.

Lemma floor_div_spec n d : 0 < d → d * floor_div n d ≤ n < d * (floor_div n d + 1).
Proof.
  intros Hd. unfold floor_div. pose proof (Z.div_mod n d ltac:(lia)).
  pose proof (Z.mod_pos_bound n d Hd). nia.
Qed.

Lemma ceil_div_le n d q : 0 < d → n ≤ d * q → ceil_div n d ≤ q.
Proof. intros Hd H. pose proof (ceil_div_spec n d Hd). nia. Qed.

(** Down, then up again: never more than at the start. *)
Lemma ceil_floor_le x n d : 0 < n → 0 < d → ceil_div (floor_div (x * n) d * d) n ≤ x.
Proof.
  intros Hn Hd. apply ceil_div_le; [done|]. pose proof (floor_div_spec (x * n) d Hd). nia.
Qed.
(** Up, then down again: never less. *)
Lemma floor_ceil_ge x n d : 0 < n → 0 < d → x ≤ floor_div (ceil_div (x * n) d * d) n.
Proof.
  intros Hn Hd. unfold floor_div. apply Z.div_le_lower_bound; [done|].
  pose proof (ceil_div_spec (x * n) d Hd). nia.
Qed.
End integers.

Section exchange.
Context {X : Ext}.

Lemma rate_of_ok i p n d j :
  price_ok p → rate_of i p = Some (n, d, j) →
  0 < n ≤ int64_max ∧ 0 < d ≤ int64_max ∧ i ≠ j ∧ rate_of j p = Some (d, n, i).
Proof.
  intros (Hb & Hq & Hne). unfold rate_of.
  destruct (Z.eqb_spec i (asset_id (base p))) as [->|Hi].
  { intros [= <- <- <-]. rewrite Z.eqb_refl.
    destruct (Z.eqb_spec (asset_id (quote p)) (asset_id (base p))); [congruence|]. auto. }
  destruct (Z.eqb_spec i (asset_id (quote p))) as [->|]; [|done].
  intros [= <- <- <-]. rewrite Z.eqb_refl. auto.
Qed.

(** ** Ranges that hold for every input *)

Lemma u128_div_range x d : 0 < d → 0 ≤ u128 x / d.
Proof. intros. apply Z.div_pos; [apply u128_range|done]. Qed.

Lemma asset_mul_range a p r :
  asset_mul a p = Ok r → 0 ≤ amount r ≤ GRAPHENE_MAX_SHARE_SUPPLY.
Proof.
  unfold asset_mul. intros H. repeat case_match; [| |done].
  all: apply require_r_ok in H as [Hd H]; apply require_r_ok in H as [Hm H]; injection H as <-;
    btrue; simpl; split; [by apply u128_div_range|done].
Qed.

Lemma round_up_range a p r :
  multiply_and_round_up a p = Ok r → 0 ≤ amount r ≤ GRAPHENE_MAX_SHARE_SUPPLY.
Proof.
  unfold multiply_and_round_up. intros H. repeat case_match; [| |done].
  all: apply require_r_ok in H as [Hd H]; apply require_r_ok in H as [Hm H]; injection H as <-;
    btrue; simpl; split; [by apply u128_div_range|done].
Qed.

(** ** The exact value of an exchange *)

Definition exchanged (q j : Z) : res asset :=
  require? q <=? GRAPHENE_MAX_SHARE_SUPPLY in Ok (mk_asset q j).

Lemma asset_mul_eq a p :
  price_ok p → amount_ok a →
  asset_mul a p =
    match rate_of (asset_id a) p with
    | Some (n, d, j) => exchanged (floor_div (amount a * n) d) j
    | None => Err AssertFailure
    end.
Proof.
  intros (Hb & Hq & Hne) Ha. unfold amount_ok, int64_max in *.
  unfold asset_mul, rate_of, exchanged, floor_div.
  rewrite !(proj2 (Z.ltb_lt 0 _)) by lia.
  case_match; [|case_match; [|done]]; simpl; rewrite (u128_small (amount a)), u128_small by nia; done.
Qed.

Lemma round_up_eq a p :
  price_ok p → amount_ok a →
  multiply_and_round_up a p =
    match rate_of (asset_id a) p with
    | Some (n, d, j) => exchanged (ceil_div (amount a * n) d) j
    | None => Err AssertFailure
    end.
Proof.
  intros (Hb & Hq & Hne) Ha. unfold amount_ok, int64_max in *.
  unfold multiply_and_round_up, rate_of, exchanged, ceil_div.
  rewrite !(proj2 (Z.ltb_lt 0 _)) by lia.
  case_match; [|case_match; [|done]]; simpl;
    rewrite (u128_small (amount a)), (u128_small (_ * _)), (u128_small (_ + _)), u128_small by nia; done.
Qed.

Lemma exchanged_ok q j r :
  exchanged q j = Ok r ↔ r = mk_asset q j ∧ q ≤ GRAPHENE_MAX_SHARE_SUPPLY.
Proof. unfold exchanged. rewrite require_r_ok, Z.leb_le. naive_solver. Qed.

Lemma asset_mul_ok a p r :
  price_ok p → amount_ok a → asset_mul a p = Ok r →
  ∃ n d, rate_of (asset_id a) p = Some (n, d, asset_id r) ∧ amount r = floor_div (amount a * n) d.
Proof.
  intros Hp Ha. rewrite asset_mul_eq by done. destruct (rate_of _ p) as [[[n d] j]|]; [|done].
  intros [-> _]%exchanged_ok. eauto.
Qed.

Lemma round_up_ok a p r :
  price_ok p → amount_ok a → multiply_and_round_up a p = Ok r →
  ∃ n d, rate_of (asset_id a) p = Some (n, d, asset_id r) ∧ amount r = ceil_div (amount a * n) d.
Proof.
  intros Hp Ha. rewrite round_up_eq by done. destruct (rate_of _ p) as [[[n d] j]|]; [|done].
  intros [-> _]%exchanged_ok. eauto.
Qed.

Lemma asset_mul_amount_ok a p r : asset_mul a p = Ok r → amount_ok r.
Proof.
  intros H%asset_mul_range. unfold amount_ok, int64_max, GRAPHENE_MAX_SHARE_SUPPLY in *. lia.
Qed.
Lemma round_up_amount_ok a p r : multiply_and_round_up a p = Ok r → amount_ok r.
Proof.
  intros H%round_up_range. unfold amount_ok, int64_max, GRAPHENE_MAX_SHARE_SUPPLY in *. lia.
Qed.

(** Down and up again: the same asset, not more of it. *)
Lemma down_up_le a p r r' :
  price_ok p → amount_ok a → asset_mul a p = Ok r → multiply_and_round_up r p = Ok r' →
  asset_id r' = asset_id a ∧ amount r' ≤ amount a.
Proof.
  intros Hp Ha Hr Hr'. pose proof (asset_mul_amount_ok _ _ _ Hr) as Hra.
  destruct (asset_mul_ok _ _ _ Hp Ha Hr) as (n & d & Hrate & Hamt).
  destruct (rate_of_ok _ _ _ _ _ Hp Hrate) as (Hn & Hd & _ & Hback).
  destruct (round_up_ok _ _ _ Hp Hra Hr') as (n' & d' & Hrate' & Hamt').
  rewrite Hback in Hrate'. injection Hrate' as <- <- Hid. split; [done|].
  rewrite Hamt', Hamt. apply ceil_floor_le; lia.
Qed.
End exchange.

(** ** The order of prices *)

(** The order of valid prices: by the assets, then by the ratio. *)
Definition price_before (p q : price) : Prop :=
  asset_id (base p) < asset_id (base q) ∨
  asset_id (base p) = asset_id (base q) ∧
  (asset_id (quote p) < asset_id (quote q) ∨
   asset_id (quote p) = asset_id (quote q) ∧
   amount (base p) * amount (quote q) < amount (base q) * amount (quote p)).

Definition price_same (p q : price) : Prop :=
  asset_id (base p) = asset_id (base q) ∧ asset_id (quote p) = asset_id (quote q) ∧
  amount (base p) * amount (quote q) = amount (base q) * amount (quote p).

Section price_order.
Context {X : Ext}.

Lemma amult_exact p q :
  price_range p → price_range q → amult p q = amount (base p) * amount (quote q).
Proof.
  intros [Hpb _] [_ Hqq]. unfold int64_max in *. unfold amult.
  rewrite (u128_small (amount (quote q))), u128_small by nia. lia.
Qed.

Lemma amult_swap p q :
  u128 (u128 (amount (quote p)) * amount (base q)) = amult q p.
Proof. done. Qed.

Lemma price_ltb_iff p q :
  price_range p → price_range q → price_ltb p q = true ↔ price_before p q.
Proof.
  intros Hp Hq. unfold price_ltb, price_before. rewrite amult_swap, !amult_exact by done.
  repeat match goal with |- context [if ?x <? ?y then _ else _] => destruct (Z.ltb_spec x y) end;
    rewrite ?Z.ltb_lt; try (split; [|done]; intros; lia); split; intros; try done; lia.
Qed.

Lemma price_ltb_false p q :
  price_range p → price_range q → price_ltb p q = false ↔ ¬ price_before p q.
Proof. intros Hp Hq. rewrite <- price_ltb_iff by done. by rewrite not_true_iff_false. Qed.

Lemma price_eqb_iff p q :
  price_range p → price_range q → price_eqb p q = true ↔ price_same p q.
Proof.
  intros Hp Hq. unfold price_eqb, price_same. rewrite amult_swap, !amult_exact by done.
  rewrite !andb_true_iff, !Z.eqb_eq. tauto.
Qed.

Lemma price_before_trans p q r :
  price_range p → price_range q → price_range r →
  price_before p q → price_before q r → price_before p r.
Proof. unfold price_range, price_before. intros [? ?] [? ?] [? ?] Hpq Hqr. nia. Qed.

(** Not being after is transitive as well. *)
Lemma price_not_before_trans p q r :
  price_range p → price_range q → price_range r →
  ¬ price_before q p → ¬ price_before r q → ¬ price_before r p.
Proof. unfold price_range, price_before. intros [? ?] [? ?] [? ?] Hpq Hqr. nia. Qed.

Lemma price_inv_ok p : price_ok p → price_ok (price_inv p).
Proof. unfold price_ok, price_inv. simpl. naive_solver. Qed.

(** The null price exchanges nothing. *)
Lemma null_price_fails x : asset_mul x null_price = Err AssertFailure.
Proof. unfold asset_mul; simpl. by repeat case_match. Qed.
Lemma null_price_round_up x : multiply_and_round_up x null_price = Err AssertFailure.
Proof. unfold multiply_and_round_up; simpl. by repeat case_match. Qed.
End price_order.

(** * Rationals of the price computations

    The normal form of a positive rational, and the loops of Asset.v that
    bring a rational into the range of share amounts: they end within the
    passes allowed, with positive terms. *)

(** A positive rational in lowest terms, both terms at most [b]. *)
Definition pos_rat (b : Z) (r : rational) : Prop :=
  0 < numerator r ≤ b ∧ 0 < denominator r ≤ b ∧ is_normal r.

(** The bound of an [int128_t]. *)
Definition int128_max : Z := 2 ^ 127 - 1.

(** A positive ratio of 16 bit terms, such as a collateral ratio. *)
Definition int64_pair (n d : Z) : Prop := 0 < n ≤ int64_max ∧ 0 < d ≤ int64_max.

Section normal_forms.
Lemma gcd_pos n d : 0 < d → 0 < Z.gcd n d.
Proof.
  intros Hd. pose proof (Z.gcd_nonneg n d). enough (Z.gcd n d ≠ 0) by lia.
  intros H0%Z.gcd_eq_0. lia.
Qed.

(** The terms of a normal form divide the terms given. *)
Lemma normal_form_terms n d :
  0 < n → 0 < d →
  let r := normal_form n d in let g := Z.gcd n d in
  0 < g ∧ n = numerator r * g ∧ d = denominator r * g ∧ 0 < numerator r ∧ 0 < denominator r.
Proof.
  intros Hn Hd. pose proof (gcd_pos n d ltac:(lia)) as Hg.
  destruct (Z.gcd_divide_l n d) as [x Hx]. destruct (Z.gcd_divide_r n d) as [y Hy].
  unfold normal_form; simpl. set (g := Z.gcd n d) in *.
  rewrite Z.sgn_pos, Z.abs_eq, Z.mul_1_l by lia.
  assert (n / g = x) as -> by (rewrite Hx; by apply Z.div_mul; lia).
  assert (d / g = y) as -> by (rewrite Hy; by apply Z.div_mul; lia).
  split_and!; try done; nia.
Qed.

Lemma normal_form_normal n d : 0 < n → 0 < d → is_normal (normal_form n d).
Proof.
  intros Hn Hd. destruct (normal_form_terms n d Hn Hd) as (Hg & En & Ed & Hx & Hy).
  split; [done|]. set (r := normal_form n d) in *. set (g := Z.gcd n d) in *.
  assert (Z.gcd (numerator r * g) (denominator r * g) = g) as E by (by rewrite <- En, <- Ed).
  rewrite Z.gcd_mul_mono_r_nonneg in E by lia. nia.
Qed.

Lemma normal_form_pos n d b : 0 < n ≤ b → 0 < d ≤ b → pos_rat b (normal_form n d).
Proof.
  intros Hn Hd. destruct (normal_form_terms n d) as (Hg & En & Ed & Hx & Hy); [lia..|].
  split_and!; try apply normal_form_normal; nia.
Qed.

(** A normal form has the value of the quotient given. *)
Lemma normal_form_value n d :
  0 < n → 0 < d → numerator (normal_form n d) * d = n * denominator (normal_form n d).
Proof. intros Hn Hd. destruct (normal_form_terms n d Hn Hd) as (_ & En & Ed & _). nia. Qed.

Lemma pos_rat_weaken b b' r : pos_rat b r → b ≤ b' → pos_rat b' r.
Proof. intros (Hn & Hd & Hr) Hb. split_and!; try done; lia. Qed.
End normal_forms.

Section rationals.
Context {X : Ext}.

Lemma rational_of_pos n d b :
  0 < n ≤ b → 0 < d ≤ b → b ≤ int128_max →
  rational_of n d = Ok (normal_form n d) ∧ pos_rat b (normal_form n d).
Proof.
  intros Hn Hd Hb. unfold int128_max in Hb. split; [|by apply normal_form_pos].
  unfold rational_of. rewrite rat_make_normal by (unfold in128; lia). done.
Qed.

Lemma rat_mul_pos p q b c :
  pos_rat b p → pos_rat c q → b * c ≤ int128_max →
  rat_mul p q = normal_form (numerator p * numerator q) (denominator p * denominator q) ∧
  pos_rat (b * c) (rat_mul p q).
Proof.
  intros (Hpn & Hpd & Hp) (Hqn & Hqd & Hq) Hb. unfold int128_max in Hb.
  assert (rat_mul p q = normal_form (numerator p * numerator q) (denominator p * denominator q)) as E.
  { apply rat_mul_exact; try done; unfold in128; nia. }
  split; [done|]. rewrite E. apply normal_form_pos; nia.
Qed.

Lemma out_of_range_false cp :
  out_of_range cp = false ↔
  numerator cp ≤ GRAPHENE_MAX_SHARE_SUPPLY ∧ denominator cp ≤ GRAPHENE_MAX_SHARE_SUPPLY.
Proof. unfold out_of_range. rewrite orb_false_iff, !Z.ltb_ge. done. Qed.

(** ** Loops that halve both terms *)

(** Both terms halved, up to one unit. *)
Lemma halved_pos b n d n' d' :
  0 < n' ≤ Z.shiftr n 1 + 1 → 0 < d' ≤ Z.shiftr d 1 + 1 → n ≤ 2 * b → d ≤ 2 * b →
  n ≤ int128_max → d ≤ int128_max →
  rational_of n' d' = Ok (normal_form n' d') ∧ pos_rat (b + 1) (normal_form n' d') ∧
  pos_rat int128_max (normal_form n' d').
Proof.
  rewrite !Z.shiftr_div_pow2 by lia. intros Hn Hd Hbn Hbd Hn2 Hd2.
  pose proof (Z.div_le_upper_bound n (2 ^ 1) b ltac:(lia) ltac:(lia)).
  pose proof (Z.div_le_upper_bound d (2 ^ 1) b ltac:(lia) ltac:(lia)).
  pose proof (Z.div_le_upper_bound n (2 ^ 1) (2 ^ 126) ltac:(lia) ltac:(unfold int128_max in *; lia)).
  pose proof (Z.div_le_upper_bound d (2 ^ 1) (2 ^ 126) ltac:(lia) ltac:(unfold int128_max in *; lia)).
  assert (0 < n' ≤ 2 ^ 126 + 1) by lia. assert (0 < d' ≤ 2 ^ 126 + 1) by lia.
  destruct (rational_of_pos n' d' (2 ^ 126 + 1)) as [E Hr]; [done|done|unfold int128_max; lia|].
  split_and!; [done|apply normal_form_pos; lia|].
  eapply pos_rat_weaken; [done|unfold int128_max; lia].
Qed.

(** A loop that replaces a rational out of range by one with both terms halved,
    up to one unit, ends within [k + 1] passes when its terms are at most
    [2 ^ k + 2]. *)
Lemma halving_total (loop : nat → rational → res rational) (f g : Z → Z) :
  (∀ k cp, loop (S k) cp =
     if out_of_range cp then
       rbind (rational_of (f (numerator cp)) (g (denominator cp))) (loop k)
     else Ok cp) →
  (∀ z, 0 < z → 0 < f z ≤ Z.shiftr z 1 + 1) → (∀ z, 0 < z → 0 < g z ≤ Z.shiftr z 1 + 1) →
  ∀ k cp, pos_rat (2 ^ Z.of_nat k + 2) cp → pos_rat int128_max cp →
  ∃ r, loop (S k) cp = Ok r ∧ pos_rat GRAPHENE_MAX_SHARE_SUPPLY r.
Proof.
  intros Hloop Hf Hg. induction k as [|k IH]; intros cp Hcp Hmax; rewrite Hloop;
    pose proof Hcp as (Hn & Hd & Hnorm); destruct (out_of_range cp) eqn:E.
  - assert (out_of_range cp = false) as E'; [|by rewrite E in E'].
    apply out_of_range_false. unfold GRAPHENE_MAX_SHARE_SUPPLY. simpl in *. lia.
  - apply out_of_range_false in E. exists cp. split; [done|]. split_and!; try done; lia.
  - destruct Hmax as (Hnm & Hdm & _). rewrite Nat2Z.inj_succ, Z.pow_succ_r in * by lia.
    destruct (halved_pos (2 ^ Z.of_nat k + 1) (numerator cp) (denominator cp)
                (f (numerator cp)) (g (denominator cp))) as (-> & Hb & Hm);
      [apply Hf; lia|apply Hg; lia|lia|lia|lia|lia|].
    apply IH; [|done]. eapply pos_rat_weaken; [exact Hb|lia].
  - apply out_of_range_false in E. exists cp. split; [done|]. split_and!; try done; lia.
Qed.

Lemma fuel_bound cp : pos_rat int128_max cp → pos_rat (2 ^ Z.of_nat 127 + 2) cp.
Proof. intros H. eapply pos_rat_weaken; [done|]. unfold int128_max. lia. Qed.

(** The loop of [call_price] ends, with positive terms in range. *)
Lemma call_price_loop_total cp :
  pos_rat int128_max cp →
  ∃ r, call_price_loop shrink_fuel cp = Ok r ∧ pos_rat GRAPHENE_MAX_SHARE_SUPPLY r.
Proof.
  intros Hcp. apply (halving_total call_price_loop (λ z, Z.shiftr z 1 + 1) (λ z, Z.shiftr z 1 + 1)
    (λ _ _, eq_refl)); [| |by apply fuel_bound|done];
    (intros z Hz; rewrite Z.shiftr_div_pow2 by lia; pose proof (Z.div_pos z (2 ^ 1) ltac:(lia) ltac:(lia)); lia).
Qed.

(** So does the loop of [max_short_squeeze_price]. *)
Lemma squeeze_loop_total cp :
  pos_rat int128_max cp →
  ∃ r, squeeze_loop shrink_fuel cp = Ok r ∧ pos_rat GRAPHENE_MAX_SHARE_SUPPLY r.
Proof.
  intros Hcp. apply (halving_total squeeze_loop (λ z, Z.shiftr z 1 + Z.land z 1)
    (λ z, Z.shiftr z 1 + Z.land z 1) (λ _ _, eq_refl)); [| |by apply fuel_bound|done];
    (intros z Hz; assert (Z.land z 1 = z mod 2 ^ 1) as -> by (by apply (Z.land_ones z 1));
     rewrite Z.shiftr_div_pow2 by lia; pose proof (Z.div_mod z (2 ^ 1) ltac:(lia));
     pose proof (Z.mod_pos_bound z (2 ^ 1) ltac:(lia)); pose proof (Z.div_pos z (2 ^ 1) ltac:(lia) ltac:(lia));
     change (2 ^ 1) with 2 in *; lia).
Qed.

(** ** The loop of the product of a price and a ratio *)

Lemma shrink_total : ∀ k cp b,
  pos_rat int128_max cp → numerator cp ≤ 2 ^ Z.of_nat k →
  ∃ r, shrink (S k) cp b = Ok r ∧ pos_rat GRAPHENE_MAX_SHARE_SUPPLY (fst r).
Proof.
  assert (∃ one max, rational_of 1 GRAPHENE_MAX_SHARE_SUPPLY = Ok one ∧
            rational_of GRAPHENE_MAX_SHARE_SUPPLY 1 = Ok max ∧
            pos_rat GRAPHENE_MAX_SHARE_SUPPLY one ∧ pos_rat GRAPHENE_MAX_SHARE_SUPPLY max)
    as (one & max & Eone & Emax & Hone & Hmax).
  { destruct (rational_of_pos 1 GRAPHENE_MAX_SHARE_SUPPLY GRAPHENE_MAX_SHARE_SUPPLY) as [E1 H1];
      [done|done|done|].
    destruct (rational_of_pos GRAPHENE_MAX_SHARE_SUPPLY 1 GRAPHENE_MAX_SHARE_SUPPLY) as [E2 H2];
      [done|done|done|]. eauto 10. }
  induction k as [|k IH]; intros cp b Hcp Hk; cbn [shrink];
    pose proof Hcp as (Hn & Hd & Hnorm); destruct (out_of_range cp) eqn:E;
    try (apply out_of_range_false in E; eexists; split; [done|]; split_and!; try done; simpl; lia).
  - replace (numerator cp =? 1) with true by (symmetry; apply Z.eqb_eq; simpl in Hk; lia).
    rewrite Eone. simpl. eauto.
  - destruct (Z.eqb_spec (numerator cp) 1); [rewrite Eone; simpl; eauto|].
    destruct (Z.eqb_spec (denominator cp) 1); [rewrite Emax; simpl; eauto|].
    rewrite Nat2Z.inj_succ, Z.pow_succ_r in Hk by lia. rewrite !Z.shiftr_div_pow2 by lia.
    assert (1 ≤ numerator cp / 2 ^ 1) by (apply Z.div_le_lower_bound; lia).
    assert (1 ≤ denominator cp / 2 ^ 1) by (apply Z.div_le_lower_bound; lia).
    assert (numerator cp / 2 ^ 1 ≤ 2 ^ Z.of_nat k) by (apply Z.div_le_upper_bound; lia).
    assert (numerator cp / 2 ^ 1 ≤ numerator cp) by (apply Z.div_le_upper_bound; lia).
    assert (denominator cp / 2 ^ 1 ≤ denominator cp) by (apply Z.div_le_upper_bound; lia).
    destruct (rational_of_pos (numerator cp / 2 ^ 1) (denominator cp / 2 ^ 1) int128_max) as [-> Hr]; [lia..|].
    apply IH; [done|]. cbn [rbind].
    destruct (normal_form_terms (numerator cp / 2 ^ 1) (denominator cp / 2 ^ 1)) as (? & En & _); [lia..|]. nia.
Qed.

Lemma edge_candidate_total ocp :
  pos_rat int128_max ocp →
  ∃ r, edge_candidate ocp = Ok r ∧ pos_rat GRAPHENE_MAX_SHARE_SUPPLY r.
Proof.
  intros (Hn & Hd & _). unfold edge_candidate.
  assert (∀ x y, 0 < y ≤ x → 0 < (if GRAPHENE_MAX_SHARE_SUPPLY <? Z.quot x y
            then GRAPHENE_MAX_SHARE_SUPPLY else Z.quot x y) ≤ GRAPHENE_MAX_SHARE_SUPPLY) as Hq.
  { intros x y Hxy. rewrite Z.quot_div_nonneg by lia.
    assert (1 ≤ x / y) by (apply Z.div_le_lower_bound; lia).
    destruct (Z.ltb_spec GRAPHENE_MAX_SHARE_SUPPLY (x / y)); [done|lia]. }
  destruct (Z.ltb_spec (denominator ocp) (numerator ocp)).
  - eexists. apply rational_of_pos; [apply Hq; lia|done|done].
  - eexists. apply rational_of_pos; [done|apply Hq; lia|done].
Qed.

Lemma refine_shrunk_total ocp cp :
  pos_rat int128_max ocp → pos_rat GRAPHENE_MAX_SHARE_SUPPLY cp →
  ∃ r, refine_shrunk ocp cp = Ok r ∧ pos_rat GRAPHENE_MAX_SHARE_SUPPLY r.
Proof.
  intros Ho Hc. unfold refine_shrunk. destruct (edge_candidate_total ocp Ho) as (ncp & -> & Hn). simpl.
  case_match; [eauto|]. case_match; eauto.
Qed.
End rationals.

(** ** Prices built from rationals *)

(** The price of the rational [r] between two assets. *)
Definition rat_price (r : rational) (b q : Z) : price :=
  mk_price (mk_asset (numerator r) b) (mk_asset (denominator r) q).

Definition collateral_ratio_ok (r : Z) : Prop := 0 < r < 2 ^ 16.

(** A price in the range of share amounts. *)
Definition price_in_range (p : price) : Prop :=
  price_ok p ∧ amount (base p) ≤ GRAPHENE_MAX_SHARE_SUPPLY ∧ amount (quote p) ≤ GRAPHENE_MAX_SHARE_SUPPLY.

Section rational_prices.
Context {X : Ext}.

Lemma rat_price_in_range r b q :
  pos_rat GRAPHENE_MAX_SHARE_SUPPLY r → b ≠ q → price_in_range (rat_price r b q).
Proof.
  intros (Hn & Hd & _) Hbq. unfold price_in_range, price_ok, int64_max, rat_price; simpl.
  unfold GRAPHENE_MAX_SHARE_SUPPLY in *. split_and!; lia.
Qed.

Lemma asset_div_ok b q : asset_id b ≠ asset_id q → asset_div b q = Ok (mk_price b q).
Proof. intros H. unfold asset_div. by destruct (Z.eqb_spec (asset_id b) (asset_id q)). Qed.

Lemma price_ok_validate p : price_ok p → price_validate p = Ok tt.
Proof.
  intros (Hb & Hq & Hne). unfold price_validate.
  rewrite !(proj2 (Z.ltb_lt 0 _)) by lia. by destruct (Z.eqb_spec (asset_id (base p)) (asset_id (quote p))).
Qed.

(** The product of two normal forms has the value of the products. *)
Lemma product_of_normals n d n' d' :
  0 < n → 0 < d → 0 < n' → 0 < d' →
  let p := normal_form n d in let q := normal_form n' d' in
  let r := normal_form (numerator p * numerator q) (denominator p * denominator q) in
  numerator r * (d * d') = n * n' * denominator r.
Proof.
  intros Hn Hd Hn' Hd' p q r.
  destruct (normal_form_terms n d) as (Hg1 & En & Ed & Hx & Hy); [lia..|].
  destruct (normal_form_terms n' d') as (Hg2 & En' & Ed' & Hx' & Hy'); [lia..|].
  fold p in En, Ed, Hx, Hy. fold q in En', Ed', Hx', Hy'.
  pose proof (normal_form_value (numerator p * numerator q) (denominator p * denominator q)
                ltac:(nia) ltac:(nia)) as H3. fold r in H3.
  rewrite (f_equal2 Z.mul En En'), (f_equal2 Z.mul Ed Ed').
  transitivity (numerator r * (denominator p * denominator q) * (Z.gcd n d * Z.gcd n' d')); [ring|].
  rewrite H3. ring.
Qed.

(** The terms of a rational in lowest terms are the least of its value. *)
Lemma lowest_terms_le r n d b :
  is_normal r → 0 < numerator r → 0 < n ≤ b → 0 < d ≤ b → numerator r * d = n * denominator r →
  numerator r ≤ b ∧ denominator r ≤ b.
Proof.
  intros [Hd Hg] Hn0 Hn Hdd E.
  assert (numerator r | n) as Hdn.
  { apply (Z.gauss _ (denominator r)); [|done]. exists d. lia. }
  assert (denominator r | d) as Hdd'.
  { apply (Z.gauss _ (numerator r)); [|by rewrite Z.gcd_comm]. exists n. lia. }
  apply Z.divide_pos_le in Hdn; [|lia]. apply Z.divide_pos_le in Hdd'; [|lia]. lia.
Qed.

(** The product of a ratio of two amounts and a ratio of two collateral
    ratios: its value, and its range. *)
Lemma product_value n d n' d' :
  int64_pair n d → collateral_ratio_ok n' → collateral_ratio_ok d' →
  ∃ p q, rational_of n d = Ok p ∧ rational_of n' d' = Ok q ∧ pos_rat int128_max (rat_mul p q) ∧
    numerator (rat_mul p q) * (d * d') = n * n' * denominator (rat_mul p q).
Proof.
  intros [Hn Hd] Hn' Hd'. unfold collateral_ratio_ok in *.
  destruct (rational_of_pos n d int64_max) as [-> Hp]; [done|done|done|].
  destruct (rational_of_pos n' d' (2 ^ 16)) as [-> Hq]; [lia|lia|done|].
  destruct (rat_mul_pos _ _ _ _ Hp Hq) as [E Hpq]; [done|].
  eexists _, _. split_and!; [done|done|by eapply pos_rat_weaken|].
  rewrite E. apply product_of_normals; lia.
Qed.

(** Without leaving the range the loops return their argument. *)
Lemma call_price_loop_in_range cp : out_of_range cp = false → call_price_loop shrink_fuel cp = Ok cp.
Proof. intros E. unfold shrink_fuel. simpl. by rewrite E. Qed.
Lemma squeeze_loop_in_range cp : out_of_range cp = false → squeeze_loop shrink_fuel cp = Ok cp.
Proof. intros E. unfold shrink_fuel. simpl. by rewrite E. Qed.

(** [price::call_price] of a position: it is total, in range, and exact when
    no term had to be halved. *)
Lemma call_price_total debt collateral ratio :
  int64_pair (amount debt) (amount collateral) → asset_id debt ≠ asset_id collateral →
  collateral_ratio_ok ratio →
  ∃ p cp, call_price debt collateral ratio = Ok p ∧ price_in_range p ∧
    asset_id (base p) = asset_id collateral ∧ asset_id (quote p) = asset_id debt ∧
    numerator cp * (amount collateral * GRAPHENE_COLLATERAL_RATIO_DENOM) =
      amount debt * ratio * denominator cp ∧ pos_rat int128_max cp ∧
    (out_of_range cp = false → amount (base p) = denominator cp ∧ amount (quote p) = numerator cp).
Proof.
  intros Hpair Hne Hr.
  destruct (product_value (amount debt) (amount collateral) ratio GRAPHENE_COLLATERAL_RATIO_DENOM)
    as (sw & ra & Es & Er & Hpos & Hval); [done..|].
  destruct (call_price_loop_total _ Hpos) as (cp & Ecp & Hcp).
  eexists _, (rat_mul sw ra). unfold call_price. rewrite Es. cbn [rbind]. rewrite Er. cbn [rbind].
  rewrite Ecp. cbn [rbind].
  rewrite asset_div_ok by done. simpl. split; [done|]. split.
  { destruct (rat_price_in_range cp (asset_id debt) (asset_id collateral)) as (Hok & Hb & Hq); [done|done|].
    split_and!; [by apply price_inv_ok in Hok|done|done]. }
  simpl. split_and!; [done|done|done|done|]. intros E. rewrite call_price_loop_in_range in Ecp by done.
  injection Ecp as <-. done.
Qed.

(** What is known of a call price whatever amounts it is computed from. *)
Definition call_price_shape (p : price) : Prop :=
  0 < amount (base p) ≤ GRAPHENE_MAX_SHARE_SUPPLY ∧
  - 2 ^ 78 ≤ amount (quote p) ≤ GRAPHENE_MAX_SHARE_SUPPLY.

(** The terms of any normal form, and their bounds. *)
Definition rat_within (b c : Z) (r : rational) : Prop :=
  - b ≤ numerator r ≤ b ∧ 0 < denominator r ≤ c ∧ is_normal r.

Lemma normal_form_within n d b c :
  d ≠ 0 → - b ≤ n ≤ b → - c ≤ d ≤ c → rat_within b c (normal_form n d).
Proof.
  intros Hd Hn Hdc. assert (0 < Z.gcd n d) as Hg.
  { pose proof (Z.gcd_nonneg n d). enough (Z.gcd n d ≠ 0) by lia. intros [_ ?]%Z.gcd_eq_0. lia. }
  destruct (Z.gcd_divide_l n d) as [x Hx]. destruct (Z.gcd_divide_r n d) as [y Hy].
  assert (Z.gcd x y = 1) as Hxy.
  { assert (Z.gcd (x * Z.gcd n d) (y * Z.gcd n d) = Z.gcd n d) as E by (by rewrite <- Hx, <- Hy).
    rewrite Z.gcd_mul_mono_r_nonneg in E by lia. nia. }
  unfold normal_form, rat_within, is_normal; simpl. set (g := Z.gcd n d) in *.
  assert (n / g = x) as -> by (rewrite Hx; by apply Z.div_mul; lia).
  assert (Z.abs d / g = Z.abs y) as -> by (rewrite Hy, Z.abs_mul, (Z.abs_eq g) by lia; by apply Z.div_mul; lia).
  assert (Z.abs (Z.sgn d * x) = Z.abs x) as Hs by (rewrite Z.abs_mul; destruct (Z.sgn_spec d) as [[? ->]|[[? ->]|[? ->]]]; lia).
  split_and!; [nia..|]. rewrite <- (Z.gcd_abs_l (Z.sgn d * x)), Hs, Z.gcd_abs_l, Z.gcd_abs_r. done.
Qed.

Lemma rational_of_within n d b c r :
  - b ≤ n ≤ b → - c ≤ d ≤ c → b < 2 ^ 127 → c < 2 ^ 127 → rational_of n d = Ok r → rat_within b c r.
Proof.
  intros Hn Hd Hb Hc. unfold rational_of. destruct (decide (d = 0)) as [->|Hd0].
  { by rewrite rat_make_zero. }
  rewrite rat_make_normal by (unfold in128; lia). intros [= <-]. by apply normal_form_within.
Qed.

Lemma call_price_loop_within fuel : ∀ cp r,
  rat_within (2 ^ 78) (2 ^ 78) cp → call_price_loop fuel cp = Ok r →
  rat_within (2 ^ 78) (2 ^ 78) r ∧ out_of_range r = false.
Proof.
  induction fuel as [|fuel IH]; intros cp r Hcp H; simpl in H; [done|].
  destruct (out_of_range cp) eqn:Eo; [|by injection H as <-]. inv_ok. eapply IH; [|done].
  destruct Hcp as (Hn & Hd & _). eapply rational_of_within; [..|done]; try done;
    rewrite Z.shiftr_div_pow2 by lia; change (2 ^ 1) with 2; Z.to_euclidean_division_equations; lia.
Qed.

Lemma call_price_has_shape debt collateral ratio p :
  in64 (amount debt) → in64 (amount collateral) → 0 ≤ ratio ≤ 2 ^ 15 →
  call_price debt collateral ratio = Ok p → call_price_shape p.
Proof.
  unfold in64, int64_min, int64_max. intros Hd Hc Hr H. unfold call_price in H. inv_ok.
  match goal with H1 : rational_of (amount debt) _ = Ok ?x, H2 : rational_of ratio _ = Ok ?y |- _ =>
    apply (rational_of_within _ _ (2 ^ 63) (2 ^ 63)) in H1 as (Hn1 & Hd1 & Hx1); [|lia..];
    apply (rational_of_within _ _ (2 ^ 15) (2 ^ 15)) in H2 as (Hn2 & Hd2 & Hx2);
      [|unfold GRAPHENE_COLLATERAL_RATIO_DENOM; lia..] end.
  match goal with H3 : call_price_loop _ _ = Ok ?z |- _ => apply call_price_loop_within in H3 as [(Hn3 & Hd3 & _) Ho] end.
  - unfold out_of_range in Ho. apply orb_false_iff in Ho as [Ho1%Z.ltb_ge Ho2%Z.ltb_ge].
    unfold asset_div in *. inv_ok. unfold call_price_shape; simpl. lia.
  - rewrite rat_mul_exact; [|done|done|unfold in128; nia|unfold in128; nia].
    apply normal_form_within; nia.
Qed.

(** The same for [price_feed::max_short_squeeze_price]. *)
Lemma max_short_squeeze_price_total f :
  price_ok (settlement_price f) → collateral_ratio_ok (maximum_short_squeeze_ratio f) →
  ∃ p cp, max_short_squeeze_price f = Ok p ∧ price_in_range p ∧
    asset_id (base p) = asset_id (base (settlement_price f)) ∧
    asset_id (quote p) = asset_id (quote (settlement_price f)) ∧
    numerator cp * (amount (quote (settlement_price f)) * maximum_short_squeeze_ratio f) =
      amount (base (settlement_price f)) * GRAPHENE_COLLATERAL_RATIO_DENOM * denominator cp ∧
    pos_rat int128_max cp ∧
    (out_of_range cp = false → amount (base p) = numerator cp ∧ amount (quote p) = denominator cp).
Proof.
  intros (Hb & Hq & Hne) Hr.
  destruct (product_value (amount (base (settlement_price f))) (amount (quote (settlement_price f)))
              GRAPHENE_COLLATERAL_RATIO_DENOM (maximum_short_squeeze_ratio f))
    as (sp & ra & Es & Er & Hpos & Hval); [done..|].
  destruct (squeeze_loop_total _ Hpos) as (cp & Ecp & Hcp).
  eexists _, (rat_mul sp ra). unfold max_short_squeeze_price. rewrite Es. cbn [rbind].
  rewrite Er. cbn [rbind]. rewrite Ecp. cbn [rbind]. rewrite asset_div_ok by done. split; [done|]. split.
  { by apply (rat_price_in_range cp). }
  simpl. split_and!; [done|done|done|done|]. intros E. rewrite squeeze_loop_in_range in Ecp by done.
  injection Ecp as <-. done.
Qed.
End rational_prices.

(** ** The product of a price and a ratio *)

(** A positive [ratio_type]. *)
Definition ratio_ok (r : rational) : Prop :=
  0 < numerator r < 2 ^ 31 ∧ 0 < denominator r < 2 ^ 31 ∧ is_normal r.

(** The price [np] is the product of [p] and [r]. *)
Definition price_times (p : price) (r : rational) (np : price) : Prop :=
  amount (base np) * (amount (quote p) * denominator r) =
  amount (base p) * numerator r * amount (quote np).

(** Same assets. *)
Definition same_pair (p q : price) : Prop :=
  asset_id (base p) = asset_id (base q) ∧ asset_id (quote p) = asset_id (quote q).

Section price_product.
Context {X : Ext}.

(** The exact product, as a rational of [int128_t]. *)
Lemma ratio_product p r :
  price_ok p → ratio_ok r →
  ∃ a b, rational_of (amount (base p)) (amount (quote p)) = Ok a ∧
    rational_of (numerator r) (denominator r) = Ok b ∧ pos_rat int128_max (rat_mul a b) ∧
    numerator (rat_mul a b) * (amount (quote p) * denominator r) =
    amount (base p) * numerator r * denominator (rat_mul a b).
Proof.
  intros (Hb & Hq & _) (Hn & Hd & _).
  destruct (rational_of_pos (amount (base p)) (amount (quote p)) int64_max) as [-> Ha]; [done|done|done|].
  destruct (rational_of_pos (numerator r) (denominator r) (2 ^ 31)) as [-> Hr]; [lia|lia|done|].
  destruct (rat_mul_pos _ _ _ _ Ha Hr) as [E Hab]; [done|].
  eexists _, _. split_and!; [done|done|by eapply pos_rat_weaken|].
  rewrite E. apply (product_of_normals (amount (base p)) (amount (quote p))); lia.
Qed.

(** What is left after the loop and the choice of the candidate. *)
Lemma shrunk_product ocp :
  pos_rat int128_max ocp →
  ∃ sh cp, shrink shrink_fuel ocp false = Ok sh ∧
    (if snd sh then refine_shrunk ocp (fst sh) else Ok (fst sh)) = Ok cp ∧
    pos_rat GRAPHENE_MAX_SHARE_SUPPLY cp ∧ (out_of_range ocp = false → cp = ocp).
Proof.
  intros Ho. pose proof Ho as (Hn & Hd & _).
  destruct (shrink_total 127 ocp false Ho) as (sh & Esh & Hsh).
  { unfold int128_max in Hn. simpl. lia. }
  assert (out_of_range ocp = false → sh = (ocp, false)) as Hin.
  { intros E. cbn [shrink] in Esh. rewrite E in Esh. by injection Esh as <-. }
  exists sh. destruct sh as [c shrinked]; simpl in *. destruct shrinked.
  - destruct (refine_shrunk_total ocp c) as (cp & Ecp & Hcp); [done|done|].
    exists cp. split_and!; try done. intros E. by specialize (Hin E).
  - exists c. split_and!; try done. intros E. by injection (Hin E) as ->.
Qed.

(** [price * ratio]: total; the result is a valid price of the same assets,
    it never moves against the ratio, and it is exact when it fits. *)
Lemma price_mul_ratio_total p r :
  price_ok p → ratio_ok r →
  ∃ np, price_mul_ratio p r = Ok np ∧ price_ok np ∧ same_pair np p ∧
    (denominator r < numerator r → ¬ price_before np p) ∧
    (numerator r < denominator r → ¬ price_before p np) ∧
    (numerator r = denominator r → np = p) ∧
    (∀ q, price_times p r q → same_pair q p → price_in_range q → price_times p r np).
Proof.
  intros Hp Hr. pose proof Hr as (Hn & Hd & _). unfold price_mul_ratio.
  rewrite price_ok_validate by done. cbn [rbind].
  rewrite (proj2 (Z.ltb_lt 0 (numerator r))), (proj2 (Z.ltb_lt 0 (denominator r))) by lia.
  cbn [andb require_r]. destruct (Z.eqb_spec (numerator r) (denominator r)) as [E|Hne].
  { exists p. unfold same_pair, price_before. split_and!; try done; try lia. intros. unfold price_times. rewrite E. ring. }
  destruct (ratio_product p r) as (a & b & Ea & Eb & Hab & Hval); [done..|].
  rewrite Ea. cbn [rbind]. rewrite Eb. cbn [rbind].
  destruct (shrunk_product _ Hab) as (sh & cp & Esh & Ecp & Hcp & Hexact).
  rewrite Esh. cbn [rbind]. rewrite Ecp. cbn [rbind].
  rewrite asset_div_ok by (simpl; apply Hp). cbn [rbind].
  pose proof (rat_price_in_range cp (asset_id (base p)) (asset_id (quote p)) Hcp ltac:(apply Hp)) as [Hnp _].
  fold (rat_price cp (asset_id (base p)) (asset_id (quote p))).
  set (np := rat_price cp _ _) in *. unfold price_gtb.
  match goal with |- context [if ?b then p else np] => set (back := b) end.
  assert (price_ok (if back then p else np)) as Hres by (by destruct back).
  rewrite price_ok_validate by done. cbn [rbind].
  exists (if back then p else np). split; [done|]. split; [done|]. split; [by destruct back|].
  split_and!; [| |done|].
  - intros Hlt. subst back. rewrite (proj2 (Z.ltb_lt _ _)) by done. rewrite (proj2 (Z.ltb_ge (numerator r) _)) by lia.
    rewrite orb_false_r, andb_true_l. destruct (price_ltb np p) eqn:E; [unfold price_before; lia|].
    apply price_ltb_false in E; auto.
  - intros Hlt. subst back. rewrite (proj2 (Z.ltb_lt (numerator r) _)) by done.
    rewrite (proj2 (Z.ltb_ge (denominator r) _)) by lia.
    rewrite orb_false_l, andb_true_l. destruct (price_ltb p np) eqn:E; [unfold price_before; lia|].
    apply price_ltb_false in E; auto.
  - intros q Hq [Hqb Hqq] ((Hqb0 & Hqq0 & _) & Hqbm & Hqqm).
    assert (out_of_range (rat_mul a b) = false) as Hin.
    { apply out_of_range_false. destruct Hab as (Hnab & _ & Hnorm). unfold price_times in Hq.
      apply (lowest_terms_le _ (amount (base q)) (amount (quote q))); [done|lia|lia|lia|].
      set (k := amount (quote p) * denominator r) in *.
      apply (Z.mul_reg_r _ _ k); [subst k; destruct Hp as (_ & ? & _); nia|].
      transitivity (numerator (rat_mul a b) * k * amount (quote q)); [ring|]. rewrite Hval.
      transitivity (amount (base q) * k * denominator (rat_mul a b)); [rewrite Hq|]; ring. }
    specialize (Hexact Hin). subst cp.
    assert (price_times p r np) as Hx by (unfold price_times, np; simpl; lia).
    assert (back = false) as ->; [|done]. subst back np.
    apply orb_false_iff. rewrite !andb_false_iff, !Z.ltb_ge, !price_ltb_false by auto.
    unfold price_times, price_before in *. simpl in *.
    destruct Hp as (? & ? & _). destruct Hab as (? & ? & _).
    split; (destruct (Z.lt_total (numerator r) (denominator r)) as [|[|]]; [|done|]); [left; lia|right; nia|right; nia|left; lia].
Qed.
End price_product.
