(* ===== verification/Indices.v ===== *)
(** * Ordered indices

    What the lists that [sorted_by] of Database.v makes of a map have in common:
    their entries, their order, what a lower bound finds, which entry is next,
    and what removing an entry leaves. The orders of the indices are strict weak
    orders on valid entries, put together lexicographically. *)

From S2P Require Import Prelude Ext Config Asset Objects Parameters Governance Blocks Names Operations Validation Fees Ledger Database Exchange.

(** ** Strict weak orders *)
Section orders.
Context {A B : Type}.

Lemma strict_weak_order_map (less : B → B → bool) (f : A → B) l :
  strict_weak_order less (f <$> l) → strict_weak_order (λ a b, less (f a) (f b)) l.
Proof.
  intros (H1 & H2 & H3). split_and!.
  - intros x Hx. apply H1, list_elem_of_fmap. eauto.
  - intros x y z Hx Hy Hz. apply H2; apply list_elem_of_fmap; eauto.
  - intros x y z Hx Hy Hz. apply H3; apply list_elem_of_fmap; eauto.
Qed.

Lemma strict_weak_order_flip (less : A → A → bool) l :
  strict_weak_order less l → strict_weak_order (λ a b, less b a) l.
Proof. intros (H1 & H2 & H3). split_and!; eauto. Qed.

(** Compare with the first order, then with the second. *)
Definition lex (less1 less2 : A → A → bool) (a b : A) : bool :=
  if less1 a b then true else if less1 b a then false else less2 a b.

Lemma strict_weak_order_lex (less1 less2 : A → A → bool) l :
  strict_weak_order less1 l → strict_weak_order less2 l → strict_weak_order (lex less1 less2) l.
Proof.
  intros (I1 & T1 & N1) (I2 & T2 & N2). unfold lex. split_and!.
  - intros x Hx. rewrite I1; auto.
  - intros x y z Hx Hy Hz. generalize (T1 x y z Hx Hy Hz), (N1 z x y Hz Hx Hy), (N1 y z x Hy Hz Hx), (T2 x y z Hx Hy Hz).
    generalize (N1 y x z Hy Hx Hz), (N1 x z y Hx Hz Hy), (N1 z y x Hz Hy Hx).
    destruct (less1 x y), (less1 y x), (less1 y z), (less1 z y), (less1 x z), (less1 z x); intuition congruence.
  - intros x y z Hx Hy Hz. generalize (N1 x y z Hx Hy Hz), (N1 z x y Hz Hx Hy), (N1 y z x Hy Hz Hx), (N2 x y z Hx Hy Hz).
    destruct (less1 x y), (less1 y x), (less1 y z), (less1 z y), (less1 x z), (less1 z x); intuition congruence.
Qed.
End orders.

Lemma ltb_order l : strict_weak_order Z.ltb l.
Proof. split_and!; intros *; rewrite ?Z.ltb_irrefl, ?Z.ltb_lt, ?Z.ltb_ge; lia. Qed.

Lemma price_order_on `{Ext} (l : list price) : Forall price_range l → strict_weak_order price_ltb l.
Proof.
  rewrite Forall_forall. intros Hl. split_and!.
  - intros x Hx. apply price_ltb_false; [by apply Hl..|]. unfold price_before. lia.
  - intros x y z Hx Hy Hz. rewrite !price_ltb_iff by auto. apply price_before_trans; by apply Hl.
  - intros x y z Hx Hy Hz. rewrite !price_ltb_false by auto. intros Hxy Hyz.
    by apply (price_not_before_trans z y x); auto.
Qed.

(** ** Entries *)

(** The entries of a sorted index are those of the map. *)
Lemma sorted_by_entry {V} (less : Z * V → Z * V → bool) (m : gmap Z V) k v :
  (k, v) ∈ sorted_by less (map_to_list m) ↔ m !! k = Some v.
Proof. unfold sorted_by. by rewrite merge_sort_Permutation, elem_of_map_to_list. Qed.

(** The first entry from a lower bound on is below an upper bound, unless it is
    the first one above it too. *)
Lemma first_in_range {V} (from above : Z * V → bool) l id :
  find_first from l = Some id → find_first above l ≠ Some id →
  (∀ x, x ∈ l → above x = true → from x = true) →
  ∃ v, (id, v) ∈ l ∧ from (id, v) = true ∧ above (id, v) = false.
Proof.
  unfold find_first. intros Hf Ha Hsub. induction l as [|[k v] l IH]; [done|]. simpl in *.
  destruct (from (k, v)) eqn:Ef.
  - injection Hf as <-. exists v. split; [set_solver|]. split; [done|]. by destruct (above (k, v)).
  - destruct (above (k, v)) eqn:Ea.
    + rewrite Hsub in Ef; [done|set_solver|done].
    + destruct (IH Hf Ha) as (w & Hw & ?); [|set_solver]. intros x Hx. apply Hsub. set_solver.
Qed.


(** ** Order *)

(** Local order is order where the relation is transitive. *)
Lemma Sorted_StronglySorted_on {A} (R : A → A → Prop) l :
  (∀ x y z, x ∈ l → y ∈ l → z ∈ l → R x y → R y z → R x z) → Sorted R l → StronglySorted R l.
Proof.
  induction l as [|x l IH]; intros Htr Hs; [constructor|].
  apply Sorted_inv in Hs as [Hs Hhd]. specialize (IH (λ a b c Ha Hb Hc, Htr a b c
    (list_elem_of_further _ _ _ Ha) (list_elem_of_further _ _ _ Hb) (list_elem_of_further _ _ _ Hc)) Hs).
  constructor; [done|]. destruct l as [|y l]; [constructor|]. apply HdRel_inv in Hhd.
  constructor; [done|]. apply StronglySorted_inv in IH as [_ Hy]. rewrite Forall_forall in *.
  intros z Hz. apply (Htr x y z); [set_solver..|done|auto].
Qed.

Lemma StronglySorted_filter {A} (R : A → A → Prop) (P : A → Prop) `{∀ x, Decision (P x)} l :
  StronglySorted R l → StronglySorted R (filter P l).
Proof.
  induction 1 as [|x l Hs IH Hx]; [constructor|]. rewrite filter_cons. case_decide; [|done].
  constructor; [done|]. rewrite Forall_forall in *. intros y [_ Hy]%list_elem_of_filter. auto.
Qed.

Lemma filter_id {A} (P : A → Prop) `{∀ x, Decision (P x)} l : Forall P l → filter P l = l.
Proof. induction 1 as [|x l Hx Hl IH]; [done|]. by rewrite filter_cons, decide_True, IH. Qed.

Section sorted.
Context {A : Type} (less : A → A → bool) (Hasym : ∀ a b, less a b = true → less b a = false).
#[local] Set Default Proof Using "Type*".

Definition le_by (a b : A) : Prop := Is_true (negb (less b a)).
#[local] Instance le_by_total : Total le_by.
Proof. intros a b. unfold le_by. destruct (less b a) eqn:E; [right|by left]. by rewrite (Hasym _ _ E). Qed.

Lemma le_by_trans l x y z :
  strict_weak_order less l → x ∈ l → y ∈ l → z ∈ l → le_by x y → le_by y z → le_by x z.
Proof. unfold le_by. rewrite !Is_true_true, !negb_true_iff. intros (_ & _ & H). eauto. Qed.

Lemma elem_of_sorted_by x l : x ∈ sorted_by less l ↔ x ∈ l.
Proof. unfold sorted_by. by rewrite merge_sort_Permutation. Qed.

Lemma sorted_by_sorted l : strict_weak_order less l → StronglySorted le_by (sorted_by less l).
Proof.
  intros Hl. apply Sorted_StronglySorted_on; [|apply Sorted_merge_sort, _].
  intros x y z. rewrite !elem_of_sorted_by. by apply le_by_trans.
Qed.

(** No two entries are at the same place of the order. *)
Definition strict_on (l : list A) : Prop :=
  strict_weak_order less l ∧ ∀ x y, x ∈ l → y ∈ l → less x y = false → less y x = false → x = y.

Lemma strict_on_sub l l' : strict_on l → (∀ x, x ∈ l' → x ∈ l) → strict_on l'.
Proof. intros [H1 H2] Hl. split; [by eapply strict_weak_order_sub|eauto]. Qed.

(** The only arrangement in order. *)
Lemma sorted_by_unique l l' : strict_on l → l' ≡ₚ l → StronglySorted le_by l' → l' = sorted_by less l.
Proof.
  intros [Hsw Hanti] Hp Hs. apply (StronglySorted_unique_strong le_by); [|done|by apply sorted_by_sorted|].
  - intros x y Hx Hy. rewrite Hp in Hx. rewrite elem_of_sorted_by in Hy. unfold le_by.
    rewrite !Is_true_true, !negb_true_iff. auto.
  - unfold sorted_by. by rewrite Hp, merge_sort_Permutation.
Qed.

End sorted.

(** ** The next entry *)

Lemma map_to_list_delete_perm {V} (m : gmap Z V) k :
  map_to_list (delete k m) ≡ₚ filter (λ x, x.1 ≠ k) (map_to_list m).
Proof.
  apply NoDup_Permutation; [apply NoDup_map_to_list|apply NoDup_filter, NoDup_map_to_list|].
  intros [i v]. rewrite list_elem_of_filter, !elem_of_map_to_list, lookup_delete_Some. simpl. naive_solver.
Qed.

(** On the entries of a map, the one after an entry is the next. *)
Lemma next_of_app {V} id (v : V) pre suf :
  NoDup (pre ++ (id, v) :: suf).*1 → next_of id (pre ++ (id, v) :: suf) = fst <$> head suf.
Proof.
  induction pre as [|[k w] pre IH]; simpl; intros Hnd; [by rewrite Z.eqb_refl|].
  apply NoDup_cons in Hnd as [Hk Hnd]. destruct (Z.eqb_spec k id) as [->|]; [|auto].
  destruct Hk. rewrite fmap_app, elem_of_app, fmap_cons. right. by left.
Qed.

Lemma sorted_by_NoDup {V} (less : Z * V → Z * V → bool) (m : gmap Z V) :
  NoDup (sorted_by less (map_to_list m)).*1.
Proof. unfold sorted_by. rewrite merge_sort_Permutation. apply NoDup_fst_map_to_list. Qed.

Lemma filter_other {V} id (v : V) pre suf :
  NoDup (pre ++ (id, v) :: suf).*1 → filter (λ x : Z * V, x.1 ≠ id) (pre ++ (id, v) :: suf) = pre ++ suf.
Proof.
  rewrite fmap_app, fmap_cons, NoDup_app, NoDup_cons. simpl. intros (_ & Hpre & Hid & _).
  rewrite filter_app, filter_cons. simpl. rewrite decide_False by (intros H; by apply H).
  rewrite !filter_id; [done|..]; apply Forall_forall; intros x Hx Hxid; subst.
  - apply Hid, list_elem_of_fmap. eauto.
  - apply (Hpre (x.1)); [apply list_elem_of_fmap; eauto|by left].
Qed.

(** Removing an entry leaves the others in place. *)
Lemma sorted_by_delete {V} (less : Z * V → Z * V → bool) m id v pre suf :
  (∀ a b, less a b = true → less b a = false) →
  strict_on less (map_to_list m) → sorted_by less (map_to_list m) = pre ++ (id, v) :: suf →
  sorted_by less (map_to_list (delete id m)) = pre ++ suf.
Proof.
  intros Hasym Hs Hidx. pose proof (sorted_by_NoDup less m) as Hnd. rewrite Hidx in Hnd.
  rewrite <- (filter_other id v pre suf Hnd), <- Hidx. symmetry. apply sorted_by_unique; [done|..].
  - eapply strict_on_sub; [done|done|]. intros x. rewrite map_to_list_delete_perm. by intros [_ ?]%list_elem_of_filter.
  - rewrite map_to_list_delete_perm. unfold sorted_by. by rewrite merge_sort_Permutation.
  - apply StronglySorted_filter, sorted_by_sorted; [done|apply Hs].
Qed.

(** The lower bound of an index starts a suffix of it. *)
Lemma find_first_split {V} (P : Z * V → bool) l id :
  find_first P l = Some id →
  ∃ pre v suf, l = pre ++ (id, v) :: suf ∧ P (id, v) = true ∧ Forall (λ x, P x = false) pre.
Proof.
  unfold find_first. induction l as [|[k v] l IH]; [done|]. simpl. destruct (P (k, v)) eqn:E.
  - intros [= <-]. by exists [], v, l.
  - intros (pre & w & suf & -> & Hw & Hpre)%IH. exists ((k, v) :: pre), w, suf. split_and!; [done|done|by constructor].
Qed.

(** ** The bids by price *)
Section bids.
Context {X : Ext}.

Definition bid_ok (b : collateral_bid_object) : Prop := price_range (cb_inv_swan_price b).

Lemma bid_less_asym a b : bid_less a b = true → bid_less b a = false.
Proof.
  unfold bid_less, price_gtb, price_ltb. rewrite !amult_swap.
  repeat match goal with |- context [if ?x <? ?y then _ else _] => destruct (Z.ltb_spec x y) end; try done; try lia.
  all: repeat match goal with |- context [?x <? ?y] => destruct (Z.ltb_spec x y) end; try done; lia.
Qed.

Lemma bid_less_strict m : map_Forall (λ _, bid_ok) m → strict_on bid_less (map_to_list m).
Proof.
  intros Hok. split.
  - change bid_less with (lex (λ a b : Z * collateral_bid_object, cb_debt_type a.2 <? cb_debt_type b.2)
      (lex (λ a b, price_gtb (cb_inv_swan_price a.2) (cb_inv_swan_price b.2)) (λ a b, a.1 <? b.1))).
    apply strict_weak_order_lex; [|apply strict_weak_order_lex].
    + apply (strict_weak_order_map Z.ltb (λ a : Z * collateral_bid_object, cb_debt_type a.2)), ltb_order.
    + apply (strict_weak_order_flip (λ a b : Z * collateral_bid_object, price_ltb (cb_inv_swan_price a.2) (cb_inv_swan_price b.2))).
      apply (strict_weak_order_map price_ltb (λ a : Z * collateral_bid_object, cb_inv_swan_price a.2)), price_order_on.
      apply Forall_fmap, Forall_forall. intros [i b] Hin%elem_of_map_to_list. exact (Hok i b Hin).
    + apply (strict_weak_order_map Z.ltb (λ a : Z * collateral_bid_object, a.1)), ltb_order.
  - intros [i v] [j w]. rewrite !elem_of_map_to_list. intros Hi Hj Hij Hji.
    assert (i = j) as ->; [|congruence]. unfold bid_less in *. simpl in *. repeat (case_match; btrue); lia.
Qed.

(** Deleting a bid removes it from the index. *)
Lemma bid_price_index_delete s pre id v suf :
  map_Forall (λ _, bid_ok) (d_bids s) → bid_price_index s = pre ++ (id, v) :: suf →
  bid_price_index (set_d_bids (delete id (d_bids s)) s) = pre ++ suf.
Proof.
  intros Hok. unfold bid_price_index. simpl. apply sorted_by_delete; [apply bid_less_asym|].
  by apply bid_less_strict.
Qed.
End bids.
