(* ===== verification/Supply.v ===== *)
(** * The supply of an asset and where it is held

    The specification behind [verify_asset_supplies] of
    tests/common/database_fixture.cpp: every unit of the current supply of an
    asset is in a balance, an order, a fund, a pool, a fee account or (which the
    fixture leaves out) an unclaimed balance of genesis. [holdings]
    adds up the places, [gap] is the difference from the supply, and this file
    proves how the primitive operations on the database change it. *)

From S2P Require Import Prelude Ext Config Asset Objects Parameters Governance Blocks Names Operations Validation Fees Ledger Database Balance Exchange Indices.

(** ** The totals *)

(** What an amount contributes to asset [a]. *)
Definition credit (x : asset) (a : Z) : Z := if asset_id x =? a then amount x else 0.
Definition core_credit (z a : Z) : Z := credit (mk_asset z CORE) a.

Definition limit_credit (o : limit_order_object) (a : Z) : Z :=
  credit (lo_amount_for_sale o) a + core_credit (lo_deferred_fee o) a
  + credit (lo_deferred_paid_fee o) a.

Definition fund_credit (b : asset_bitasset_data_object) (a : Z) : Z :=
  credit (mk_asset (bd_settlement_fund b) (bo_short_backing_asset (bd_options b))) a.

Definition balances_of (a : Z) (m : gmap (Z * Z) account_balance_object) : Z :=
  msum (λ k b, credit (mk_asset (ab_balance b) k.2) a) m.
Definition settles_of (a : Z) (m : gmap Z force_settlement_object) : Z :=
  msum (λ _ o, credit (fs_balance o) a) m.
Definition bids_of (a : Z) (m : gmap Z collateral_bid_object) : Z :=
  msum (λ _ o, credit (base (cb_inv_swan_price o)) a) m.
Definition limits_of (a : Z) (m : gmap Z limit_order_object) : Z :=
  msum (λ _ o, limit_credit o a) m.
Definition calls_of (a : Z) (m : gmap Z call_order_object) : Z :=
  msum (λ _ o, credit (get_collateral o) a) m.
Definition funds_of (a : Z) (m : gmap Z asset_bitasset_data_object) : Z :=
  msum (λ _ b, fund_credit b a) m.
Definition vestings_of (a : Z) (m : gmap Z vesting_balance_object) : Z :=
  msum (λ _ o, credit (vb_balance o) a) m.
Definition genesis_of (a : Z) (m : gmap Z balance_object) : Z :=
  msum (λ _ o, credit (ba_balance o) a) m.
Definition st_pending (st : account_statistics_object) : Z :=
  st_pending_fees st + st_pending_vested_fees st.
Definition pending_of (m : gmap Z account_statistics_object) : Z := msum (λ _ st, st_pending st) m.
Definition pools_of (m : gmap Z asset_dynamic_data_object) : Z := msum (λ _ d, fee_pool d) m.
Definition fbas_of (m : gmap Z fba_accumulator_object) : Z :=
  msum (λ _ f, fba_accumulated_fba_fees f) m.

(** The dynamic data of an asset, and a field of it (0 when there is none). *)
Definition dyn_field (f : asset_dynamic_data_object → Z) (a : Z)
    (assets : gmap Z asset_object) (dyns : gmap Z asset_dynamic_data_object) : Z :=
  from_option f 0 (assets !! a ≫= λ ao, dyns !! as_dynamic_asset_data_id ao).

Definition issuer_held (d : asset_dynamic_data_object) : Z :=
  accumulated_fees d + confidential_supply d.

(** Everything held in asset [a]. *)
Definition holdings (a : Z) (s : database) : Z :=
  balances_of a (d_balances s) + settles_of a (d_settles s) + bids_of a (d_bids s)
  + limits_of a (d_limits s) + calls_of a (d_calls s) + funds_of a (d_bitassets s)
  + vestings_of a (d_vestings s) + genesis_of a (d_genesis_balances s) + dyn_field issuer_held a (d_assets s) (d_dynamic s)
  + core_credit (pending_of (d_statistics s)) a + core_credit (pools_of (d_dynamic s)) a
  + core_credit (fbas_of (d_fbas s)) a + core_credit (d_witness_budget s) a.

Definition supply (a : Z) (s : database) : Z :=
  dyn_field current_supply a (d_assets s) (d_dynamic s).

Definition gap (a : Z) (s : database) : Z := holdings a s - supply a s.

(** Every unit of every asset is accounted for. *)
Definition conserved (s : database) : Prop := ∀ a, holdings a s = supply a s.

(** What the operations on dynamic data do to the gap of the asset. *)
Definition dyn_net (d : asset_dynamic_data_object) : Z := issuer_held d - current_supply d.

(** ** The invariant of the object graph *)

(** No two assets share their dynamic data. *)
Definition dyn_inj (assets : gmap Z asset_object) : Prop :=
  ∀ a b ao bo, assets !! a = Some ao → assets !! b = Some bo →
    as_dynamic_asset_data_id ao = as_dynamic_asset_data_id bo → a = b.

Definition fee_options_ok (ao : asset_object) : Prop :=
  0 ≤ o_market_fee_percent (as_options ao) ≤ GRAPHENE_100_PERCENT ∧
  0 ≤ o_max_market_fee (as_options ao).

Definition limit_ok (o : limit_order_object) : Prop :=
  lo_for_sale o ≤ int64_max ∧ 0 ≤ lo_deferred_fee o ∧ 0 ≤ amount (lo_deferred_paid_fee o).

(** A market issued asset is not backed by itself; it has a fund only once it
    is globally settled, and its settlement price is then a price of the asset
    in its backing asset. *)
Definition bitasset_ok (b : asset_bitasset_data_object) : Prop :=
  bo_short_backing_asset (bd_options b) ≠ bd_asset_id b ∧
  (has_settlement b = false → bd_settlement_fund b = 0) ∧
  (has_settlement b = true →
     asset_id (base (bd_settlement_price b)) = bd_asset_id b ∧
     asset_id (quote (bd_settlement_price b)) = bo_short_backing_asset (bd_options b)).

(** A price of the settled asset, or none. *)
Definition price_for (mia : Z) (p : price) : Prop := p = null_price ∨ asset_id (base p) = mia.

Definition mcr_ok (f : price_feed) : Prop :=
  0 ≤ maintenance_collateral_ratio f ≤ GRAPHENE_MAX_COLLATERAL_RATIO.
Lemma mcr_16 f : mcr_ok f → 0 ≤ maintenance_collateral_ratio f ≤ 2 ^ 15.
Proof. unfold mcr_ok, GRAPHENE_MAX_COLLATERAL_RATIO. lia. Qed.

(** The feeds of an asset, and the current one, are valid prices of it, or
    none. *)
Definition feed_price_ok (mia : Z) (p : price) : Prop :=
  p = null_price ∨ price_ok p ∧ asset_id (base p) = mia.
Lemma feed_price_for_asset mia p : feed_price_ok mia p → price_for mia p.
Proof. intros [->|[_ H]]; [by left|by right]. Qed.
Definition feed_for (mia : Z) (f : price_feed) : Prop :=
  feed_price_ok mia (settlement_price f) ∧ mcr_ok f.
Definition feeds_ok (b : asset_bitasset_data_object) : Prop :=
  feed_for (bd_asset_id b) (bd_current_feed b) ∧
  map_Forall (λ _ f, feed_for (bd_asset_id b) f.2) (bd_feeds b).

(** The id of an asset and its references were handed out by the indices. *)
Definition refs_ok (ids : next_ids) (a : Z) (ao : asset_object) : Prop :=
  a < ni_asset ids ∧ as_dynamic_asset_data_id ao < ni_dynamic ids ∧
  (∀ b, as_bitasset_data_id ao = Some b → b < ni_bitasset ids).

(** The bitasset data of an asset refers back to it. *)
Definition back_refs_ok (assets : gmap Z asset_object)
    (bitassets : gmap Z asset_bitasset_data_object) : Prop :=
  ∀ a ao b bd, assets !! a = Some ao → as_bitasset_data_id ao = Some b →
    bitassets !! b = Some bd → bd_asset_id bd = a.

(** The asset of bitasset data refers to it. *)
Definition owned (assets : gmap Z asset_object) (b : Z) (bd : asset_bitasset_data_object) : Prop :=
  ∃ ao, assets !! bd_asset_id bd = Some ao ∧ as_bitasset_data_id ao = Some b.

(** A balance of genesis vests at most what it began with. *)
Definition genesis_ok (b : balance_object) : Prop :=
  0 ≤ amount (ba_balance b) ∧
  ∀ p, ba_vesting_policy b = Some p →
    0 ≤ lv_begin_balance p ≤ GRAPHENE_MAX_SHARE_SUPPLY ∧ 0 ≤ lv_vesting_duration_seconds p < 2 ^ 32.

(** The current supply of an asset and the amounts of a bid, whose debt is
    positive, are [share_type]; a call price is what [price::call_price] makes of such amounts. *)
Definition dyn_ok (d : asset_dynamic_data_object) : Prop := in64 (current_supply d).
Definition call_ok (o : call_order_object) : Prop := call_price_shape (co_call_price o).
Definition settle_ok (o : force_settlement_object) : Prop := amount_ok (fs_balance o).

(** ** Operations that may be applied

    An update of a margin position adds to its collateral without a look at the
    asset it is of, which is the backing asset of the debt as long as no asset with
    positions gets another one. The evaluator of [asset_update_bitasset] asks for a
    supply of zero for that; that there are no positions then is an invariant of
    debts and not of supplies. The books are therefore followed in one of two
    regimes: where margin positions are updated, the updates of the options of
    market issued assets keep the backing asset that [kept_backings] records, and
    the collateral of every position is the backing asset of its debt; where they
    are not, the options change as they like. *)
Class Regime := {
  positions_updated : bool;
  kept_backings : gmap Z Z;  (* asset id -> id of its backing asset *)
}.

(** The update leaves the asset with the backing asset it is recorded to have. *)
Definition keeps_backing `{Regime} (o : asset_update_bitasset_operation) : bool :=
  bool_decide (kept_backings !! aub_asset_to_update o = Some (bo_short_backing_asset (aub_new_options o))).

(** A proposal may hold operations of either kind. *)
Fixpoint left_out `{Regime} (op : operation) : bool :=
  match op with
  | op_call_order_update _ => negb positions_updated
  | op_asset_update_bitasset o => positions_updated && negb (keeps_backing o)
  | op_proposal_create o => existsb left_out (prc_proposed_ops o)
  | _ => false
  end.

(** Asset [a] is backed by [k]; the collateral of a position is the backing
    asset of its debt. *)
Definition backed_by (bitassets : gmap Z asset_bitasset_data_object) (a k : Z) : Prop :=
  ∃ b bd, bitassets !! b = Some bd ∧ bd_asset_id bd = a ∧ bo_short_backing_asset (bd_options bd) = k.
Definition backed (bitassets : gmap Z asset_bitasset_data_object) (call : call_order_object) : Prop :=
  backed_by bitassets (co_debt_type call) (co_collateral_type call).
Definition positions_ok `{Regime} (bitassets : gmap Z asset_bitasset_data_object)
    (calls : gmap Z call_order_object) : Prop :=
  positions_updated = true →
  map_Forall (λ _, backed bitassets) calls ∧ map_Forall (backed_by bitassets) kept_backings.

(** The fields the proofs rely on are in the range of their C++ type:
    [share_type] amounts, [uint16_t] percentages. *)
Definition price_fits (p : price) : Prop := amount (base p) ≤ int64_max ∧ amount (quote p) ≤ int64_max.
Fixpoint op_typed (op : operation) : Prop :=
  match op with
  | op_call_order_update o => in64 (amount (cou_delta_debt o)) ∧ in64 (amount (cou_delta_collateral o))
  | op_bid_collateral o => in64 (amount (bc_debt_covered o)) ∧ in64 (amount (bc_additional_collateral o))
  | op_asset_create o => 0 ≤ o_market_fee_percent (acr_common_options o)
  | op_asset_update o => 0 ≤ o_market_fee_percent (aup_new_options o)
  | op_asset_publish_feed o => price_fits (settlement_price (apf_feed o))
  | op_proposal_create o => foldr (λ op P, op_typed op ∧ P) True (prc_proposed_ops o)
  | _ => True
  end.

(** An operation whose validation passed, in range, and of the regime. *)
Definition op_ok `{Ext} `{Regime} (op : operation) : Prop :=
  validate op = Ok tt ∧ op_typed op ∧ left_out op = false.

(** The operations of a proposal may be applied. *)
Definition proposal_ok `{Ext} `{Regime} (p : proposal_object) : Prop :=
  Forall op_ok (trx_operations (po_proposed_transaction p)).

(** [pending b a]: the asset [a] that will refer to bitasset data [b] is about to
    be created. *)
Record wf_but `{Ext} `{Regime} (pending : Z → Z → Prop) (s : database) : Prop := mk_wf {
  wf_dyn_inj : dyn_inj (d_assets s);
  wf_refs : map_Forall (refs_ok (d_next_ids s)) (d_assets s);
  wf_options : map_Forall (λ _, fee_options_ok) (d_assets s);
  wf_limits : map_Forall (λ _, limit_ok) (d_limits s);
  wf_bitassets : map_Forall (λ _, bitasset_ok) (d_bitassets s);
  wf_feeds : map_Forall (λ _, feeds_ok) (d_bitassets s);
  wf_back_refs : back_refs_ok (d_assets s) (d_bitassets s);
  wf_owned : map_Forall (λ b bd, owned (d_assets s) b bd ∨ pending b (bd_asset_id bd)) (d_bitassets s);
  wf_dynamic : map_Forall (λ _, dyn_ok) (d_dynamic s);
  wf_bids : map_Forall (λ _, bid_ok) (d_bids s);
  wf_calls : map_Forall (λ _, call_ok) (d_calls s);
  wf_genesis : map_Forall (λ _, genesis_ok) (d_genesis_balances s);
  wf_settles : map_Forall (λ _, settle_ok) (d_settles s);
  wf_proposals : map_Forall (λ _, proposal_ok) (d_proposals s);
  wf_positions : positions_ok (d_bitassets s) (d_calls s);
}.
Arguments wf_dyn_inj {_ _ _} _ _.
Arguments wf_refs {_ _ _} _ _.
Arguments wf_options {_ _ _} _ _.
Arguments wf_limits {_ _ _} _ _.
Arguments wf_bitassets {_ _ _} _ _.
Arguments wf_feeds {_ _ _} _ _.
Arguments wf_back_refs {_ _ _} _ _.
Arguments wf_owned {_ _ _} _ _.
Arguments wf_dynamic {_ _ _} _ _.
Arguments wf_bids {_ _ _} _ _.
Arguments wf_calls {_ _ _} _ _.
Arguments wf_genesis {_ _ _} _ _.
Arguments wf_settles {_ _ _} _ _.
Arguments wf_proposals {_ _ _} _ _.
Arguments wf_positions {_ _ _} _ _.
Definition none_pending (b a : Z) : Prop := False.
Notation wf := (wf_but none_pending).

Lemma wf_but_mono `{Ext} `{Regime} (p q : Z → Z → Prop) s : (∀ b a, p b a → q b a) → wf_but p s → wf_but q s.
Proof.
  intros Hpq Hwf. apply mk_wf; try apply Hwf. intros b bd Hbd.
  destruct (wf_owned s Hwf b bd Hbd) as [?|?%Hpq]; auto.
Qed.

(** ** Credits *)

Section credits.
Lemma credit_zero a x : amount x = 0 → credit x a = 0.
Proof. unfold credit. intros ->. by destruct (_ =? _). Qed.

Lemma credit_core z a : credit (mk_asset z CORE) a = core_credit z a.
Proof. done. Qed.

(** A credit is linear in the amount. *)
Lemma credit_add i x y a :
  credit (mk_asset (x + y) i) a = credit (mk_asset x i) a + credit (mk_asset y i) a.
Proof. unfold credit; simpl. destruct (_ =? _); lia. Qed.
Lemma credit_sub i x y a :
  credit (mk_asset (x - y) i) a = credit (mk_asset x i) a - credit (mk_asset y i) a.
Proof. unfold credit; simpl. destruct (_ =? _); lia. Qed.
Lemma credit_opp i x a : credit (mk_asset (- x) i) a = - credit (mk_asset x i) a.
Proof. unfold credit; simpl. destruct (_ =? _); lia. Qed.
Lemma credit_eta x a : credit (mk_asset (amount x) (asset_id x)) a = credit x a.
Proof. done. Qed.
End credits.

(** Close an equation between credits: by cases on the assets, then linear. *)
Ltac credits :=
  unfold limit_credit, fund_credit; unfold core_credit, credit; simpl;
  repeat match goal with
  | |- context [if Z.eqb ?x ?y then _ else _] => destruct (Z.eqb_spec x y)
  end; simpl; try lia; try congruence.

(** ** The gap as a sum over the parts of the database *)

Lemma dyn_field_sub f g a assets dyns :
  dyn_field (λ d, f d - g d) a assets dyns = dyn_field f a assets dyns - dyn_field g a assets dyns.
Proof. unfold dyn_field. by destruct (_ ≫= _). Qed.

Lemma gap_eq a s :
  gap a s =
    balances_of a (d_balances s) + settles_of a (d_settles s) + bids_of a (d_bids s)
    + limits_of a (d_limits s) + calls_of a (d_calls s) + funds_of a (d_bitassets s)
    + vestings_of a (d_vestings s) + genesis_of a (d_genesis_balances s) + dyn_field dyn_net a (d_assets s) (d_dynamic s)
    + core_credit (pending_of (d_statistics s)) a + core_credit (pools_of (d_dynamic s)) a
    + core_credit (fbas_of (d_fbas s)) a + core_credit (d_witness_budget s) a.
Proof.
  unfold gap, holdings, supply, dyn_net.
  rewrite (dyn_field_sub issuer_held current_supply). lia.
Qed.

Lemma conserved_gap s : conserved s ↔ ∀ a, gap a s = 0.
Proof. unfold conserved, gap. split; intros H a; specialize (H a); lia. Qed.

(** ** Updating one entry of a part *)
Section entries.
Context {V : Type} (f : Z → V → Z).

Lemma msum_insert_some (m : gmap Z V) k v v' :
  m !! k = Some v → msum f (<[k:=v']> m) = msum f m - f k v + f k v'.
Proof. intros Hk. rewrite msum_insert. unfold at_key. by rewrite Hk. Qed.

Lemma msum_delete_some (m : gmap Z V) k v :
  m !! k = Some v → msum f (delete k m) = msum f m - f k v.
Proof. intros Hk. rewrite msum_delete. unfold at_key. by rewrite Hk. Qed.
End entries.

(** The sum in asset [a] after updating the dynamic data of asset [b]. *)
Lemma dyn_field_insert f a b ao assets dyns d d' :
  dyn_inj assets → assets !! b = Some ao → dyns !! as_dynamic_asset_data_id ao = Some d →
  dyn_field f a assets (<[as_dynamic_asset_data_id ao := d']> dyns) =
  dyn_field f a assets dyns + credit (mk_asset (f d' - f d) b) a.
Proof.
  intros Hinj Hb Hd. unfold dyn_field, credit; simpl.
  destruct (Z.eqb_spec b a) as [->|Hne].
  - rewrite Hb; simpl. rewrite lookup_insert_eq, Hd; simpl. lia.
  - destruct (assets !! a) as [ao'|] eqn:Ha; simpl; [|lia].
    rewrite lookup_insert_ne; [lia|]. intros Heq. apply Hne. by eapply Hinj.
Qed.

(** ** Effects

    [effect m s δ]: when [m] returns, the invariant still holds and the gap of
    every asset [a] has grown by [δ a]. *)
Definition effect `{Ext} `{Regime} {A} (m : DB A) (s : database) (δ : Z → Z) : Prop :=
  post m s (λ _ s', wf s' ∧ ∀ a, gap a s' = gap a s + δ a).

(** *** Margin positions *)
Section positions.
Context {R : Regime}.
Implicit Types (bitassets : gmap Z asset_bitasset_data_object) (calls : gmap Z call_order_object).

Lemma positions_delete bitassets calls id :
  positions_ok bitassets calls → positions_ok bitassets (delete id calls).
Proof. intros H [Hc Hk]%H. split; [by apply map_Forall_delete|done]. Qed.

Lemma positions_insert bitassets calls id call :
  (positions_updated = true → backed bitassets call) → positions_ok bitassets calls →
  positions_ok bitassets (<[id := call]> calls).
Proof. intros Hc H Hu. destruct (H Hu). split; [by apply map_Forall_insert_2; [apply Hc|]|done]. Qed.

Lemma backed_by_update bitassets b bd bd' a k :
  backed_by bitassets a k → bitassets !! b = Some bd → bd_asset_id bd' = bd_asset_id bd →
  bo_short_backing_asset (bd_options bd') = bo_short_backing_asset (bd_options bd) →
  backed_by (<[b := bd']> bitassets) a k.
Proof.
  intros (c & cd & Hc & <- & <-) Hb Hid Hback. destruct (decide (b = c)) as [->|].
  - exists c, bd'. rewrite lookup_insert_eq. by simplify_eq.
  - exists c, cd. by rewrite lookup_insert_ne.
Qed.
Lemma positions_bitasset bitassets calls b bd bd' :
  positions_ok bitassets calls → bitassets !! b = Some bd → bd_asset_id bd' = bd_asset_id bd →
  (positions_updated = true → bo_short_backing_asset (bd_options bd') = bo_short_backing_asset (bd_options bd)) →
  positions_ok (<[b := bd']> bitassets) calls.
Proof.
  intros H Hb Hid Hback Hu. destruct (H Hu) as [Hc Hk].
  split; eapply map_Forall_impl; [exact Hc| |exact Hk|]; intros; by eapply backed_by_update; eauto.
Qed.

Lemma positions_new_bitasset bitassets calls b bd :
  positions_ok bitassets calls → bitassets !! b = None → positions_ok (<[b := bd]> bitassets) calls.
Proof.
  intros H Hb Hu. destruct (H Hu) as [Hc Hk].
  split; eapply map_Forall_impl; [exact Hc| |exact Hk|]; intros ? ? (c & cd & ? & ?); exists c, cd;
    by rewrite lookup_insert_ne by congruence.
Qed.

(** A position that changes, of the same debt and collateral. *)
Lemma backed_same bitassets call call' :
  backed bitassets call → co_debt_type call' = co_debt_type call → co_collateral_type call' = co_collateral_type call →
  backed bitassets call'.
Proof. unfold backed. by intros H -> ->. Qed.
End positions.

(** A database that holds no proposal moves to another regime when its positions
    are those of that regime: from genesis, say, to one in which they are updated. *)
Lemma wf_change_regime `{Ext} (R R' : Regime) pending s :
  wf_but (H0 := R) pending s → d_proposals s = ∅ → positions_ok (H := R') (d_bitassets s) (d_calls s) →
  wf_but (H0 := R') pending s.
Proof. intros Hwf Hp Hpos. apply mk_wf; try apply Hwf; [|done]. rewrite Hp. apply map_Forall_empty. Qed.

(** Close [wf s'] where [s'] is built from a state in [wf]. *)
Ltac wf_solve :=
  lazymatch goal with
  | |- wf _ =>
    apply mk_wf; simpl;
    first
      [ match goal with H : wf ?s |- map_Forall (λ _, proposal_ok) _ => exact (wf_proposals s H) end
      | solve [eauto using wf_dyn_inj, wf_refs, wf_options, wf_limits, wf_bitassets, wf_feeds, wf_back_refs, wf_owned, wf_dynamic, wf_bids, wf_calls, wf_genesis, wf_settles, wf_proposals, wf_positions]
      | repeat first
          [ apply map_Forall_delete | apply map_Forall_insert_2 | apply positions_delete | apply positions_insert ];
        eauto using wf_dyn_inj, wf_refs, wf_options, wf_limits, wf_bitassets, wf_feeds, wf_back_refs, wf_owned, wf_dynamic, wf_bids, wf_calls, wf_genesis, wf_settles, wf_positions ]
  end.

(** Close an equation between gaps of explicit states: the parts that changed
    are rewritten with what is known of them, entry by entry where the entry is
    explicit. *)
Ltac use_parts :=
  repeat match goal with
  | H : ∀ a, balances_of a ?B = _ |- context [balances_of _ ?B] => rewrite H
  | H : ∀ a, dyn_field dyn_net a _ ?D = _ |- context [dyn_field dyn_net _ _ ?D] => rewrite H
  | H : pools_of ?D = _ |- context [pools_of ?D] => rewrite H
  | H : pending_of ?S = _ |- context [pending_of ?S] => rewrite H
  end; rewrite ?Z.add_0_r.

Ltac sums :=
  unfold settles_of, bids_of, limits_of, calls_of, funds_of, vestings_of, genesis_of, fbas_of;
  repeat first
    [ erewrite msum_insert_some by (simpl; eassumption)
    | erewrite msum_delete_some by (simpl; first [eassumption | apply lookup_insert_eq])
    | rewrite msum_insert_fresh by (simpl; eassumption) ];
  repeat match goal with |- context [msum ?f ?m] => generalize (msum f m); intros ? end.

(** The end of a run: the state is explicit. *)
Ltac gap_leaf :=
  same_entries; split;
  [ wf_solve
  | intros a; rewrite !gap_eq; simpl; use_parts; sums ].

(** ** Balances *)
Section balances.
Context {X : Ext} {R : Regime}.

Lemma balances_insert a m k b :
  balances_of a (<[k:=b]> m) =
  balances_of a m + credit (mk_asset (ab_balance b - from_option ab_balance 0 (m !! k)) k.2) a.
Proof.
  unfold balances_of. rewrite msum_insert. unfold at_key.
  destruct (m !! k); credits.
Qed.

(** [adjust_balance] changes one balance by the given amount; an amount that
    is taken is one of [int64_t], and so is its opposite. *)
Lemma post_adjust_balance_paid acct delta s (Q : unit → database → Prop) :
  (∀ B, (∀ a, balances_of a B = balances_of a (d_balances s) + credit delta a) →
     (amount delta < 0 → in64 (- amount delta)) →
     Q tt (set_d_balances B s)) →
  post (adjust_balance acct delta) s Q.
Proof.
  intros H. unfold adjust_balance. pstep.
  - pstep. btrue. destruct s. apply (H d_balances).
    { intros a. rewrite credit_zero by done. simpl. lia. }
    lia.
  - pstep. pstep. destruct (d_balances s !! _) as [b|] eqn:Eb.
    + pstep. pstep. intros ok Hok. pstep. pstep. pstep. intros b' Hb'. pstep. apply H.
      * intros a. unfold ab_adjust_balance in Hb'. inv_ok. rewrite balances_insert, Eb; simpl.
        credits.
      * intros Hneg. rewrite (proj2 (Z.ltb_lt _ _) Hneg) in Hok. unfold asset_neg in Hok. by inv_ok.
    + pstep. pstep. btrue. apply H; [|lia]. intros a. rewrite balances_insert, Eb; simpl.
      credits.
Qed.

Lemma post_adjust_balance acct delta s (Q : unit → database → Prop) :
  (∀ B, (∀ a, balances_of a B = balances_of a (d_balances s) + credit delta a) →
     Q tt (set_d_balances B s)) →
  post (adjust_balance acct delta) s Q.
Proof. intros H. apply post_adjust_balance_paid. auto. Qed.

Lemma adjust_balance_effect acct delta s :
  wf s → effect (adjust_balance acct delta) s (credit delta).
Proof.
  intros Hwf. apply post_adjust_balance. intros B HB. split; [wf_solve|].
  intros a. rewrite !gap_eq; simpl. rewrite HB. lia.
Qed.

(** [pay_fee] adds the fee to the pending fees of the account. *)
Lemma pay_fee_ok fee threshold st st' :
  pay_fee fee threshold st = Ok st' → st_pending st' = st_pending st + fee.
Proof.
  unfold pay_fee, st_pending. case_match; intros Hp; inv_ok; simpl; lia.
Qed.
End balances.

(** ** Running a computation whose effect is known *)
Section composition.
Context {X : Ext} {R : Regime} {A B : Type}.

Lemma effect_bind (m : DB A) (k : A → DB B) s δ1 δ2 :
  effect m s δ1 → (∀ x s1, wf s1 → effect (k x) s1 δ2) →
  effect (bind m k) s (λ a, δ1 a + δ2 a).
Proof.
  intros Hm Hk. apply post_bind. pcall Hm. intros x s1 [Hwf Hg]. simpl.
  pcall Hk; [done|]. intros y s2 [Hwf2 Hg2]. split; [done|]. intros a.
  rewrite Hg2, Hg. lia.
Qed.

Lemma effect_ext (m : DB A) s δ δ' :
  effect m s δ → (∀ a, δ a = δ' a) → effect m s δ'.
Proof. intros H Hd. pcall H. intros x s' [Hwf Hg]. split; [done|]. intros a. by rewrite Hg, Hd. Qed.

Lemma effect_ret (x : A) s : wf s → effect (ret x) s (λ _, 0).
Proof. intros Hwf. apply post_ret. split; [done|]. intros. lia. Qed.

(** A reading step: the state is unchanged. *)
Lemma effect_read (m : DB A) (k : A → DB B) s δ :
  post m s (λ x s', s' = s ∧ effect (k x) s δ) → effect (bind m k) s δ.
Proof. intros H. apply post_bind. pcall H. intros x s' [-> Hk]. done. Qed.
End composition.

(** Continue after a computation without effect. *)
Lemma after_none `{Ext} `{Regime} {A B} (m : DB A) (k : A → DB B) s :
  effect m s (λ _, 0) → (∀ x s1, wf s1 → effect (k x) s1 (λ _, 0)) →
  effect (bind m k) s (λ _, 0).
Proof.
  intros Hm Hk. eapply effect_ext; [by eapply effect_bind|]. done.
Qed.

(** A loop whose body leaves the books as they are. *)
Lemma for_each_effect `{Ext} `{Regime} {A} (I : database → Prop) (f : A → DB unit) l s :
  (∀ x s, wf s → I s → effect (f x) s (λ _, 0)) → (∀ x s, I s → post (f x) s (λ _, I)) →
  wf s → I s → effect (for_each f l) s (λ _, 0).
Proof.
  intros Hf HI. revert s. induction l as [|x l IH]; intros s Hwf Hs; simpl; [by apply effect_ret|].
  intros u s' Hrun. apply bind_ok in Hrun as ([] & s1 & H1 & Hrun).
  destruct (Hf x s Hwf Hs _ _ H1) as [Hwf1 Hg1]. destruct (IH s1 Hwf1 (HI x s Hs _ _ H1) _ _ Hrun) as [Hwf2 Hg2].
  split; [done|]. intros a. rewrite Hg2, Hg1. lia.
Qed.

(** A reading step of a computation whose effect is asked for. *)
Ltac eread := apply effect_read; dstep; split; [done|].

(** A computation that touches no amount, by symbolic execution. *)
Ltac no_effect := unfold effect; repeat dstep; gap_leaf; lia.

(** Step through a computation that only reads, naming the results of the calls
    that can fail, and close the branches that return at once. *)
Ltac walk :=
  repeat first
    [ solve [by apply effect_ret]
    | match goal with |- rpost _ _ => intros ? ? end
    | dstep ].

(** ** Statistics and dynamic data

    Rules for the modifications of account statistics and of the dynamic data of
    an asset, by what they add to the pending fees, to the net and to the fee
    pool. *)
Section parts.
Context {X : Ext} {R : Regime}.

Lemma post_statistics_of acct f δ s (Q : unit → database → Prop) :
  (∀ st st', f st = Ok st' → st_pending st' = st_pending st + δ) →
  (∀ S, pending_of S = pending_of (d_statistics s) + δ → Q tt (set_d_statistics S s)) →
  post (modify_statistics_of acct f) s Q.
Proof.
  intros Hf HQ. dstep. apply HQ. unfold pending_of. erewrite msum_insert_some by eassumption.
  match goal with H : f _ = Ok _ |- _ => rewrite (Hf _ _ H) end. lia.
Qed.

Lemma post_statistics id f δ s (Q : unit → database → Prop) :
  (∀ st st', f st = Ok st' → st_pending st' = st_pending st + δ) →
  (∀ S, pending_of S = pending_of (d_statistics s) + δ → Q tt (set_d_statistics S s)) →
  post (modify_statistics id f) s Q.
Proof.
  intros Hf HQ. dstep. apply HQ. unfold pending_of. erewrite msum_insert_some by eassumption.
  match goal with H : f _ = Ok _ |- _ => rewrite (Hf _ _ H) end. lia.
Qed.

Lemma same_statistics (Q : unit → database → Prop) s :
  (∀ S, pending_of S = pending_of (d_statistics s) + 0 → Q tt (set_d_statistics S s)) → Q tt s.
Proof.
  intros HQ. assert (set_d_statistics (d_statistics s) s = s) as E by (by destruct s).
  rewrite <- E. apply HQ. lia.
Qed.

(** A conditional update that leaves the pending fees alone. *)
Lemma post_statistics_if (b : bool) acct f s (Q : unit → database → Prop) :
  (∀ st st', f st = Ok st' → st_pending st' = st_pending st) →
  (∀ S, pending_of S = pending_of (d_statistics s) + 0 → Q tt (set_d_statistics S s)) →
  post (if b then modify_statistics_of acct f else ret tt) s Q.
Proof.
  intros Hf HQ. destruct b.
  - eapply (post_statistics_of _ _ 0); [|done]. intros st st' H. rewrite (Hf _ _ H). lia.
  - apply post_ret. by apply same_statistics.
Qed.

Lemma post_dynamic a ao f δ π s (Q : unit → database → Prop) :
  wf s → d_assets s !! a = Some ao →
  (∀ d d', f d = Ok d' → dyn_net d' = dyn_net d + δ ∧ fee_pool d' = fee_pool d + π ∧ (dyn_ok d → dyn_ok d')) →
  (∀ D, (∀ b, dyn_field dyn_net b (d_assets s) D =
              dyn_field dyn_net b (d_assets s) (d_dynamic s) + credit (mk_asset δ a) b) →
        pools_of D = pools_of (d_dynamic s) + π → map_Forall (λ _, dyn_ok) D →
        Q tt (set_d_dynamic D s)) →
  post (modify_dynamic (as_dynamic_asset_data_id ao) f) s Q.
Proof.
  intros Hwf Ha Hf HQ. dstep. destruct (Hf v v') as (Hn & Hp & Hok); [done|]. apply HQ.
  - intros b. erewrite dyn_field_insert by eauto using wf_dyn_inj. rewrite Hn.
    replace (dyn_net v + δ - dyn_net v) with δ by lia. done.
  - unfold pools_of. erewrite msum_insert_some by eassumption. lia.
  - apply map_Forall_insert_2; [|apply Hwf]. apply Hok. by eapply (wf_dynamic s Hwf).
Qed.

Lemma post_dynamic_of a f δ π s (Q : unit → database → Prop) :
  wf s →
  (∀ d d', f d = Ok d' → dyn_net d' = dyn_net d + δ ∧ fee_pool d' = fee_pool d + π ∧ (dyn_ok d → dyn_ok d')) →
  (∀ D, (∀ b, dyn_field dyn_net b (d_assets s) D =
              dyn_field dyn_net b (d_assets s) (d_dynamic s) + credit (mk_asset δ a) b) →
        pools_of D = pools_of (d_dynamic s) + π → map_Forall (λ _, dyn_ok) D →
        Q tt (set_d_dynamic D s)) →
  post (modify_dynamic_of a f) s Q.
Proof.
  intros Hwf Hf HQ. unfold modify_dynamic_of. dstep. dstep. by eapply post_dynamic.
Qed.

Lemma same_dynamic (Q : unit → database → Prop) s i :
  wf s →
  (∀ D, (∀ b, dyn_field dyn_net b (d_assets s) D =
              dyn_field dyn_net b (d_assets s) (d_dynamic s) + credit (mk_asset 0 i) b) →
        pools_of D = pools_of (d_dynamic s) + 0 → map_Forall (λ _, dyn_ok) D →
        Q tt (set_d_dynamic D s)) → Q tt s.
Proof.
  intros Hwf HQ. assert (set_d_dynamic (d_dynamic s) s = s) as E by (by destruct s).
  rewrite <- E. apply HQ; [|lia|apply Hwf]. intros b. rewrite credit_zero by done. lia.
Qed.
End parts.

(** What an update of dynamic data does to the net and the pool. *)
Ltac dyn_fields := intros; inv_ok; unfold dyn_net, issuer_held, dyn_ok; simpl; split_and!; [lia|lia|done].

(** The current supply that the dynamic data of an asset shows. *)
Lemma supply_lookup a s ao d :
  d_assets s !! a = Some ao → d_dynamic s !! as_dynamic_asset_data_id ao = Some d →
  supply a s = current_supply d.
Proof. intros Ha Hd. unfold supply, dyn_field. rewrite Ha; simpl. by rewrite Hd. Qed.

(** Replacing bitasset data by data of the same asset. *)
Lemma back_refs_insert assets bitassets b bd bd' :
  back_refs_ok assets bitassets → bitassets !! b = Some bd → bd_asset_id bd' = bd_asset_id bd →
  back_refs_ok assets (<[b:=bd']> bitassets).
Proof.
  intros H Hb Hid a ao b' x Ha Hab Hx. destruct (decide (b = b')) as [->|Hne].
  - rewrite lookup_insert_eq in Hx. injection Hx as <-. rewrite Hid. by eapply H.
  - rewrite lookup_insert_ne in Hx by done. by eapply H.
Qed.

Lemma owned_insert (pending : Z → Z → Prop) assets (bitassets : gmap Z asset_bitasset_data_object) b bd bd' :
  map_Forall (λ b bd, owned assets b bd ∨ pending b (bd_asset_id bd)) bitassets →
  bitassets !! b = Some bd → bd_asset_id bd' = bd_asset_id bd →
  map_Forall (λ b bd, owned assets b bd ∨ pending b (bd_asset_id bd)) (<[b:=bd']> bitassets).
Proof.
  intros H Hb Hid. apply map_Forall_insert_2; [|done]. unfold owned. rewrite Hid. exact (H b bd Hb).
Qed.

(** ** Replacing an asset object

    The references of the asset stay, so does its dynamic data. *)
Definition same_refs (ao ao' : asset_object) : Prop :=
  as_dynamic_asset_data_id ao' = as_dynamic_asset_data_id ao ∧
  as_bitasset_data_id ao' = as_bitasset_data_id ao.

Lemma same_refs_lookup (assets : gmap Z asset_object) a ao ao' b x :
  assets !! a = Some ao → same_refs ao ao' → <[a:=ao']> assets !! b = Some x →
  ∃ y, assets !! b = Some y ∧ same_refs y x.
Proof.
  intros Ha [Hd Hb] Hx. destruct (decide (a = b)) as [->|Hne].
  - rewrite lookup_insert_eq in Hx. injection Hx as <-. exists ao. by repeat split.
  - rewrite lookup_insert_ne in Hx by done. exists x. by repeat split.
Qed.

Lemma dyn_field_same_refs f a b ao ao' assets dyns :
  assets !! b = Some ao → same_refs ao ao' →
  dyn_field f a (<[b:=ao']> assets) dyns = dyn_field f a assets dyns.
Proof.
  intros Hb [Hd _]. unfold dyn_field. destruct (decide (b = a)) as [->|Hne].
  - rewrite lookup_insert_eq, Hb; simpl. by rewrite Hd.
  - by rewrite lookup_insert_ne.
Qed.

Lemma wf_set_asset `{Ext} `{Regime} a ao ao' s :
  wf s → d_assets s !! a = Some ao → same_refs ao ao' → fee_options_ok ao' →
  wf (set_d_assets (<[a:=ao']> (d_assets s)) s).
Proof.
  intros Hwf Ha Hrefs Hopt. apply mk_wf; simpl; try apply Hwf.
  - intros b c bo co Hb Hc Hbc.
    destruct (same_refs_lookup _ _ _ _ _ _ Ha Hrefs Hb) as (bo' & Hb' & Hbd & _).
    destruct (same_refs_lookup _ _ _ _ _ _ Ha Hrefs Hc) as (co' & Hc' & Hcd & _).
    eapply (wf_dyn_inj s Hwf); [done|done|congruence].
  - apply map_Forall_insert_2; [|apply Hwf]. destruct Hrefs as [Hd Hb].
    destruct (wf_refs s Hwf a ao Ha) as (Hr0 & Hr1 & Hr2). split_and!; [done|by rewrite Hd|by rewrite Hb].
  - apply map_Forall_insert_2; [done|apply Hwf].
  - intros b bo i bd Hb Hi Hbd.
    destruct (same_refs_lookup _ _ _ _ _ _ Ha Hrefs Hb) as (bo' & Hb' & _ & Hbb).
    eapply (wf_back_refs s Hwf); [done|by rewrite <- Hbb|done].
  - intros b bd Hbd. destruct (wf_owned s Hwf b bd Hbd) as [(bo & Hbo & Hb)|]; [left|done].
    unfold owned. destruct (decide (a = bd_asset_id bd)) as [E|Hne].
    + exists ao'. rewrite <- E, lookup_insert_eq. split; [done|]. destruct Hrefs as [_ Hb2]. congruence.
    + exists bo. by rewrite lookup_insert_ne.
Qed.
