(* ===== verification/MarketSupply.v ===== *)
(** * The market engine conserves the supply of every asset

    The effect of each function of Market.v on the gap between what is held
    and what is in supply. *)

From S2P Require Import Prelude Ext Config Asset Objects Parameters Governance Blocks Names Operations Validation Fees Ledger Database Balance Market Exchange Supply.

Section market_supply.
Context {X : Ext} {R : Regime} {P : Packing}.

Lemma cancel_settle_order_effect id b s :
  wf s → effect (cancel_settle_order id b) s (λ _, 0).
Proof.
  intros Hwf. unfold effect, cancel_settle_order. dstep. dstep. dstep.
  apply post_adjust_balance. intros B HB. dstep. dstep. dstep.
  gap_leaf. lia.
Qed.

Lemma cancel_bid_effect id b s :
  wf s → effect (cancel_bid id b) s (λ _, 0).
Proof.
  intros Hwf. unfold effect, cancel_bid. dstep. dstep. dstep.
  apply post_adjust_balance. intros B HB. dstep. dstep. dstep.
  gap_leaf. lia.
Qed.

(** [price::call_price] keeps the assets of its arguments: the collateral is
    the base of the price. *)
Lemma call_price_ids debt collateral r p :
  call_price debt collateral r = Ok p →
  asset_id (base p) = asset_id collateral ∧ asset_id (quote p) = asset_id debt.
Proof.
  unfold call_price, rational_of, asset_div. intros H. inv_ok. done.
Qed.

(** A bid that is executed becomes a margin position, whose collateral
    includes what is taken from the fund. *)
Lemma execute_bid_effect id debt_covered from_fund feed s bid :
  wf s → d_bids s !! id = Some bid → in64 debt_covered → mcr_ok feed →
  (positions_updated = true → ∃ b bd, d_bitassets s !! b = Some bd ∧
     bd_asset_id bd = asset_id (quote (cb_inv_swan_price bid)) ∧
     bo_short_backing_asset (bd_options bd) = asset_id (base (cb_inv_swan_price bid))) →
  effect (execute_bid id debt_covered from_fund feed) s
         (credit (mk_asset from_fund (asset_id (base (cb_inv_swan_price bid))))).
Proof.
  intros Hwf Hbid Hdebt Hmcr Hback. unfold effect, execute_bid. do 4 dstep. intros c Hc.
  dstep. dstep. intros cp Hcp. pose proof Hcp as [Hb Hq]%call_price_ids. inv_ok.
  apply call_price_has_shape in Hcp; [|done|done|by apply mcr_16].
  dstep. dstep. dstep. apply post_statistics_if.
  { intros st st' H'. by inv_ok. }
  intros S HS. dstep. dstep. dstep. gap_leaf.
  { intros (b & bd & Hbd & Hid & Hcol)%Hback. exists b, bd. unfold co_debt_type, co_collateral_type. simpl.
    split_and!; [done|congruence|congruence]. }
  unfold get_collateral, co_collateral_type; simpl. rewrite Hb. credits.
Qed.
(** ** Cancelling a limit order *)

(** What [deduct_cancel_fee] takes from the deferred fees of an order goes to
    the pending fees of the seller and to the issuer of the fee asset. *)
Definition fees_deducted (order : limit_order_object) (s : database)
    (r : Z * asset * asset) (s' : database) : Prop :=
  ∃ S D, s' = set_d_dynamic D (set_d_statistics S s) ∧
    asset_id r.1.2 = asset_id (lo_deferred_paid_fee order) ∧
    pending_of S = pending_of (d_statistics s) + (lo_deferred_fee order - r.1.1) ∧
    pools_of D = pools_of (d_dynamic s) + 0 ∧ map_Forall (λ _, dyn_ok) D ∧
    (∀ b, dyn_field dyn_net b (d_assets s) D = dyn_field dyn_net b (d_assets s) (d_dynamic s)
       + credit (mk_asset (amount (lo_deferred_paid_fee order) - amount r.1.2)
                          (asset_id (lo_deferred_paid_fee order))) b) ∧
    (amount (lo_deferred_paid_fee order) = 0 → r.1.2 = lo_deferred_paid_fee order).

Lemma nothing_deducted order s v :
  wf s → fees_deducted order s (lo_deferred_fee order, lo_deferred_paid_fee order, v) s.
Proof.
  intros Hwf. exists (d_statistics s), (d_dynamic s).
  split_and!; simpl; [by destruct s|done|lia|lia|apply Hwf| |done].
  intros b. rewrite credit_zero; simpl; lia.
Qed.

Lemma deduct_cancel_fee_spec id order skip s :
  wf s → post (deduct_cancel_fee id order skip) s (fees_deducted order s).
Proof.
  intros Hwf. unfold deduct_cancel_fee. dstep; [|dstep; by apply nothing_deducted].
  dstep. dstep. dstep. dstep. intros fee _. dstep; [|dstep; by apply nothing_deducted].
  set (cut := if _ <? _ then _ else _). clearbody cut. simpl.
  dstep. eapply (post_statistics_of _ _ (amount cut)). { intros st st'. apply pay_fee_ok. }
  intros S HS. dstep. dstep. intros df Hdf. inv_ok. dstep; btrue.
  - dstep. exists S, (d_dynamic s). simpl in *.
    split_and!; [by destruct s|done|lia|lia|apply Hwf| |done].
    intros b. rewrite credit_zero; simpl; lia.
  - set (taken := i64_of_u64 _). clearbody taken. dstep.
    apply (post_dynamic_of _ _ taken 0); [wf_solve| |].
    { dyn_fields. }
    intros D HD HP HO. dstep. dstep. intros rest Hrest. inv_ok. dstep.
    exists S, D. simpl in *. split_and!; [done|done|lia|done|done| |done]. intros b. rewrite HD. credits.
Qed.

Lemma cancel_limit_order_effect id virtual skip s :
  wf s → effect (cancel_limit_order id virtual skip) s (λ _, 0).
Proof.
  intros Hwf. unfold effect, cancel_limit_order. dstep. dstep. dstep.
  assert (post (if virtual then deduct_cancel_fee id v skip
                else ret (lo_deferred_fee v, lo_deferred_paid_fee v, mk_asset 0 CORE)) s
               (fees_deducted v s)) as Hfees.
  { dstep; [by apply deduct_cancel_fee_spec|]. dstep. by apply nothing_deducted. }
  pcall Hfees. intros [[df dp] vop] s1 (S & D & -> & Hid & HS & HP & HO & HD & Hdp). simpl in *.
  dstep. apply post_statistics_if.
  { intros st st' Hst. by inv_ok. }
  intros S2 HS2. dstep. apply post_adjust_balance. intros B HB. dstep. simpl in *.
  dstep; btrue.
  - apply post_adjust_balance. intros B2 HB2. dstep. dstep. dstep. gap_leaf.
    rewrite (Hdp ltac:(done)) in *. credits.
  - dstep. apply post_adjust_balance. intros B2 HB2.
    apply (post_dynamic_of _ _ 0 df); [wf_solve| |].
    { dyn_fields. }
    intros D2 HD2 HP2 HO2. dstep. dstep. dstep. gap_leaf.
    destruct v as [? ? ? ? ? [? ?]], dp; simpl in *. subst. credits.
Qed.
(** ** Market fees *)

(** A market fee is never negative and never more than the amount traded. *)
Lemma calculate_market_fee_bounds ao x :
  fee_options_ok ao → 0 ≤ amount x ≤ int64_max →
  asset_id (calculate_market_fee ao x) = asset_id x ∧
  0 ≤ amount (calculate_market_fee ao x) ≤ amount x.
Proof.
  unfold fee_options_ok, GRAPHENE_100_PERCENT. intros [Hpct Hmax] Hx.
  unfold calculate_market_fee, int64_max, GRAPHENE_100_PERCENT in *.
  case_match; [simpl; lia|]. case_match; [simpl; lia|]. simpl. split; [done|].
  set (pct := o_market_fee_percent (as_options ao)) in *.
  assert (amount x * pct < 2 ^ 128) by nia.
  rewrite (fc_u128_small (amount x)) by lia. rewrite fc_u128_small by nia.
  assert (0 ≤ amount x * pct / 10000 ≤ amount x) as Hq.
  { split; [apply Z.div_pos; nia|]. apply Z.div_le_upper_bound; nia. }
  rewrite to_uint64_small by lia. unfold i64_of_u64, int64_max.
  destruct (Z.leb_spec (amount x * pct / 10000) (2 ^ 63 - 1)); [|lia].
  destruct (Z.ltb_spec (o_max_market_fee (as_options ao)) (amount x * pct / 10000)); lia.
Qed.

Lemma pay_market_fees_spec receives s :
  wf s → 0 ≤ amount receives ≤ int64_max →
  post (pay_market_fees receives) s (λ fees s', ∃ D,
    s' = set_d_dynamic D s ∧ asset_id fees = asset_id receives ∧
    0 ≤ amount fees ≤ amount receives ∧
    pools_of D = pools_of (d_dynamic s) + 0 ∧ map_Forall (λ _, dyn_ok) D ∧
    ∀ b, dyn_field dyn_net b (d_assets s) D =
         dyn_field dyn_net b (d_assets s) (d_dynamic s) + credit fees b).
Proof.
  intros Hwf Hr. unfold pay_market_fees. dstep. dstep.
  destruct (calculate_market_fee_bounds v receives) as [Hid Hf]; [by apply (wf_options s Hwf (asset_id receives))|done|].
  set (fees := calculate_market_fee v receives) in *. clearbody fees. dstep. dstep; btrue.
  - eapply (post_dynamic _ _ _ (amount fees) 0); [done|done| |].
    { dyn_fields. }
    intros D HD HP HO. dstep. exists D. split_and!; [done|done|lia|lia|done|done|].
    intros b. rewrite HD, <- Hid. apply f_equal. by destruct fees.
  - dstep. dstep. exists (d_dynamic s).
    split_and!; [by destruct s|done|lia|lia|lia|apply Hwf|].
    intros b. rewrite credit_zero; lia.
Qed.

(** [pay_order] pays the receiver; what it delivered left the book before. *)
Lemma post_pay_order receiver receives pays s (Q : unit → database → Prop) :
  (∀ B S, (∀ a, balances_of a B = balances_of a (d_balances s) + credit receives a) →
     pending_of S = pending_of (d_statistics s) + 0 →
     Q tt (set_d_balances B (set_d_statistics S s))) →
  post (pay_order receiver receives pays) s Q.
Proof.
  intros HQ. unfold pay_order. dstep. apply (post_statistics_of _ _ 0).
  { intros st st' H. destruct (_ =? _); inv_ok; unfold st_pending; simpl; lia. }
  intros S HS. apply post_adjust_balance. intros B HB. by apply HQ.
Qed.

Lemma maybe_cull_small_order_effect id s :
  wf s → effect (maybe_cull_small_order id) s (λ _, 0).
Proof.
  intros Hwf. unfold effect, maybe_cull_small_order. dstep. dstep. dstep. dstep.
  intros receive _. dstep; [|dstep; split; [done|]; intros; lia].
  dstep. dstep. dstep. apply (post_mono _ _ (λ _ s', wf s' ∧ ∀ a, gap a s' = gap a s + 0)).
  { dstep; by apply cancel_limit_order_effect. }
  intros _ s' H'. by dstep.
Qed.

(** ** Filling orders *)

(** The deferred fee of an order, when there is one, becomes a pending fee of
    the seller. *)
Lemma post_pay_deferred fee seller s (Q : unit → database → Prop) :
  0 ≤ fee →
  (∀ S, pending_of S = pending_of (d_statistics s) + fee → Q tt (set_d_statistics S s)) →
  post (if 0 <? fee then
          let! params := global_parameters in
          modify_statistics_of seller (pay_fee fee (cp_cashback_vesting_threshold params))
        else ret tt) s Q.
Proof.
  intros Hfee HQ. dstep; btrue.
  - dstep. dstep. eapply post_statistics_of; [|done]. intros st st'. apply pay_fee_ok.
  - dstep. apply same_statistics. intros S HS. apply HQ. lia.
Qed.

(** A fee paid in another asset, when there is one, goes to its issuer. *)
Lemma post_accumulate a v s (Q : unit → database → Prop) :
  wf s → 0 ≤ v →
  (∀ D, (∀ b, dyn_field dyn_net b (d_assets s) D =
              dyn_field dyn_net b (d_assets s) (d_dynamic s) + credit (mk_asset v a) b) →
        pools_of D = pools_of (d_dynamic s) + 0 → map_Forall (λ _, dyn_ok) D → Q tt (set_d_dynamic D s)) →
  post (if 0 <? v then
          modify_dynamic_of a (λ d,
            let? w := safe (accumulated_fees d + v) in Ok (set_accumulated_fees w d))
        else ret tt) s Q.
Proof.
  intros Hwf Hv HQ. dstep; btrue.
  - apply (post_dynamic_of _ _ v 0); [done| |done].
    dyn_fields.
  - dstep. apply (same_dynamic _ _ a); [done|]. intros D HD HP HO. apply HQ; [|done|done].
    replace v with 0 by lia. done.
Qed.

(** A fill adds what the order receives to the holdings and takes out what it
    pays. *)
Definition fill_delta (receives pays : asset) (a : Z) : Z := credit receives a - credit pays a.

Lemma fill_limit_order_effect id pays receives cull price maker s :
  wf s → 0 ≤ amount receives ≤ int64_max →
  effect (fill_limit_order id pays receives cull price maker) s (fill_delta receives pays).
Proof.
  intros Hwf Hr. unfold effect, fill_limit_order. dstep. dstep. dstep. dstep. intros.
  destruct (wf_limits s Hwf id v) as (Hsale & Hfee & Hpaid); [done|].
  repeat dstep. pcall pay_market_fees_spec; [done|done|].
  intros fees s1 (D & -> & Hid & Hfees & HP & HO & HD). simpl in *. dstep. dstep.
  intros net Hnet. unfold asset_sub in Hnet. inv_ok. btrue. dstep. apply post_pay_order. intros B S HB HS.
  dstep. dstep. dstep. apply post_pay_deferred; [done|]. intros S2 HS2.
  dstep. apply post_accumulate; [wf_solve|done|]. intros D2 HD2 HP2 HO2. simpl in *.
  dstep.
  - unfold asset_eqb in *. btrue. repeat dstep. gap_leaf. unfold fill_delta.
    destruct pays, fees, receives; simpl in *; subst. credits.
  - dstep. dstep. inv_ok.
    match goal with |- post _ ?s2 _ => assert (wf s2 ∧ ∀ a, gap a s2 = gap a s + fill_delta receives pays a) as [Hwf2 Hg] end.
    { gap_leaf.
      - unfold in64 in *. split_and!; simpl; lia.
      - unfold fill_delta. destruct pays, fees, receives; simpl in *; subst. credits. }
    dstep.
    + pcall maybe_cull_small_order_effect; [done|]. intros _ s3 [Hwf3 Hg3].
      split; [done|]. intros a. rewrite Hg3, Hg. lia.
    + by dstep.
Qed.

(** What the order looks like after the lambda of [fill_call_order]: it lost
    [pays] of collateral, all of it when the debt is gone and the rest is
    freed. *)
Lemma reduce_call_order_spec pays receives mcr o o' freed :
  asset_id (get_collateral o) = asset_id pays →
  reduce_call_order pays receives mcr o = Ok (o', freed) →
  (∀ a, credit (get_collateral o') a =
        credit (get_collateral o) a - credit pays a - from_option (λ x, credit x a) 0 freed) ∧
  (is_Some freed → co_collateral o' = 0).
Proof.
  intros Hc. unfold reduce_call_order. intros H. inv_ok. simpl in *.
  destruct (Z.eqb_spec (co_debt o - amount receives) 0) as [Hz|Hz]; [|destruct mcr]; inv_ok.
  - simpl. split; [|done]. intros a. unfold get_collateral, co_collateral_type in *. simpl in *.
    destruct pays; simpl in *; subst. credits.
  - match goal with Hp : call_price _ _ _ = Ok _ |- _ => apply call_price_ids in Hp as [Hb Hq] end.
    simpl in *. split; [|by intros [? ?]]. intros a.
    unfold get_collateral, co_collateral_type in *. simpl in *. rewrite Hb.
    destruct pays; simpl in *; subst. credits.
  - simpl. split; [|by intros [? ?]]. intros a. unfold get_collateral, co_collateral_type in *.
    simpl in *. destruct pays; simpl in *; subst. credits.
Qed.

Lemma reduce_call_order_types pays receives mcr o o' freed :
  reduce_call_order pays receives mcr o = Ok (o', freed) →
  co_debt_type o' = co_debt_type o ∧ co_collateral_type o' = co_collateral_type o.
Proof.
  unfold reduce_call_order. intros H. inv_ok. simpl in *.
  destruct (co_debt o - amount receives =? 0); [|destruct mcr]; inv_ok; [done| |done].
  match goal with Hp : call_price _ _ _ = Ok _ |- _ => apply call_price_ids in Hp as [Hb Hq] end.
  split; [exact Hq|exact Hb].
Qed.

Lemma reduce_call_order_shape pays receives mcr o o' freed :
  reduce_call_order pays receives mcr o = Ok (o', freed) →
  (∀ m, mcr = Some m → 0 ≤ m ≤ 2 ^ 15) → call_ok o → call_ok o'.
Proof.
  unfold reduce_call_order, call_ok. intros H Hm Ho. inv_ok. simpl in *.
  destruct (co_debt o - amount receives =? 0); [|destruct mcr as [m|]]; inv_ok; simpl; [done| |done].
  by eapply call_price_has_shape; [..|eassumption]; [| |apply Hm].
Qed.

Lemma fill_settle_order_effect id pays receives price maker s order :
  wf s → d_settles s !! id = Some order →
  0 ≤ amount receives ≤ int64_max → amount pays ≤ amount (fs_balance order) →
  effect (fill_settle_order id pays receives price maker) s (fill_delta receives pays).
Proof.
  intros Hwf Ho Hr Hp. unfold effect, fill_settle_order. dstep. dstep. same_entries.
  dstep. pcall pay_market_fees_spec; [done|done|].
  intros fees s1 (D & -> & Hid & Hfees & HP & HO & HD). simpl in *. dstep. dstep.
  intros partial Hpart. unfold asset_lt in Hpart. inv_ok. btrue.
  unfold fill_delta. destruct (Z.ltb_spec (amount pays) (amount (fs_balance order))); simpl.
  - dstep. dstep. unfold asset_sub in *. inv_ok. dstep. dstep. intros net Hnet. inv_ok.
    dstep. apply post_adjust_balance. intros B HB. dstep. dstep. dstep. dstep. dstep. gap_leaf.
    { unfold settle_ok, Exchange.amount_ok. simpl. unfold in64 in *. lia. }
    destruct pays, fees, receives, order as [? [? ?] ?]; simpl in *. btrue. simpl in *. subst. credits.
  - dstep. dstep. dstep. dstep. intros net Hnet. unfold asset_sub in *. inv_ok.
    dstep. apply post_adjust_balance. intros B HB. dstep. dstep. dstep. dstep. dstep. gap_leaf.
    destruct pays, fees, receives, order as [? [? ?] ?]; simpl in *. btrue. simpl in *. subst. credits.
Qed.

Lemma fill_call_order_effect id pays receives price maker s :
  wf s → effect (fill_call_order id pays receives price maker) s (fill_delta receives pays).
Proof.
  intros Hwf. unfold effect, fill_call_order. dstep. dstep. dstep. dstep. dstep. dstep.
  intros enough _. dstep. dstep. dstep. dstep. dstep. dstep. dstep.
  apply (post_mono _ _ (λ mcr s', s' = s ∧ ∀ m, mcr = Some m → 0 ≤ m ≤ 2 ^ 15)).
  { dstep; [|by dstep]. dstep. dstep. dstep. split; [done|]. intros m [= <-].
    apply mcr_16. by eapply (wf_feeds s Hwf). }
  intros mcr s1 [-> Hmcr]. dstep. dstep. intros [o' freed] Hred. btrue.
  destruct (reduce_call_order_spec _ _ _ _ _ _ ltac:(eassumption) Hred) as [Hcol Hfreed].
  dstep. apply post_modify. intros c c' Hc [= <-]. same_entries.
  assert (call_ok o') as Hshape.
  { eapply reduce_call_order_shape; [done|done|]. by eapply (wf_calls s Hwf). }
  assert (positions_updated = true → backed (d_bitassets s) o') as Hback.
  { intros Hu. destruct (reduce_call_order_types _ _ _ _ _ _ Hred).
    eapply backed_same; [|done|done]. by eapply (proj1 (wf_positions s Hwf Hu)). }
  dstep. eapply (post_dynamic _ _ _ (amount receives) 0); [wf_solve|eassumption| |].
  { dyn_fields. }
  intros D HD HP HO. dstep. dstep. simpl in *. dstep.
  set (s1 := set_d_dynamic _ _).
  assert (wf s1) as Hwf1 by (unfold s1; wf_solve).
  apply (post_mono _ _ (λ _ s2, ∃ B S, s2 = set_d_balances B (set_d_statistics S s1) ∧
    pending_of S = pending_of (d_statistics s) + 0 ∧
    ∀ a, balances_of a B = balances_of a (d_balances s)
                           + from_option (λ x, credit x a) 0 freed)).
  { dstep; btrue.
    - assert (∀ st st', (let? v2 := match freed with
          | Some f => if (0 <? amount f) && (asset_id f =? CORE)
                      then safe (st_total_core_in_orders st - amount f)
                      else Ok (st_total_core_in_orders st)
          | None => Ok (st_total_core_in_orders st) end in
        let? w := if asset_id pays =? CORE then safe (v2 - amount pays) else Ok v2 in
        Ok (set_st_total_core_in_orders w st)) = Ok st' → st_pending st' = st_pending st + 0) as Hst.
      { intros st st' Hst. inv_ok. unfold st_pending; simpl. lia. }
      dstep. destruct freed as [f|]; simpl.
      + apply post_adjust_balance. intros B HB. eapply post_statistics; [exact Hst|].
        intros S HS. eexists B, S. by split_and!.
      + dstep. eapply post_statistics; [exact Hst|]. intros S HS.
        exists (d_balances s), S. split_and!; [done|done|]. intros; lia.
    - dstep. exists (d_balances s), (d_statistics s). split_and!; [by destruct s|lia|].
      intros a. assert (freed = None) as ->; [|simpl; lia].
      destruct freed; [|done]. btrue. exfalso. eauto. }
  intros _ s2 (B & S & -> & HS & HB). dstep. dstep. dstep. simpl in *. subst s1.
  dstep; btrue.
  - dstep. dstep. assert (co_collateral o' = 0) as Hz by auto. gap_leaf.
    assert (credit (get_collateral o') a = 0) as Ho' by (unfold get_collateral, credit; simpl; rewrite Hz; by destruct (_ =? _)).
    unfold fill_delta. rewrite Hcol in Ho'. destruct receives; simpl in *. lia.
  - dstep. dstep. destruct freed as [f|]; [by btrue; exfalso; eauto|]. gap_leaf.
    rewrite Hcol. unfold fill_delta. destruct receives; simpl in *. lia.
Qed.
End market_supply.
