(* ===== verification/MatchSupply.v ===== *)
(** * Matching and settling conserve the supply of every asset

    The effect of the functions of Matching.v and OrderBook.v on the gap. *)

From S2P Require Import Prelude Ext Config Asset Objects Parameters Governance Blocks Names Operations Validation Fees Ledger Database Balance CallOrder Market Matching OrderBook Exchange Indices Supply MarketSupply.

Section match_supply.
Context {X : Ext} {R : Regime} {P : Packing}.

(** Two fills that exchange the same amounts cancel out. *)
Lemma fill_both x y a : fill_delta x y a + fill_delta y x a = 0.
Proof. unfold fill_delta. lia. Qed.

(** Two orders filled one after the other. *)
Lemma fill_pair_effect {A B C} (m1 : DB A) (m2 : DB B) (k : A → B → DB C) s x y :
  effect m1 s (fill_delta x y) →
  (∀ s1, wf s1 → effect m2 s1 (fill_delta y x)) →
  (∀ a b s2, wf s2 → effect (k a b) s2 (λ _, 0)) →
  effect (let! a := m1 in let! b := m2 in k a b) s (λ _, 0).
Proof.
  intros H1 H2 Hk.
  eapply effect_ext with (δ := λ a, fill_delta x y a + (fill_delta y x a + 0)).
  2:{ intros a. pose proof (fill_both x y a). lia. }
  eapply effect_bind; [exact H1|]. intros. eapply effect_bind; [by apply H2|]. auto.
Qed.

Lemma limit_amounts_ok b1 b2 usd core p x y c :
  limit_amounts b1 b2 usd core p = Ok (Some (x, y, c)) →
  amount usd ≤ int64_max → amount core ≤ int64_max → 0 < amount usd → 0 < amount core →
  amount_ok x ∧ amount_ok y.
Proof.
  unfold limit_amounts. intros H Hu Hc Hu0 Hc0. inv_ok.
  repeat (case_match; inv_ok); split;
    first [ by eapply asset_mul_amount_ok | by eapply round_up_amount_ok | unfold amount_ok; lia ].
Qed.

Lemma match_limit_limit_effect usd core p s :
  wf s → effect (match_limit_limit usd core p) s (λ _, 0).
Proof.
  intros Hwf. unfold effect, match_limit_limit.
  dstep. dstep. rename v into u. dstep. dstep. rename v into c. dstep. dstep. dstep. dstep. dstep. dstep.
  dstep. intros amounts Hamt. destruct amounts as [[[x y] cull]|]; [|dstep; split; [done|]; intros; lia].
  dstep. btrue. simpl in *.
  destruct (wf_limits s Hwf usd u) as (Hu & _); [done|]. destruct (wf_limits s Hwf core c) as (Hc & _); [done|].
  destruct (limit_amounts_ok _ _ _ _ _ _ _ _ Hamt) as [Hx Hy]; [done..|].
  apply (fill_pair_effect _ _ _ s x y).
  - by apply fill_limit_order_effect.
  - intros. by apply fill_limit_order_effect.
  - intros. unfold effect. dstep. by apply effect_ret.
Qed.

Lemma limit_call_amounts_ok b1 b2 usd buy p x y c :
  limit_call_amounts b1 b2 usd buy p = Ok (Some (x, y, c)) → amount_ok y.
Proof.
  unfold limit_call_amounts. intros H. inv_ok.
  repeat case_match; inv_ok;
    repeat match goal with H : (if ?b then _ else _) = _ |- _ => destruct b; inv_ok end;
    first [ by eapply asset_mul_amount_ok | by eapply round_up_amount_ok ].
Qed.

Lemma match_limit_call_effect bid ask p feed mcr s :
  wf s → effect (match_limit_call bid ask p feed mcr) s (λ _, 0).
Proof.
  intros Hwf. unfold effect, match_limit_call.
  do 9 dstep.
  dstep. apply (post_mono _ _ (λ _ s', s' = s)).
  { dstep; [by dstep|]. dstep. dstep. intros v1 _. by dstep. }
  intros buy s1 ->. dstep. dstep. intros amounts Hamt.
  destruct amounts as [[[x y] cull]|]; [|dstep; split; [done|]; intros; lia].
  apply limit_call_amounts_ok in Hamt.
  apply (fill_pair_effect _ _ _ s y x).
  - by apply fill_limit_order_effect.
  - intros. by apply fill_call_order_effect.
  - intros. by apply effect_ret.
Qed.

(** Filling a margin position leaves the other indices alone. *)
Lemma fill_call_order_frame id pays receives price maker s :
  post (fill_call_order id pays receives price maker) s (λ _ s',
    d_settles s' = d_settles s ∧ d_limits s' = d_limits s ∧ d_bids s' = d_bids s ∧
    d_assets s' = d_assets s ∧ d_bitassets s' = d_bitassets s).
Proof.
  unfold fill_call_order. do 6 dstep. intros enough _. do 7 dstep.
  apply (post_mono _ _ (λ _ s', s' = s)). { repeat dstep; done. }
  intros mcr s1 ->. dstep. dstep. intros [o' freed] _. do 7 dstep.
  match goal with |- post _ ?s1 _ => set (s2 := s1) end.
  apply (post_mono _ _ (λ _ s', ∃ B S, s' = set_d_balances B (set_d_statistics S s2))).
  { dstep; [|dstep; exists (d_balances s2), (d_statistics s2); by destruct s2]. dstep.
    apply (post_mono _ _ (λ _ s', ∃ B, s' = set_d_balances B s2)).
    { destruct freed; [apply post_adjust_balance; eauto|dstep; exists (d_balances s2); by destruct s2]. }
    intros _ s3 [B ->]. dstep. eexists B, _. reflexivity. }
  intros _ s3 (B & S & ->). subst s2. dstep. dstep. dstep.
  dstep; dstep; dstep; done.
Qed.

Lemma asset_min_ok a b r :
  asset_min a b = Ok r → asset_id r = asset_id a ∧ asset_id r = asset_id b ∧
    amount r = Z.min (amount a) (amount b).
Proof.
  unfold asset_min, asset_lt. intros H. inv_ok. btrue.
  destruct (Z.ltb_spec (amount b) (amount a)); split_and!; try done; lia.
Qed.

Lemma settle_amounts_ok b1 b2 balance max debt p x y cull :
  settle_amounts b1 b2 balance max debt p = Ok (settle_exchange x y cull) →
  p = null_price ∨ price_ok p → amount_ok balance → 0 ≤ amount max → 0 ≤ amount debt →
  amount_ok y ∧ amount x ≤ amount balance.
Proof.
  unfold settle_amounts. intros H Hp Hb Hm Hd. inv_ok.
  destruct Hp as [->|Hp]; [by rewrite null_price_fails in *|].
  rename x0 into sale, x1 into recv, x2 into pays.
  destruct (asset_min_ok balance max sale) as (_ & _ & Hsale); [done|].
  destruct (asset_min_ok sale debt recv) as (_ & _ & Hrecv); [done|].
  assert (amount recv ≤ amount balance) by lia.
  assert (amount_ok recv) as Hr by (unfold amount_ok in *; lia).
  assert (amount_ok pays) as Hy by (by eapply asset_mul_amount_ok).
  repeat (case_match; inv_ok); simplify_eq; split;
    first [ done | by eapply round_up_amount_ok
          | unfold amount_ok, int64_max; simpl; lia
          | eapply Z.le_trans; [eapply down_up_le; [exact Hp|exact Hr|done|done]|done] ].
Qed.

Lemma match_call_settle_effect call_id settle_id p max fill_price s order :
  wf s → d_settles s !! settle_id = Some order → p = null_price ∨ price_ok p → 0 ≤ amount max →
  effect (match_call_settle call_id settle_id p max fill_price) s (λ _, 0).
Proof.
  intros Hwf Ho Hp Hmax. pose proof (wf_settles s Hwf _ _ Ho) as Hbal. unfold effect, match_call_settle. do 8 dstep. same_entries. btrue.
  dstep. dstep. intros decision Hdec. destruct decision as [cancel|x y cull].
  - dstep. apply (post_mono _ _ (λ _ s', wf s' ∧ ∀ a, gap a s' = gap a s + 0)).
    { dstep; [by apply cancel_settle_order_effect|by apply effect_ret]. }
    intros _ s' H'. by dstep.
  - destruct (settle_amounts_ok _ _ _ _ _ _ _ _ _ Hdec) as [Hy Hx]; [done..|simpl; lia|].
    dstep. dstep. intros solvent _. dstep; [|dstep].
    pose proof (fill_call_order_effect call_id y x fill_price true s Hwf) as Heff.
    pose proof (fill_call_order_frame call_id y x fill_price true s) as Hframe.
    dstep. intros filled s1 Hrun. destruct (Heff _ _ Hrun) as [Hwf1 Hg1]. destruct (Hframe _ _ Hrun) as [Hset _]. clear Heff Hframe Hrun.
    dstep. pcall fill_settle_order_effect; [done|by rewrite Hset|done|done|].
    intros _ s2 [Hwf2 Hg2].
    dstep. apply (post_mono _ _ (λ _ s', wf s' ∧ ∀ a, gap a s' = gap a s2 + 0)).
    { dstep; [by apply cancel_settle_order_effect|by apply effect_ret]. }
    intros _ s3 [Hwf3 Hg3]. dstep. split; [done|]. intros a. rewrite Hg3, Hg2, Hg1.
    pose proof (fill_both x y a). lia.
Qed.

(** ** The order book *)

Lemma match_limits_effect fuel order_id continue : ∀ itr limit_end s,
  wf s → effect (match_limits fuel order_id continue itr limit_end) s (λ _, 0).
Proof.
  induction fuel as [|fuel IH]; intros itr limit_end s Hwf; simpl; unfold effect; [dstep|].
  dstep; [by apply effect_ret|]. dstep. dstep. intros old _. dstep. dstep.
  dstep; [|by apply effect_ret]. dstep. dstep. apply after_none; [by apply match_limit_limit_effect|].
  intros r s1 Hwf1. unfold effect. dstep; [by apply effect_ret|by apply IH].
Qed.

Lemma match_calls_effect fuel order_id sell call_min p feed : ∀ s,
  wf s → effect (match_calls fuel order_id sell call_min p feed) s (λ _, 0).
Proof.
  induction fuel as [|fuel IH]; intros s Hwf; simpl; unfold effect; [dstep|].
  dstep. dstep. destruct (call_lower_bound _ _) as [call_id|]; [|by apply effect_ret].
  dstep. dstep. dstep; [by apply effect_ret|].
  apply after_none; [by apply match_limit_call_effect|].
  intros r s1 Hwf1. unfold effect. dstep; [by apply effect_ret|by apply IH].
Qed.

Lemma calls_to_check_read order s : post (calls_to_check order) s (λ _ s', s' = s).
Proof.
  unfold calls_to_check. dstep. dstep. dstep; [by dstep|]. dstep. dstep. dstep; [|by dstep].
  dstep. dstep. intros p _. by dstep.
Qed.

Lemma apply_order_effect order_id s :
  wf s → effect (apply_order order_id) s (λ _, 0).
Proof.
  intros Hwf. unfold effect, apply_order. dstep. dstep. dstep. dstep. dstep; [by apply effect_ret|].
  dstep. dstep. intros best _. do 9 dstep. pcall calls_to_check_read. intros calls s1 ->.
  apply after_none.
  { destruct calls as [[feed p]|]; [|by apply effect_ret].
    apply after_none; [by apply match_limits_effect|]. intros r s1 Hwf1. unfold effect.
    dstep; [by apply effect_ret|]. dstep. dstep. intros call_min _.
    apply after_none; [by apply match_calls_effect|]. intros. by apply effect_ret. }
  intros r s1 Hwf1. apply after_none.
  { unfold effect. dstep; [by apply effect_ret|by apply match_limits_effect]. }
  intros _ s2 Hwf2. unfold effect, finish_order. dstep. dstep.
  destruct (d_limits s2 !! order_id); [by apply maybe_cull_small_order_effect|by apply effect_ret].
Qed.
End match_supply.

(** * Global settlement conserves the supply of every asset

    A global settlement fills every margin position of the asset and keeps the
    collateral in the settlement fund; a revival gives the fund to the bidders
    or to the issuer. *)

Section settle_supply.
Context {X : Ext} {R : Regime} {P : Packing}.

(** A filled margin position takes the debt it pays back out of the supply. *)
Lemma fill_call_order_supply id pays receives price maker s :
  wf s → post (fill_call_order id pays receives price maker) s (λ _ s',
    ∀ a, supply a s' = supply a s - credit receives a).
Proof.
  intros Hwf. unfold fill_call_order. do 6 dstep. intros enough _. do 7 dstep.
  apply (post_mono _ _ (λ _ s', s' = s)). { repeat dstep; done. }
  intros mcr s1 ->. dstep. dstep. intros [o' freed] _. do 4 dstep.
  inv_ok. simpl in *.
  match goal with |- post _ ?s1 _ => set (s2 := s1) end.
  assert (∀ a, supply a s2 = supply a s - credit receives a) as Hsup.
  { intros a. unfold supply, s2; simpl. erewrite dyn_field_insert by eauto using wf_dyn_inj.
    destruct receives; credits. }
  clearbody s2. dstep. dstep. dstep.
  apply (post_mono _ _ (λ _ s', ∃ B S, s' = set_d_balances B (set_d_statistics S s2))).
  { dstep; [|dstep; exists (d_balances s2), (d_statistics s2); by destruct s2]. dstep.
    apply (post_mono _ _ (λ _ s', ∃ B, s' = set_d_balances B s2)).
    { destruct freed; [apply post_adjust_balance; eauto|dstep; exists (d_balances s2); by destruct s2]. }
    intros _ s3 [B ->]. dstep. eexists B, _. reflexivity. }
  intros _ s3 (B & S & ->). dstep. dstep. dstep. dstep; dstep; dstep; apply Hsup.
Qed.

Lemma asset_mul_ids a p r :
  asset_mul a p = Ok r →
  (asset_id a = asset_id (base p) ∧ asset_id r = asset_id (quote p)) ∨
  (asset_id a = asset_id (quote p) ∧ asset_id r = asset_id (base p)).
Proof.
  unfold asset_mul. intros H. repeat case_match; inv_ok; btrue; simpl; auto.
Qed.
Lemma round_up_ids a p r :
  multiply_and_round_up a p = Ok r →
  (asset_id a = asset_id (base p) ∧ asset_id r = asset_id (quote p)) ∨
  (asset_id a = asset_id (quote p) ∧ asset_id r = asset_id (base p)).
Proof.
  unfold multiply_and_round_up. intros H. repeat case_match; inv_ok; btrue; simpl; auto.
Qed.

(** What the loop over the margin positions of [mia] has done: debt [t] was
    paid back, and the collateral is gathered. *)
Definition calls_settled (mia : Z) (from : asset) (s : database) (to : asset) (s' : database) : Prop :=
  wf s' ∧ d_assets s' = d_assets s ∧ d_bitassets s' = d_bitassets s ∧
  asset_id to = asset_id from ∧
  ∃ t, (∀ a, gap a s' = gap a s + credit (mk_asset t mia) a - (credit to a - credit from a)) ∧
       supply mia s' = supply mia s - t.

Lemma settle_calls_effect fuel b p mia : ∀ itr call_end g s,
  wf s → price_for mia p → asset_id g ≠ mia →
  post (settle_calls fuel b p itr call_end g) s (calls_settled mia g s).
Proof.
  induction fuel as [|fuel IH]; intros itr call_end g s Hwf Hp Hg; simpl; [dstep|].
  dstep.
  { dstep. split_and!; try done. exists 0. split; [|lia]. intros a. rewrite credit_zero by done. lia. }
  destruct itr as [order|]; [|dstep]. dstep. dstep. rename v into call. dstep. dstep.
  intros pays Hpays. dstep. dstep. intros too_much Htoo. dstep. dstep. intros gathered Hgat.
  dstep. dstep.
  set (paid := if too_much then get_collateral call else pays) in *.
  assert (asset_id paid = asset_id g ∧ asset_id gathered = asset_id g ∧
          amount gathered = amount g + amount paid) as (Hid & Hgid & Hamt).
  { unfold asset_add in Hgat. inv_ok. btrue. done. }
  assert (asset_id pays = asset_id g) as Hpid.
  { subst paid. destruct too_much; [|done]. unfold asset_gt, asset_lt in Htoo. inv_ok. btrue. congruence. }
  assert (asset_id (get_debt call) = mia) as Hdebt.
  { destruct Hp as [->|Hp].
    { destruct b; [rewrite null_price_fails in Hpays|rewrite null_price_round_up in Hpays]; done. }
    assert ((asset_id (get_debt call) = asset_id (base p) ∧ asset_id pays = asset_id (quote p)) ∨
            (asset_id (get_debt call) = asset_id (quote p) ∧ asset_id pays = asset_id (base p)))
      as [[? ?]|[? ?]]; [|congruence..].
    destruct b; [by apply asset_mul_ids|by apply round_up_ids]. }
  pose proof (fill_call_order_effect order paid (get_debt call) p true s Hwf) as Heff.
  pose proof (fill_call_order_supply order paid (get_debt call) p true s Hwf) as Hsup.
  pose proof (fill_call_order_frame order paid (get_debt call) p true s) as Hfr.
  dstep. intros filled s1 Hrun. destruct (Heff _ _ Hrun) as [Hwf1 Hg1].
  specialize (Hsup _ _ Hrun). destruct (Hfr _ _ Hrun) as (_ & _ & _ & Has & Hbs).
  dstep. pcall IH; [done|done|congruence|].
  intros g' s2 (Hwf2 & Has2 & Hbs2 & Hgid' & t & Hgap & Hs2).
  split_and!; [done|congruence|congruence|congruence|].
  exists (t + co_debt call). split.
  - intros a. rewrite Hgap, Hg1, credit_add. unfold fill_delta.
    assert (credit (get_debt call) a = credit (mk_asset (co_debt call) mia) a) as -> by (by rewrite <- Hdebt).
    assert (credit gathered a = credit g a + credit paid a) as ->; [|lia].
    unfold credit. rewrite Hgid, Hid, Hamt. destruct (asset_id g =? a); lia.
  - rewrite Hs2, Hsup. unfold credit. rewrite Hdebt, Z.eqb_refl. simpl. lia.
Qed.

(** [globally_settle_asset] moves collateral to the fund and nothing else. *)
Lemma globally_settle_asset_effect mia p s :
  wf s → price_for mia p →
  effect (globally_settle_asset mia p) s (λ _, 0).
Proof.
  intros Hwf Hp. unfold effect, globally_settle_asset.
  dstep. dstep. rename H into Hao, H0 into Hb, H1 into Hbd.
  destruct (wf_bitassets s Hwf b bd Hbd) as (Hback & Hfund & _).
  pose proof (wf_back_refs s Hwf _ _ _ _ Hao Hb Hbd) as Hmia. rewrite Hmia in Hback.
  set (backing := bo_short_backing_asset (bd_options bd)) in *.
  do 9 dstep. intros call_min _. dstep. dstep. intros call_max _. do 7 dstep.
  btrue.
  specialize (Hfund ltac:(done)).
  pcall (settle_calls_effect _ _ p mia); [done|done|done|]. simpl.
  intros gathered s1 (Hwf1 & Has & Hbs & Hgid & t & Hgap & Hsup).
  dstep. dstep. rewrite Has in *. same_entries. rewrite Hbs in *. simplify_eq.
  unfold asset_div in *. inv_ok. btrue. simpl in *. dstep. simpl in *. rewrite Has in *. same_entries.
  inv_ok. rename d0 into d1.
  assert (current_supply d1 = current_supply d - t) as Hd1.
  { rewrite <- (supply_lookup (bd_asset_id bd) s1 ao d1), Hsup, (supply_lookup _ s ao d); congruence. }
  assert (has_settlement (set_bd_settlement_fund (amount gathered)
            (set_bd_settlement_price (mk_price (mk_asset (current_supply d) (bd_asset_id bd)) gathered) bd)) = true)
    as Hset.
  { unfold has_settlement, is_null; simpl. destruct (Z.eqb_spec (bd_asset_id bd) CORE); [|done].
    destruct (Z.eqb_spec (asset_id gathered) CORE); [congruence|done]. }
  split.
  - pose proof (wf_feeds s Hwf b bd Hbd) as Hfeed.
    assert (dyn_ok d) as Hdyn by (by eapply (wf_dynamic s Hwf)). destruct Hwf1. apply mk_wf; simpl; try done.
    + apply map_Forall_insert_2; [|by rewrite <- Hbs]. split_and!; [simpl; congruence|intros; congruence|intros _; simpl; split; congruence].
    + apply map_Forall_insert_2; [|by rewrite <- Hbs]. done.
    + rewrite Has. eapply back_refs_insert; [by rewrite <- Has, <- Hbs|done|done].
    + rewrite Has. eapply owned_insert; [by rewrite <- Has, <- Hbs|done|done].
    + by apply map_Forall_insert_2.
    + eapply positions_bitasset; [by rewrite <- Hbs|done..].
  - intros a. specialize (Hgap a). rewrite !gap_eq in *. simpl in *. rewrite Has in *.
    rewrite Hbs in *. erewrite dyn_field_insert by eauto using wf_dyn_inj.
    unfold funds_of in *. erewrite msum_insert_some by eassumption.
    assert (fund_credit bd a = 0) as -> by (unfold fund_credit; by apply credit_zero).
    match goal with |- context [fund_credit ?x a] => assert (fund_credit x a = credit gathered a) as -> end.
    { unfold fund_credit; simpl. rewrite <- Hgid. by destruct gathered. }
    rewrite (credit_zero a (mk_asset 0 _)) in Hgap by done.
    match goal with |- context [credit (mk_asset ?x ?i) a] =>
      replace x with (- t) by (unfold dyn_net, issuer_held; simpl; lia) end.
    rewrite credit_opp. unfold pools_of in *. erewrite msum_insert_some by eassumption.
    simpl. rewrite Z.sub_add. lia.
Qed.
End settle_supply.

(** * Margin calls conserve the supply of every asset

    [check_for_blackswan] and [check_call_orders]: a black swan settles the
    asset whose margin positions are asked about and no other, and the passes
    over the order book exchange what one side pays for what the other
    receives. *)

Section margin_supply.
Context {X : Ext} {R : Regime} {P : Packing}.

(** No call price is below the least price of its market and above the
    greatest. *)
Lemma call_price_between cp b q mn mx :
  call_price_shape cp → price_min b q = Ok mn → price_max b q = Ok mx →
  price_ltb mx cp = true → price_ltb cp mn = false.
Proof.
  unfold price_min, price_max, asset_div. intros [Hb Hq] Hmn Hmx Hab. inv_ok.
  unfold price_ltb, amult, GRAPHENE_MAX_SHARE_SUPPLY in *; simpl in *. revert Hab.
  destruct (Z.ltb_spec b (asset_id (base cp))); destruct (Z.ltb_spec (asset_id (base cp)) b); try done; try lia.
  destruct (Z.ltb_spec q (asset_id (quote cp))); destruct (Z.ltb_spec (asset_id (quote cp)) q); try done; try lia.
  rewrite !Z.ltb_lt, Z.ltb_ge. rewrite !u128_mod, (Z.mod_small 1), (Z.mod_small 1000000000000000), Z.mul_1_l, Z.mul_1_r by lia.
  rewrite (Z.mod_small (amount (base cp))), (Z.mod_small (1000000000000000 * _)) by lia.
  destruct (Z.le_gt_cases 0 (amount (quote cp))).
  - rewrite !(Z.mod_small (amount (quote cp))) by lia. lia.
  - assert (amount (quote cp) mod 2 ^ 128 = amount (quote cp) + 2 ^ 128) as ->.
    { symmetry. apply (Z.mod_unique _ _ (-1)); lia. }
    assert ((amount (quote cp) + 2 ^ 128) * 1000000000000000 mod 2 ^ 128
            = amount (quote cp) * 1000000000000000 + 2 ^ 128) as E.
    { symmetry. apply (Z.mod_unique _ _ 999999999999999); lia. }
    rewrite E. lia.
Qed.

(** A position found between the bounds of a market is one of that market. *)
Lemma call_in_market s b q mn mx c :
  wf s → price_min b q = Ok mn → price_max b q = Ok mx →
  call_lower_bound mn s = Some c → call_upper_bound mx s ≠ Some c →
  ∃ call, d_calls s !! c = Some call ∧ co_debt_type call = q ∧ co_collateral_type call = b.
Proof.
  intros Hwf Hmn Hmx Hlow Hup. unfold call_lower_bound, call_upper_bound in *.
  apply (first_in_range _ _ _ _ Hlow) in Hup as (call & Hin & Hge & Hle).
  - apply sorted_by_entry in Hin. exists call. split; [done|]. simpl in *.
    unfold price_min, price_max, asset_div in *. inv_ok.
    unfold price_ltb in *; simpl in *. unfold co_debt_type, co_collateral_type.
    repeat (case_match; btrue); simpl in *; try done; lia.
  - intros [k call] Hin Hab. apply sorted_by_entry in Hin. simpl in *. apply negb_true_iff.
    eapply call_price_between; [by eapply (wf_calls s Hwf)|done..].
Qed.

(** The settlement price of the current feed of an asset is one of the asset. *)
Lemma feed_price_for s mia ao b bd :
  wf s → d_assets s !! mia = Some ao → as_bitasset_data_id ao = Some b → d_bitassets s !! b = Some bd →
  price_for mia (settlement_price (bd_current_feed bd)).
Proof.
  intros Hwf Hao Hb Hbd. rewrite <- (wf_back_refs s Hwf _ _ _ _ Hao Hb Hbd).
  apply feed_price_for_asset. by eapply (wf_feeds s Hwf).
Qed.

(** The price of a black swan is one of the asset that is settled. *)
Lemma check_for_blackswan_effect mia b s :
  wf s → effect (check_for_blackswan mia b) s (λ _, 0).
Proof.
  intros Hwf. unfold effect, check_for_blackswan. walk.
  all: pcall globally_settle_asset_effect; [done| |intros _ s1 [Hwf1 Hg1]; by dstep].
  1, 3: by eapply feed_price_for.
  all: right; rename select (collateralization _ = Ok _) into Hcol; unfold collateralization, asset_div in Hcol; inv_ok; simpl.
  all: repeat match goal with H : bool_decide _ = false |- _ => apply bool_decide_eq_false in H end.
  all: edestruct (call_in_market s (bo_short_backing_asset (bd_options bd))) as (call & Hcall & Hdebt & _); [done|eassumption..|congruence|].
  all: by same_entries.
Qed.

(** What the limit order receives is an amount. *)
Lemma margin_amounts_ok b sale buy p x y fill :
  margin_amounts b sale buy p = Ok (x, y, fill) → amount_ok y.
Proof.
  unfold margin_amounts. intros H. inv_ok.
  repeat case_match; inv_ok;
    repeat match goal with H : (if ?b then _ else _) = _ |- _ => destruct b; inv_ok end;
    first [ by eapply asset_mul_amount_ok | by eapply round_up_amount_ok ].
Qed.

Lemma margin_exchange_effect mia n call_min call_id limit_id sale buy p filled s :
  wf s → effect (margin_exchange mia n call_min call_id limit_id sale buy p filled) s (λ _, 0).
Proof.
  intros Hwf. unfold effect, margin_exchange. dstep. dstep. dstep. dstep. dstep. dstep.
  intros [[call_receives order_receives] fill] Hamt. apply margin_amounts_ok in Hamt.
  apply after_none. { unfold effect. dstep; dstep; (split; [wf_solve|intros a; rewrite !gap_eq; simpl; lia]). }
  intros u1 s1 Hwf1. eapply effect_ext.
  { eread.
    eapply effect_bind; [by apply fill_call_order_effect|]. intros filled_call s2 Hwf2.
    apply effect_read. apply (post_mono _ _ (λ _ s', s' = s2)); [dstep; by dstep|].
    intros call_itr s3 ->. split; [done|]. eread.
    eapply effect_bind; [by apply fill_limit_order_effect|]. intros really s4 Hwf4. by apply effect_ret. }
  intros a. unfold fill_delta. lia.
Qed.

Lemma margin_pass_effect mia b n call_min call_end limit_end m s :
  wf s → effect (margin_pass mia b n call_min call_end limit_end m) s (λ _, 0).
Proof.
  intros Hwf. apply after_none; [by apply check_for_blackswan_effect|]. intros swan s1 Hwf1.
  unfold effect. walk; [|by apply margin_exchange_effect..].
  pcall globally_settle_asset_effect; [done| |intros _ s2 [Hwf2 Hg2]; by dstep].
  by eapply feed_price_for.
Qed.

Lemma margin_loop_effect fuel mia b n call_min call_end limit_end : ∀ m s,
  wf s → effect (margin_loop fuel mia b n call_min call_end limit_end m) s (λ _, 0).
Proof.
  induction fuel as [|fuel IH]; intros m s Hwf; simpl; [unfold effect; dstep|].
  apply after_none; [by apply margin_pass_effect|]. intros [r|m'] s1 Hwf1; [by apply effect_ret|by apply IH].
Qed.

(** Looking for margin calls leaves the books balanced, whatever is called. *)
Lemma check_call_orders_effect mia b n s :
  wf s → effect (check_call_orders mia b n) s (λ _, 0).
Proof.
  intros Hwf. unfold effect, check_call_orders. dstep. dstep. dstep. dstep. dstep. dstep; [by apply effect_ret|].
  apply after_none; [by apply check_for_blackswan_effect|]. intros swan s1 Hwf1. unfold effect.
  walk. by apply margin_loop_effect.
Qed.

Lemma apply_order_before_hardfork_625_effect order_id b s :
  wf s → effect (apply_order_before_hardfork_625 order_id b) s (λ _, 0).
Proof.
  intros Hwf. unfold effect, apply_order_before_hardfork_625. dstep. dstep. dstep. dstep. intros receive _.
  do 4 dstep. apply after_none; [by apply check_call_orders_effect|]. intros called1 s1 Hwf1.
  apply after_none; [by apply check_call_orders_effect|]. intros called2 s2 Hwf2. unfold effect.
  dstep. dstep. dstep; [by apply effect_ret|]. dstep. dstep. intros best _. do 6 dstep.
  apply after_none; [by apply match_limits_effect|]. intros r s3 Hwf3.
  apply after_none; [by apply check_call_orders_effect|]. intros r1 s4 Hwf4.
  apply after_none; [by apply check_call_orders_effect|]. intros r2 s5 Hwf5. unfold effect.
  walk. by apply maybe_cull_small_order_effect.
Qed.
End margin_supply.
