(* ===== verification/EvalSupply.v ===== *)
(** * Operations conserve the supply of every asset

    The fee of an operation and what its evaluator does, put together: an
    operation that is applied leaves the gap of every asset as it was. The
    interface [ConservingEvaluator] states what an evaluator has to promise; its
    instances are proved per evaluator. *)

From S2P Require Import Prelude Ext Config Asset Objects Parameters Governance Blocks Names Operations Validation Fees Ledger Database Vesting Balance Market Matching OrderBook Feeds Evaluator MarketEval AssetEval BitassetEval TransferEval Exchange Supply MarketSupply MatchSupply.

(** A computation that only reads. *)
Definition reads {A} (m : DB A) : Prop := ∀ s, post m s (λ _ s', s' = s).

Lemma reads_bind {A B} (m : DB A) (k : A → DB B) : reads m → (∀ x, reads (k x)) → reads (bind m k).
Proof. intros Hm Hk s. apply post_bind. pcall Hm. intros x s' ->. apply Hk. Qed.
Lemma reads_lift {A} (r : res A) : reads (lift r).
Proof. intros s. dstep. by intros x _. Qed.
Lemma reads_ret {A} (x : A) : reads (ret x).
Proof. intros s. by dstep. Qed.
Lemma reads_fail {A} e : reads (@fail database A e).
Proof. intros s. dstep. Qed.
Lemma reads_gets {A} (f : database → A) : reads (gets f).
Proof. intros s. by dstep. Qed.
Lemma reads_require {A} b (k : DB A) : reads k → reads (require b k).
Proof. intros Hk s. dstep. apply Hk. Qed.
Lemma reads_get {V} (proj : database → gmap Z V) id : reads (get_from proj id).
Proof. intros s. by dstep. Qed.
Lemma reads_for_each {A} (f : A → DB unit) l : (∀ x, reads (f x)) → reads (for_each f l).
Proof. intros Hf. induction l; simpl; [apply reads_ret|]. by apply reads_bind. Qed.

(** Decide [reads] by the structure of the computation. *)
Ltac readonly :=
  repeat first
    [ assumption
    | apply reads_bind; [|intros ?]
    | apply reads_require | apply reads_lift | apply reads_ret | apply reads_fail
    | apply reads_gets | apply reads_get
    | apply reads_for_each; intros ?
    | match goal with
      | |- reads (if ?b then _ else _) => destruct b
      | |- reads (match ?x with _ => _ end) => destruct x
      end ].

Lemma reads_authorized acct i a : reads (is_authorized_asset acct i a).
Proof. unfold is_authorized_asset, detail_is_authorized_asset. readonly. Qed.
Lemma reads_bitasset_of a : reads (get_bitasset_of a).
Proof. unfold get_bitasset_of, bitasset_id_of. readonly. Qed.
Lemma reads_dynamic_of a : reads (get_dynamic_of a).
Proof. unfold get_dynamic_of. readonly. Qed.
Lemma reads_accounts_exist ids : reads (accounts_exist ids).
Proof. induction ids; simpl; readonly. Qed.
Lemma reads_is_configured f : reads (is_configured f).
Proof. unfold is_configured. readonly. Qed.

Create HintDb reads.
#[export] Hint Resolve reads_authorized reads_bitasset_of reads_dynamic_of reads_accounts_exist reads_is_configured : reads.
Ltac solve_reads := intros; repeat first [ progress readonly | solve [auto with reads] ].

Section evaluator_supply.
Context {X : Ext} {R : Regime} {P : Packing} {N : NthElement}.

(** The fee information agrees with the state. *)
Definition fee_ok (i : fee_info) (s : database) : Prop :=
  0 ≤ core_fee_paid i ∧ 0 ≤ amount (fee_from_account i) ∧
  fee_asset i = asset_id (fee_from_account i) ∧
  (fee_asset i = CORE → core_fee_paid i = amount (fee_from_account i)) ∧
  ∃ ao, d_assets s !! fee_asset i = Some ao ∧ fee_asset_dyn_data i = as_dynamic_asset_data_id ao.

Lemma prepare_fee_spec account fee s :
  post (prepare_fee account fee) s (λ i s', s' = s ∧ fee_from_account i = fee ∧ fee_ok i s).
Proof.
  unfold prepare_fee. repeat (lazymatch goal with |- post (bind (if _ then _ else _) _) _ _ => fail | _ => dstep end).
  btrue. dstep. apply (post_mono _ _ (λ _ s', s' = s)).
  { dstep; [apply reads_authorized|by dstep]. }
  intros auth s1 ->. dstep. dstep; btrue.
  - dstep. split_and!; [done|done|]. split_and!; simpl; eauto.
  - dstep. dstep. intros from_pool Hp. dstep. dstep. dstep. split_and!; [done|done|].
    apply asset_mul_range in Hp. split_and!; simpl; [lia|done|done|done|]. eauto.
Qed.

(** [convert_fee] exchanges the fee for core from the pool of its asset. *)
Lemma convert_fee_effect ts i s :
  wf s → fee_ok i s → skip_fee ts = false →
  effect (convert_fee ts i) s
    (λ a, credit (fee_from_account i) a - core_credit (core_fee_paid i) a).
Proof.
  intros Hwf (_ & _ & Hid & Hcore & ao & Hao & Hdyn) Hskip. unfold effect, convert_fee.
  rewrite Hskip. simpl. dstep; btrue.
  - dstep. split; [done|]. intros a. rewrite (Hcore ltac:(done)). unfold core_credit, credit; simpl.
    rewrite <- Hid. rewrite H. lia.
  - rewrite Hdyn. eapply (post_dynamic _ _ _ (amount (fee_from_account i)) (- core_fee_paid i)); [done|done| |].
    { dyn_fields. }
    intros D HD HP HO. gap_leaf. rewrite Hid. destruct (fee_from_account i); simpl. credits.
Qed.

Lemma generic_pay_fee_effect ts i s :
  wf s → skip_fee ts = false → effect (generic_pay_fee ts i) s (core_credit (core_fee_paid i)).
Proof.
  intros Hwf Hskip. unfold effect, generic_pay_fee. rewrite Hskip. dstep. dstep.
  eapply post_statistics; [intros st st'; apply pay_fee_ok|]. intros S HS. gap_leaf. credits.
Qed.

(** The hard forks of the new matching engine are behind. *)
Definition modern (s : database) : Prop := HARDFORK_CORE_625_TIME < d_next_maintenance_time s.

(** What an evaluator promises: it reads the state to decide, and the three
    steps of [apply] put the fee somewhere in the database. *)
Class ConservingEvaluator {Op E F} (Ev : Evaluator Op E F) (ok : Op → Prop) : Prop := {
  ce_reads ts i op : reads (ev_do_evaluate ts i op);
  ce_apply ts i op e s :
    ok op → wf s → modern s → fee_ok i s → skip_fee ts = false →
    ev_do_evaluate ts i op s = Ok (e, s) →
    effect (do! ev_convert_fee ts i in let! f := ev_pay_fee ts i in ev_do_apply i f op e) s
           (credit (fee_from_account i));
}.

(** The fee is taken from the payer at the end: nothing is created. *)
Lemma start_evaluate_books {Op E F} {Ev : Evaluator Op E F} ts op s :
  (∀ i, reads (ev_do_evaluate ts i op)) → wf s →
  (∀ i e, fee_ok i s → ev_do_evaluate ts i op s = Ok (e, s) →
     effect (do! ev_convert_fee ts i in let! f := ev_pay_fee ts i in ev_do_apply i f op e) s
            (credit (fee_from_account i))) →
  effect (start_evaluate ts op) s (λ _, 0).
Proof.
  intros Hreads Hwf Hpaid. unfold effect, start_evaluate, evaluate. dstep. dstep.
  pcall prepare_fee_spec. intros i s1 (-> & Hfee & Hi). dstep. dstep. dstep.
  apply (post_mono _ _ (λ _ s', s' = s)).
  { dstep; [by dstep|]. dstep. dstep. intros fee _. by dstep. }
  intros enough s1 ->. dstep; [|dstep]. dstep. intros e s1 Heval. pose proof (Hreads i s e s1 Heval) as ->. dstep.
  unfold apply. simpl.
  pose proof (Hpaid i e Hi Heval) as Happly.
  intros r s' Hrun.
  apply bind_ok in Hrun as (u1 & s1 & Hc & Hrun).
  apply bind_ok in Hrun as (f & s2 & Hp & Hrun).
  apply bind_ok in Hrun as (result & s3 & Hd & Hrun).
  destruct (Happly result s3) as [Hwf3 Hg3].
  { apply bind_ok. exists u1, s1. split; [done|]. apply bind_ok. eauto. }
  revert r s' Hrun. change (post (let! neg := lift (asset_neg (fee_from_account i)) in
    do! adjust_balance (fee_payer (ev_operation op)) neg in ret result) s3
    (λ _ s', wf s' ∧ ∀ a, gap a s' = gap a s + 0)).
  dstep. dstep. intros neg Hneg. unfold asset_neg in Hneg. inv_ok. dstep.
  pcall adjust_balance_effect; [done|]. intros _ s4 [Hwf4 Hg4]. dstep. split; [done|].
  intros a. rewrite Hg4, Hg3, credit_opp, credit_eta. lia.
Qed.
Lemma start_evaluate_effect {Op E F} {Ev : Evaluator Op E F} {ok : Op → Prop}
    `{!ConservingEvaluator Ev ok} ts op s :
  ok op → wf s → modern s → skip_fee ts = false → effect (start_evaluate ts op) s (λ _, 0).
Proof.
  intros. apply start_evaluate_books; [intros; apply ce_reads|done|]. intros. by apply (ce_apply (ok := ok)).
Qed.

(** Most evaluators promise it at all times, the state of genesis included. *)
Class PlainEvaluator {Op E F} (Ev : Evaluator Op E F) : Prop := {
  pe_reads ts i op : reads (ev_do_evaluate ts i op);
  pe_apply ts i op e s :
    wf s → fee_ok i s → skip_fee ts = false →
    effect (do! ev_convert_fee ts i in let! f := ev_pay_fee ts i in ev_do_apply i f op e) s
           (credit (fee_from_account i));
}.
Lemma plain_start_effect {Op E F} {Ev : Evaluator Op E F} `{!PlainEvaluator Ev} ts op s :
  wf s → skip_fee ts = false → effect (start_evaluate ts op) s (λ _, 0).
Proof.
  intros. apply start_evaluate_books; [intros; apply pe_reads|done|]. intros. by apply pe_apply.
Qed.

(** An evaluator that does not touch the fee conserves the supply when its
    [do_apply] does. *)
Lemma plain_conserving {Op E} (wrap : Op → operation) (do_evaluate : fee_info → Op → DB E)
    (do_apply : fee_info → unit → Op → E → DB operation_result) (ok : Op → Prop) :
  (∀ i op, reads (do_evaluate i op)) →
  (∀ i op e s, ok op → wf s → effect (do_apply i tt op e) s (λ _, 0)) →
  ConservingEvaluator (plain_evaluator wrap do_evaluate do_apply) ok.
Proof.
  intros Hr Ha. split; [done|]. intros ts i op e s Hok Hwf _ Hi Hskip _. simpl.
  eapply effect_ext.
  { eapply effect_bind; [by apply convert_fee_effect|]. intros u s1 Hwf1.
    eapply effect_bind; [by apply generic_pay_fee_effect|]. intros [] s2 Hwf2. by apply Ha. }
  intros a. simpl. lia.
Qed.

Lemma plain_at_all_times {Op E} (wrap : Op → operation) (do_evaluate : fee_info → Op → DB E)
    (do_apply : fee_info → unit → Op → E → DB operation_result) :
  (∀ i op, reads (do_evaluate i op)) →
  (∀ i op e s, wf s → effect (do_apply i tt op e) s (λ _, 0)) →
  PlainEvaluator (plain_evaluator wrap do_evaluate do_apply).
Proof.
  intros Hr Ha. split; [done|]. intros ts i op e s Hwf Hi Hskip. simpl.
  eapply effect_ext.
  { eapply effect_bind; [by apply convert_fee_effect|]. intros u s1 Hwf1.
    eapply effect_bind; [by apply generic_pay_fee_effect|]. intros [] s2 Hwf2. by apply Ha. }
  intros a. simpl. lia.
Qed.

Definition always {Op} (_ : Op) : Prop := True.

#[export] Instance plain_conserves {Op E F} (Ev : Evaluator Op E F) : PlainEvaluator Ev → ConservingEvaluator Ev always.
Proof. intros H. split; [apply H|]. intros ts i op e s _ Hwf _ Hi Hskip _. by apply pe_apply. Qed.

(** Two transfers of opposite amounts. *)
Lemma move_effect {A} (k : DB A) from to x s :
  wf s → (∀ s1, wf s1 → effect k s1 (λ _, 0)) →
  effect (let! neg := lift (asset_neg x) in
          do! adjust_balance from neg in do! adjust_balance to x in k) s (λ _, 0).
Proof.
  intros Hwf Hk. unfold effect. dstep. dstep. intros neg Hneg. unfold asset_neg in Hneg. inv_ok.
  eapply effect_ext.
  { eapply effect_bind; [by apply adjust_balance_effect|]. intros u s1 Hwf1.
    eapply effect_bind; [by apply adjust_balance_effect|]. intros u' s2 Hwf2. by apply Hk. }
  intros a. simpl. rewrite credit_opp, credit_eta. lia.
Qed.

#[export] Instance transfer_conserves : PlainEvaluator transfer_evaluator.
Proof.
  apply plain_at_all_times; [unfold transfer_do_evaluate, get_balance; solve_reads|].
  intros i op e s Hwf. unfold transfer_do_apply. apply move_effect; [done|]. intros. by apply effect_ret.
Qed.

#[export] Instance override_transfer_conserves : PlainEvaluator override_transfer_evaluator.
Proof.
  apply plain_at_all_times; [unfold override_transfer_do_evaluate, get_balance; solve_reads|].
  intros i op e s Hwf. apply move_effect; [done|]. intros. by apply effect_ret.
Qed.

#[export] Instance send_message_conserves : PlainEvaluator send_message_evaluator.
Proof.
  apply plain_at_all_times; [unfold send_message_do_evaluate; solve_reads|]. intros. by apply effect_ret.
Qed.

#[export] Instance pio_conserves : PlainEvaluator pio_evaluator.
Proof.
  apply plain_at_all_times; [unfold pio_do_evaluate; solve_reads|]. intros. by apply effect_ret.
Qed.

(** ** Issuing and reserving, pools and accumulated fees

    The balance and the dynamic data of one asset change by the same amount. *)
Lemma balance_and_dynamic_effect acct x id f δ π (r : operation_result) s :
  wf s →
  (∀ d d', f d = Ok d' → dyn_net d' = dyn_net d + δ ∧ fee_pool d' = fee_pool d + π ∧ (dyn_ok d → dyn_ok d')) →
  effect (do! adjust_balance acct x in do! modify_dynamic_of id f in ret r) s
         (λ b, credit x b + credit (mk_asset δ id) b + core_credit π b).
Proof.
  intros Hwf Hf. unfold effect. dstep. apply post_adjust_balance. intros B HB. dstep.
  eapply post_dynamic_of; [wf_solve|exact Hf|]. intros D HD HP HO. dstep. gap_leaf. credits.
Qed.

Lemma dynamic_and_balance_effect acct x id f δ π (r : operation_result) s :
  wf s →
  (∀ d d', f d = Ok d' → dyn_net d' = dyn_net d + δ ∧ fee_pool d' = fee_pool d + π ∧ (dyn_ok d → dyn_ok d')) →
  effect (do! modify_dynamic_of id f in do! adjust_balance acct x in ret r) s
         (λ b, credit x b + credit (mk_asset δ id) b + core_credit π b).
Proof.
  intros Hwf Hf. unfold effect. dstep. eapply post_dynamic_of; [wf_solve|exact Hf|].
  intros D HD HP HO. dstep. apply post_adjust_balance. intros B HB. dstep. gap_leaf. credits.
Qed.


#[export] Instance asset_issue_conserves : PlainEvaluator asset_issue_evaluator.
Proof.
  apply plain_at_all_times; [unfold asset_issue_do_evaluate; solve_reads|].
  intros i op e s Hwf. eapply effect_ext.
  { apply (balance_and_dynamic_effect _ _ _ _ (- amount (ais_asset_to_issue op)) 0); [done|dyn_fields]. }
  intros a. cbv beta. rewrite credit_opp, !credit_eta. credits.
Qed.

#[export] Instance asset_reserve_conserves : PlainEvaluator asset_reserve_evaluator.
Proof.
  apply plain_at_all_times; [unfold asset_reserve_do_evaluate; solve_reads|].
  intros i op e s Hwf. unfold asset_reserve_do_apply, effect. dstep. dstep.
  intros neg Hneg. unfold asset_neg in Hneg. inv_ok. eapply effect_ext.
  { apply (balance_and_dynamic_effect _ _ _ _ (amount (ars_amount_to_reserve op)) 0); [done|dyn_fields]. }
  intros a. cbv beta. rewrite credit_opp, !credit_eta. credits.
Qed.

#[export] Instance asset_fund_fee_pool_conserves : PlainEvaluator asset_fund_fee_pool_evaluator.
Proof.
  apply plain_at_all_times; [unfold asset_fund_fee_pool_do_evaluate; solve_reads|].
  intros i op e s Hwf. unfold asset_fund_fee_pool_do_apply, effect. dstep. dstep.
  intros neg Hneg. inv_ok. eapply effect_ext.
  { apply (balance_and_dynamic_effect _ _ _ _ 0 (aff_amount op)); [done|dyn_fields]. }
  intros a. credits.
Qed.

#[export] Instance asset_claim_fees_conserves : PlainEvaluator asset_claim_fees_evaluator.
Proof.
  apply plain_at_all_times; [unfold asset_claim_fees_do_evaluate; solve_reads|].
  intros i op e s Hwf. unfold asset_claim_fees_do_apply, effect. dstep. dstep. dstep. eapply effect_ext.
  { apply (dynamic_and_balance_effect _ _ _ _ (- amount (acf_amount_to_claim op)) 0); [done|dyn_fields]. }
  intros a. cbv beta. rewrite credit_opp, !credit_eta. credits.
Qed.

(** The amount claimed from a fee pool is an amount of core. *)
#[export] Instance asset_claim_pool_conserves :
  ConservingEvaluator asset_claim_pool_evaluator (λ op, asset_id (acp_amount_to_claim op) = CORE).
Proof.
  apply plain_conserving; [unfold asset_claim_pool_do_evaluate; solve_reads|].
  intros i op e s Hcore Hwf. unfold asset_claim_pool_do_apply, effect. dstep. dstep. dstep.
  eapply effect_ext.
  { apply (dynamic_and_balance_effect _ _ _ _ 0 (- amount (acp_amount_to_claim op))); [done|dyn_fields]. }
  intros a. destruct (acp_amount_to_claim op); simpl in *; subst. credits.
Qed.

(** ** Vesting balances *)

#[export] Instance vesting_balance_create_conserves :
  PlainEvaluator vesting_balance_create_evaluator.
Proof.
  apply plain_at_all_times; [unfold vesting_balance_create_do_evaluate, get_balance; solve_reads|].
  intros i op e s Hwf. unfold vesting_balance_create_do_apply, get_balance, effect.
  do 5 dstep. dstep. intros enough _. dstep. dstep. dstep. intros neg Hneg.
  unfold asset_neg in Hneg. inv_ok. dstep. apply post_adjust_balance. intros B HB.
  dstep. dstep. dstep. gap_leaf. rewrite credit_opp, credit_eta. simpl. lia.
Qed.

Lemma vb_withdraw_credit v now x v' :
  vb_withdraw v now x = Ok v' → ∀ a, credit (vb_balance v') a = credit (vb_balance v) a - credit x a.
Proof.
  unfold vb_withdraw, asset_sub. intros H a. inv_ok. btrue. simpl.
  destruct x, (vb_balance v); simpl in *. subst. credits.
Qed.

#[export] Instance vesting_balance_withdraw_conserves :
  PlainEvaluator vesting_balance_withdraw_evaluator.
Proof.
  apply plain_at_all_times; [unfold vesting_balance_withdraw_do_evaluate; solve_reads|].
  intros i op e s Hwf. unfold vesting_balance_withdraw_do_apply, effect. dstep. dstep. dstep.
  apply post_modify. intros v v' Hv Hw. dstep. apply post_adjust_balance. intros B HB. dstep.
  gap_leaf. rewrite (vb_withdraw_credit _ _ _ _ Hw a). lia.
Qed.
End evaluator_supply.
