(* ===== verification/Frame.v ===== *)
(** * What a computation leaves alone

    Frame rules: parts of the database that a computation does not change,
    decided by its structure. Used for the next maintenance time, which says
    which rules of the market apply, the active witnesses, which bound the nesting
    of proposals, and the proposals. *)

From S2P Require Import Prelude Ext Config Asset Objects Parameters Governance Blocks Names Operations Validation Fees Ledger Database Vesting Balance Market Matching OrderBook Feeds Evaluator MarketEval AssetEval BitassetEval TransferEval Transactions Exchange Supply EvalSupply.

(** A computation that leaves a part [f] of the database alone: the next
    maintenance time, the assets. *)
Definition keeps {T A} (f : database → T) (m : DB A) : Prop :=
  ∀ s, post m s (λ _ s', f s' = f s).

Section frames.
Context {T : Type} (f : database → T).

Lemma keeps_bind {A B} (m : DB A) (k : A → DB B) :
  keeps f m → (∀ x, keeps f (k x)) → keeps f (bind m k).
Proof.
  intros Hm Hk s. apply post_bind. pcall Hm. intros x s' E. simpl. pcall Hk. intros y s'' ->. done.
Qed.
Lemma keeps_reads {A} (m : DB A) : reads m → keeps f m.
Proof. intros Hr s. pcall Hr. by intros x s' ->. Qed.
Lemma keeps_require {A} b (k : DB A) : keeps f k → keeps f (require b k).
Proof. intros Hk s. dstep. apply Hk. Qed.
Lemma keeps_put g : (∀ s, f (g s) = f s) → keeps f (put g).
Proof. intros Hf s. by dstep. Qed.
Lemma keeps_modify {V} (proj : database → gmap Z V) upd id g :
  (∀ m s, f (upd m s) = f s) → keeps f (modify_in proj upd id g).
Proof. intros Hu s. apply post_modify. intros. apply Hu. Qed.
Lemma keeps_remove {V} (proj : database → gmap Z V) upd id :
  (∀ m s, f (upd m s) = f s) → keeps f (remove_from proj upd id).
Proof. intros Hu s. apply post_remove. intros. apply Hu. Qed.
Lemma keeps_create {V} (proj : database → gmap Z V) upd next set_next ok v :
  (∀ n m s, f (set_d_next_ids (set_next n (d_next_ids s)) (upd m s)) = f s) → keeps f (create_in proj upd next set_next ok v).
Proof. intros Hu s. apply post_create. intros. apply Hu. Qed.
Lemma keeps_for_each {A} (g : A → DB unit) l : (∀ x, keeps f (g x)) → keeps f (for_each g l).
Proof.
  intros Hg. induction l as [|x l IH]; simpl; [by apply keeps_reads, reads_ret|]. by apply keeps_bind.
Qed.
Lemma keeps_adjust_balance `{Ext} acct x :
  (∀ B s, f (set_d_balances B s) = f s) → keeps f (adjust_balance acct x).
Proof. intros Hu s. apply post_adjust_balance. intros. apply Hu. Qed.
End frames.

(** A step whose effect is known and that leaves a part of the state alone. *)
Lemma effect_bind_keeps `{Ext} `{Regime} {T A B} (f : database → T) (m : DB A) (k : A → DB B) s δ1 δ2 :
  keeps f m → effect m s δ1 → (∀ x s1, wf s1 → f s1 = f s → effect (k x) s1 δ2) →
  effect (bind m k) s (λ a, δ1 a + δ2 a).
Proof.
  intros Hf Hm Hk. apply post_bind. intros x s1 Hrun. destruct (Hm _ _ Hrun) as [Hwf1 Hg1].
  pcall (Hk x s1 Hwf1 (Hf _ _ _ Hrun)). intros y s2 [Hwf2 Hg2]. split; [done|]. intros a. rewrite Hg2, Hg1. lia.
Qed.

(** Decide [keeps] by the structure of the computation; what the functions
    called keep is in the hints. *)
Create HintDb frames.
Ltac frame :=
  repeat first
    [ solve [auto with frames]
    | apply keeps_bind; [|intros ?]
    | apply keeps_require
    | apply keeps_for_each; intros ?
    | apply keeps_reads; solve [solve_reads]
    | apply keeps_adjust_balance; done
    | apply keeps_put; done | apply keeps_modify; done | apply keeps_remove; done
    | apply keeps_create; done
    | match goal with
      | |- keeps _ (let _ := _ in _) => cbv zeta
      | |- keeps _ (if ?b then _ else _) => destruct b
      | |- keeps _ (match ?x with _ => _ end) => destruct x
      end ].

(** What no operation changes: the time, the time of the next maintenance, the
    active witnesses and the parameters of the slots; and what only the operations
    on proposals change. *)
Definition epoch (s : database) : Z * Z * gset Z * (Z * Z) :=
  (d_head_block_time s, d_next_maintenance_time s, gv_active_witnesses (d_governance s),
   (cp_block_interval (d_parameters s), cp_maintenance_skip_slots (d_parameters s))).
Definition clock (s : database) : Z * Z * gset Z * (Z * Z) * gmap Z proposal_object :=
  (epoch s, d_proposals s).
Notation keeps_clock := (keeps clock).
Notation keeps_epoch := (keeps epoch).
Notation keeps_time := (keeps d_next_maintenance_time).

Lemma keeps_map {T U A} (f : database → T) (g : T → U) (m : DB A) : keeps f m → keeps (λ s, g (f s)) m.
Proof. intros Hm s. pcall Hm. intros x s' E. simpl. congruence. Qed.
Lemma clock_epoch {A} (m : DB A) : keeps_clock m → keeps_epoch m.
Proof. apply (keeps_map clock fst). Qed.
Lemma epoch_time {A} (m : DB A) : keeps_epoch m → keeps_time m.
Proof. apply (keeps_map epoch (λ e, e.1.1.2)). Qed.
Lemma clock_time {A} (m : DB A) : keeps_clock m → keeps_time m.
Proof. intros. by apply epoch_time, clock_epoch. Qed.

(** Nothing but a block changes the time of its head. *)
Notation keeps_now := (keeps d_head_block_time).
Lemma epoch_now {A} (m : DB A) : keeps_epoch m → keeps_now m.
Proof. apply (keeps_map epoch (λ e, e.1.1.1)). Qed.
Lemma clock_now {A} (m : DB A) : keeps_clock m → keeps_now m.
Proof. intros. by apply epoch_now, clock_epoch. Qed.

Section fee_frames.
Context {X : Ext} {R : Regime} {P : Packing}.
Lemma convert_fee_genesis ts i : keeps d_genesis_balances (convert_fee ts i).
Proof. unfold convert_fee. frame. Qed.
Lemma generic_pay_fee_genesis ts i : keeps d_genesis_balances (generic_pay_fee ts i).
Proof. unfold generic_pay_fee. frame. Qed.
Lemma convert_fee_clock ts i : keeps_clock (convert_fee ts i).
Proof. unfold convert_fee. frame. Qed.
Lemma generic_pay_fee_clock ts i : keeps_clock (generic_pay_fee ts i).
Proof. unfold generic_pay_fee. frame. Qed.
Lemma convert_fee_assets ts i : keeps d_assets (convert_fee ts i).
Proof. unfold convert_fee. frame. Qed.
Lemma generic_pay_fee_assets ts i : keeps d_assets (generic_pay_fee ts i).
Proof. unfold generic_pay_fee. frame. Qed.

(** The assets and the data of the market issued ones. *)
Definition asset_part (s : database) : gmap Z asset_object * gmap Z asset_bitasset_data_object :=
  (d_assets s, d_bitassets s).
Lemma convert_fee_asset_part ts i : keeps asset_part (convert_fee ts i).
Proof. unfold convert_fee. frame. Qed.
Lemma generic_pay_fee_asset_part ts i : keeps asset_part (generic_pay_fee ts i).
Proof. unfold generic_pay_fee. frame. Qed.

(** An evaluator that does not touch the fee conserves the supply when its
    [do_apply] does, which may rely on what its [do_evaluate] has found out about
    the assets. *)
Lemma checked_conserving {Op E} (wrap : Op → operation) (do_evaluate : fee_info → Op → DB E)
    (do_apply : fee_info → unit → Op → E → DB operation_result) (ok : Op → Prop)
    (checked : Op → E → gmap Z asset_object * gmap Z asset_bitasset_data_object → Prop) :
  (∀ i op, reads (do_evaluate i op)) →
  (∀ i op e s, ok op → wf s → modern s → do_evaluate i op s = Ok (e, s) → checked op e (asset_part s)) →
  (∀ i op e s, ok op → wf s → checked op e (asset_part s) → effect (do_apply i tt op e) s (λ _, 0)) →
  ConservingEvaluator (plain_evaluator wrap do_evaluate do_apply) ok.
Proof.
  intros Hr Hc Ha. split; [done|]. intros ts i op e s Hok Hwf Hmod Hi Hskip Heval. simpl in *.
  specialize (Hc i op e s Hok Hwf Hmod Heval). eapply effect_ext.
  { eapply effect_bind_keeps; [apply convert_fee_asset_part|by apply convert_fee_effect|]. intros u s1 Hwf1 E1.
    eapply effect_bind_keeps; [apply generic_pay_fee_asset_part|by apply generic_pay_fee_effect|].
    intros [] s2 Hwf2 E2. apply Ha; [done|done|]. by rewrite E2, E1. }
  intros a. simpl. lia.
Qed.
End fee_frames.
#[export] Hint Resolve convert_fee_clock generic_pay_fee_clock : frames.

(** ** The clock

    The market leaves the clock alone. *)
Section clock.
Context {X : Ext} {R : Regime} {P : Packing} {N : NthElement}.

Lemma modify_dynamic_of_clock a f : keeps_clock (modify_dynamic_of a f).
Proof. unfold modify_dynamic_of. frame. Qed.
Lemma modify_statistics_of_clock a f : keeps_clock (modify_statistics_of a f).
Proof. unfold modify_statistics_of. frame. Qed.
Lemma modify_bitasset_of_clock a f : keeps_clock (modify_bitasset_of a f).
Proof. unfold modify_bitasset_of, bitasset_id_of. frame. Qed.
Lemma push_applied_operation_clock op : keeps_clock (push_applied_operation op).
Proof. unfold push_applied_operation. frame. Qed.
Hint Resolve modify_dynamic_of_clock modify_statistics_of_clock modify_bitasset_of_clock
  push_applied_operation_clock : frames.

Lemma pay_market_fees_clock x : keeps_clock (pay_market_fees x).
Proof. unfold pay_market_fees. frame. Qed.
Lemma pay_order_clock r x y : keeps_clock (pay_order r x y).
Proof. unfold pay_order. frame. Qed.
Hint Resolve pay_market_fees_clock pay_order_clock : frames.
Lemma cancel_bid_clock id b : keeps_clock (cancel_bid id b).
Proof. unfold cancel_bid. frame. Qed.
Lemma cancel_settle_order_clock id b : keeps_clock (cancel_settle_order id b).
Proof. unfold cancel_settle_order. frame. Qed.
Lemma cancel_limit_order_clock id v b : keeps_clock (cancel_limit_order id v b).
Proof. unfold cancel_limit_order, deduct_cancel_fee. frame. Qed.
Hint Resolve cancel_bid_clock cancel_settle_order_clock cancel_limit_order_clock : frames.
Lemma maybe_cull_clock id : keeps_clock (maybe_cull_small_order id).
Proof. unfold maybe_cull_small_order. frame. Qed.
Hint Resolve maybe_cull_clock : frames.
Lemma execute_bid_clock id d c f : keeps_clock (execute_bid id d c f).
Proof. unfold execute_bid. frame. Qed.
Lemma fill_limit_order_clock id x y c p m : keeps_clock (fill_limit_order id x y c p m).
Proof. unfold fill_limit_order. frame. Qed.
Lemma fill_call_order_clock id x y p m : keeps_clock (fill_call_order id x y p m).
Proof. unfold fill_call_order. frame. Qed.
Lemma fill_settle_order_clock id x y p m : keeps_clock (fill_settle_order id x y p m).
Proof. unfold fill_settle_order. frame. Qed.
Hint Resolve execute_bid_clock fill_limit_order_clock fill_call_order_clock fill_settle_order_clock : frames.

Lemma settle_calls_clock fuel b p : ∀ itr e g, keeps_clock (settle_calls fuel b p itr e g).
Proof. induction fuel; intros; simpl; frame. Qed.
Hint Resolve settle_calls_clock : frames.
Lemma globally_settle_asset_clock mia p : keeps_clock (globally_settle_asset mia p).
Proof. unfold globally_settle_asset. frame. Qed.
Hint Resolve globally_settle_asset_clock : frames.
Lemma cancel_bids_clock fuel b : ∀ itr, keeps_clock (cancel_bids fuel b itr).
Proof. induction fuel; intros; simpl; frame. Qed.
Hint Resolve cancel_bids_clock : frames.
Lemma revive_bitasset_clock b : keeps_clock (revive_bitasset b).
Proof. unfold revive_bitasset, cancel_bids_and_revive_mpa. frame. Qed.
Lemma check_for_blackswan_clock mia b : keeps_clock (check_for_blackswan mia b).
Proof. unfold check_for_blackswan. frame. Qed.
Lemma match_limit_limit_clock x y p : keeps_clock (match_limit_limit x y p).
Proof. unfold match_limit_limit. frame. Qed.
Lemma match_limit_call_clock x y p f m : keeps_clock (match_limit_call x y p f m).
Proof. unfold match_limit_call. frame. Qed.
Lemma match_call_settle_clock x y p m f : keeps_clock (match_call_settle x y p m f).
Proof. unfold match_call_settle. frame. Qed.
Hint Resolve revive_bitasset_clock check_for_blackswan_clock match_limit_limit_clock
  match_limit_call_clock match_call_settle_clock : frames.

Lemma margin_pass_clock mia b n p e l m : keeps_clock (margin_pass mia b n p e l m).
Proof. unfold margin_pass, margin_exchange. frame. Qed.
Hint Resolve margin_pass_clock : frames.
Lemma margin_loop_clock fuel mia b n p e l : ∀ m, keeps_clock (margin_loop fuel mia b n p e l m).
Proof. induction fuel; intros; simpl; frame. Qed.
Hint Resolve margin_loop_clock : frames.
Lemma check_call_orders_clock mia b n : keeps_clock (check_call_orders mia b n).
Proof. unfold check_call_orders. frame. Qed.
Hint Resolve check_call_orders_clock : frames.
Lemma match_limits_clock fuel o c : ∀ l e, keeps_clock (match_limits fuel o c l e).
Proof. induction fuel; intros; simpl; frame. Qed.
Lemma match_calls_clock fuel o a c p f : keeps_clock (match_calls fuel o a c p f).
Proof. induction fuel; intros; simpl; frame. Qed.
Hint Resolve match_limits_clock match_calls_clock : frames.
Lemma finish_order_clock o : keeps_clock (finish_order o).
Proof. unfold finish_order. frame. Qed.
Hint Resolve finish_order_clock : frames.
Lemma apply_order_clock o : keeps_clock (apply_order o).
Proof. unfold apply_order, calls_to_check. frame. Qed.
Lemma apply_order_before_hardfork_625_clock o b : keeps_clock (apply_order_before_hardfork_625 o b).
Proof. unfold apply_order_before_hardfork_625. frame. Qed.
Hint Resolve apply_order_clock apply_order_before_hardfork_625_clock : frames.
End clock.
#[export] Hint Resolve
  modify_dynamic_of_clock modify_statistics_of_clock modify_bitasset_of_clock
  push_applied_operation_clock pay_market_fees_clock pay_order_clock cancel_bid_clock
  cancel_settle_order_clock cancel_limit_order_clock maybe_cull_clock execute_bid_clock
  fill_limit_order_clock fill_call_order_clock fill_settle_order_clock settle_calls_clock
  globally_settle_asset_clock cancel_bids_clock revive_bitasset_clock check_for_blackswan_clock
  match_limit_limit_clock match_limit_call_clock match_call_settle_clock margin_pass_clock
  margin_loop_clock check_call_orders_clock match_limits_clock match_calls_clock
  finish_order_clock apply_order_clock apply_order_before_hardfork_625_clock : frames.
