(* ===== verification/GovernanceSupply.v ===== *)
(** * The distribution of fees conserves the supply

    For Balance.v: a deposit in a vesting balance, cashback and the split of the
    fees an account has paid move core without creating or destroying any, and
    so do the operations on memberships, witnesses, committee members, workers,
    withdraw permissions and genesis balances. *)

From S2P Require Import Prelude Ext Config Asset Objects Parameters Governance Blocks Names Operations Validation Fees Ledger Authority Database Vesting Balance Evaluator AssetEval GovernanceEval WithdrawEval Exchange Supply MarketSupply EvalSupply Frame.

Section fee_supply.
Context {X : Ext} {R : Regime} {P : Packing}.

(** ** Vesting deposits *)

Lemma vb_deposit_credit v now x v' :
  vb_deposit v now x = Ok v' → ∀ a, credit (vb_balance v') a = credit (vb_balance v) a + credit x a.
Proof.
  unfold vb_deposit, asset_add. intros H a. inv_ok. btrue. simpl.
  destruct x, (vb_balance v); simpl in *. subst. credits.
Qed.

Lemma vb_deposit_vested_credit v now x v' :
  vb_deposit_vested v now x = Ok v' → ∀ a, credit (vb_balance v') a = credit (vb_balance v) a + credit x a.
Proof.
  unfold vb_deposit_vested, asset_add. intros H a. inv_ok. btrue. simpl.
  destruct x, (vb_balance v); simpl in *. subst. credits.
Qed.

Lemma deposit_lazy_vesting_effect ovbid x seconds owner vest s :
  wf s → effect (deposit_lazy_vesting ovbid x seconds owner vest) s (core_credit x).
Proof.
  intros Hwf. unfold effect, deposit_lazy_vesting. dstep; btrue.
  - dstep. split; [done|]. intros a. unfold core_credit. rewrite credit_zero by done. lia.
  - dstep. dstep. dstep. apply (post_mono _ _ (λ _ s', s' = s)).
    { destruct ovbid; [|by dstep]. dstep. dstep. by dstep. }
    intros reuse s1 ->. destruct reuse as [vbid|].
    + dstep. apply post_modify. intros v v' Hv Hd. dstep. gap_leaf.
      assert (credit (vb_balance v') a = credit (vb_balance v) a + core_credit x a) as ->.
      { destruct vest; [by apply (vb_deposit_credit _ _ _ _ Hd)|by apply (vb_deposit_vested_credit _ _ _ _ Hd)]. }
      lia.
    + dstep. dstep. dstep. gap_leaf. simpl. unfold core_credit. lia.
Qed.

(** ** Cashback *)

Lemma modify_account_effect id f s : wf s → effect (modify_account id f) s (λ _, 0).
Proof. intros Hwf. unfold effect. dstep. gap_leaf. lia. Qed.

Lemma deposit_cashback_effect acct x vest s :
  wf s → effect (deposit_cashback acct x vest) s (core_credit x).
Proof.
  intros Hwf. unfold effect, deposit_cashback. dstep. dstep. dstep; btrue.
  { dstep. split; [done|]. intros a. unfold core_credit. rewrite credit_zero by done. lia. }
  dstep.
  - eapply (post_dynamic_of _ _ x 0); [done|dyn_fields|]. intros D HD HP HO. gap_leaf. unfold core_credit. lia.
  - dstep. dstep. eapply effect_ext.
    { eapply effect_bind; [by apply deposit_lazy_vesting_effect|]. intros new s1 Hwf1.
      apply (effect_ext _ _ (λ _, 0)); [|done]. destruct new; [|by apply effect_ret].
      unfold effect. dstep. dstep. eapply (post_statistics_of _ _ 0); [intros st st' Hst; inv_ok; unfold st_pending; simpl; lia|].
      intros S HS. gap_leaf. credits. }
    intros a. simpl. lia.
Qed.

(** ** The fees of an account *)

Lemma pay_out_fees_effect acct total vest s :
  wf s → effect (pay_out_fees acct total vest) s (core_credit total).
Proof.
  intros Hwf. unfold pay_out_fees. eread. eread. eread. eapply effect_ext.
  { eapply (effect_bind _ _ _ (λ _, 0) (core_credit total)).
    { destruct (is_basic_account _ _); [by apply modify_account_effect|by apply effect_ret]. }
    intros u s1 Hwf1. eread. apply effect_read. dstep. intros r Hr. split; [done|].
    apply effect_read. dstep. intros referral Href. split; [done|]. eapply effect_ext.
    { apply (effect_bind _ _ _ (core_credit (cut_fee total (ac_network_fee_percentage v1)))
        (core_credit (total - cut_fee total (ac_network_fee_percentage v1)))).
      { unfold effect. eapply (post_dynamic_of _ _ (cut_fee total (ac_network_fee_percentage v1)) 0); [done|dyn_fields|]. intros D HD HP HO. gap_leaf. unfold core_credit. simpl. lia. }
      intros u2 s2 Hwf2. apply effect_read. dstep. intros registrar_cut Hreg. split; [done|].
      eapply effect_ext.
      { eapply effect_bind; [by apply deposit_cashback_effect|]. intros u3 s3 Hwf3.
        eapply effect_bind; [by apply deposit_cashback_effect|]. intros u4 s4 Hwf4.
        by apply deposit_cashback_effect. }
      intros a. inv_ok. credits. }
    intros a. credits. }
  intros a. credits.
Qed.

(** The pending fees of an account while fees are paid out. *)
Notation keeps_pending stats := (keeps (λ s, st_pending_fees <$> d_statistics s !! stats)).
Notation keeps_pending_vested stats := (keeps (λ s, st_pending_vested_fees <$> d_statistics s !! stats)).

Lemma keeps_statistics {T} (field : account_statistics_object → T) stats id f :
  (∀ st st', f st = Ok st' → field st' = field st) →
  keeps (λ s, field <$> d_statistics s !! stats) (modify_statistics id f).
Proof.
  intros Hf s. apply post_modify. intros st st' Hst Hrun. simpl.
  destruct (decide (id = stats)) as [->|Hne]; [|by rewrite lookup_insert_ne].
  rewrite lookup_insert_eq, Hst. simpl. by rewrite (Hf _ _ Hrun).
Qed.

Lemma pay_out_fees_keeps {T} (field : account_statistics_object → T) stats acct total vest :
  (∀ st, field (set_st_has_cashback_vb true st) = field st) →
  keeps (λ s, field <$> d_statistics s !! stats) (pay_out_fees acct total vest).
Proof.
  intros Hf. assert (∀ a x v, keeps (λ s, field <$> d_statistics s !! stats) (deposit_cashback a x v)) as Hd.
  { intros a x v. unfold deposit_cashback, modify_statistics_of, modify_dynamic_of, deposit_lazy_vesting. frame.
    apply keeps_statistics. intros st st' H. inv_ok. apply Hf. }
  unfold pay_out_fees, modify_dynamic_of. frame; apply Hd.
Qed.

Lemma process_fees_effect stats acct s : wf s → effect (process_fees stats acct) s (λ _, 0).
Proof.
  intros Hwf. unfold process_fees. eread. destruct (has_pending_fees v) eqn:E; [|by apply effect_ret].
  unfold effect. dstep. intros u s1 Hrun1. destruct (pay_out_fees_effect _ _ _ s Hwf _ _ Hrun1) as [Hwf1 Hg1].
  pose proof (pay_out_fees_keeps st_pending_fees stats _ _ _ (λ _, eq_refl) s _ _ Hrun1) as Hp1.
  pose proof (pay_out_fees_keeps st_pending_vested_fees stats _ _ _ (λ _, eq_refl) s _ _ Hrun1) as Hv1.
  dstep. intros u' s2 Hrun2. destruct (pay_out_fees_effect _ _ _ s1 Hwf1 _ _ Hrun2) as [Hwf2 Hg2].
  pose proof (pay_out_fees_keeps st_pending_fees stats _ _ _ (λ _, eq_refl) s1 _ _ Hrun2) as Hp2.
  pose proof (pay_out_fees_keeps st_pending_vested_fees stats _ _ _ (λ _, eq_refl) s1 _ _ Hrun2) as Hv2.
  simpl in *. dstep. simplify_option_eq. inv_ok. same_entries. split; [wf_solve|]. intros a.
  transitivity (gap a s2 - core_credit (st_pending v) a).
  2: { rewrite Hg2, Hg1. unfold st_pending. credits. }
  rewrite !gap_eq. simpl. unfold pending_of. erewrite msum_insert_some by eassumption. unfold st_pending. simpl. credits.
Qed.
End fee_supply.

(** * Memberships, permissions and genesis balances conserve the supply

    The instances of [ConservingEvaluator] for GovernanceEval.v and
    WithdrawEval.v, and that their operations leave the clock alone. *)

Section governance_supply.
Context {X : Ext} {R : Regime} {P : Packing}.

#[export] Instance account_whitelist_conserves : PlainEvaluator account_whitelist_evaluator.
Proof.
  apply plain_at_all_times; [unfold account_whitelist_do_evaluate; solve_reads|].
  intros i op e s Hwf. unfold account_whitelist_do_apply. no_effect.
Qed.

#[export] Instance account_upgrade_conserves : PlainEvaluator account_upgrade_evaluator.
Proof.
  apply plain_at_all_times; [unfold account_upgrade_do_evaluate; solve_reads|].
  intros i op e s Hwf. unfold account_upgrade_do_apply. eread. eread. apply (effect_ext _ _ (λ a, 0 + 0)); [|done].
  assert (∀ k, effect (do! process_fees (ac_statistics v) (agr_account_to_upgrade op) in
                       modify_account (agr_account_to_upgrade op) k) s (λ _, 0)) as Hfees.
  { intros k. apply (effect_ext _ _ (λ a, 0 + 0)); [|done].
    apply effect_bind; [by apply process_fees_effect|]. intros. by apply modify_account_effect. }
  apply effect_bind; [|intros; by apply effect_ret].
  destruct (agr_upgrade_to_lifetime_member op); [apply Hfees|].
  destruct (is_annual_member _ _); unfold effect; dstep; [dstep; by apply modify_account_effect|apply Hfees].
Qed.

#[export] Instance witness_create_conserves : PlainEvaluator witness_create_evaluator.
Proof.
  apply plain_at_all_times; [unfold witness_create_do_evaluate; solve_reads|].
  intros i op e s Hwf. unfold witness_create_do_apply, get_next_vote_id. no_effect.
Qed.

#[export] Instance witness_update_conserves : PlainEvaluator witness_update_evaluator.
Proof.
  apply plain_at_all_times; [unfold witness_update_do_evaluate; solve_reads|].
  intros i op e s Hwf. unfold witness_update_do_apply. no_effect.
Qed.

#[export] Instance committee_member_create_conserves : PlainEvaluator committee_member_create_evaluator.
Proof.
  apply plain_at_all_times; [unfold committee_member_create_do_evaluate; solve_reads|].
  intros i op e s Hwf. unfold committee_member_create_do_apply, get_next_vote_id. no_effect.
Qed.

#[export] Instance committee_member_update_conserves : PlainEvaluator committee_member_update_evaluator.
Proof.
  apply plain_at_all_times; [unfold committee_member_update_do_evaluate; solve_reads|].
  intros i op e s Hwf. unfold committee_member_update_do_apply. no_effect.
Qed.

#[export] Instance update_global_parameters_conserves : ConservingEvaluator update_global_parameters_evaluator always.
Proof.
  split; [simpl; unfold update_global_parameters_do_evaluate; solve_reads|].
  intros ts i op e s Hok Hwf Hmod Hi Hskip _. simpl. eapply effect_ext.
  { eapply effect_bind; [by apply convert_fee_effect|]. intros u s1 Hwf1.
    eapply effect_bind; [by apply generic_pay_fee_effect|]. intros u' s2 Hwf2.
    apply (effect_ext _ _ (λ _, 0)); [|done]. unfold update_global_parameters_do_apply. no_effect. }
  intros a. simpl. lia.
Qed.

#[export] Instance worker_create_conserves : PlainEvaluator worker_create_evaluator.
Proof.
  apply plain_at_all_times; [unfold worker_create_do_evaluate; solve_reads|].
  intros i op e s Hwf. unfold worker_create_do_apply, get_next_vote_id, worker_init.
  destruct (wkc_initializer op); unfold effect; repeat dstep; gap_leaf; try lia.
  simpl. rewrite credit_zero by done. lia.
Qed.

#[export] Instance withdraw_permission_create_conserves :
  PlainEvaluator withdraw_permission_create_evaluator.
Proof.
  apply plain_at_all_times; [unfold withdraw_permission_create_do_evaluate, exists_in; solve_reads|].
  intros i op e s Hwf. unfold withdraw_permission_create_do_apply. no_effect.
Qed.

#[export] Instance withdraw_permission_update_conserves :
  PlainEvaluator withdraw_permission_update_evaluator.
Proof.
  apply plain_at_all_times; [unfold withdraw_permission_update_do_evaluate, exists_in; solve_reads|].
  intros i op e s Hwf. unfold withdraw_permission_update_do_apply. no_effect.
Qed.

#[export] Instance withdraw_permission_delete_conserves :
  PlainEvaluator withdraw_permission_delete_evaluator.
Proof.
  apply plain_at_all_times; [unfold withdraw_permission_delete_do_evaluate; solve_reads|].
  intros i op e s Hwf. unfold withdraw_permission_delete_do_apply. no_effect.
Qed.

#[export] Instance withdraw_permission_claim_conserves :
  PlainEvaluator withdraw_permission_claim_evaluator.
Proof.
  apply plain_at_all_times; [unfold withdraw_permission_claim_do_evaluate, get_balance; solve_reads|].
  intros i op e s Hwf. unfold withdraw_permission_claim_do_apply. eread.
  apply (effect_ext _ _ (λ a, 0 + 0)); [|done]. apply effect_bind.
  { unfold effect. dstep. gap_leaf. lia. }
  intros u s1 Hwf1. apply move_effect; [done|]. intros. by apply effect_ret.
Qed.

(** What a linear policy allows is at most the balance. *)
Lemma linear_allowed_le p ctx allowed :
  0 ≤ lv_begin_balance p ≤ GRAPHENE_MAX_SHARE_SUPPLY → 0 ≤ lv_vesting_duration_seconds p < 2 ^ 32 →
  linear_get_allowed_withdraw p ctx = Ok allowed →
  asset_id allowed = asset_id (ctx_balance ctx) ∧ amount allowed ≤ Z.max 0 (amount (ctx_balance ctx)).
Proof.
  intros Hb Hd. unfold linear_get_allowed_withdraw. intros H. inv_ok. split; [done|]. simpl.
  destruct (Z.ltb_spec (lv_begin_timestamp p) (ctx_now ctx)); [|inv_ok; lia].
  destruct (lv_vesting_cliff_seconds p <=? _); [|inv_ok; lia]. inv_ok.
  destruct (Z.ltb_spec (ctx_now ctx - lv_begin_timestamp p) (lv_vesting_duration_seconds p)); [|lia].
  unfold GRAPHENE_MAX_SHARE_SUPPLY in Hb. rewrite (fc_u128_small (lv_begin_balance p)) by lia.
  assert (lv_begin_balance p * (ctx_now ctx - lv_begin_timestamp p) ≤ 1000000000000000 * 2 ^ 32) by nia.
  rewrite fc_u128_small by nia.
  assert (0 ≤ lv_begin_balance p * (ctx_now ctx - lv_begin_timestamp p) / lv_vesting_duration_seconds p ≤ lv_begin_balance p).
  { split; [apply Z.div_pos; nia|]. apply Z.div_le_upper_bound; nia. }
  rewrite to_uint64_small by lia. lia.
Qed.

(** The amount claimed leaves the genesis balance: part of it, or all. *)
Lemma balance_claim_takes {K : KeyAddresses} i op s b :
  wf s → d_genesis_balances s !! bcl_balance_to_claim op = Some b → balance_claim_do_evaluate i op s = Ok (tt, s) →
  asset_id (bcl_total_claimed op) = asset_id (ba_balance b) ∧
  (amount (bcl_total_claimed op) < amount (ba_balance b) ∧ is_vesting_balance b = true ∨
   bcl_total_claimed op = ba_balance b).
Proof.
  intros Hwf Hb. destruct (wf_genesis s Hwf _ _ Hb) as [Hpos Hg].
  apply (post_use _ _ (λ _ _, _)). unfold balance_claim_do_evaluate. dstep. dstep.
  same_entries. dstep. dstep. btrue. unfold ba_asset_type, is_vesting_balance in *.
  destruct (ba_vesting_policy b) as [p|] eqn:Ep.
  - dstep. dstep. dstep. dstep. intros allowed Hall. dstep. dstep. dstep. subst. split; [done|].
    destruct (Hg p eq_refl) as [Hp1 Hp2]. unfold linear_is_withdraw_allowed in Hall. simpl in Hall.
    case_match; [|inv_ok; done]. apply rbind_ok in Hall as (x & Hx & Hall).
    apply (linear_allowed_le _ _ _ Hp1 Hp2) in Hx as [Hxid Hxle]. simpl in *. unfold asset_le, asset_lt in Hall. inv_ok. btrue.
    destruct (Z.ltb_spec (amount (bcl_total_claimed op)) (amount (ba_balance b))) as [Hlt|Hge]; [left|right].
    + done.
    + destruct (bcl_total_claimed op), (ba_balance b). simpl in *. f_equal; [lia|done].
  - dstep. dstep. split; [done|right]. unfold asset_eqb in *. btrue.
    destruct (bcl_total_claimed op), (ba_balance b). simpl in *. by subst.
Qed.

#[export] Instance balance_claim_conserves {K : KeyAddresses} : ConservingEvaluator balance_claim_evaluator always.
Proof.
  split; [simpl; unfold balance_claim_do_evaluate; solve_reads|].
  intros ts i op [] s _ Hwf Hmod Hi Hskip Heval. simpl in Heval. simpl.
  assert (∃ b, d_genesis_balances s !! bcl_balance_to_claim op = Some b) as [b Hb].
  { destruct (d_genesis_balances s !! bcl_balance_to_claim op) as [b|] eqn:E; [by eexists|].
    unfold balance_claim_do_evaluate, bind, get_genesis_balance, get_from in Heval. by rewrite E in Heval. }
  destruct (balance_claim_takes i op s b Hwf Hb Heval) as [Hid Htakes].
  apply (effect_ext _ _ (λ a, (credit (fee_from_account i) a - core_credit (core_fee_paid i) a)
                               + (core_credit (core_fee_paid i) a + 0))); [|intros a; lia].
  eapply effect_bind_keeps; [apply convert_fee_genesis|by apply convert_fee_effect|]. intros u s1 Hwf1 E1.
  eapply effect_bind_keeps; [apply generic_pay_fee_genesis|by apply generic_pay_fee_effect|]. intros [] s2 Hwf2 E2.
  rewrite <- E1, <- E2 in Hb. clear E1 E2. unfold effect, balance_claim_do_apply. dstep. dstep. same_entries. dstep. dstep.
  dstep. eapply (post_mono _ _ (λ partly s', s' = s2 ∧ partly = is_vesting_balance b && (amount (bcl_total_claimed op) <? amount (ba_balance b)))).
  { destruct (is_vesting_balance b); [|by dstep]. dstep. intros partly Hp. unfold asset_lt in Hp. by inv_ok. }
  intros partly s' [-> ->]. dstep. dstep; btrue.
  - destruct (wf_genesis s2 Hwf2 _ _ Hb) as [Hpos Hg]. dstep. dstep. apply post_adjust_balance. intros B HB. dstep.
    unfold asset_sub in *. same_entries. inv_ok. btrue. split.
    + wf_solve. split; [simpl; lia|done].
    + intros a. rewrite !gap_eq; simpl; use_parts; sums. simpl.
      destruct (bcl_total_claimed op), (ba_balance b). simpl in *. subst. credits.
  - destruct Htakes as [[Hlt Hv]|Heq].
    { apply andb_false_iff in H as [H|H%Z.ltb_ge]; [by rewrite Hv in H|lia]. }
    dstep. dstep. apply post_adjust_balance. intros B HB. dstep. gap_leaf. rewrite Heq. lia.
Qed.

(** ** The clock *)

Lemma process_fees_clock stats acct : keeps_clock (process_fees stats acct).
Proof. unfold process_fees, pay_out_fees, deposit_cashback, deposit_lazy_vesting. frame. Qed.
Hint Resolve process_fees_clock : frames.
Lemma account_upgrade_clock i f o e : keeps_clock (account_upgrade_do_apply i f o e).
Proof. unfold account_upgrade_do_apply. frame. Qed.
Lemma get_next_vote_id_clock t : keeps_clock (get_next_vote_id t).
Proof. unfold get_next_vote_id, get_gov, put_gov. frame. Qed.
Lemma worker_init_clock o i : keeps_clock (worker_init o i).
Proof. unfold worker_init. frame. Qed.
End governance_supply.
#[export] Hint Resolve process_fees_clock account_upgrade_clock get_next_vote_id_clock worker_init_clock : frames.
