(* ===== verification/OperationSupply.v ===== *)
(** * Orders, settlements and assets: their operations conserve the supply

    The remaining instances of [ConservingEvaluator], and the theorem on a
    whole transaction. *)

From S2P Require Import Prelude Ext Config Asset Objects Parameters Governance Blocks Names Operations Validation Fees Ledger Database Vesting Balance Market Matching OrderBook Feeds Evaluator MarketEval AssetEval BitassetEval TransferEval Transactions Exchange Supply MarketSupply MatchSupply EvalSupply Frame.

Section operation_supply.
Context {X : Ext} {R : Regime} {P : Packing} {N : NthElement}.

(** ** Bids *)

(** Either a bid is cancelled, or debt and collateral are amounts. *)
Definition bid_amounts_ok (op : bid_collateral_operation) : Prop :=
  amount (bc_debt_covered op) = 0 ∨
  0 < amount (bc_debt_covered op) ≤ int64_max ∧ 0 < amount (bc_additional_collateral op) ≤ int64_max.

#[export] Instance bid_collateral_conserves : ConservingEvaluator bid_collateral_evaluator bid_amounts_ok.
Proof.
  apply plain_conserving; [unfold bid_collateral_do_evaluate, get_balance; solve_reads|].
  intros i op e s Hop Hwf. apply after_none.
  { destruct e; [by apply cancel_bid_effect|by apply effect_ret]. }
  intros u s1 Hwf1. unfold effect. dstep; [by apply effect_ret|]. btrue. destruct Hop as [|[Hdebt Hcol]]; [done|].
  dstep. dstep. intros neg Hneg.
  unfold asset_neg in Hneg. inv_ok. dstep. apply post_adjust_balance. intros B HB. dstep. dstep.
  intros swan Hswan. unfold asset_div in Hswan. inv_ok. dstep. dstep. dstep. gap_leaf.
  { split; simpl; lia. }
  simpl. rewrite credit_opp, credit_eta. lia.
Qed.

(** ** Limit orders *)

(** A step whose effect is known and that leaves the clock alone. *)
Lemma effect_bind_time {A B} (m : DB A) (k : A → DB B) s δ1 δ2 :
  modern s → keeps_time m → effect m s δ1 →
  (∀ x s1, wf s1 → modern s1 → effect (k x) s1 δ2) →
  effect (bind m k) s (λ a, δ1 a + δ2 a).
Proof.
  intros Hmod Hclk Hm Hk. eapply effect_bind_keeps; [done|done|]. intros x s1 Hwf1 Ht. apply Hk; [done|].
  unfold modern in *. congruence.
Qed.
Lemma effect_bind_clock {A B} (m : DB A) (k : A → DB B) s δ1 δ2 :
  modern s → keeps_clock m → effect m s δ1 →
  (∀ x s1, wf s1 → modern s1 → effect (k x) s1 δ2) →
  effect (bind m k) s (λ a, δ1 a + δ2 a).
Proof. intros. by apply effect_bind_time; [|apply clock_time|..]. Qed.

Lemma modern_hardforks s : modern s →
  (d_next_maintenance_time s <=? HARDFORK_CORE_606_TIME) = false ∧
  (d_next_maintenance_time s <=? HARDFORK_CORE_625_TIME) = false.
Proof.
  unfold modern, HARDFORK_CORE_606_TIME, HARDFORK_CORE_625_TIME.
  split; apply Z.leb_gt; lia.
Qed.

#[export] Instance limit_order_cancel_conserves : ConservingEvaluator limit_order_cancel_evaluator always.
Proof.
  split; [unfold limit_order_cancel_do_evaluate; simpl; unfold limit_order_cancel_do_evaluate; solve_reads|].
  intros ts i op e s _ Hwf Hmod Hi Hskip _. simpl. eapply effect_ext.
  { eapply effect_bind_clock; [done|apply convert_fee_clock|by apply convert_fee_effect|].
    intros u s1 Hwf1 Hmod1.
    eapply effect_bind_clock; [done|apply generic_pay_fee_clock|by apply generic_pay_fee_effect|].
    intros u' s2 Hwf2 Hmod2. unfold limit_order_cancel_do_apply. apply effect_read. dstep. split; [done|].
    eapply effect_bind_clock; [done|apply cancel_limit_order_clock|by apply cancel_limit_order_effect|].
    intros u3 s3 Hwf3 Hmod3. apply effect_read. dstep. split; [done|].
    destruct (modern_hardforks s3 Hmod3) as [-> _].
    apply after_none; [by apply effect_ret|]. intros. by apply effect_ret. }
  intros a. simpl. lia.
Qed.

Lemma hardfork_445_604 : HARDFORK_445_TIME ≤ HARDFORK_CORE_604_TIME.
Proof. done. Qed.

(** The fee of a new order: what its issuer gets now, and what the order
    carries until it is filled or cancelled. *)
Definition fee_now (i : fee_info) (s : database) : Z :=
  if (d_head_block_time s <=? HARDFORK_CORE_604_TIME) && negb (fee_asset i =? CORE)
  then amount (fee_from_account i) else 0.
Definition pool_share (i : fee_info) : Z := if fee_asset i =? CORE then 0 else core_fee_paid i.

Lemma limit_order_convert_fee_spec ts i s (Q : unit → database → Prop) :
  wf s → fee_ok i s → skip_fee ts = false →
  (∀ D, (∀ b, dyn_field dyn_net b (d_assets s) D = dyn_field dyn_net b (d_assets s) (d_dynamic s)
             + credit (mk_asset (fee_now i s) (fee_asset i)) b) →
        pools_of D = pools_of (d_dynamic s) + - pool_share i → map_Forall (λ _, dyn_ok) D →
        Q tt (set_d_dynamic D s)) →
  post (limit_order_convert_fee ts i) s Q.
Proof.
  intros Hwf (_ & _ & Hid & Hcore & ao & Hao & Hdyn) Hskip HQ.
  unfold limit_order_convert_fee, convert_fee. rewrite Hskip; simpl. dstep. dstep.
  unfold fee_now, pool_share in HQ. dstep.
  - rewrite H in HQ; simpl in HQ. dstep; rewrite H0 in HQ; simpl in HQ.
    + dstep. by apply (same_dynamic Q s (fee_asset i) Hwf).
    + rewrite Hdyn. eapply post_dynamic; [done|exact Hao| |exact HQ]. dyn_fields.
  - rewrite H in HQ; simpl in HQ. dstep; rewrite H0 in HQ; simpl in HQ.
    + dstep. by apply (same_dynamic Q s (fee_asset i) Hwf).
    + rewrite Hdyn. eapply post_dynamic; [done|exact Hao| |exact HQ]. dyn_fields.
Qed.

Lemma limit_order_pay_fee_spec ts i s (Q : Z * asset → database → Prop) :
  fee_ok i s → skip_fee ts = false →
  (∀ S p f, pending_of S = pending_of (d_statistics s) + p → p + f.1 = core_fee_paid i →
     0 ≤ f.1 → 0 ≤ amount f.2 →
     (∀ a, credit (f.2) a + credit (mk_asset (fee_now i s) (fee_asset i)) a =
           if fee_asset i =? CORE then 0 else credit (fee_from_account i) a) →
     Q f (set_d_statistics S s)) →
  post (limit_order_pay_fee ts i) s Q.
Proof.
  intros (Hc & Hf & Hid & _) Hskip HQ. unfold limit_order_pay_fee, generic_pay_fee. rewrite Hskip.
  unfold fee_now in HQ. dstep. dstep. dstep; btrue.
  - dstep. dstep. dstep. eapply post_statistics; [intros st st'; apply pay_fee_ok|].
    intros S HS. dstep. apply (HQ S (core_fee_paid i)); simpl; try lia.
    intros a. assert (d_head_block_time s ≤ HARDFORK_CORE_604_TIME) as Hle
      by (pose proof hardfork_445_604; lia).
    rewrite (proj2 (Z.leb_le _ _) Hle), Hid.
    destruct (fee_from_account i); simpl. destruct (Z.eqb_spec asset_id CORE); simpl; credits.
  - dstep. assert (set_d_statistics (d_statistics s) s = s) as E by (by destruct s).
    match goal with |- Q ?f s => pose proof (HQ (d_statistics s) 0 f) as HQ' end.
    rewrite E in HQ'. apply HQ'; simpl; try lia.
    { case_match; simpl; lia. }
    intros a. rewrite (Z.leb_antisym HARDFORK_CORE_604_TIME). rewrite Hid.
    destruct (HARDFORK_CORE_604_TIME <? d_head_block_time s); destruct (fee_from_account i); simpl;
      destruct (Z.eqb_spec asset_id CORE); simpl; credits.
Qed.

Lemma limit_order_create_do_apply_effect i f op u s :
  wf s → modern s → 0 ≤ f.1 → 0 ≤ amount f.2 →
  effect (limit_order_create_do_apply i f op u) s (λ a, core_credit f.1 a + credit f.2 a).
Proof.
  intros Hwf Hmod Hf1 Hf2. unfold effect, limit_order_create_do_apply.
  dstep. apply (post_statistics_of _ _ 0).
  { intros st st' H. destruct (_ =? _); inv_ok; unfold st_pending; simpl; lia. }
  intros S HS. dstep. dstep. intros neg Hneg. unfold asset_neg in Hneg. inv_ok.
  dstep. apply post_adjust_balance_paid. intros B HB Hsale. dstep. dstep. intros p Hp.
  unfold loc_get_price, asset_div in Hp. inv_ok. dstep. dstep. simpl in *.
  match goal with |- post _ ?s1 _ => assert (wf s1 ∧ ∀ a, gap a s1 = gap a s + (core_credit f.1 a + credit f.2 a)) as [Hwf1 Hg1] end.
  { gap_leaf.
    { split_and!; simpl in *; [unfold in64, int64_max in *; lia|done|done]. }
    unfold limit_credit, lo_amount_for_sale. simpl.
    rewrite credit_opp, !credit_eta. lia. }
  dstep. dstep. simpl. destruct (modern_hardforks s Hmod) as [_ Hold]. rewrite Hold. dstep.
  pcall apply_order_effect; [done|]. intros filled s2 [Hwf2 Hg2]. dstep. dstep. split; [done|].
  intros a. rewrite Hg2, Hg1. lia.
Qed.

#[export] Instance limit_order_create_conserves :
  ConservingEvaluator limit_order_create_evaluator always.
Proof.
  split.
  { unfold limit_order_create_evaluator; simpl. unfold limit_order_create_do_evaluate, get_balance. solve_reads. }
  intros ts i op e s _ Hwf Hmod Hi Hskip _. simpl. unfold effect. dstep.
  apply limit_order_convert_fee_spec; [done..|]. intros D HD HP HO. dstep.
  apply limit_order_pay_fee_spec; [done..|]. intros S p f HS Hp Hf1 Hf2 Hf. simpl in *.
  match goal with |- post _ ?s1 _ => assert (wf s1) as Hwf1 by wf_solve end.
  pcall limit_order_create_do_apply_effect; [done|done|done|done|].
  intros r s2 [Hwf2 Hg2]. split; [done|]. intros a. rewrite Hg2, !gap_eq; simpl. use_parts. clear Hg2.
  assert (fee_now i (set_d_dynamic D s) = fee_now i s) as E by done. rewrite E in Hf. specialize (Hf a).
  destruct Hi as (_ & _ & Hid & Hcore & _). unfold pool_share.
  destruct (Z.eqb_spec (fee_asset i) CORE) as [Hc|Hc].
  - rewrite <- Hp in Hcore. specialize (Hcore Hc).
    assert (credit (fee_from_account i) a = core_credit (p + f.1) a) as Hfee.
    { rewrite Hcore. unfold core_credit, credit; simpl. by rewrite <- Hid, Hc. }
    rewrite Hfee. generalize dependent (credit f.2 a). intros c Hcred.
    generalize dependent (credit (mk_asset (fee_now i s) (fee_asset i)) a). intros c' Hcred.
    unfold core_credit, credit; simpl. destruct (CORE =? a); lia.
  - generalize dependent (credit f.2 a). intros c Hcred.
    generalize dependent (credit (mk_asset (fee_now i s) (fee_asset i)) a). intros c' Hcred.
    generalize dependent (credit (fee_from_account i) a). intros c'' Hcred.
    unfold core_credit, credit; simpl. destruct (CORE =? a); lia.
Qed.

(** ** Global settlement by the issuer *)

#[export] Instance asset_global_settle_conserves :
  ConservingEvaluator asset_global_settle_evaluator
    (λ op, ags_asset_to_settle op = asset_id (base (ags_settle_price op))).
Proof.
  apply plain_conserving; [unfold asset_global_settle_do_evaluate; solve_reads|].
  intros i op e s Hid Hwf. unfold asset_global_settle_do_apply. apply effect_read. dstep. split; [done|].
  apply after_none; [by apply globally_settle_asset_effect; [|right]|]. intros. by apply effect_ret.
Qed.

(** ** Updating an asset *)

Lemma cancel_settlements_effect fuel a : ∀ s, wf s → effect (cancel_settlements fuel a) s (λ _, 0).
Proof.
  induction fuel as [|fuel IH]; intros s Hwf; simpl; unfold effect; [dstep|]. dstep. dstep.
  destruct (settlement_lower_bound a s) as [id|]; [|by apply effect_ret]. dstep. dstep.
  dstep; [|by apply effect_ret]. apply after_none; [by apply cancel_settle_order_effect|]. auto.
Qed.

Lemma modify_asset_effect a f s :
  wf s → (∀ ao ao', d_assets s !! a = Some ao → f ao = Ok ao' → same_refs ao ao' ∧ fee_options_ok ao') →
  effect (modify_asset a f) s (λ _, 0).
Proof.
  intros Hwf Hf. apply post_modify. intros ao ao' Ha Hao. destruct (Hf _ _ Ha Hao) as [Hrefs Hopt].
  split; [by eapply wf_set_asset|]. intros b. rewrite !gap_eq; simpl.
  rewrite (dyn_field_same_refs _ _ _ _ _ _ _ Ha Hrefs). lia.
Qed.

(** An update of bitasset data that keeps the fund, and the backing asset where
    positions are updated. *)
Definition same_backing (bd bd' : asset_bitasset_data_object) : Prop :=
  positions_updated = true → bo_short_backing_asset (bd_options bd') = bo_short_backing_asset (bd_options bd).
Lemma modify_bitasset_effect b f s :
  wf s →
  (∀ bd bd', d_bitassets s !! b = Some bd → f bd = Ok bd' →
     bd_asset_id bd' = bd_asset_id bd ∧ bitasset_ok bd' ∧ feeds_ok bd' ∧
     (∀ a, fund_credit bd' a = fund_credit bd a) ∧ same_backing bd bd') →
  effect (modify_bitasset b f) s (λ _, 0).
Proof.
  intros Hwf Hf. apply post_modify. intros bd bd' Hbd Hbd'.
  destruct (Hf bd bd' Hbd Hbd') as (Hid & Hok & Hfeeds & Hfund & Hback). split.
  - apply mk_wf; simpl; try apply Hwf.
    + by apply map_Forall_insert_2; [|apply Hwf].
    + by apply map_Forall_insert_2; [|apply Hwf].
    + by eapply back_refs_insert; [apply Hwf|done|].
    + by eapply owned_insert; [apply Hwf|done|].
    + by eapply positions_bitasset; [apply Hwf|done|..].
  - intros x. rewrite !gap_eq; simpl. unfold funds_of. erewrite msum_insert_some by eassumption.
    rewrite Hfund. lia.
Qed.

Lemma modify_bitasset_of_effect a f s :
  wf s →
  (∀ ao b bd bd', d_assets s !! a = Some ao → as_bitasset_data_id ao = Some b →
     d_bitassets s !! b = Some bd → f bd = Ok bd' →
     bd_asset_id bd' = bd_asset_id bd ∧ bitasset_ok bd' ∧ feeds_ok bd' ∧
     (∀ x, fund_credit bd' x = fund_credit bd x) ∧ same_backing bd bd') →
  effect (modify_bitasset_of a f) s (λ _, 0).
Proof.
  intros Hwf Hf. unfold modify_bitasset_of, bitasset_id_of, effect. dstep. dstep. dstep. dstep. intros b Hb%of_option_ok.
  apply modify_bitasset_effect; [done|]. intros bd bd'. by apply (Hf v).
Qed.

(** An update that keeps everything the supply and the settlement depend on. *)
Definition same_fund (bd bd' : asset_bitasset_data_object) : Prop :=
  bd_options bd' = bd_options bd ∧ bd_asset_id bd' = bd_asset_id bd ∧
  bd_settlement_fund bd' = bd_settlement_fund bd ∧ bd_settlement_price bd' = bd_settlement_price bd.
Definition same_feeds (bd bd' : asset_bitasset_data_object) : Prop :=
  bd_feeds bd' = bd_feeds bd ∧ bd_current_feed bd' = bd_current_feed bd.

Lemma same_fund_ok bd bd' :
  same_fund bd bd' → bitasset_ok bd →
  bd_asset_id bd' = bd_asset_id bd ∧ bitasset_ok bd' ∧ (∀ a, fund_credit bd' a = fund_credit bd a) ∧ same_backing bd bd'.
Proof.
  intros (Ho & Hi & Hfu & Hp) Hok. unfold bitasset_ok, has_settlement, fund_credit, same_backing in *.
  by rewrite Ho, Hi, Hfu, Hp.
Qed.
Lemma same_feeds_ok bd bd' :
  bd_asset_id bd' = bd_asset_id bd → same_feeds bd bd' → feeds_ok bd → feeds_ok bd'.
Proof. intros Hi [Hf Hc]. unfold feeds_ok. by rewrite Hi, Hf, Hc. Qed.

(** An update that keeps the fund and the feeds. *)
Lemma kept_effect b f s :
  wf s → (∀ bd bd', f bd = Ok bd' → same_fund bd bd' ∧ same_feeds bd bd') →
  effect (modify_bitasset b f) s (λ _, 0).
Proof.
  intros Hwf Hf. apply modify_bitasset_effect; [done|]. intros bd bd' Hbd [Hfund Hfeeds]%Hf.
  destruct (same_fund_ok _ _ Hfund (wf_bitassets s Hwf _ _ Hbd)) as (? & ? & ? & ?).
  split_and!; try done. eapply same_feeds_ok; [done|done|]. by eapply (wf_feeds s Hwf).
Qed.
Lemma kept_of_effect a f s :
  wf s → (∀ bd bd', f bd = Ok bd' → same_fund bd bd' ∧ same_feeds bd bd') →
  effect (modify_bitasset_of a f) s (λ _, 0).
Proof.
  intros Hwf Hf. unfold modify_bitasset_of, bitasset_id_of, effect. dstep. dstep. dstep. dstep. intros b _.
  by apply kept_effect.
Qed.

Definition new_options_ok (o : asset_options) : Prop :=
  0 ≤ o_market_fee_percent o ≤ GRAPHENE_100_PERCENT ∧ 0 ≤ o_max_market_fee o.

#[export] Instance asset_update_conserves :
  ConservingEvaluator asset_update_evaluator (λ op, new_options_ok (aup_new_options op)).
Proof.
  apply plain_conserving.
  { unfold asset_update_do_evaluate, validate_new_issuer, authorities_ok. solve_reads. }
  intros i op e s Hopt Hwf. unfold asset_update_do_apply. apply effect_read. dstep. split; [done|].
  apply after_none.
  { unfold effect. dstep; [|by apply effect_ret]. dstep. dstep. by apply cancel_settlements_effect. }
  intros u s1 Hwf1. apply after_none.
  { unfold effect. dstep; [|by apply effect_ret]. dstep. dstep. dstep; [by apply effect_ret|].
    apply kept_of_effect; [done|]. by intros ? ? [= <-]. }
  intros u1 s2 Hwf2. apply after_none; [|intros; by apply effect_ret].
  apply modify_asset_effect; [done|]. intros ao ao' _ [= <-]. by destruct (aup_new_issuer op).
Qed.

#[export] Instance asset_update_issuer_conserves :
  ConservingEvaluator asset_update_issuer_evaluator always.
Proof.
  apply plain_conserving.
  { unfold asset_update_issuer_do_evaluate, validate_new_issuer. solve_reads. }
  intros i op e s _ Hwf. apply after_none; [|intros; by apply effect_ret].
  apply modify_asset_effect; [done|]. intros ao ao' Ha [= <-]. split; [done|].
  exact (wf_options s Hwf _ _ Ha).
Qed.

(** ** Settlement by a holder *)

(** What is paid is of the settled asset, what is received is of its backing
    asset, like the fund. *)
Lemma settled_amounts_ids x sup maint b pays settled :
  bitasset_ok b → has_settlement b = true → asset_id x = bd_asset_id b →
  settled_amounts x sup maint b = Ok (pays, settled) →
  asset_id pays = asset_id x ∧ asset_id settled = bo_short_backing_asset (bd_options b).
Proof.
  intros (Hback & _ & Hset) Hs Hx. destruct (Hset Hs) as [Hb Hq]. unfold settled_amounts. intros H. inv_ok.
  rename x0 into settled0.
  assert (asset_id settled0 = bo_short_backing_asset (bd_options b)) as Hid.
  { match goal with Hm : asset_mul x _ = Ok _ |- _ =>
      apply asset_mul_ids in Hm as [[? ?]|[? ?]]; congruence end. }
  set (st := if amount x =? sup then _ else _) in *.
  assert (asset_id st = bo_short_backing_asset (bd_options b)) as Hst by (subst st; by destruct (_ =? _)).
  clearbody st. split; [|done].
  match goal with Hp : (if ?c then _ else _) = Ok pays |- _ => destruct c; [|by simplify_eq] end.
  match goal with Hp : multiply_and_round_up _ _ = Ok pays |- _ =>
    apply round_up_ids in Hp as [[? ?]|[? ?]]; congruence end.
Qed.

Lemma settle_from_fund_effect op s ao b bd :
  wf s → d_assets s !! asset_id (ase_amount op) = Some ao → as_bitasset_data_id ao = Some b →
  d_bitassets s !! b = Some bd → has_settlement bd = true →
  effect (settle_from_fund op) s (λ _, 0).
Proof.
  intros Hwf Hao Hb Hbd Hset. unfold effect, settle_from_fund. dstep. dstep. same_entries. simplify_eq.
  do 5 dstep. dstep. intros [pays settled] Hr.
  destruct (settled_amounts_ids _ _ _ _ _ _ (wf_bitassets s Hwf _ _ Hbd) Hset
              (eq_sym (wf_back_refs s Hwf _ _ _ _ Hao Hb Hbd)) Hr) as [Hpays Hsettled].
  dstep. dstep. intros neg Hneg. unfold asset_neg in Hneg. inv_ok. dstep.
  apply post_adjust_balance. intros B HB. simpl in *. dstep.
  apply (post_mono _ _ (λ _ s1, wf s1 ∧ ∀ a, gap a s1 = gap a s - credit pays a)).
  { dstep.
    - dstep. dstep. simpl in *. same_entries. simplify_eq. inv_ok. apply post_adjust_balance. intros B2 HB2.
      same_entries. split.
      + apply mk_wf; simpl; try apply Hwf.
        * apply map_Forall_insert_2; [|apply Hwf]. destruct (wf_bitassets s Hwf _ _ Hbd) as (Hback & _ & Hp).
          split_and!; [done| |done]. unfold has_settlement in *. simpl. congruence.
        * apply map_Forall_insert_2; [|apply Hwf]. exact (wf_feeds s Hwf _ _ Hbd).
        * by eapply back_refs_insert; [apply Hwf|done|].
        * by eapply owned_insert; [apply Hwf|done|].
        * by eapply positions_bitasset; [apply Hwf|done|..].
      + intros a. rewrite !gap_eq; simpl. use_parts. sums. unfold fund_credit; simpl.
        rewrite credit_opp, credit_eta, credit_sub, <- Hsettled, credit_eta. lia.
    - dstep. split; [wf_solve|]. intros a. rewrite !gap_eq; simpl. use_parts.
      rewrite credit_opp, credit_eta. lia. }
  intros u s1 [Hwf1 Hg1]. dstep. eapply (post_dynamic_of _ _ (amount pays) 0); [done|dyn_fields|].
  intros D HD HP HO. dstep. split; [wf_solve|]. intros a. specialize (Hg1 a).
  rewrite !gap_eq in *; simpl. use_parts. rewrite <- Hpays, credit_eta. lia.
Qed.

#[export] Instance asset_settle_conserves :
  ConservingEvaluator asset_settle_evaluator (λ op, 0 ≤ amount (ase_amount op)).
Proof.
  apply plain_conserving; [unfold asset_settle_do_evaluate, get_balance; solve_reads|].
  intros i op e s Hpos Hwf. unfold effect, asset_settle_do_apply. dstep. dstep. dstep.
  { by eapply settle_from_fund_effect. }
  dstep. dstep. intros neg Hneg. unfold asset_neg in Hneg. inv_ok. dstep.
  apply post_adjust_balance_paid. intros B HB Hpaid. repeat dstep. gap_leaf.
  { unfold settle_ok, amount_ok, in64 in *. simpl in *. destruct (decide (amount (ase_amount op) = 0)) as [->|]; [done|].
    destruct Hpaid; lia. }
  rewrite credit_opp, credit_eta. simpl. lia.
Qed.
End operation_supply.
