(* ===== verification/BitassetSupply.v ===== *)
(** * Market issued assets: their operations conserve the supply of every asset

    The feeds of an asset stay prices of it, the change of its options keeps
    its fund, and a revival gives the fund to the position that takes over the
    debt: the instances of [ConservingEvaluator] for the evaluators of
    BitassetEval.v that end with a search for margin calls. Opening, changing and
    closing a margin position moves debt and collateral between the account and
    the position, when the collateral of the position is the backing asset. *)

From S2P Require Import Prelude Ext Config Asset Objects Parameters Governance Blocks Names Operations Validation Fees Ledger Database Balance Market Matching OrderBook Feeds Evaluator MarketEval AssetEval BitassetEval Exchange Indices Supply MarketSupply MatchSupply EvalSupply Frame OperationSupply.

(** ** The current feed *)
Section feeds.
Context {X : Ext} {R : Regime} {N : NthElement}.

Lemma median_by_element {A} (less : A → A → bool) (field : price_feed → A) feeds feeds' v :
  median_by less field feeds = Ok (feeds', v) → feeds' ≡ₚ feeds ∧ ∃ f, f ∈ feeds ∧ v = field f.
Proof.
  unfold median_by. intros H. inv_ok. pose proof (nth_element_perm (λ a b, less (field a) (field b))
    (Nat.div2 (length feeds)) feeds) as Hp.
  split; [done|]. eexists. split; [|done]. rewrite <- Hp. by eapply list_elem_of_lookup_2.
Qed.

(** The settlement price and the ratio of the median are those of some feed. *)
Lemma median_feed_ok mia feeds m :
  Forall (feed_for mia) feeds → median_feed feeds = Ok m → feed_for mia m.
Proof.
  rewrite Forall_forall. unfold median_feed.
  intros Hf ([l1 v1] & E1 & ([l2 v2] & E2 & ([l3 v3] & E3 & ([l4 v4] & E4 & H)%rbind_ok)%rbind_ok)%rbind_ok)%rbind_ok.
  simpl in *. injection H as <-.
  apply median_by_element in E1 as (P1 & f1 & Hf1 & ->), E2 as (P2 & f2 & Hf2 & ->).
  rewrite P1 in Hf2. destruct (Hf f1 Hf1) as [H1 _]. destruct (Hf f2 Hf2) as [_ H2]. done.
Qed.

Lemma alive_feeds_ok mia t b :
  map_Forall (λ _ f, feed_for mia f.2) (bd_feeds b) → Forall (λ f, feed_for mia f.2) (alive_feeds t b).
Proof.
  intros Hf. apply Forall_forall. intros f Hin. unfold alive_feeds in Hin.
  apply list_elem_of_In, filter_In in Hin as [Hin _]. apply list_elem_of_In, list_elem_of_fmap in Hin as ([k g] & -> & Hin).
  unfold feeds_in_order in Hin. rewrite merge_sort_Permutation, elem_of_map_to_list in Hin. simpl.
  by apply (Hf k).
Qed.

Lemma set_current_feed_ok f b :
  same_fund b (set_current_feed f b) ∧ bd_feeds (set_current_feed f b) = bd_feeds b ∧
  bd_current_feed (set_current_feed f b) = f.
Proof. unfold set_current_feed. by destruct (price_eqb _ _). Qed.

Lemma null_feed_for mia : feed_for mia null_feed.
Proof. split; [by left|done]. Qed.

(** [update_median_feeds] keeps the fund and the feeds. *)
Lemma update_median_feeds_ok t b b' :
  update_median_feeds t b = Ok b' →
  same_fund b b' ∧ (map_Forall (λ _ f, feed_for (bd_asset_id b) f.2) (bd_feeds b) → feeds_ok b').
Proof.
  unfold update_median_feeds. set (b0 := set_bd_current_feed_publication_time _ b). intros H.
  assert (same_fund b b0 ∧ bd_feeds b0 = bd_feeds b) as [Hb0 Hf0] by done. clearbody b0.
  assert (∀ f, (map_Forall (λ _ f, feed_for (bd_asset_id b) f.2) (bd_feeds b) → feed_for (bd_asset_id b) f) →
    same_fund b (set_current_feed f b0) ∧
    (map_Forall (λ _ f, feed_for (bd_asset_id b) f.2) (bd_feeds b) → feeds_ok (set_current_feed f b0))) as Hset.
  { intros f Hf. destruct (set_current_feed_ok f b0) as ((Ho & Hi & Hfu & Hp) & Hs & Hc).
    destruct Hb0 as (Ho0 & Hi0 & Hfu0 & Hp0). split; [split_and!; congruence|].
    intros Hall. unfold feeds_ok. rewrite Hs, Hc, Hi, Hi0, Hf0. auto. }
  case_match.
  - injection H as <-. destruct Hb0 as (Ho0 & Hi0 & Hfu0 & Hp0). split; [done|]. intros Hall.
    split; simpl; [apply null_feed_for|]. by rewrite Hi0, Hf0.
  - pose proof (alive_feeds_ok (bd_asset_id b) t b) as Halive.
    destruct (alive_feeds t b) as [|f [|g l]]; inv_ok.
    + apply Hset. intros Hall. eapply median_feed_ok; [|done]. apply Forall_nil_2.
    + apply Hset. intros Hall. by apply Halive in Hall as [? _]%Forall_cons.
    + apply Hset. intros Hall. eapply median_feed_ok; [|done]. apply Forall_fmap. by apply Halive.
Qed.
End feeds.

(** ** The options of an asset *)
Section options.
Context {X : Ext} {R : Regime} {P : Packing} {N : NthElement}.

Lemma reset_feeds_ok mia feeds :
  map_Forall (λ _ (f : Z * price_feed), feed_for mia f.2) feeds →
  map_Forall (λ _ f, feed_for mia f.2) (reset_feeds feeds).
Proof.
  intros Hf k f Hk. unfold reset_feeds in Hk. rewrite lookup_fmap in Hk.
  destruct (feeds !! k) as [g|] eqn:E; [|done]. injection Hk as <-. split; [by left|]. by apply (Hf k g).
Qed.

(** The options change, the feeds are reset or kept; neither the identity of
    the asset nor the fund and its price change. *)
Lemma update_options_ok op t now flags b b' c :
  update_bitasset_object_options op t now flags b = Ok (b', c) → feeds_ok b →
  feeds_ok b' ∧ bd_asset_id b' = bd_asset_id b ∧ bd_options b' = aub_new_options op ∧
  bd_settlement_fund b' = bd_settlement_fund b ∧ bd_settlement_price b' = bd_settlement_price b.
Proof.
  unfold update_bitasset_object_options. intros H [Hcur Hfeeds].
  match type of H with context [update_median_feeds now ?x] => set (b1 := x) in * end.
  assert (bd_asset_id b1 = bd_asset_id b ∧ bd_options b1 = aub_new_options op ∧
    bd_settlement_fund b1 = bd_settlement_fund b ∧ bd_settlement_price b1 = bd_settlement_price b ∧
    bd_current_feed b1 = bd_current_feed b ∧
    map_Forall (λ _ f, feed_for (bd_asset_id b) f.2) (bd_feeds b1)) as (Hi & Ho & Hfu & Hp & Hc1 & Hf1).
  { subst b1. repeat match goal with |- context [if ?c then _ else _] => destruct c end; simpl;
      split_and!; first [done|apply map_Forall_empty|by apply reset_feeds_ok]. }
  clearbody b1. case_match; inv_ok.
  - match goal with E : update_median_feeds _ _ = Ok _ |- _ =>
      apply update_median_feeds_ok in E as ((Ho2 & Hi2 & Hfu2 & Hp2) & Hok2) end.
    split_and!; [apply Hok2; by rewrite Hi|congruence..].
  - split_and!; [|done..]. split; [by rewrite Hc1, Hi|by rewrite Hi].
Qed.

(** A backing asset is never the asset itself. *)
Lemma update_bitasset_checked i op e s :
  wf s → modern s → asset_update_bitasset_do_evaluate i op s = Ok (e, s) →
  ∀ ao b bd, d_assets s !! aub_asset_to_update op = Some ao → as_bitasset_data_id ao = Some b →
    d_bitassets s !! b = Some bd →
    has_settlement bd = false ∧ bo_short_backing_asset (aub_new_options op) ≠ aub_asset_to_update op.
Proof.
  intros Hwf Hmod. revert e s Hwf Hmod.
  enough (∀ s, wf s → modern s → post (asset_update_bitasset_do_evaluate i op) s (λ _ _,
    ∀ ao b bd, d_assets s !! aub_asset_to_update op = Some ao → as_bitasset_data_id ao = Some b →
      d_bitassets s !! b = Some bd →
      has_settlement bd = false ∧ bo_short_backing_asset (aub_new_options op) ≠ aub_asset_to_update op)) as Hpost.
  { intros e s Hwf Hmod. by apply (Hpost s Hwf Hmod). }
  intros s Hwf Hmod. unfold asset_update_bitasset_do_evaluate.
  do 7 dstep. rename bd into bd0, b into b0. dstep. dstep.
  dstep. apply (post_mono _ _ (λ _ _, bo_short_backing_asset (aub_new_options op) ≠ aub_asset_to_update op)).
  { dstep; btrue.
    - do 5 dstep. rewrite (proj2 (Z.ltb_lt HARDFORK_CORE_922_931_TIME _) Hmod). unfold new_backing_ok. dstep.
      btrue. by intros ? ? _.
    - dstep. replace (bo_short_backing_asset (aub_new_options op)) with (bo_short_backing_asset (bd_options bd0)) by done.
      rewrite <- (wf_back_refs s Hwf _ _ _ _ H2 H3 H4). by destruct (wf_bitassets s Hwf _ _ H4) as (? & _). }
  intros u s1 Hne r s2 _ ao1 b1 bd1 Hao1 Hb1 Hbd1. same_entries. simplify_eq. by btrue.
Qed.

Lemma reads_check_children l nb a b : reads (check_children l nb a b).
Proof. induction l; simpl; readonly. Qed.
Hint Resolve reads_check_children : reads.

Lemma backing_kept o s ao b bd :
  wf s → positions_updated = true → keeps_backing o = true →
  d_assets s !! aub_asset_to_update o = Some ao → as_bitasset_data_id ao = Some b → d_bitassets s !! b = Some bd →
  bo_short_backing_asset (aub_new_options o) = bo_short_backing_asset (bd_options bd).
Proof.
  intros Hwf Hu Hk%bool_decide_eq_true Hao Hb Hbd.
  destruct (wf_positions s Hwf Hu) as [_ Hkept]. destruct (Hkept _ _ Hk) as (c & cd & Hcd & Hid & <-).
  destruct (wf_owned s Hwf c cd Hcd) as [(ao' & Hao' & Hc)|[]]. rewrite Hid in Hao'. congruence.
Qed.

#[export] Instance asset_update_bitasset_conserves :
  ConservingEvaluator asset_update_bitasset_evaluator (λ o, positions_updated = true → keeps_backing o = true).
Proof.
  apply (checked_conserving _ _ _ _ (λ op _ part, ∀ ao b bd,
    part.1 !! aub_asset_to_update op = Some ao → as_bitasset_data_id ao = Some b → part.2 !! b = Some bd →
    has_settlement bd = false ∧ bo_short_backing_asset (aub_new_options op) ≠ aub_asset_to_update op)).
  { unfold asset_update_bitasset_do_evaluate, new_backing_ok, old_backing_ok, check_children_of_bitasset.
    intros. solve_reads. }
  { intros i op e s Hreg Hwf Hmod Heval. exact (update_bitasset_checked i op e s Hwf Hmod Heval). }
  intros i op e s Hreg Hwf Hchk. simpl in Hchk. unfold effect, asset_update_bitasset_do_apply.
  do 10 dstep. intros [bdo c] Hopt.
  destruct (update_options_ok _ _ _ _ _ _ _ Hopt) as (Hfeeds & Hi & Ho & Hfu & Hp); [by eapply (wf_feeds s Hwf)|].
  same_entries. destruct (Hchk _ _ _ H H1 H2) as [Hset Hne].
  destruct (wf_bitassets s Hwf _ _ H2) as (_ & Hfund & _). specialize (Hfund Hset).
  pose proof (wf_back_refs s Hwf _ _ _ _ H H1 H2) as Hback.
  assert (has_settlement bdo = false) as Hset' by (unfold has_settlement in *; by rewrite Hp).
  apply after_none.
  { apply modify_bitasset_of_effect; [done|]. intros ao1 b1 bd1 bd' Hao1 Hb1 Hbd1 [= <-]. same_entries. simplify_eq.
    split_and!; [done| |done| |].
    - split_and!; [congruence|congruence|by rewrite Hset'].
    - intros x. unfold fund_credit. rewrite Hfu, Hfund, !credit_zero; done.
    - intros Hu. rewrite Ho. apply (backing_kept op s _ _ _ Hwf Hu (Hreg Hu) H H1 H2). }
  intros u s1 Hwf1. apply after_none; [|intros; by apply effect_ret]. simpl.
  destruct c; [|by apply effect_ret]. apply after_none; [by apply check_call_orders_effect|].
  intros; by apply effect_ret.
Qed.

(** ** Feed producers *)

Lemma replace_producers_ok mia producers feeds :
  map_Forall (λ _ (f : Z * price_feed), feed_for mia f.2) feeds →
  map_Forall (λ _ f, feed_for mia f.2) (replace_producers producers feeds).
Proof.
  intros Hf k f Hk. unfold replace_producers in Hk. apply lookup_union_Some_raw in Hk as [Hk|[_ Hk]].
  - apply map_lookup_filter_Some in Hk as [Hk _]. by apply (Hf k).
  - apply lookup_gset_to_gmap_Some in Hk as [_ <-]. apply null_feed_for.
Qed.

(** New feeds, and the median computed from them. *)
Lemma new_feeds_effect a now (g : gmap Z (Z * price_feed) → gmap Z (Z * price_feed)) s :
  wf s →
  (∀ feeds, map_Forall (λ _ f, feed_for a f.2) feeds → map_Forall (λ _ f, feed_for a f.2) (g feeds)) →
  effect (modify_bitasset_of a (λ b, update_median_feeds now (set_bd_feeds (g (bd_feeds b)) b))) s (λ _, 0).
Proof.
  intros Hwf Hg. apply modify_bitasset_of_effect; [done|]. intros ao b bd bd' Hao Hb Hbd Hup.
  apply update_median_feeds_ok in Hup as [Hsame Hok].
  destruct (same_fund_ok (set_bd_feeds (g (bd_feeds bd)) bd) bd' Hsame) as (? & ? & Hcredit & Hbk);
    [by apply (wf_bitassets s Hwf b bd)|].
  pose proof (wf_back_refs s Hwf _ _ _ _ Hao Hb Hbd) as <-.
  split_and!; [done|done| |done|done]. apply Hok. apply Hg, (wf_feeds s Hwf _ _ Hbd).
Qed.

#[export] Instance asset_update_feed_producers_conserves :
  ConservingEvaluator asset_update_feed_producers_evaluator always.
Proof.
  apply plain_conserving.
  { unfold asset_update_feed_producers_do_evaluate, accounts_exist. solve_reads. }
  intros i op e s _ Hwf. unfold asset_update_feed_producers_do_apply. eread.
  apply after_none; [apply new_feeds_effect; [done|apply replace_producers_ok]|]. intros u s1 Hwf1.
  apply after_none; [by apply check_call_orders_effect|]. intros; by apply effect_ret.
Qed.

(** ** Revival *)

Lemma cancel_bid_assets id b : keeps asset_part (cancel_bid id b).
Proof. unfold cancel_bid. frame. Qed.
Lemma execute_bid_assets id d c f : keeps asset_part (execute_bid id d c f).
Proof. unfold execute_bid, modify_statistics_of. frame. Qed.
Hint Resolve cancel_bid_assets execute_bid_assets : frames.
Lemma cancel_bids_assets fuel a : ∀ itr, keeps asset_part (cancel_bids fuel a itr).
Proof. induction fuel; intros; simpl; frame. Qed.

Lemma cancel_bids_effect fuel a : ∀ itr s, wf s → effect (cancel_bids fuel a itr) s (λ _, 0).
Proof.
  induction fuel as [|fuel IH]; intros itr s Hwf; simpl; [unfold effect; dstep|].
  destruct itr as [id|]; [|by apply effect_ret]. unfold effect. dstep. dstep. dstep; [|by apply effect_ret].
  eread. apply after_none; [by apply cancel_bid_effect|]. auto.
Qed.

(** An asset without settlement has no fund. *)
Lemma no_settlement_effect a ao b bd s :
  wf s → d_assets s !! a = Some ao → as_bitasset_data_id ao = Some b → d_bitassets s !! b = Some bd →
  effect (modify_bitasset_of a (λ obj, Ok (set_bd_settlement_fund 0 (set_bd_settlement_price null_price obj)))) s
         (λ x, - fund_credit bd x).
Proof.
  intros Hwf Hao Hb Hbd. unfold effect. dstep. same_entries. simplify_eq. inv_ok. split.
  - destruct (wf_bitassets s Hwf _ _ Hbd) as (Hback & _). apply mk_wf; simpl; try apply Hwf.
    + apply map_Forall_insert_2; [|apply Hwf]. unfold bitasset_ok, has_settlement; simpl. by split_and!.
    + apply map_Forall_insert_2; [|apply Hwf]. exact (wf_feeds s Hwf _ _ Hbd).
    + by eapply back_refs_insert; [apply Hwf|done|].
    + by eapply owned_insert; [apply Hwf|done|].
    + by eapply positions_bitasset; [apply Hwf|done|..].
  - intros x. rewrite !gap_eq; simpl. unfold funds_of. erewrite msum_insert_some by eassumption.
    match goal with |- context [fund_credit ?o x] => assert (fund_credit o x = 0) as -> by (by apply credit_zero) end. lia.
Qed.

(** The fund is given up when the bids are cancelled. *)
Lemma cancel_bids_and_revive_mpa_effect a ao b bd s :
  wf s → d_assets s !! a = Some ao → as_bitasset_data_id ao = Some b → d_bitassets s !! b = Some bd →
  effect (cancel_bids_and_revive_mpa a) s (λ x, - fund_credit bd x).
Proof.
  intros Hwf Hao Hb Hbd. unfold effect, cancel_bids_and_revive_mpa. do 9 dstep. intros pmax _.
  dstep. dstep. dstep. dstep. same_entries. eapply effect_ext.
  { eapply effect_bind_keeps; [apply (cancel_bids_assets (bids_fuel s))|by apply (cancel_bids_effect (bids_fuel s))|].
    intros u s1 Hwf1 E.
    injection E as Ha1 Hb1. rewrite <- Ha1 in Hao. rewrite <- Hb1 in Hbd.
    by apply (no_settlement_effect a ao b bd). }
  intros x. simpl. lia.
Qed.

(** The position of the issuer takes the fund over. *)
Lemma revive_bitasset_effect a s : wf s → effect (revive_bitasset a) s (λ _, 0).
Proof.
  intros Hwf. unfold effect, revive_bitasset. do 10 dstep. same_entries.
  eapply effect_ext.
  { apply (effect_bind_keeps asset_part _ _ _ (fund_credit bd) (λ x, - fund_credit bd x)).
    - frame.
    - unfold effect. dstep.
      + dstep. dstep. intros swan Hswan. unfold asset_div in Hswan. inv_ok. dstep. dstep.
        match goal with |- post _ ?s1 _ => assert (wf s1 ∧ ∀ x, gap x s1 = gap x s) as [Hwf1 Hg1] end.
        { split.
          - pose proof (wf_dynamic s Hwf _ _ H6) as [Hlo Hhi]. btrue. wf_solve. split; simpl; [done|lia].
          - intros x. rewrite !gap_eq; simpl. sums. rewrite (credit_zero x) by done. lia. }
        pcall execute_bid_effect; [done|simpl; apply lookup_insert_eq|by apply (wf_dynamic s Hwf _ _ H6)| | |].
        { apply (wf_feeds s Hwf _ _ H3). }
        { intros _. exists b, bd. split_and!; [done|by eapply (wf_back_refs s Hwf)|done]. }
        intros u s2 [Hwf2 Hg2]. split; [done|]. intros x. rewrite Hg2, Hg1. done.
      + dstep. btrue. dstep. split; [done|]. intros x. unfold fund_credit. rewrite credit_zero by done. lia.
    - intros u s1 Hwf1 E. injection E as Ha1 Hb1. rewrite <- Ha1 in H. rewrite <- Hb1 in H3.
      by apply (cancel_bids_and_revive_mpa_effect a v b bd). }
  intros x. simpl. lia.
Qed.

(** ** Published feeds *)

Lemma feed_validated f a :
  price_feed_validate f = Ok tt → price_fits (settlement_price f) → price_feed_is_for f a = true →
  is_null (settlement_price f) = false → feed_for a f.
Proof.
  unfold price_feed_validate, price_feed_is_for, feed_for, mcr_ok. intros Hv Hfits Hfor Hnull. inv_ok. btrue.
  split; [right|]; unfold GRAPHENE_MIN_COLLATERAL_RATIO in *; [|lia]. rewrite Hnull in *. simpl in Hfor.
  unfold price_validate in *. inv_ok. btrue. destruct Hfits. unfold price_ok. split_and!; try done; lia.
Qed.

#[export] Instance asset_publish_feeds_conserves :
  ConservingEvaluator asset_publish_feeds_evaluator (λ op, feed_for (apf_asset_id op) (apf_feed op)).
Proof.
  apply plain_conserving.
  { unfold asset_publish_feed_do_evaluate, is_publisher. solve_reads. }
  intros i op e s Hfeed Hwf. unfold asset_publish_feed_do_apply. eread. unfold effect. dstep. dstep.
  apply after_none.
  { apply new_feeds_effect; [done|]. intros feeds Hf. by apply map_Forall_insert_2. }
  intros u s1 Hwf1. unfold effect. dstep. dstep. apply after_none; [|intros; by apply effect_ret].
  case_match; [by apply effect_ret|]. apply after_none.
  { unfold effect. dstep; [|by apply effect_ret]. dstep. dstep. dstep. dstep. intros revive _.
    dstep; [by apply revive_bitasset_effect|by apply effect_ret]. }
  intros u2 s2 Hwf2. apply after_none; [by apply check_call_orders_effect|]. intros; by apply effect_ret.
Qed.
End options.

(** ** Margin positions *)
Section positions.
Context {X : Ext} {R : Regime} {P : Packing} {N : NthElement}.

(** The collateral of the operation is the backing asset of the debt. *)
Definition delta_backed (o : call_order_update_operation)
    (part : gmap Z asset_object * gmap Z asset_bitasset_data_object) : Prop :=
  ∃ ao b bd, part.1 !! asset_id (cou_delta_debt o) = Some ao ∧ as_bitasset_data_id ao = Some b ∧ part.2 !! b = Some bd ∧
    asset_id (cou_delta_collateral o) = bo_short_backing_asset (bd_options bd).

(** So is that of the positions with the same debt. *)
Lemma position_collateral o s id call :
  wf s → positions_updated = true → delta_backed o (asset_part s) →
  d_calls s !! id = Some call → co_debt_type call = asset_id (cou_delta_debt o) →
  co_collateral_type call = asset_id (cou_delta_collateral o).
Proof.
  intros Hwf Hu (ao & b & bd & Hao & Hb & Hbd & ->) Hcall Hdebt. simpl in *.
  destruct (wf_positions s Hwf Hu) as [Hpos _]. destruct (Hpos id call Hcall) as (c & cd & Hc & Hid & <-). rewrite Hdebt in Hid.
  destruct (wf_owned s Hwf c cd Hc) as [(ao' & Hao' & Hc')|[]]. rewrite Hid in Hao'. congruence.
Qed.

Lemma delta_position_backed o s call :
  wf s → delta_backed o (asset_part s) →
  co_debt_type call = asset_id (cou_delta_debt o) → co_collateral_type call = asset_id (cou_delta_collateral o) →
  backed (d_bitassets s) call.
Proof.
  intros Hwf (ao & b & bd & Hao & Hb & Hbd & Hc) E1 E2. exists b, bd. simpl in *. rewrite E1, E2.
  split_and!; [done|by eapply (wf_back_refs s Hwf)|done].
Qed.

(** The debt of a position is issued to the account. *)
Lemma move_debt_effect o s : wf s → effect (move_debt o) s (λ _, 0).
Proof.
  intros Hwf. unfold effect, move_debt. dstep; [by apply effect_ret|]. dstep. apply post_adjust_balance.
  intros B HB. set (s1 := set_d_balances B s). assert (wf s1) as Hwf1 by (unfold s1; wf_solve).
  eapply (post_dynamic_of _ _ (- amount (cou_delta_debt o)) 0); [done|dyn_fields|].
  intros D HD HP HO. gap_leaf. rewrite credit_opp, credit_eta. lia.
Qed.

(** Collateral leaves the account. *)
Lemma move_collateral_effect o s :
  wf s → effect (move_collateral o) s (λ a, - credit (cou_delta_collateral o) a).
Proof.
  intros Hwf. unfold effect, move_collateral. dstep; btrue.
  { dstep. split; [done|]. intros a. rewrite credit_zero by done. lia. }
  dstep. dstep. intros neg Hneg. unfold asset_neg in Hneg. inv_ok. dstep. apply post_adjust_balance. intros B HB.
  apply post_statistics_if; [intros st st' H'; by inv_ok|]. intros S HS. gap_leaf. rewrite credit_opp, credit_eta. lia.
Qed.

Lemma update_position_spec o mcr c c' :
  update_position o mcr c = Ok c' → co_collateral_type c = asset_id (cou_delta_collateral o) → call_ok c → 0 ≤ mcr ≤ 2 ^ 15 →
  call_ok c' ∧ (co_debt_type c' = co_debt_type c ∧ co_collateral_type c' = co_collateral_type c) ∧
  ∀ a, credit (get_collateral c') a = credit (get_collateral c) a + credit (cou_delta_collateral o) a.
Proof.
  unfold update_position. intros H Hc Hok Hm. inv_ok. simpl in *.
  match goal with H : (if ?b then _ else _) = Ok _ |- _ => destruct b end; inv_ok.
  - match goal with Hp : call_price _ _ _ = Ok ?x |- _ =>
      assert (call_price_shape x) by (eapply call_price_has_shape; [| | |exact Hp]; done);
      apply call_price_ids in Hp as [Hb Hq] end.
    split_and!; [done|exact Hq|exact Hb|]. intros a. unfold get_collateral, co_collateral_type in *. simpl in *. rewrite Hb, Hc. credits.
  - split_and!; [done..|]. intros a. unfold get_collateral, co_collateral_type in *. simpl in *. rewrite Hc. credits.
Qed.

(** Opening a position or changing it adds the collateral to it. *)
Lemma open_or_update_position_effect o mcr s :
  wf s → 0 ≤ mcr ≤ 2 ^ 15 → in64 (amount (cou_delta_debt o)) → in64 (amount (cou_delta_collateral o)) →
  positions_updated = true → delta_backed o (asset_part s) →
  effect (open_or_update_position o mcr) s (credit (cou_delta_collateral o)).
Proof.
  intros Hwf Hm Hd Hc Hu Hback. unfold effect, open_or_update_position. dstep. dstep.
  destruct (find_call_by_account _ _ s) as [id|] eqn:Hfind.
  - dstep. dstep. dstep. dstep. intros p _. dstep. dstep. intros c _. dstep. dstep. intros d _. dstep. dstep.
    apply post_modify. intros call call' Hcall Hnew. same_entries. dstep.
    destruct (find_first_split _ _ _ Hfind) as (pre & w & suf & Hidx & Hw & _).
    assert (d_calls s !! id = Some w) as Hid.
    { apply elem_of_map_to_list. rewrite Hidx. set_solver. }
    same_entries. simpl in Hw. btrue.
    destruct (update_position_spec _ _ _ _ Hnew) as (Hok & [Hty1 Hty2] & Hcredit);
      [by eapply position_collateral|by eapply (wf_calls s Hwf)|done|].
    gap_leaf; [|rewrite Hcredit; lia]. intros _. eapply backed_same; [|exact Hty1|exact Hty2].
    by eapply (proj1 (wf_positions s Hwf Hu)).
  - dstep. dstep. dstep. dstep. intros cp Hcp. dstep. dstep. dstep. gap_leaf.
    { by eapply call_price_has_shape; [| | |exact Hcp]. }
    { intros _. apply call_price_ids in Hcp as [Hb Hq]. by apply (delta_position_backed o). }
    apply call_price_ids in Hcp as [Hb Hq]. unfold get_collateral, co_collateral_type. simpl. rewrite Hb, credit_eta. lia.
Qed.

Lemma reads_effect {A} (m : DB A) s : reads m → wf s → effect m s (λ _, 0).
Proof. intros Hr Hwf. pcall Hr. intros x s' ->. split; [done|]. intros. lia. Qed.
Lemma check_position_reads mia id old called : reads (check_position mia id old called).
Proof. unfold check_position. solve_reads. Qed.

Lemma call_order_update_effect i o s :
  wf s → in64 (amount (cou_delta_debt o)) → in64 (amount (cou_delta_collateral o)) →
  positions_updated = true → delta_backed o (asset_part s) →
  effect (call_order_update_do_apply i tt o tt) s (λ _, 0).
Proof.
  intros Hwf Hd Hc Hu Hback. unfold call_order_update_do_apply. eapply effect_ext.
  { eapply (effect_bind_keeps asset_part); [unfold move_debt; frame|by apply move_debt_effect|]. intros _ s1 Hwf1 E1.
    eapply (effect_bind_keeps asset_part); [unfold move_collateral; frame|by apply move_collateral_effect|]. intros _ s2 Hwf2 E2.
    unfold effect. dstep. dstep. eapply (effect_bind _ _ _ (credit (cou_delta_collateral o)) (λ _, 0)).
    { apply open_or_update_position_effect; try done; [|by rewrite E2, E1].
      apply mcr_16. by eapply (wf_feeds s2 Hwf2). }
    intros [id old] s3 Hwf3. unfold effect. dstep. dstep. dstep; btrue.
    - dstep. dstep. dstep. dstep. btrue. simpl in *. same_entries. gap_leaf. rewrite (credit_zero a (get_collateral v)) by done. lia.
    - dstep. apply after_none; [|intros; by apply effect_ret].
      destruct (bd_is_prediction_market bd); [by apply effect_ret|].
      apply after_none; [by apply check_call_orders_effect|]. intros called s4 Hwf4.
      apply reads_effect; [apply check_position_reads|done]. }
  intros a. simpl. lia.
Qed.

(** The evaluation that passed found the collateral to be the backing asset. *)
Lemma position_backing i o s : post (call_order_update_do_evaluate i o) s (λ _ s', delta_backed o (asset_part s)).
Proof.
  unfold call_order_update_do_evaluate. do 12 dstep. btrue. intros _ _ _. by do 3 eexists.
Qed.

#[export] Instance call_order_update_conserves :
  ConservingEvaluator call_order_update_evaluator (λ o, positions_updated = true ∧
    in64 (amount (cou_delta_debt o)) ∧ in64 (amount (cou_delta_collateral o))).
Proof.
  apply (checked_conserving _ _ _ _ (λ o _ part, delta_backed o part)).
  { intros. unfold call_order_update_do_evaluate, get_balance. solve_reads. }
  { intros i o e s _ _ _ Heval. exact (position_backing i o s e s Heval). }
  intros i o [] s (Hu & Hd & Hc) Hwf Hback. by apply call_order_update_effect.
Qed.
End positions.
