(* ===== verification/CreateSupply.v ===== *)
(** * Creating an asset conserves the supply

    Half of the fee is paid, the other half is the fee pool of the new asset;
    the dynamic data and the bitasset data are created before the asset that
    refers to them. *)

From S2P Require Import Prelude Ext Config Asset Objects Parameters Governance Blocks Names Operations Validation Fees Ledger Database Balance Market Evaluator AssetEval Exchange Supply MarketSupply MatchSupply EvalSupply Frame OperationSupply.

Section create_supply.
Context {X : Ext} {R : Regime} {P : Packing} {N : NthElement}.

(** Data that no asset refers to does not count. *)
Lemma dyn_field_fresh f a ids assets dyns d :
  map_Forall (refs_ok ids) assets →
  dyn_field f a assets (<[ni_dynamic ids := d]> dyns) = dyn_field f a assets dyns.
Proof.
  intros Hrefs. unfold dyn_field. destruct (assets !! a) as [ao|] eqn:Ha; simpl; [|done].
  destruct (Hrefs a ao Ha) as (_ & Hlt & _). by rewrite lookup_insert_ne by lia.
Qed.

(** [refs_ok] survives handing out more ids. *)
Lemma refs_ok_mono ids ids' (assets : gmap Z asset_object) :
  ni_asset ids ≤ ni_asset ids' → ni_dynamic ids ≤ ni_dynamic ids' → ni_bitasset ids ≤ ni_bitasset ids' →
  map_Forall (refs_ok ids) assets → map_Forall (refs_ok ids') assets.
Proof.
  intros Ha Hd Hb Hr a ao Hao. destruct (Hr a ao Hao) as (H1 & H2 & H3).
  split_and!; [lia|lia|]. intros b Hbd. specialize (H3 b Hbd). lia.
Qed.

(** ** The three objects

    The state after each creation: the invariant and the gaps. *)

Definition with_dynamic (d : asset_dynamic_data_object) (s : database) : database :=
  set_d_next_ids (set_ni_dynamic (ni_dynamic (d_next_ids s) + 1) (d_next_ids s))
    (set_d_dynamic (<[ni_dynamic (d_next_ids s) := d]> (d_dynamic s)) s).

Lemma with_dynamic_spec pending d s :
  wf_but pending s → dyn_ok d → d_dynamic s !! ni_dynamic (d_next_ids s) = None →
  wf_but pending (with_dynamic d s) ∧ ∀ a, gap a (with_dynamic d s) = gap a s + core_credit (fee_pool d) a.
Proof.
  intros Hwf Hd Hfresh. split.
  - apply mk_wf; simpl; try apply Hwf.
    + eapply refs_ok_mono; [..|apply Hwf]; simpl; lia.
    + by apply map_Forall_insert_2; [|apply Hwf].
  - intros a. rewrite !gap_eq; simpl. rewrite (dyn_field_fresh dyn_net a (d_next_ids s)) by apply Hwf.
    unfold pools_of. rewrite msum_insert_fresh by done. credits.
Qed.

Definition with_bitasset (bd : asset_bitasset_data_object) (s : database) : database :=
  set_d_next_ids (set_ni_bitasset (ni_bitasset (d_next_ids s) + 1) (d_next_ids s))
    (set_d_bitassets (<[ni_bitasset (d_next_ids s) := bd]> (d_bitassets s)) s).

Lemma with_bitasset_spec a opts pm s :
  wf s → bo_short_backing_asset opts ≠ a → d_bitassets s !! ni_bitasset (d_next_ids s) = None →
  let s' := with_bitasset (new_bitasset_data a opts pm) s in
  wf_but (λ b x, b = ni_bitasset (d_next_ids s) ∧ x = a) s' ∧ ∀ x, gap x s' = gap x s.
Proof.
  intros Hwf Hback Hfresh. split.
  - apply mk_wf; simpl; try apply Hwf.
    + eapply refs_ok_mono; [..|apply Hwf]; simpl; lia.
    + apply map_Forall_insert_2; [|apply Hwf]. by split_and!.
    + apply map_Forall_insert_2; [|apply Hwf]. split; [by split; [left|]|apply map_Forall_empty].
    + intros b bo i bd Hb Hi Hbd. destruct (wf_refs s Hwf b bo Hb) as (_ & _ & Hlt).
      specialize (Hlt i Hi). rewrite lookup_insert_ne in Hbd by lia. by eapply (wf_back_refs s Hwf).
    + apply map_Forall_insert_2; [by right|]. intros b bd Hbd.
      destruct (wf_owned s Hwf b bd Hbd) as [Ho|[]]. by left.
    + apply positions_new_bitasset; [apply Hwf|done].
  - intros x. rewrite !gap_eq; simpl. unfold funds_of. rewrite msum_insert_fresh by done.
    unfold fund_credit. rewrite credit_zero by done. lia.
Qed.

Definition with_asset (ao : asset_object) (s : database) : database :=
  set_d_next_ids (set_ni_asset (ni_asset (d_next_ids s) + 1) (d_next_ids s))
    (set_d_assets (<[ni_asset (d_next_ids s) := ao]> (d_assets s)) s).

Lemma with_asset_spec pending ao d s :
  wf_but pending s →
  (∀ b a, pending b a → as_bitasset_data_id ao = Some b ∧ a = ni_asset (d_next_ids s)) → fee_options_ok ao →
  as_dynamic_asset_data_id ao < ni_dynamic (d_next_ids s) →
  (∀ b bo, d_assets s !! b = Some bo → as_dynamic_asset_data_id bo ≠ as_dynamic_asset_data_id ao) →
  (∀ b, as_bitasset_data_id ao = Some b → b < ni_bitasset (d_next_ids s) ∧
     ∀ bd, d_bitassets s !! b = Some bd → bd_asset_id bd = ni_asset (d_next_ids s)) →
  d_dynamic s !! as_dynamic_asset_data_id ao = Some d → d_assets s !! ni_asset (d_next_ids s) = None →
  wf (with_asset ao s) ∧
  ∀ a, gap a (with_asset ao s) = gap a s + credit (mk_asset (dyn_net d) (ni_asset (d_next_ids s))) a.
Proof.
  intros Hwf Hpend Hopt Hlt Hne Hbit Hd Hfresh. split.
  - apply mk_wf; simpl; try apply Hwf.
    + intros b c bo co Hb Hc Hbc. apply lookup_insert_Some in Hb as [[<- <-]|[_ Hb]];
        apply lookup_insert_Some in Hc as [[<- <-]|[_ Hc]].
      * done.
      * by destruct (Hne _ _ Hc).
      * by destruct (Hne _ _ Hb).
      * by eapply (wf_dyn_inj s Hwf).
    + apply map_Forall_insert_2.
      * split_and!; simpl; [lia|done|]. intros b Hb. by destruct (Hbit b Hb).
      * eapply refs_ok_mono; [..|apply Hwf]; simpl; lia.
    + apply map_Forall_insert_2; [done|apply Hwf].
    + intros b bo i bd Hb Hi Hbd. apply lookup_insert_Some in Hb as [[<- <-]|[_ Hb]].
      * by apply (Hbit i Hi).
      * by eapply (wf_back_refs s Hwf).
    + intros b bd Hbd. left. destruct (wf_owned s Hwf b bd Hbd) as [(bo & Hbo & Hb)|[Hb Ha]%Hpend].
      * exists bo. split; [|done]. rewrite lookup_insert_ne; [done|]. congruence.
      * exists ao. by rewrite Ha, lookup_insert_eq.
  - intros a. rewrite !gap_eq; simpl. enough (dyn_field dyn_net a (<[ni_asset (d_next_ids s):=ao]> (d_assets s)) (d_dynamic s)
      = dyn_field dyn_net a (d_assets s) (d_dynamic s) + credit (mk_asset (dyn_net d) (ni_asset (d_next_ids s))) a) by lia.
    unfold dyn_field, credit; simpl. destruct (Z.eqb_spec (ni_asset (d_next_ids s)) a) as [<-|Hx].
    + rewrite lookup_insert_eq, Hfresh; simpl. rewrite Hd; simpl. lia.
    + rewrite lookup_insert_ne by done. lia.
Qed.

Lemma post_create_dynamic d s (Q : Z → database → Prop) :
  (d_dynamic s !! ni_dynamic (d_next_ids s) = None → Q (ni_dynamic (d_next_ids s)) (with_dynamic d s)) →
  post (create_dynamic d) s Q.
Proof. intros HQ. dstep. subst id. by apply HQ. Qed.
Lemma post_create_bitasset bd s (Q : Z → database → Prop) :
  (d_bitassets s !! ni_bitasset (d_next_ids s) = None → Q (ni_bitasset (d_next_ids s)) (with_bitasset bd s)) →
  post (create_bitasset bd) s Q.
Proof. intros HQ. dstep. subst id. by apply HQ. Qed.
Lemma post_create_asset ao s (Q : Z → database → Prop) :
  (d_assets s !! ni_asset (d_next_ids s) = None → Q (ni_asset (d_next_ids s)) (with_asset ao s)) →
  post (create_asset ao) s Q.
Proof. intros HQ. dstep. subst id. by apply HQ. Qed.

(** ** The evaluator *)

Lemma asset_create_checked i op :
  ∀ s, post (asset_create_do_evaluate i op) s (λ _ _, ∀ opts, acr_bitasset_opts op = Some opts →
    is_Some (d_assets s !! bo_short_backing_asset opts)).
Proof.
  intros s. unfold asset_create_do_evaluate. dstep. apply (post_mono _ _ (λ _ s', s' = s)).
  { assert (reads (authorities_ok (acr_common_options op))) as Hr
      by (unfold authorities_ok; solve_reads). apply Hr. }
  intros u1 s1 ->. dstep. apply (post_mono _ _ (λ _ s', s' = s)).
  { assert (reads (symbol_ok op)) as Hr by (unfold symbol_ok; solve_reads). apply Hr. }
  intros u2 s2 ->. dstep.
  apply (post_mono _ _ (λ _ _, ∀ opts, acr_bitasset_opts op = Some opts →
    is_Some (d_assets s !! bo_short_backing_asset opts))).
  { destruct (acr_bitasset_opts op) as [opts|]; [|by dstep]. unfold new_bitasset_ok. dstep. dstep.
    dstep. dstep. intros x s' _ o [= <-]. eauto. }
  intros u3 s3 H x s' _. exact H.
Qed.

(** The core supply follows the unit that halving an odd fee creates. *)
Lemma odd_unit_spec (b : bool) s (Q : unit → database → Prop) :
  wf s →
  (∀ D, wf (set_d_dynamic D s) →
     (∀ a, gap a (set_d_dynamic D s) = gap a s - core_credit (if b then 1 else 0) a) →
     (∀ k, (∀ a ao, d_assets s !! a = Some ao → as_dynamic_asset_data_id ao ≠ k) →
        D !! k = d_dynamic s !! k) →
     Q tt (set_d_dynamic D s)) →
  post (if b then modify_dynamic_of CORE (λ dd,
          let? v := safe (current_supply dd + 1) in Ok (set_current_supply v dd)) else ret tt) s Q.
Proof.
  intros Hwf HQ. destruct b.
  - unfold modify_dynamic_of. dstep. dstep. dstep. inv_ok. apply HQ; [wf_solve| |].
    + intros a. rewrite !gap_eq; simpl. erewrite dyn_field_insert by eauto using wf_dyn_inj.
      unfold pools_of. erewrite msum_insert_some by eassumption. unfold dyn_net, issuer_held; simpl. credits.
    + intros k Hk. by rewrite lookup_insert_ne by eauto.
  - dstep. assert (set_d_dynamic (d_dynamic s) s = s) as E by (by destruct s). rewrite <- E at 1.
    apply HQ; rewrite ?E; [done| |done]. intros a. unfold core_credit. rewrite credit_zero by done. lia.
Qed.

Lemma asset_create_do_apply_effect i odd core op u s :
  wf s → new_options_ok (acr_common_options op) →
  (∀ opts, acr_bitasset_opts op = Some opts → is_Some (d_assets s !! bo_short_backing_asset opts)) →
  effect (asset_create_do_apply i (odd, core) op u) s
         (core_credit (core - (if odd : bool then 1 else 0))).
Proof.
  intros Hwf Hopt Hback. unfold effect, asset_create_do_apply. dstep. dstep. dstep. dstep.
  intros pool Hpool. dstep. apply post_create_dynamic. intros Hfresh1.
  destruct (with_dynamic_spec none_pending (mk_asset_dynamic_data 0 0 0 pool) s Hwf) as [Hwf1 Hg1]; [done|done|].
  cbn [fee_pool] in Hg1.
  set (s1 := with_dynamic (mk_asset_dynamic_data 0 0 0 pool) s) in *.
  assert (d_assets s1 = d_assets s) as Ha1 by done. dstep. apply odd_unit_spec; [done|].
  intros D Hwf2 Hg2 HD. dstep. dstep. dstep.
  assert (D !! ni_dynamic (d_next_ids s) = Some (mk_asset_dynamic_data 0 0 0 pool)) as HDd.
  { rewrite HD; [apply lookup_insert_eq|]. intros a ao Hao. rewrite Ha1 in Hao.
    destruct (wf_refs s Hwf a ao Hao) as (_ & Hlt & _). lia. }
  apply (post_mono _ _ (λ bit s3,
     wf_but (λ b a, bit = Some b ∧ a = ni_asset (d_next_ids s3)) s3 ∧ (∀ a, gap a s3 = gap a (set_d_dynamic D s1)) ∧
     d_assets s3 = d_assets s ∧ d_dynamic s3 = D ∧ ni_asset (d_next_ids s3) = ni_asset (d_next_ids s) ∧
     ni_dynamic (d_next_ids s3) = ni_dynamic (d_next_ids s) + 1 ∧
     ∀ b, bit = Some b → b < ni_bitasset (d_next_ids s3) ∧
       ∀ bd, d_bitassets s3 !! b = Some bd → bd_asset_id bd = ni_asset (d_next_ids s))).
  { destruct (acr_bitasset_opts op) as [opts|] eqn:Eo.
    - dstep. apply post_create_bitasset. intros Hfresh3.
      destruct (with_bitasset_spec (ni_asset (d_next_ids s)) opts (acr_is_prediction_market op) (set_d_dynamic D s1))
        as [Hwf3 Hg3]; [done| |done|].
      { destruct (Hback opts eq_refl) as [ao Hao]. destruct (wf_refs s Hwf _ ao Hao) as (Hlt & _). lia. }
      dstep. split_and!; try done.
      { eapply wf_but_mono; [|exact Hwf3]. simpl. by intros b a [-> ->]. }
      intros b [= <-]. split; [simpl; lia|]. intros bd Hbd. simpl in Hbd. rewrite lookup_insert_eq in Hbd. by injection Hbd as <-.
    - dstep. split_and!; try done. by eapply wf_but_mono; [|exact Hwf2]. }
  intros bit s3 (Hwf3 & Hg3 & Ha3 & Hd3 & Hna3 & Hnd3 & Hb3). dstep. apply post_create_asset. intros Hfresh4.
  match goal with |- post _ (with_asset ?ao _) _ =>
    destruct (with_asset_spec _ ao (mk_asset_dynamic_data 0 0 0 pool) s3 Hwf3) as [Hwf4 Hg4]; simpl;
      [try done|try done|try done|try done|try done|idtac|exact Hfresh4|idtac] end.
  - rewrite Hnd3. lia.
  - intros b bo Hbo. rewrite Ha3 in Hbo. destruct (wf_refs s Hwf b bo Hbo) as (_ & Hlt & _). lia.
  - intros b Hb. destruct (Hb3 b Hb) as [H1 H2]. split; [done|]. intros bd Hbd. rewrite Hna3. eauto.
  - by rewrite Hd3.
  - dstep. dstep. split; [done|]. intros a. rewrite Hg4, Hg3, Hg2, Hg1. unfold dyn_net, issuer_held. cbn [accumulated_fees confidential_supply current_supply].
    inv_ok. destruct odd; simpl; [destruct (HARDFORK_CORE_429_TIME <? d_head_block_time s)|]; simpl; credits.
Qed.

#[export] Instance asset_create_conserves :
  ConservingEvaluator asset_create_evaluator (λ op, new_options_ok (acr_common_options op)).
Proof.
  split.
  { intros i op. simpl. unfold asset_create_do_evaluate, new_bitasset_ok, symbol_ok, authorities_ok.
    solve_reads. }
  intros ts i op e s Hopt Hwf Hmod Hi Hskip Heval.
  pose proof (asset_create_checked i op s e s Heval) as Hback. simpl in Hback.
  unfold effect. cbn [ev_convert_fee ev_pay_fee ev_do_apply asset_create_evaluator]. dstep.
  intros u s1 Hrun1. destruct (convert_fee_effect ts i s Hwf Hi Hskip u s1 Hrun1) as [Hwf1 Hg1].
  pose proof (convert_fee_assets ts i s u s1 Hrun1) as Ha1. simpl in Ha1.
  unfold asset_create_pay_fee. dstep. dstep. dstep. intros core Hcore. inv_ok. dstep.
  intros u2 s2 Hrun2.
  destruct (generic_pay_fee_effect ts (set_core_fee_paid (core_fee_paid i - Z.quot (core_fee_paid i) 2) i) s1 Hwf1 Hskip u2 s2 Hrun2)
    as [Hwf2 Hg2].
  pose proof (generic_pay_fee_assets _ _ _ _ _ Hrun2) as Ha2. simpl in Ha2. dstep.
  pcall asset_create_do_apply_effect; [done|done| |].
  { by rewrite Ha2, Ha1. }
  intros r s3 [Hwf3 Hg3]. split; [done|]. intros a. rewrite Hg3, Hg2, Hg1. simpl.
  destruct Hi as (Hc & _). pose proof (Z.quot_div_nonneg (core_fee_paid i) 2 Hc ltac:(lia)) as E.
  pose proof (Z.div_mod (core_fee_paid i) 2 ltac:(lia)) as Hdm. rewrite Zmod_odd in Hdm.
  rewrite E. unfold core_credit, credit; simpl. clear - Hdm. destruct (Z.odd _), (CORE =? a); lia.
Qed.
End create_supply.
