(* ===== verification/AccountSupply.v ===== *)
(** * Accounts, contracts, confidential transfers and proposals conserve the supply

    The instances of [ConservingEvaluator] for AccountEval.v, ContractEval.v,
    ConfidentialEval.v and ProposalEval.v, and that their operations leave the
    clock alone. *)

From S2P Require Import Prelude Ext Config Asset Objects Parameters Governance Blocks Names Operations Validation Fees Ledger Authority Database Vesting Balance Evaluator AssetEval AccountEval ContractEval ConfidentialEval ProposalEval Exchange Supply MarketSupply EvalSupply Frame GovernanceSupply OperationSupply.

Section account_supply.
Context {X : Ext} {R : Regime} {P : Packing}.

(** ** Accounts *)

Lemma reads_if_valid {A} (o : option A) f : (∀ x, reads (f x)) → reads (if_valid o f).
Proof. intros Hf. destruct o; [apply Hf|apply reads_ret]. Qed.
Lemma reads_authority_accounts a : reads (verify_authority_accounts a).
Proof. unfold verify_authority_accounts. readonly. Qed.
Lemma reads_predicate p : reads (predicate_evaluator p).
Proof. unfold predicate_evaluator. readonly. Qed.
Lemma reads_account_votes o : reads (verify_account_votes o).
Proof. unfold verify_account_votes, get_gov. readonly. Qed.
Lemma reads_special_authority a : reads (evaluate_special_authority a).
Proof. unfold evaluate_special_authority. readonly. Qed.
Lemma reads_buyback_options b : reads (evaluate_buyback_account_options b).
Proof. unfold evaluate_buyback_account_options. readonly. Qed.
Hint Resolve reads_if_valid reads_authority_accounts reads_account_votes reads_special_authority
  reads_buyback_options : reads.

Lemma create_statistics_effect st s : wf s → st_pending st = 0 → effect (create_statistics st) s (λ _, 0).
Proof.
  intros Hwf Hst. unfold effect. dstep. split; [wf_solve|]. intros a. rewrite !gap_eq. simpl.
  unfold pending_of. rewrite msum_insert_fresh by done. rewrite Hst, Z.add_0_l. lia.
Qed.

Lemma count_account_effect s : wf s → effect count_account s (λ _, 0).
Proof.
  intros Hwf. unfold count_account, get_gov, put_gov, effect. do 6 dstep. dstep; [dstep|]. dstep; [|no_effect].
  dstep. dstep. intros p _. no_effect.
Qed.

#[export] Instance account_create_conserves : PlainEvaluator account_create_evaluator.
Proof.
  apply plain_at_all_times; [unfold account_create_do_evaluate; solve_reads|].
  intros i op e s Hwf. unfold account_create_do_apply. eread. eread. eread. eread.
  apply after_none; [by apply create_statistics_effect|]. intros stats s1 Hwf1.
  apply after_none; [no_effect|]. intros id s2 Hwf2.
  apply after_none; [by apply count_account_effect|]. intros u s3 Hwf3.
  apply after_none; [destruct (_ || _); [no_effect|by apply effect_ret]|]. intros u4 s4 Hwf4.
  apply after_none; [|intros; by apply effect_ret].
  destruct (acc_buyback_options op); [|by apply effect_ret]. simpl.
  apply after_none; [no_effect|]. intros bid s5 Hwf5.
  apply modify_asset_effect; [done|]. intros ao ao' Hao [= <-]. split; [done|]. apply (wf_options s5 Hwf5 _ _ Hao).
Qed.

#[export] Instance account_update_conserves : PlainEvaluator account_update_evaluator.
Proof.
  apply plain_at_all_times; [unfold account_update_do_evaluate; solve_reads|].
  intros i op e s Hwf. unfold account_update_do_apply. eread.
  apply after_none.
  { destruct (acu_new_options op) as [n|]; simpl; [|by apply effect_ret].
    destruct (Bool.eqb _ _); [by apply effect_ret|].
    unfold effect. apply (post_statistics _ _ 0); [intros st st' [= <-]; unfold st_pending; simpl; lia|].
    intros S HS. gap_leaf. credits. }
  intros u s1 Hwf1. apply after_none; [by apply modify_account_effect|]. intros u2 s2 Hwf2. eread.
  apply after_none; [|intros; by apply effect_ret].
  destruct (_ && _); [|destruct (_ && _); [no_effect|by apply effect_ret]].
  eread. destruct (find_special_authority _ _); [no_effect|unfold effect; dstep].
Qed.

(** ** Contracts, assertions and custom operations *)
Section contracts.
Context {C : ContractMachine}.

#[export] Instance smart_contract_deploy_conserves : PlainEvaluator smart_contract_deploy_evaluator.
Proof.
  apply plain_at_all_times; [unfold contract_do_evaluate; solve_reads|].
  intros i op e s Hwf. unfold smart_contract_deploy_do_apply, effect. dstep. dstep. dstep. dstep. intros state _.
  no_effect.
Qed.

Lemma set_activation_effect addr account b s : wf s → effect (set_activation addr account b) s (λ _, 0).
Proof.
  intros Hwf. unfold set_activation, contract_at, update_contract_activate_status, effect.
  dstep. dstep. dstep. dstep. intros id _. dstep. dstep. dstep. dstep. dstep. dstep.
  destruct (find_contract_by_addr _ _); no_effect.
Qed.

#[export] Instance smart_contract_activate_conserves : PlainEvaluator smart_contract_activate_evaluator.
Proof.
  apply plain_at_all_times; [unfold contract_do_evaluate; solve_reads|].
  intros i op e s Hwf. by apply set_activation_effect.
Qed.
#[export] Instance smart_contract_deactivate_conserves : PlainEvaluator smart_contract_deactivate_evaluator.
Proof.
  apply plain_at_all_times; [unfold contract_do_evaluate; solve_reads|].
  intros i op e s Hwf. by apply set_activation_effect.
Qed.

#[export] Instance smart_contract_kill_conserves : PlainEvaluator smart_contract_kill_evaluator.
Proof.
  apply plain_at_all_times; [unfold contract_do_evaluate; solve_reads|].
  intros i op e s Hwf. unfold smart_contract_kill_do_apply, contract_at, effect.
  dstep. dstep. dstep. dstep. intros id _. no_effect.
Qed.

#[export] Instance smart_contract_call_conserves : PlainEvaluator smart_contract_call_evaluator.
Proof.
  apply plain_at_all_times; [unfold contract_do_evaluate; solve_reads|].
  intros i op e s Hwf. unfold smart_contract_call_do_apply, contract_at, effect.
  dstep. dstep. dstep. dstep. intros id _. no_effect.
Qed.

#[export] Instance custom_conserves : PlainEvaluator custom_evaluator.
Proof.
  apply plain_at_all_times; [unfold custom_do_evaluate; solve_reads|]. intros. by apply effect_ret.
Qed.

(** Any evaluator with the usual fee conserves the supply when its [do_apply] does. *)
#[export] Instance assert_conserves : ConservingEvaluator assert_evaluator always.
Proof.
  split; [simpl; unfold assert_do_evaluate, predicate_evaluator; solve_reads|].
  intros ts i op e s Hok Hwf Hmod Hi Hskip _. simpl. eapply effect_ext.
  { eapply effect_bind; [by apply convert_fee_effect|]. intros u s1 Hwf1.
    eapply effect_bind; [by apply generic_pay_fee_effect|]. intros u' s2 Hwf2. by apply effect_ret. }
  intros a. simpl. lia.
Qed.
End contracts.

(** ** Confidential transfers *)

Lemma pay_fba_fee_effect ts i id s :
  wf s → skip_fee ts = false → effect (pay_fba_fee ts i id) s (core_credit (core_fee_paid i)).
Proof.
  intros Hwf Hskip. unfold pay_fba_fee. eread. apply effect_read.
  pcall reads_is_configured. intros configured s' ->. split; [done|].
  destruct configured; [|by apply generic_pay_fee_effect]. unfold effect, modify_fba. simpl.
  apply post_modify. intros f f' Hf Hf'. inv_ok. gap_leaf. unfold core_credit. simpl. credits.
Qed.

Lemma confidential_pay_fee_effect id ts i s :
  wf s → skip_fee ts = false → effect (confidential_pay_fee id ts i) s (core_credit (core_fee_paid i)).
Proof.
  intros Hwf Hskip. unfold confidential_pay_fee. eread.
  destruct (_ <=? _); [by apply pay_fba_fee_effect|by apply generic_pay_fee_effect].
Qed.

(** The evaluators with this fee conserve the supply when [do_apply] does. *)
Lemma confidential_conserving {Op} (wrap : Op → operation) id (do_evaluate : fee_info → Op → DB unit)
    (do_apply : fee_info → unit → Op → unit → DB operation_result) (ok : Op → Prop) :
  (∀ i op, reads (do_evaluate i op)) →
  (∀ i op s, ok op → wf s → effect (do_apply i tt op tt) s (λ _, 0)) →
  ConservingEvaluator {| ev_operation := wrap; ev_convert_fee := convert_fee;
    ev_pay_fee := confidential_pay_fee id; ev_do_evaluate _ := do_evaluate; ev_do_apply := do_apply |} ok.
Proof.
  intros Hr Ha. split; [done|]. intros ts i op [] s Hok Hwf _ Hi Hskip _. simpl.
  eapply effect_ext.
  { eapply effect_bind; [by apply convert_fee_effect|]. intros u s1 Hwf1.
    eapply effect_bind; [by apply confidential_pay_fee_effect|]. intros [] s2 Hwf2. by apply Ha. }
  intros a. simpl. lia.
Qed.

Lemma reads_owners_exist l : reads (owners_exist l).
Proof. unfold owners_exist. solve_reads. Qed.
Lemma reads_inputs_known a l : reads (inputs_known a l).
Proof. unfold inputs_known. readonly. Qed.
Hint Resolve reads_owners_exist reads_inputs_known : reads.

Lemma remove_inputs_effect l s : wf s → effect (remove_inputs l) s (λ _, 0).
Proof.
  intros Hwf. apply (for_each_effect (λ _, True)); [|done|done|done]. intros i s1 Hwf1 _.
  unfold effect. do 4 dstep. intros id _. no_effect.
Qed.
Lemma create_outputs_effect asset l s : wf s → effect (create_outputs asset l) s (λ _, 0).
Proof.
  intros Hwf. apply (for_each_effect (λ _, True)); [|done|done|done]. intros out s1 Hwf1 _. no_effect.
Qed.
Lemma add_confidential_supply_effect asset x s :
  wf s → effect (add_confidential_supply asset x) s (credit (mk_asset x asset)).
Proof.
  intros Hwf. unfold effect, add_confidential_supply.
  eapply (post_dynamic_of _ _ x 0); [done|dyn_fields|]. intros D HD HP HO. gap_leaf. lia.
Qed.

#[export] Instance transfer_to_blind_conserves : ConservingEvaluator transfer_to_blind_evaluator always.
Proof.
  apply confidential_conserving; [unfold transfer_to_blind_do_evaluate; solve_reads|].
  intros i op s _ Hwf. unfold transfer_to_blind_do_apply. apply effect_read. dstep. intros neg Hneg. split; [done|].
  unfold asset_neg in Hneg. inv_ok. eapply effect_ext.
  { eapply effect_bind; [by apply adjust_balance_effect|]. intros u s1 Hwf1.
    eapply effect_bind; [by apply add_confidential_supply_effect|]. intros u2 s2 Hwf2.
    apply after_none; [by apply create_outputs_effect|]. intros. by apply effect_ret. }
  intros a. simpl. rewrite credit_opp, credit_eta. lia.
Qed.

#[export] Instance transfer_from_blind_conserves :
  ConservingEvaluator transfer_from_blind_evaluator (λ o, asset_id (tfb_amount o) = asset_id (tfb_fee o)).
Proof.
  apply confidential_conserving; [unfold transfer_from_blind_do_evaluate; solve_reads|].
  intros i op s Hid Hwf. unfold transfer_from_blind_do_apply. eapply effect_ext.
  { eapply effect_bind; [by apply adjust_balance_effect|]. intros u s1 Hwf1.
    eapply effect_bind; [by apply adjust_balance_effect|]. intros u2 s2 Hwf2.
    eapply effect_bind; [by apply remove_inputs_effect|]. intros u3 s3 Hwf3.
    apply effect_read. dstep. intros sum Hsum. split; [done|]. inv_ok.
    eapply effect_bind; [by apply add_confidential_supply_effect|]. intros u4 s4 Hwf4. by apply effect_ret. }
  intros a. simpl. destruct (tfb_amount op), (tfb_fee op). simpl in *. subst. credits.
Qed.

#[export] Instance blind_transfer_conserves : ConservingEvaluator blind_transfer_evaluator always.
Proof.
  apply confidential_conserving; [unfold blind_transfer_do_evaluate; solve_reads|].
  intros i op s _ Hwf. unfold blind_transfer_do_apply. eapply effect_ext.
  { eapply effect_bind; [by apply adjust_balance_effect|]. intros u s1 Hwf1.
    eapply effect_bind; [by apply remove_inputs_effect|]. intros u2 s2 Hwf2.
    eapply effect_bind; [by apply create_outputs_effect|]. intros u3 s3 Hwf3.
    eapply effect_bind; [by apply add_confidential_supply_effect|]. intros u4 s4 Hwf4. by apply effect_ret. }
  intros a. simpl. rewrite credit_opp, credit_eta. lia.
Qed.
End account_supply.
#[export] Hint Resolve reads_if_valid reads_authority_accounts reads_account_votes reads_special_authority
  reads_buyback_options reads_predicate reads_owners_exist reads_inputs_known : reads.
