(* ===== verification/ChainSupply.v ===== *)
(** * Proposals conserve the supply

    The instances of [ConservingEvaluator] for ProposalEval.v. A stored proposal
    holds operations that passed validation when it was created ([proposal_ok], a
    part of the invariant), so its execution conserves the supply when the
    application of operations does. *)

From S2P Require Import Prelude Ext Config Asset Objects Parameters Governance Blocks Names Operations Validation Fees Ledger Authority Database Vesting Balance Market Matching OrderBook Feeds Evaluator MarketEval AssetEval BitassetEval TransferEval GovernanceEval AccountEval ContractEval ConfidentialEval ProposalEval WithdrawEval Transactions Exchange Supply MarketSupply MatchSupply EvalSupply Frame GovernanceSupply OperationSupply BitassetSupply CreateSupply AccountSupply.

Section proposal_supply.
Context {X : Ext} {R : Regime} {P : Packing}.

(** A change of the proposals that keeps their operations applicable. *)
Lemma set_proposals_wf ids m s :
  wf s → map_Forall (λ _, proposal_ok) m →
  ni_asset ids = ni_asset (d_next_ids s) → ni_dynamic ids = ni_dynamic (d_next_ids s) →
  ni_bitasset ids = ni_bitasset (d_next_ids s) →
  wf (set_d_next_ids ids (set_d_proposals m s)).
Proof.
  intros Hwf Hm Ha Hd Hb. apply mk_wf; simpl; try apply Hwf; [|exact Hm].
  intros a ao Hao. unfold refs_ok. rewrite Ha, Hd, Hb. exact (wf_refs s Hwf a ao Hao).
Qed.

Lemma modify_proposal_effect id f s :
  wf s → (∀ p p', f p = Ok p' → po_proposed_transaction p' = po_proposed_transaction p) →
  effect (modify_proposal id f) s (λ _, 0).
Proof.
  intros Hwf Hf. unfold effect. dstep. split.
  - apply mk_wf; simpl; try apply Hwf. apply map_Forall_insert_2; [|apply Hwf]. unfold proposal_ok.
    rewrite (Hf v v') by done. by apply (wf_proposals s Hwf id).
  - intros a. rewrite !gap_eq. simpl. lia.
Qed.

Lemma remove_proposal_effect id s : wf s → effect (remove_proposal id) s (λ _, 0).
Proof.
  intros Hwf. unfold effect. dstep. split.
  - apply mk_wf; simpl; try apply Hwf. apply map_Forall_delete, Hwf.
  - intros a. rewrite !gap_eq. simpl. lia.
Qed.

#[export] Instance proposal_create_conserves :
  ConservingEvaluator proposal_create_evaluator (λ o, Forall op_ok (prc_proposed_ops o)).
Proof.
  apply plain_conserving; [unfold proposal_create_do_evaluate; solve_reads|].
  intros i op e s Hops Hwf. unfold effect, proposal_create_do_apply. dstep. dstep. dstep. split.
  - apply set_proposals_wf; try done. by apply map_Forall_insert_2; [|apply Hwf].
  - intros a. rewrite !gap_eq. simpl. lia.
Qed.

#[export] Instance proposal_delete_conserves : PlainEvaluator proposal_delete_evaluator.
Proof.
  apply plain_at_all_times; [unfold proposal_delete_do_evaluate; solve_reads|].
  intros i op e s Hwf. unfold proposal_delete_do_apply.
  apply after_none; [by apply remove_proposal_effect|]. intros. by apply effect_ret.
Qed.

Lemma reads_is_authorized {K : KeyAddresses} p : reads (is_authorized_to_execute p).
Proof.
  intros s b s'. unfold is_authorized_to_execute. destruct (verify_authority _ _ _ _ _ _ _ _); [by intros [= _ <-]|].
  destruct (is_fc_exception e); [by intros [= _ <-]|done].
Qed.

(** The update executes a proposal: [push_proposal] is assumed to conserve the
    supply. *)
Section update.
Context {K : KeyAddresses} (push_proposal : Z → DB unit).
#[local] Set Default Proof Using "Type*".
Hypothesis push_effect : ∀ id s, wf s → modern s → effect (push_proposal id) s (λ _, 0).

Lemma try_push_effect id s : wf s → modern s → effect (try_push push_proposal id) s (λ _, 0).
Proof.
  intros Hwf Hmod u s'. unfold try_push. destruct (push_proposal id s) as [[u1 s1]|e] eqn:E.
  - intros [= _ <-]. by apply (push_effect id s Hwf Hmod u1).
  - destruct (is_fc_exception e); [|done]. intros [= _ <-]. split; [done|]. intros. lia.
Qed.

Lemma proposal_update_conserves : ConservingEvaluator (proposal_update_evaluator push_proposal) always.
Proof.
  split; [simpl; unfold proposal_update_do_evaluate; solve_reads|].
  intros ts i op e s _ Hwf Hmod Hi Hskip _. simpl. eapply effect_ext.
  { eapply effect_bind_clock; [done|apply convert_fee_clock|by apply convert_fee_effect|]. intros u s1 Hwf1 Hmod1.
    eapply effect_bind_clock; [done|apply generic_pay_fee_clock|by apply generic_pay_fee_effect|].
    intros u' s2 Hwf2 Hmod2. unfold proposal_update_do_apply.
    eapply effect_bind_time; [done|unfold modify_proposal; frame| |].
    { apply modify_proposal_effect; [done|]. by intros p p' [= <-]. }
    intros u3 s3 Hwf3 Hmod3. eread. destruct (bool_decide _); [by apply effect_ret|].
    apply effect_read. pcall reads_is_authorized. intros authorized s' ->. split; [done|].
    apply after_none; [|intros; by apply effect_ret].
    destruct authorized; [by apply try_push_effect|by apply effect_ret]. }
  intros a. simpl. lia.
Qed.
End update.
End proposal_supply.

(** * Transactions conserve the supply of every asset

    The dispatch of Transactions.v on top of the instances of [ConservingEvaluator]:
    applying an operation, a proposal and a transaction keeps the invariant and the
    gap of every asset; none of them changes the epoch, and only the operations on
    proposals change what is proposed. *)

Section chain_supply.
Context {X : Ext} {R : Regime} {P : Packing} {N : NthElement} {K : KeyAddresses} {C : ContractMachine}.

(** ** The clock *)

Lemma start_evaluate_clock {Op E F} {Ev : Evaluator Op E F} ts op :
  (∀ i, keeps_clock (ev_do_evaluate ts i op)) →
  (∀ i, keeps_clock (ev_convert_fee ts i)) → (∀ i, keeps_clock (ev_pay_fee ts i)) →
  (∀ i f e, keeps_clock (ev_do_apply i f op e)) →
  keeps_clock (start_evaluate ts op).
Proof.
  intros He Hc Hp Ha. unfold start_evaluate, evaluate, apply, prepare_fee, detail_is_authorized_asset.
  frame.
Qed.
Lemma start_evaluate_epoch {Op E F} {Ev : Evaluator Op E F} ts op :
  (∀ i, keeps_epoch (ev_do_evaluate ts i op)) →
  (∀ i, keeps_epoch (ev_convert_fee ts i)) → (∀ i, keeps_epoch (ev_pay_fee ts i)) →
  (∀ i f e, keeps_epoch (ev_do_apply i f op e)) →
  keeps_epoch (start_evaluate ts op).
Proof.
  intros He Hc Hp Ha. unfold start_evaluate, evaluate, apply, prepare_fee, detail_is_authorized_asset.
  frame.
Qed.

Lemma move_debt_clock o : keeps_clock (move_debt o).
Proof. unfold move_debt. frame. Qed.
Lemma move_collateral_clock o : keeps_clock (move_collateral o).
Proof. unfold move_collateral. frame. Qed.
Lemma asset_create_do_apply_clock i f o e : keeps_clock (asset_create_do_apply i f o e).
Proof. unfold asset_create_do_apply. frame. Qed.
Lemma cancel_settlements_clock fuel a : keeps_clock (cancel_settlements fuel a).
Proof. induction fuel; simpl; frame. Qed.
Lemma check_children_clock l nb a b : keeps_clock (check_children l nb a b).
Proof. induction l; simpl; frame. Qed.
Hint Resolve check_children_clock : frames.
Lemma check_children_of_clock o l b : keeps_clock (check_children_of_bitasset o l b).
Proof. unfold check_children_of_bitasset. frame. Qed.
Lemma is_publisher_clock f p m : keeps_clock (is_publisher f p m).
Proof. unfold is_publisher. frame. Qed.
Hint Resolve move_debt_clock move_collateral_clock asset_create_do_apply_clock
  cancel_settlements_clock check_children_of_clock is_publisher_clock : frames.

Lemma set_activation_clock addr a b : keeps_clock (set_activation addr a b).
Proof. unfold set_activation, contract_at, update_contract_activate_status. frame. Qed.
Lemma pay_fba_fee_clock ts i id : keeps_clock (pay_fba_fee ts i id).
Proof. unfold pay_fba_fee. frame. Qed.
Lemma count_account_clock : keeps_clock count_account.
Proof.
  unfold count_account. apply keeps_bind; [unfold put_gov; frame|]. intros _.
  apply keeps_bind; [unfold get_gov; frame|]. intros registered s. dstep. dstep.
  destruct (_ =? _); [intros ? ? [=]|]. destruct (_ && _); [|by dstep]. dstep. dstep. intros p Hp. dstep.
  unfold scale_fees in Hp. repeat (case_match; simplify_eq/=); done.
Qed.
Lemma if_valid_clock {A} (o : option A) f : (∀ x, keeps_clock (f x)) → keeps_clock (if_valid o f).
Proof. intros Hf. destruct o; [apply Hf|apply keeps_reads, reads_ret]. Qed.
Hint Resolve set_activation_clock pay_fba_fee_clock count_account_clock : frames.
Lemma account_create_clock i f o e : keeps_clock (account_create_do_apply i f o e).
Proof.
  unfold account_create_do_apply. frame. apply if_valid_clock. intros. frame.
Qed.
Lemma account_update_clock i f o e : keeps_clock (account_update_do_apply i f o e).
Proof.
  unfold account_update_do_apply. apply keeps_bind; [frame|]. intros. apply keeps_bind; [apply if_valid_clock; intros; frame|].
  intros. frame.
Qed.
Hint Resolve account_create_clock account_update_clock : frames.
Lemma add_confidential_supply_clock a x : keeps_clock (add_confidential_supply a x).
Proof. unfold add_confidential_supply. frame. Qed.
Lemma confidential_pay_fee_clock id ts i : keeps_clock (confidential_pay_fee id ts i).
Proof. unfold confidential_pay_fee. frame. Qed.
Lemma remove_inputs_clock l : keeps_clock (remove_inputs l).
Proof. unfold remove_inputs. frame. Qed.
Lemma create_outputs_clock a l : keeps_clock (create_outputs a l).
Proof. unfold create_outputs. frame. Qed.
Hint Resolve add_confidential_supply_clock confidential_pay_fee_clock remove_inputs_clock create_outputs_clock : frames.

(** The operations on proposals *)
Definition on_proposal (op : operation) : bool :=
  match op with
  | op_proposal_create _ | op_proposal_update _ | op_proposal_delete _ => true
  | _ => false
  end.

Lemma evaluate_operation_clock push ts op :
  on_proposal op = false → keeps_clock (evaluate_operation push ts op).
Proof.
  intros Hop. destruct op; try discriminate Hop; simpl; try (apply start_evaluate_clock; intros; simpl); frame.
Qed.

Lemma proposal_update_epoch push i f o e :
  (∀ id, keeps_epoch (push id)) → keeps_epoch (proposal_update_do_apply push i f o e).
Proof.
  intros Hp. unfold proposal_update_do_apply, modify_proposal. apply keeps_bind; [frame|]. intros _.
  apply keeps_bind; [frame|]. intros p. destruct (bool_decide _); [frame|].
  apply keeps_bind; [apply keeps_reads, reads_is_authorized|]. intros authorized.
  apply keeps_bind; [|intros; frame]. destruct authorized; [|frame].
  intros s u s'. unfold try_push. destruct (push _ s) as [[u1 s1]|e1] eqn:E.
  - intros [= <- <-]. apply (Hp _ s u1 s1 E).
  - destruct (is_fc_exception e1); [by intros [= _ <-]|done].
Qed.

Lemma evaluate_operation_epoch push ts op :
  (∀ id, keeps_epoch (push id)) → keeps_epoch (evaluate_operation push ts op).
Proof.
  intros Hp. destruct (on_proposal op) eqn:Hop; [|by apply clock_epoch, evaluate_operation_clock].
  destruct op; try discriminate Hop; simpl; apply start_evaluate_epoch; intros; simpl;
    try (apply clock_epoch; first [apply convert_fee_clock|apply generic_pay_fee_clock]);
    try (by apply proposal_update_epoch); frame.
Qed.

(** ** Validated operations *)

Lemma publish_feed_validated o :
  asset_publish_feed_validate o = Ok tt → op_typed (op_asset_publish_feed o) →
  feed_for (apf_asset_id o) (apf_feed o).
Proof.
  unfold asset_publish_feed_validate. intros H Hfits. inv_ok.
  match goal with u : unit, Hv : price_feed_validate _ = Ok ?u' |- _ => destruct u' end.
  apply feed_validated; [done|done|by btrue|]. by apply negb_true_iff.
Qed.

Lemma bid_validated o :
  validate (op_bid_collateral o) = Ok tt → op_typed (op_bid_collateral o) → bid_amounts_ok o.
Proof.
  simpl. intros H [[? ?] [? ?]]. inv_ok. unfold bid_amounts_ok. repeat (case_match; btrue); lia.
Qed.

Lemma options_validated o :
  asset_options_validate o = Ok tt → 0 ≤ o_market_fee_percent o → new_options_ok o.
Proof. unfold asset_options_validate, new_options_ok. intros H Hp. inv_ok. btrue. lia. Qed.

Lemma validate_all_ok {A} (f : A → res unit) l : validate_all f l = Ok tt → Forall (λ x, f x = Ok tt) l.
Proof.
  induction l as [|x l IH]; intros H; [done|]. simpl in H. inv_ok.
  match goal with u : unit |- _ => destruct u end. constructor; auto.
Qed.

Lemma typed_all l : foldr (λ op P, op_typed op ∧ P) True l → Forall op_typed l.
Proof. induction l as [|x l IH]; [done|]. intros [Hx Hl]. constructor; auto. Qed.

(** The operations of a proposal whose validation passed. *)
Lemma proposed_ok o : op_ok (op_proposal_create o) → Forall op_ok (prc_proposed_ops o).
Proof.
  intros (Hval & Htyped%typed_all & Hpos). simpl in Hval, Hpos. apply require_r_ok in Hval as [_ Hval].
  apply validate_all_ok in Hval. rewrite Forall_forall in *. intros op Hop. split_and!; [by apply Hval|by apply Htyped|].
  destruct (left_out op) eqn:E; [|done]. rewrite <- not_true_iff_false in Hpos. exfalso. apply Hpos.
  apply existsb_exists. exists op. split; [by apply list_elem_of_In|done].
Qed.

(** ** One operation *)

Section with_push.
Context (push_proposal : Z → DB unit).
#[local] Set Default Proof Using "Type*".
Hypothesis push_epoch : ∀ id, keeps_epoch (push_proposal id).

Lemma apply_operation_epoch ts op : keeps_epoch (apply_operation push_proposal ts op).
Proof.
  unfold apply_operation. apply keeps_bind; [apply clock_epoch; auto with frames|].
  intros. by apply evaluate_operation_epoch.
Qed.

Lemma apply_proposed_epoch skip id ops : keeps_epoch (apply_proposed push_proposal skip id ops).
Proof.
  unfold apply_proposed. apply keeps_for_each. intros op. apply keeps_bind; [apply apply_operation_epoch|].
  intros. frame.
Qed.
Hypothesis push_effect : ∀ id s, wf s → modern s → effect (push_proposal id) s (λ _, 0).

Lemma evaluate_operation_effect ts op s :
  wf s → modern s → skip_fee ts = false → op_ok op →
  effect (evaluate_operation push_proposal ts op) s (λ _, 0).
Proof.
  intros Hwf Hmod Hskip Hok. pose proof Hok as (Hval & Htyped & Hm).
  pose proof (proposal_update_conserves push_proposal push_effect).
  destruct op; try discriminate Hm; simpl in Hval, Htyped |- *;
    try (by apply start_evaluate_effect);
    try (apply start_evaluate_effect; [by apply proposed_ok|done|done|done]);
    try (apply start_evaluate_effect; [by apply negb_false_iff in Hm; split|done|done|done]);
    try (apply start_evaluate_effect; [intros Hu; simpl in Hm; rewrite Hu in Hm; by apply negb_false_iff in Hm|done|done|done]);
    try (apply start_evaluate_effect; try done; unfold asset_create_validate, asset_update_validate, transfer_from_blind_validate in *;
         inv_ok; btrue; repeat match goal with u : unit |- _ => destruct u end;
         first [ by apply options_validated | done ]);
    try (apply start_evaluate_effect; try done; first [by apply publish_feed_validated|by apply bid_validated]);
    unfold effect; dstep.
Qed.

Lemma apply_operation_effect ts op s :
  wf s → modern s → skip_fee ts = false → op_ok op → effect (apply_operation push_proposal ts op) s (λ _, 0).
Proof.
  intros Hwf Hmod Hskip Hok. unfold effect, apply_operation. dstep. dstep.
  match goal with |- post _ ?s1 _ => assert (wf s1 ∧ ∀ a, gap a s1 = gap a s) as [Hwf1 Hg1] end.
  { split; [wf_solve|]. intros a. by rewrite !gap_eq. }
  pcall evaluate_operation_effect; [done|done|done|done|]. intros r s' [Hwf' Hg'].
  split; [done|]. intros a. by rewrite Hg', Hg1.
Qed.

(** The operations of a proposal, one after the other. *)
Lemma apply_proposed_effect skip id ops : ∀ s,
  wf s → modern s → Forall op_ok ops → effect (apply_proposed push_proposal skip id ops) s (λ _, 0).
Proof.
  induction ops as [|op ops IH]; intros s Hwf Hmod Hops; [by apply effect_ret|].
  apply Forall_cons in Hops as [Hop Hops]. unfold apply_proposed. cbn [for_each].
  apply (effect_ext _ _ (λ a, 0 + 0)); [|done]. eapply effect_bind_time; [done| | |].
  - apply epoch_time, keeps_bind; [apply apply_operation_epoch|]. intros. frame.
  - apply after_none; [by apply apply_operation_effect|]. intros r s1 Hwf1. eread.
    destruct (bool_decide _); [by apply effect_ret|unfold effect; dstep].
  - intros u s1 Hwf1 Hmod1. by apply IH.
Qed.

End with_push.

(** ** Proposals *)

Lemma push_proposal_epoch fuel skip : ∀ depth id, keeps_epoch (push_proposal fuel skip depth id).
Proof.
  induction fuel as [|fuel IH]; intros depth id; simpl; [apply keeps_reads, reads_fail|].
  unfold get_gov. apply keeps_bind; [frame|]. intros p. apply keeps_bind; [frame|]. intros w. apply keeps_require.
  apply keeps_bind; [by apply apply_proposed_epoch|]. intros. unfold remove_proposal. frame.
Qed.

Lemma push_proposal_effect fuel skip : ∀ depth id s,
  wf s → modern s → effect (push_proposal fuel skip depth id) s (λ _, 0).
Proof.
  induction fuel as [|fuel IH]; intros depth id s Hwf Hmod; simpl; [unfold effect; dstep|].
  unfold get_gov. apply effect_read. dstep. split; [done|]. eread. unfold effect. dstep.
  apply after_none; [|intros; by apply remove_proposal_effect].
  apply apply_proposed_effect; [intros; apply push_proposal_epoch|auto|done|done|].
  by eapply (wf_proposals s Hwf).
Qed.

Lemma push_effect skip id s : wf s → modern s → effect (push skip id) s (λ _, 0).
Proof. intros Hwf Hmod. by apply push_proposal_effect. Qed.
Lemma push_epoch skip id : keeps_epoch (push skip id).
Proof. intros s. apply push_proposal_epoch. Qed.

(** ** A transaction *)

Lemma apply_operations_effect ts ops : ∀ s,
  wf s → modern s → skip_fee ts = false → Forall op_ok ops →
  effect (apply_operations ts ops) s (λ _, 0).
Proof.
  induction ops as [|op ops IH]; intros s Hwf Hmod Hskip Hops; simpl; [by apply effect_ret|].
  apply Forall_cons in Hops as [Hop Hops]. apply (effect_ext _ _ (λ a, 0 + 0)); [|done].
  eapply effect_bind_time; [done|apply epoch_time, apply_operation_epoch; apply push_epoch| |].
  { apply apply_operation_effect; [apply push_epoch|apply push_effect|done..]. }
  intros r s1 Hwf1 Hmod1. apply after_none; [by apply IH|]. intros. by apply effect_ret.
Qed.

Context {T : TransactionCrypto}.

Lemma apply_operations_epoch ts ops : keeps_epoch (apply_operations ts ops).
Proof.
  induction ops as [|op ops IH]; simpl; [frame|].
  apply keeps_bind; [apply apply_operation_epoch, push_epoch|]. intros. apply keeps_bind; [done|]. intros. frame.
Qed.

Lemma reads_check_signatures trx : reads (check_signatures trx).
Proof. intros s. unfold check_signatures. apply reads_lift. Qed.
Lemma reads_check_reference skip n trx : reads (check_reference skip n trx).
Proof. unfold check_reference. readonly. Qed.

Lemma apply_transaction_epoch skip n trx : keeps_epoch (apply_transaction skip n trx).
Proof.
  unfold apply_transaction, create_transaction. apply keeps_bind; [frame|]. intros _. apply keeps_bind; [frame|].
  intros known. apply keeps_require. apply keeps_bind.
  { destruct (_ || _); [frame|apply keeps_reads, reads_check_signatures]. }
  intros _. apply keeps_bind; [apply keeps_reads, reads_check_reference|]. intros _. apply keeps_bind; [frame|].
  intros _. apply keeps_bind; [apply apply_operations_epoch|]. intros. frame.
Qed.

Lemma apply_transaction_effect skip n trx s :
  wf s → modern s → Forall op_typed (trx_operations (stx_transaction trx)) →
  Forall (λ op, left_out op = false) (trx_operations (stx_transaction trx)) →
  effect (apply_transaction skip n trx) s (λ _, 0).
Proof.
  intros Hwf Hmod Htyped Hm. unfold apply_transaction. apply effect_read. dstep. intros [] Hval. split; [done|].
  eread. unfold effect. dstep. apply effect_read. apply (post_mono _ _ (λ _ s', s' = s)).
  { dstep; [by dstep|]. apply reads_check_signatures. }
  intros _ s' ->. split; [done|]. apply effect_read. pcall reads_check_reference. intros _ s' ->. split; [done|].
  assert (∀ s1, wf s1 → modern s1 → effect
    (let! results := apply_operations (mk_trx_state false false false (skip_assert skip)) (trx_operations (stx_transaction trx)) in
     let! now := head_block_time in let! empty := gets temp_account_empty in
     require! negb (now <? HARDFORK_CORE_1040_TIME) || empty in ret results) s1 (λ _, 0)) as Hops.
  { intros s1 Hwf1 Hmod1. apply after_none.
    - apply apply_operations_effect; [done|done|done|]. unfold transaction_validate in Hval.
      apply require_r_ok in Hval as [_ Hval]. apply validate_all_ok in Hval. rewrite Forall_forall in *.
      intros op Hop. split_and!; auto.
    - intros r s2 Hwf2. eread. eread. unfold effect. dstep. by apply effect_ret. }
  apply (effect_ext _ _ (λ a, 0 + 0)); [|done]. eapply effect_bind_time; [done| | |intros; by apply Hops].
  - destruct (skip_transaction_dupe_check skip); [frame|]. unfold create_transaction. frame.
  - destruct (skip_transaction_dupe_check skip); [by apply effect_ret|]. unfold effect. dstep. dstep. dstep. gap_leaf. lia.
Qed.
End chain_supply.
