(* ===== verification/BudgetSupply.v ===== *)
(** * The budget conserves the supply of the core asset

    What the elections and the budget of Elections.v and Budget.v do to the
    supply: the elections hold nothing, and the supply follows what the budget
    hands out. *)

From S2P Require Import Prelude Ext Config Asset Objects Parameters Governance Blocks Names Operations Validation Fees Ledger Database Vesting Balance Elections Budget Exchange Supply EvalSupply Frame GovernanceSupply.

(** ** Computations that hold nothing *)

(** What the supply and the invariant depend on, and the clock. *)
Definition held (s : database) :=
  (d_balances s, d_settles s, d_bids s, d_limits s, d_calls s, d_bitassets s, d_vestings s,
   d_genesis_balances s, d_assets s, d_dynamic s, d_statistics s, d_fbas s, d_witness_budget s, d_next_ids s,
   d_proposals s, d_next_maintenance_time s).

Lemma keeps_held_effect `{Ext} `{Regime} {A} (m : DB A) s : keeps held m → wf s → effect m s (λ _, 0).
Proof.
  intros Hm Hwf. pcall Hm. intros x s' E. injection E as E1 E2 E3 E4 E5 E6 E7 E8 E9 E10 E11 E12 E13 E14 E15 _.
  split.
  - destruct Hwf. by apply mk_wf; rewrite ?E1, ?E2, ?E3, ?E4, ?E5, ?E6, ?E7, ?E8, ?E9, ?E10, ?E14, ?E15.
  - intros a. rewrite !gap_eq, E1, E2, E3, E4, E5, E6, E7, E8, E9, E10, E11, E12, E13. lia.
Qed.

Lemma keeps_held_time {A} (m : DB A) : keeps held m → keeps_time m.
Proof. intros Hm s. pcall Hm. intros x s' E. by injection E. Qed.

Section budget_supply.
Context {X : Ext} {R : Regime}.

(** ** Elections *)

Lemma start_tally_held : keeps held start_tally.
Proof. unfold start_tally, put_gov. frame. Qed.
Lemma clear_tally_held : keeps held clear_tally.
Proof. unfold clear_tally, put_gov. frame. Qed.
Lemma tally_held acct stats : keeps held (tally acct stats).
Proof. unfold tally, opinion_account, put_gov. frame. Qed.
Lemma update_active_witnesses_held : keeps held update_active_witnesses.
Proof. unfold update_active_witnesses, update_witness_total_votes, get_gov, put_gov. frame. Qed.
Lemma update_active_committee_members_held : keeps held update_active_committee_members.
Proof. unfold update_active_committee_members, update_committee_member_total_votes, get_gov, put_gov. frame. Qed.
Lemma update_worker_votes_held : keeps held update_worker_votes.
Proof. unfold update_worker_votes, get_gov. frame. Qed.
Lemma update_top_n_authorities_held : keeps held update_top_n_authorities.
Proof. unfold update_top_n_authorities, update_top_n_authority, get_gov. frame. Qed.

(** ** Workers *)

Lemma modify_vesting_effect id f x s :
  wf s → (∀ v v', f v = Ok v' → ∀ a, credit (vb_balance v') a = credit (vb_balance v) a + credit x a) →
  effect (modify_vesting id f) s (credit x).
Proof.
  intros Hwf Hf. unfold effect. dstep. split; [wf_solve|]. intros a. rewrite !gap_eq. simpl.
  unfold vestings_of. erewrite msum_insert_some by eassumption. match goal with H : f _ = Ok _ |- _ => rewrite (Hf _ _ H) end. lia.
Qed.

(** Destroying core takes it out of the supply. *)
Lemma burn_effect x s :
  wf s → effect (modify_dynamic_of CORE (λ d, let? v := safe (current_supply d - x) in Ok (set_current_supply v d)))
           s (core_credit x).
Proof.
  intros Hwf. eapply (post_dynamic_of _ _ x 0); [done|dyn_fields|]. intros D HD HP HO.
  split; [wf_solve|]. intros a. rewrite !gap_eq. simpl. use_parts. rewrite credit_core. lia.
Qed.

Lemma pay_worker_effect w pay s : wf s → effect (pay_worker w pay) s (core_credit pay).
Proof.
  intros Hwf. unfold effect, pay_worker. destruct w; simpl.
  - dstep. dstep. intros b _. eapply effect_ext.
    { eapply effect_bind; [by apply burn_effect|]. intros. by apply effect_ret. }
    intros a. simpl. lia.
  - dstep. dstep. eapply effect_ext.
    { eapply effect_bind; [apply modify_vesting_effect; [done|]|intros; by apply effect_ret].
      intros v v' Hv. exact (vb_deposit_credit _ _ _ _ Hv). }
    intros a. unfold core_credit. lia.
  - dstep. dstep. intros b _. eapply effect_ext.
    { eapply effect_bind; [by apply adjust_balance_effect|]. intros. by apply effect_ret. }
    intros a. unfold core_credit. lia.
Qed.

Lemma modify_worker_held id f : keeps held (modify_worker id f).
Proof. unfold modify_worker, put_gov. frame. Qed.

(** What was paid is what is no longer left. *)
Lemma pay_each_effect workers passed : ∀ budget s, wf s →
  post (pay_each workers passed budget) s (λ left s', wf s' ∧ ∀ a, gap a s' = gap a s + core_credit (budget - left) a).
Proof.
  induction workers as [|[id w] workers IH]; intros budget s Hwf; simpl.
  { dstep. split; [done|]. intros a. unfold core_credit. rewrite credit_zero; simpl; lia. }
  dstep.
  - dstep. dstep. dstep. pcall pay_worker_effect; [done|]. intros w' s1 [Hwf1 Hg1]. dstep.
    pcall (keeps_held_effect (modify_worker id (λ o, Ok (set_wk_worker w' o)))); [apply modify_worker_held|done|].
    intros u s2 [Hwf2 Hg2]. dstep. dstep. intros left Hleft. inv_ok. pcall IH; [done|].
    intros left' s3 [Hwf3 Hg3]. split; [done|]. intros a. rewrite Hg3, Hg2, Hg1. credits.
  - dstep. split; [done|]. intros a. unfold core_credit. rewrite credit_zero; simpl; lia.
Qed.

(** ** The budget *)

(** A field of the dynamic data of an asset that an update leaves alone. *)
Lemma keeps_dynamic_field {T} (field : asset_dynamic_data_object → T) k a f :
  (∀ d d', f d = Ok d' → field d' = field d) → keeps (λ s, field <$> d_dynamic s !! k) (modify_dynamic a f).
Proof.
  intros Hf s. dstep. simpl. destruct (decide (a = k)) as [<-|Hne].
  - rewrite lookup_insert_eq. match goal with H : d_dynamic s !! _ = _ |- _ => rewrite H end. simpl. f_equal. eauto.
  - by rewrite lookup_insert_ne.
Qed.

Lemma pay_workers_accumulated k budget :
  keeps (λ s, accumulated_fees <$> d_dynamic s !! k) (pay_workers budget).
Proof.
  assert (∀ l t b, keeps (λ s, accumulated_fees <$> d_dynamic s !! k) (pay_each l t b)) as H.
  { induction l as [|[id w] l IH]; intros t b; simpl; unfold pay_worker, put_gov; frame; try apply IH.
    apply keeps_dynamic_field. intros. by inv_ok. }
  unfold pay_workers, get_gov. frame.
Qed.

Lemma pay_workers_kept budget : keeps (λ s, (d_assets s, d_witness_budget s)) (pay_workers budget).
Proof.
  assert (∀ l t b, keeps (λ s, (d_assets s, d_witness_budget s)) (pay_each l t b)) as H.
  { induction l as [|[id w] l IH]; intros t b; simpl; unfold pay_worker, modify_dynamic_of, put_gov; frame; apply IH. }
  unfold pay_workers, get_gov. frame.
Qed.

Lemma pay_workers_effect budget s : wf s →
  post (pay_workers budget) s (λ left s', wf s' ∧ ∀ a, gap a s' = gap a s + core_credit (budget - left) a).
Proof. intros Hwf. unfold pay_workers. do 6 dstep. by apply pay_each_effect. Qed.

(** What a budget record says about the state it was made from: the budget is
    part of what may still be issued. *)
Definition record_of (s : database) (ao : asset_object) (d : asset_dynamic_data_object) (rec : budget_record) : Prop :=
  d_assets s !! CORE = Some ao ∧ d_dynamic s !! as_dynamic_asset_data_id ao = Some d ∧
  br_from_accumulated_fees rec = accumulated_fees d ∧ br_from_unused_witness_budget rec = d_witness_budget s ∧
  let reserve := o_max_supply (as_options ao) - current_supply d + accumulated_fees d + d_witness_budget s in
  (0 ≤ reserve → br_total_budget rec ≤ reserve).

Lemma reserve_share_nonneg r dt : 0 ≤ reserve_share r dt.
Proof.
  unfold reserve_share. cbv zeta. match goal with |- 0 ≤ Z.shiftr (fc_u128 ?x) _ => generalize x; intros b end.
  rewrite Z.shiftr_nonneg. apply fc_u128_range.
Qed.

(** A budget below the reserve is one of [int64_t]. *)
Lemma budget_below_reserve b r :
  in64 r → 0 ≤ r → 0 ≤ b → (if b <? fc_u128 r then i64_of_u64 (to_uint64 b) else r) ≤ r.
Proof.
  unfold in64, int64_max. intros Hr Hr0 Hb. destruct (Z.ltb_spec b (fc_u128 r)); [|lia].
  rewrite fc_u128_small in * by lia. rewrite to_uint64_small by lia. unfold i64_of_u64. destruct (b <=? _); lia.
Qed.

Lemma initialize_budget_record_spec now s :
  post (initialize_budget_record now) s (λ rec s', s' = s ∧ ∃ ao d, record_of s ao d rec).
Proof.
  unfold initialize_budget_record. do 10 dstep. intros reserved Hres. inv_ok. assert (v = ao) as -> by congruence.
  dstep; dstep.
  - split; [done|]. exists ao, d. split_and!; [done|done|done|done|simpl; lia].
  - dstep. intros reserve1 H1r. dstep. dstep. intros reserve2 H2r. inv_ok. dstep.
    cbn [set_br_time_since_last_budget set_br_total_budget br_from_initial_reserve br_from_accumulated_fees] in *.
    split; [done|]. exists ao, d. split_and!; [done|done|done|done|]. cbv zeta. cbn [br_total_budget]. intros Hr.
    apply budget_below_reserve; [done|lia|]. apply reserve_share_nonneg.
Qed.

Lemma worker_share_le day t available : in64 available → 0 ≤ available → worker_share day t available ≤ available.
Proof.
  unfold in64, int64_max. intros Hr Ha. unfold worker_share.
  match goal with |- context [fc_u128 (?x * ?y) / ?z] => generalize (fc_u128_range (x * y)); generalize (fc_u128 (x * y)) end.
  intros b Hb. rewrite (fc_u128_small available) by lia. assert (0 ≤ b / (60 * 60 * 24)) by (apply Z.div_pos; lia).
  revert H. generalize (b / (60 * 60 * 24)). intros q Hq. destruct (Z.leb_spec available q); [lia|].
  rewrite to_uint64_small by lia. unfold i64_of_u64. destruct (q <=? _); lia.
Qed.

(** The run of the budget: the witnesses get [wb] of the budget, the workers at
    most [W] of the rest, and what is in [left] goes back. *)
Lemma process_budget_run s (Q : unit → database → Prop) :
  (∀ ao d rec wb W left s1 d1 v G,
     record_of s ao d rec → wb ≤ br_total_budget rec → W ≤ br_total_budget rec - wb →
     pay_workers W s = Ok (left, s1) → d_dynamic s1 !! as_dynamic_asset_data_id ao = Some d1 →
     v = current_supply d1 + (wb + W - left - accumulated_fees d - d_witness_budget s) → in64 v →
     Q tt (set_d_governance G (set_d_witness_budget wb (set_d_dynamic
       (<[as_dynamic_asset_data_id ao := set_accumulated_fees 0 (set_current_supply v d1)]> (d_dynamic s1)) s1)))) →
  post process_budget s Q.
Proof.
  intros HQ. unfold process_budget. do 8 dstep. intros blocks _. dstep.
  pcall initialize_budget_record_spec. intros rec s' (-> & ao & d & Hrec). destruct Hrec as (Hao & Hd & Hacc & Hun & Htot).
  set (requested := i64_of_u64 _). set (wb := Z.min requested _). cbn [set_br_requested_witness_budget set_br_witness_budget br_total_budget].
  dstep. dstep. intros available Hav. inv_ok. dstep. dstep. set (W := worker_share _ _ _). intros rest Hrest. inv_ok.
  dstep. intros left s1 Hrun. pose proof (pay_workers_kept W s left s1 Hrun) as E. injection E as Ea Ew.
  dstep. dstep. intros unspent _. dstep. dstep.
  intros delta Hdelta. dstep. dstep. dstep. dstep. inv_ok.
  cbn [br_witness_budget br_worker_budget br_leftover_worker_funds br_from_accumulated_fees br_from_unused_witness_budget
       br_supply_delta set_br_requested_witness_budget set_br_witness_budget set_br_worker_budget
       set_br_leftover_worker_funds set_br_supply_delta] in *.
  rewrite Ea in *. assert (ao0 = ao) as -> by congruence. dstep.
  eapply (HQ ao d rec wb W left s1 d0); [done|lia| |done|done|lia|done].
  apply worker_share_le; [done|lia].
Qed.

Lemma process_budget_effect s : wf s → effect process_budget s (λ _, 0).
Proof.
  intros Hwf. apply process_budget_run. intros ao d rec wb W left s1 d1 v G (Hao & Hd & Hacc & Hun & _) _ _ Hrun Hd1 -> Hv.
  destruct (pay_workers_effect W s Hwf _ _ Hrun) as [Hwf1 Hg1].
  pose proof (pay_workers_kept W s _ _ Hrun) as E. injection E as Ea Ew.
  pose proof (pay_workers_accumulated (as_dynamic_asset_data_id ao) W s _ _ Hrun) as Efee. simpl in Efee.
  rewrite Hd, Hd1 in Efee. injection Efee as Efee. rewrite <- Ea in Hao. split.
  - wf_solve.
  - intros a. specialize (Hg1 a). rewrite !gap_eq in *. simpl. erewrite dyn_field_insert by eauto using wf_dyn_inj.
    unfold pools_of in *. erewrite msum_insert_some by eassumption. rewrite Ew in *.
    match goal with |- context [credit (mk_asset ?x CORE) a] =>
      replace x with (d_witness_budget s - wb - W + left) by (unfold dyn_net, issuer_held; simpl; lia) end.
    revert Hg1. simpl. credits.
Qed.

(** ** The supply stays below its maximum *)

(** The supply of no asset has grown. *)
Definition supply_le (s s' : database) : Prop :=
  ∀ k d', d_dynamic s' !! k = Some d' → ∃ d, d_dynamic s !! k = Some d ∧ current_supply d' ≤ current_supply d.
Lemma supply_le_refl s : supply_le s s.
Proof. intros k d' H. eauto with lia. Qed.
Lemma supply_le_trans s1 s2 s3 : supply_le s1 s2 → supply_le s2 s3 → supply_le s1 s3.
Proof. intros H1 H2 k d3 (d2 & Hd2 & ?)%H2. destruct (H1 _ _ Hd2) as (d1 & ? & ?). eauto with lia. Qed.
Lemma supply_le_same s s' : d_dynamic s' = d_dynamic s → supply_le s s'.
Proof. intros E k d'. rewrite E. apply supply_le_refl. Qed.

(** The pay of every worker is one of [int64_t]. *)
Definition pays_ok (passed : Z) (s : database) : Prop :=
  map_Forall (λ _ w, 0 ≤ requested_pay (wk_daily_pay w) passed) (d_workers s).

Lemma requested_pay_nonneg daily seconds :
  0 ≤ daily ≤ GRAPHENE_MAX_SHARE_SUPPLY → 0 ≤ seconds ≤ 365 * 86400 →
  0 ≤ requested_pay daily (microseconds seconds).
Proof.
  unfold GRAPHENE_MAX_SHARE_SUPPLY. intros Hd Hs. unfold requested_pay, microseconds, day_count.
  assert (0 ≤ daily * seconds ≤ 1000000000000000 * (365 * 86400)) by nia.
  rewrite (fc_u128_small daily), (fc_u128_small (seconds * 1000000)), fc_u128_small by lia.
  assert (0 ≤ daily * (seconds * 1000000) / microseconds (24 * 60 * 60) < 2 ^ 63) as Hq.
  { unfold microseconds. split; [apply Z.div_pos; lia|]. apply Z.div_lt_upper_bound; lia. }
  revert Hq. generalize (daily * (seconds * 1000000) / microseconds (24 * 60 * 60)). intros q Hq.
  rewrite to_uint64_small by lia. unfold i64_of_u64. destruct (Z.leb_spec q (2 ^ 63 - 1)); lia.
Qed.

Lemma pay_worker_supply w pay passed s :
  0 ≤ pay → pays_ok passed s → post (pay_worker w pay) s (λ _ s', supply_le s s' ∧ pays_ok passed s').
Proof.
  intros Hpay Hok. unfold pay_worker. destruct w; simpl.
  - dstep. dstep. intros b _. dstep. dstep. inv_ok. dstep. split; [|done]. intros k d'. simpl.
    destruct (decide (k = as_dynamic_asset_data_id ao)) as [->|Hne].
    + rewrite lookup_insert_eq. intros [= <-]. simpl. eauto with lia.
    + rewrite lookup_insert_ne by done. apply supply_le_refl.
  - repeat dstep. split; [by apply supply_le_same|done].
  - dstep. dstep. intros b _. dstep. apply post_adjust_balance. intros B _. dstep. split; [by apply supply_le_same|done].
Qed.

Lemma pay_each_supply workers passed : ∀ budget s, pays_ok passed s →
  post (pay_each workers passed budget) s (λ left s', supply_le s s' ∧ (0 ≤ budget → 0 ≤ left) ∧ (budget ≤ 0 → left = budget)).
Proof.
  induction workers as [|[id w] workers IH]; intros budget s Hok; simpl.
  { dstep. split_and!; [apply supply_le_refl|done|done]. }
  dstep; btrue.
  - dstep. dstep. rename v into w1. pose proof (Hok _ _ H0) as Hpay. simpl in Hpay. set (pay := Z.min _ _). dstep.
    pcall (pay_worker_supply (wk_worker w1) pay passed); [lia|done|]. intros w' s1 [Hle1 Hok1]. dstep. dstep. inv_ok.
    dstep. dstep. intros left Hleft. inv_ok. pcall IH.
    { unfold pays_ok. apply map_Forall_insert_2; [|done]. simpl. by eapply (Hok1 id). }
    intros left' s3 (Hle & Hpos & _). split_and!; [|intros; apply Hpos; lia|lia].
    by eapply supply_le_trans; [exact Hle1|].
  - dstep. split_and!; [apply supply_le_refl|done|done].
Qed.

(** The core supply does not pass its maximum. *)
Lemma process_budget_supply s ao d :
  d_assets s !! CORE = Some ao → d_dynamic s !! as_dynamic_asset_data_id ao = Some d →
  current_supply d ≤ o_max_supply (as_options ao) → 0 ≤ accumulated_fees d → 0 ≤ d_witness_budget s →
  pays_ok (microseconds (d_head_block_time s - gv_last_budget_time (d_governance s))) s →
  post process_budget s (λ _ s', d_assets s' !! CORE = Some ao ∧
    ∃ d', d_dynamic s' !! as_dynamic_asset_data_id ao = Some d' ∧ accumulated_fees d' = 0 ∧
          current_supply d' ≤ o_max_supply (as_options ao)).
Proof.
  intros Hao Hd Hmax Hacc Hwit Hpays. apply process_budget_run.
  intros ao' d0 rec wb W left s1 d1 v G (Hao' & Hd0 & _ & _ & Htot) Hwb HW Hrun Hd1 -> Hv.
  assert (ao' = ao) as -> by congruence. assert (d0 = d) as -> by congruence. cbv zeta in Htot.
  pose proof (pay_workers_kept W s _ _ Hrun) as E. injection E as Ea _.
  assert (post (pay_workers W) s (λ left s', supply_le s s' ∧ (0 ≤ W → 0 ≤ left) ∧ (W ≤ 0 → left = W))) as Hp.
  { unfold pay_workers. do 6 dstep. by apply pay_each_supply. }
  destruct (Hp _ _ Hrun) as (Hle & Hpos & Hneg). destruct (Hle _ _ Hd1) as (d' & Hd' & Hsup).
  assert (d' = d) as -> by congruence. cbn [d_assets d_dynamic set_d_governance set_d_witness_budget set_d_dynamic].
  rewrite Ea, lookup_insert_eq. split; [done|]. eexists. split; [done|]. split; [done|].
  cbn [current_supply set_accumulated_fees set_current_supply]. lia.
Qed.
End budget_supply.
