(* ===== verification/MaintenanceSupply.v ===== *)
(** * The maintenance conserves the supply of every asset

    The passes of Maintenance.v: the fee backed assets and their buyback orders,
    the accounts, the bids on globally settled assets, and [perform_chain_maintenance]
    as a whole, at the times that [modern] of EvalSupply.v describes. *)

From S2P Require Import Prelude Ext Config Asset Objects Parameters Governance Blocks Names Operations Validation Fees Ledger Database Vesting Balance CallOrder Market Matching OrderBook Feeds Evaluator MarketEval AssetEval BitassetEval GovernanceEval Elections Budget Maintenance Exchange Indices Supply MarketSupply MatchSupply EvalSupply Frame GovernanceSupply OperationSupply BitassetSupply ChainSupply BudgetSupply.

Section maintenance_supply.
Context {X : Ext} {R : Regime} {P : Packing} {N : NthElement}.

(** ** Fee backed assets *)

Lemma clear_fba_effect id f s :
  wf s → d_fbas s !! id = Some f → effect (clear_fba id) s (core_credit (- fba_accumulated_fba_fees f)).
Proof.
  intros Hwf Hf. unfold effect, clear_fba. dstep. same_entries. inv_ok. split; [wf_solve|]. intros a.
  rewrite !gap_eq. simpl. unfold fbas_of. erewrite msum_insert_some by eassumption. simpl. credits.
Qed.

Lemma distribute_fba_effect acct id x s : wf s → effect (distribute_fba acct id x) s (core_credit x).
Proof.
  intros Hwf. unfold effect, distribute_fba. dstep.
  - btrue. subst. dstep. split; [done|]. intros a. unfold core_credit. rewrite credit_zero; simpl; lia.
  - dstep. apply post_adjust_balance. intros B HB. dstep. split; [wf_solve|]. intros a.
    rewrite !gap_eq. simpl. use_parts. unfold core_credit. lia.
Qed.

Lemma burn_core_effect x s : wf s → effect (burn_core x) s (core_credit x).
Proof. apply burn_effect. Qed.
Lemma burn_rest_effect x s : wf s → effect (if x =? 0 then ret tt else burn_core x) s (core_credit x).
Proof.
  intros Hwf. destruct (Z.eqb_spec x 0) as [->|]; [|by apply burn_core_effect].
  eapply effect_ext; [by apply effect_ret|]. intros a. unfold core_credit. by rewrite credit_zero.
Qed.

Lemma burn_core_fbas x : keeps d_fbas (burn_core x).
Proof. unfold burn_core, modify_dynamic_of. frame. Qed.
Lemma distribute_fba_fbas acct id x : keeps d_fbas (distribute_fba acct id x).
Proof. unfold distribute_fba. frame. Qed.

Lemma split_fba_balance_effect id n b i s : wf s → effect (split_fba_balance id n b i) s (λ _, 0).
Proof.
  intros Hwf. unfold effect, split_fba_balance. do 3 dstep. dstep; [by apply effect_ret|].
  dstep. pcall reads_is_configured. intros conf s' ->. dstep; btrue.
  - eapply effect_ext.
    { eapply effect_bind_keeps; [apply burn_core_fbas|by apply burn_core_effect|]. intros u s1 Hwf1 E.
      eapply clear_fba_effect; [done|by rewrite E]. }
    intros a. simpl. credits.
  - dstep. dstep. intros paid Hpaid. dstep. dstep. dstep. intros net Hnet. inv_ok. dstep.
    dstep. intros a _. dstep. dstep. rename v0 into da.
    set (x := fba_share _ b). set (y := fba_share _ i). set (z := fba_accumulated_fba_fees v - (x + y)).
    eapply effect_ext.
    { eapply (effect_bind_keeps d_fbas); [|by apply burn_rest_effect|].
      { destruct (z =? 0); [frame|apply burn_core_fbas]. }
      intros u s1 Hwf1 E1. apply effect_read. dstep. intros acct _. split; [done|].
      eapply effect_bind_keeps; [apply distribute_fba_fbas|by apply distribute_fba_effect|]. intros u2 s2 Hwf2 E2.
      eapply effect_bind_keeps; [apply distribute_fba_fbas|by apply distribute_fba_effect|]. intros u3 s3 Hwf3 E3.
      eapply clear_fba_effect; [done|]. by rewrite E3, E2, E1. }
    intros c. subst z. credits.
Qed.

Lemma distribute_fba_balances_effect s : wf s → effect distribute_fba_balances s (λ _, 0).
Proof.
  intros Hwf. by apply (for_each_effect (λ _, True)); [intros; apply split_fba_balance_effect|done|..].
Qed.

(** ** Buyback orders *)

(** An operation inside [try]: applied, or without effect. *)
Lemma try_operation_ok {Op E F} {Ev : Evaluator Op E F} ts op s r s' :
  try_operation ts op s = Ok (r, s') →
  let s0 := set_d_applied_ops (d_applied_ops s ++ [ev_operation op]) s in
  s' = s0 ∨ ∃ x, r = Some x ∧ start_evaluate ts op s0 = Ok (x, s').
Proof.
  intros Hrun s0. unfold try_operation in Hrun. apply bind_ok in Hrun as (u & s1 & Hpush & Hrun).
  injection Hpush as <- <-. fold s0 in Hrun. unfold start_evaluate, bind.
  destruct (evaluate ts op s0) as [[e s2]|e].
  - destruct (apply ts op e.1 e.2 s2) as [[x s3]|]; [|done]. injection Hrun as <- <-. eauto.
  - destruct (is_fc_exception e); [|done]. injection Hrun as <- <-. by left.
Qed.

Lemma try_operation_effect {Op E F} {Ev : Evaluator Op E F} {ok : Op → Prop}
    `{!ConservingEvaluator Ev ok} ts op s :
  ok op → wf s → modern s → skip_fee ts = false → effect (try_operation ts op) s (λ _, 0).
Proof.
  intros Hok Hwf Hmod Hskip r s' Hrun. apply try_operation_ok in Hrun as [->|(x & -> & Hrun)].
  - split; [wf_solve|]. intros a. rewrite !gap_eq. simpl. lia.
  - match type of Hrun with _ ?s0 = _ => assert (wf s0 ∧ ∀ a, gap a s0 = gap a s) as [Hwf0 Hg0] end.
    { split; [wf_solve|]. intros a. by rewrite !gap_eq. }
    destruct (start_evaluate_effect ts op _ Hok Hwf0 Hmod Hskip _ _ Hrun) as [Hwf' Hg'].
    split; [done|]. intros a. by rewrite Hg', Hg0.
Qed.

Lemma try_operation_clock {Op E F} {Ev : Evaluator Op E F} ts op :
  keeps_clock (start_evaluate ts op) → keeps_clock (try_operation ts op).
Proof. intros Hk s r s' [->|(x & _ & Hrun)]%try_operation_ok; [done|]. by rewrite (Hk _ _ _ Hrun). Qed.

Lemma try_create_clock ts (op : limit_order_create_operation) : keeps_clock (try_operation ts op).
Proof. apply try_operation_clock, start_evaluate_clock; intros; simpl; frame. Qed.
Lemma try_cancel_clock ts (op : limit_order_cancel_operation) : keeps_clock (try_operation ts op).
Proof. apply try_operation_clock, start_evaluate_clock; intros; simpl; frame. Qed.
Hint Resolve try_create_clock try_cancel_clock : frames.

Lemma buyback_order_clock acct buy sell x : keeps_clock (buyback_order acct buy sell x).
Proof. unfold buyback_order. frame. Qed.
Hint Resolve buyback_order_clock : frames.

Lemma buyback_order_effect acct buy sell x s : wf s → modern s → effect (buyback_order acct buy sell x) s (λ _, 0).
Proof.
  intros Hwf Hmod. unfold buyback_order. eapply effect_ext.
  { eapply (effect_bind_clock _ _ _ (λ _, 0) (λ _, 0)); [done|apply try_create_clock|by apply try_operation_effect|].
    intros r s1 Hwf1 Hmod1. destruct r as [[]|]; try (by apply effect_ret); try (by unfold effect; dstep).
    eread. destruct (bool_decide _); [|by apply effect_ret].
    apply after_none; [by apply try_operation_effect|]. intros. by apply effect_ret. }
  done.
Qed.

Lemma buyback_holdings_clock fuel acct buy allowed : ∀ next, keeps_clock (buyback_holdings fuel acct buy allowed next).
Proof. induction fuel; intros next; simpl; frame. Qed.
Hint Resolve buyback_holdings_clock : frames.

Lemma buyback_holdings_effect fuel acct buy allowed : ∀ next s,
  wf s → modern s → effect (buyback_holdings fuel acct buy allowed next) s (λ _, 0).
Proof.
  induction fuel as [|fuel IH]; intros next s Hwf Hmod; simpl; [unfold effect; dstep|]. eread.
  destruct (balance_lower_bound acct next s) as [[sell b]|]; [|by apply effect_ret]. eapply effect_ext.
  { eapply (effect_bind_clock _ _ _ (λ _, 0) (λ _, 0)); [done| | |].
    - frame.
    - destruct (_ || _); [by apply effect_ret|by apply buyback_order_effect].
    - intros. by apply IH. }
  done.
Qed.

Lemma create_buyback_orders_clock : keeps_clock create_buyback_orders.
Proof. unfold create_buyback_orders, get_gov. frame. Qed.

Lemma create_buyback_orders_effect s : wf s → modern s → effect create_buyback_orders s (λ _, 0).
Proof.
  intros Hwf Hmod. unfold create_buyback_orders, get_gov. eread.
  apply (for_each_effect modern); [|intros x s1 Hmod1|done|done].
  - clear. intros x s Hwf Hmod. eread. apply effect_read. dstep. intros acct _. split; [done|]. eread.
    destruct (ac_allowed_assets _); [|by apply effect_ret]. eread. by apply buyback_holdings_effect.
  - unfold modern in *. match goal with |- post ?m _ _ => assert (keeps_time m) as Hk by (apply clock_time; frame) end.
    pcall Hk. intros [] s2 ->. done.
Qed.

(** ** The accounts *)

Lemma copy_balance_effect k s : wf s → effect (copy_balance k) s (λ _, 0).
Proof.
  intros Hwf. unfold copy_balance. eread. apply effect_read. dstep. intros b Hb%of_option_ok. split; [done|].
  eread. apply effect_read. dstep. intros stats _. split; [done|]. unfold effect.
  dstep. apply (post_statistics _ _ 0). { intros st st' [= <-]. unfold st_pending. simpl. lia. }
  intros S HS. dstep. split; [wf_solve|]. intros a. rewrite !gap_eq. simpl. use_parts.
  rewrite balances_insert, Hb. simpl. rewrite credit_zero by (simpl; lia). lia.
Qed.

Lemma maintain_accounts_effect fuel : ∀ itr s, wf s → effect (maintain_accounts fuel itr) s (λ _, 0).
Proof.
  induction fuel as [|fuel IH]; intros itr s Hwf; simpl; [unfold effect; dstep|].
  destruct itr as [id|]; [|by apply effect_ret]. eread. eread. eread.
  apply after_none; [|intros u s1 Hwf1; apply after_none; [|intros; by apply IH]].
  - destruct (has_some_core_voting _); [|by apply effect_ret]. by apply keeps_held_effect; [apply tally_held|].
  - destruct (has_pending_fees _); [by apply process_fees_effect|by apply effect_ret].
Qed.

Lemma perform_account_maintenance_effect s : wf s → effect perform_account_maintenance s (λ _, 0).
Proof.
  intros Hwf. unfold perform_account_maintenance. eread. apply after_none.
  { apply (for_each_effect (λ _, True)); [intros; by apply copy_balance_effect|done|done|done]. }
  intros u s1 Hwf1. eread. eread. by apply maintain_accounts_effect.
Qed.

Hint Resolve process_fees_clock : frames.
Lemma tally_clock acct stats : keeps_clock (tally acct stats).
Proof. unfold tally, opinion_account, put_gov. frame. Qed.
Hint Resolve tally_clock : frames.
Lemma maintain_accounts_clock fuel : ∀ itr, keeps_clock (maintain_accounts fuel itr).
Proof. induction fuel; intros itr; simpl; frame. Qed.
Hint Resolve maintain_accounts_clock : frames.
Lemma perform_account_maintenance_clock : keeps_clock perform_account_maintenance.
Proof. unfold perform_account_maintenance, copy_balance. frame. Qed.

(** ** Bids *)

(** The bids of an asset, in its backing asset. *)
Definition bid_for (mia backing : Z) (b : collateral_bid_object) : Prop :=
  asset_id (quote (cb_inv_swan_price b)) = mia ∧ asset_id (base (cb_inv_swan_price b)) = backing.

(** An entry of the index is the bid of its identifier, and the entry after it
    is the next. *)
Lemma bid_index_at s pre id v suf :
  bid_price_index s = pre ++ (id, v) :: suf →
  d_bids s !! id = Some v ∧ next_of id (bid_price_index s) = fst <$> head suf.
Proof.
  intros Hidx. split.
  - apply (sorted_by_entry bid_less). fold (bid_price_index s). rewrite Hidx. set_solver.
  - rewrite Hidx. apply (next_of_app id v). rewrite <- Hidx. apply sorted_by_NoDup.
Qed.

Lemma bid_lower_bound_split mia p s :
  ∃ pre suf, bid_price_index s = pre ++ suf ∧ bid_lower_bound mia p s = fst <$> head suf.
Proof.
  unfold bid_lower_bound. destruct (find_first _ (bid_price_index s)) as [id|] eqn:E.
  - apply find_first_split in E as (pre & v & suf & -> & _). by exists pre, ((id, v) :: suf).
  - exists (bid_price_index s), []. by rewrite app_nil_r.
Qed.

(** A walk along a part of the index, over bids of the asset, that ends at [e]. *)
Definition bids_walked (mia backing : Z) (suf : list (Z * collateral_bid_object)) (e : option Z) : Prop :=
  ∃ seg rest, suf = seg ++ rest ∧ e = fst <$> head rest ∧ Forall (λ x, bid_for mia backing x.2) seg.

Lemma bids_walked_none mia backing suf : bids_walked mia backing suf (fst <$> head suf).
Proof. by exists [], suf. Qed.

(** The first loop is one. *)
Lemma covering_bids_spec fuel mia bad sup : ∀ covered s pre suf,
  asset_id (base (bd_settlement_price bad)) = mia →
  asset_id (quote (bd_settlement_price bad)) = bo_short_backing_asset (bd_options bad) →
  bo_short_backing_asset (bd_options bad) ≠ mia →
  bid_price_index s = pre ++ suf →
  post (covering_bids fuel mia bad sup covered (fst <$> head suf)) s (λ r s',
    s' = s ∧ bids_walked mia (bo_short_backing_asset (bd_options bad)) suf r.2).
Proof.
  induction fuel as [|fuel IH]; intros covered s pre suf Hb Hq Hne Hidx; simpl; [dstep|].
  pose proof (bids_walked_none mia (bo_short_backing_asset (bd_options bad)) suf) as Hstop.
  destruct suf as [|[id v] suf]; simpl in *; [by dstep|].
  destruct (bid_index_at _ _ _ _ _ Hidx) as [Hbid Hnext]. dstep. dstep. same_entries. dstep; [|by dstep].
  btrue. dstep. dstep. intros total1 Ht1. dstep. dstep. intros total2 Ht2. dstep. dstep. intros cp _.
  dstep; [by dstep|]. dstep. dstep. intros covered' _. dstep. dstep. rewrite Hnext.
  pcall (IH covered' s (pre ++ [(id, v)]) suf); [done|done|done|by rewrite Hidx, <- app_assoc|].
  intros r s' (-> & seg & rest & -> & Hr & Hall). split; [done|]. exists ((id, v) :: seg), rest.
  split_and!; [done|done|]. constructor; [|done]. split; [done|]. simpl.
  unfold asset_add in Ht2. inv_ok. btrue. apply asset_mul_ids in Ht1 as [[? ?]|[? ?]]; congruence.
Qed.

Lemma execute_bid_bids id d c f : ∀ s, post (execute_bid id d c f) s (λ _ s', d_bids s' = delete id (d_bids s)).
Proof.
  intros s. unfold execute_bid. do 4 dstep. intros col _. dstep. dstep. intros cp _. dstep. dstep. dstep.
  apply post_statistics_if; [intros st st' H'; by inv_ok|]. intros S _. dstep. dstep. by dstep.
Qed.

Lemma execute_bid_asset_frame id d c f : keeps asset_part (execute_bid id d c f).
Proof. unfold execute_bid, modify_statistics_of. frame. Qed.

Lemma amount_in64 x : 0 < x ≤ int64_max → in64 x.
Proof. unfold in64, int64_min, int64_max. lia. Qed.

(** The second loop executes the bids of the walk, and hands out the fund in the
    backing asset. *)
Lemma execute_bids_effect fuel mia bad : ∀ seg pre rest to_cover fund s,
  wf s → in64 to_cover → mcr_ok (bd_current_feed bad) →
  (∃ b, d_bitassets s !! b = Some bad ∧ bd_asset_id bad = mia) →
  bid_price_index s = pre ++ seg ++ rest →
  Forall (λ x, bid_for mia (bo_short_backing_asset (bd_options bad)) x.2) seg →
  post (execute_bids fuel bad to_cover fund (fst <$> head (seg ++ rest)) (fst <$> head rest)) s
    (λ left s', wf s' ∧ asset_part s' = asset_part s ∧
       ∀ a, gap a s' = gap a s + credit (mk_asset (fund - left.2) (bo_short_backing_asset (bd_options bad))) a).
Proof.
  induction fuel as [|fuel IH]; intros seg pre rest to_cover fund s Hwf Hcov Hmcr Hbad Hidx Hseg; simpl; [dstep|].
  destruct seg as [|[id v] seg]; simpl.
  { rewrite bool_decide_true by done. dstep. split_and!; [done|done|]. intros a. simpl. rewrite credit_zero; simpl; lia. }
  simpl in Hidx. destruct (bid_index_at s pre id v (seg ++ rest) Hidx) as [Hbid Hnext].
  rewrite bool_decide_false.
  2: { intros E. destruct rest as [|[id' v'] rest]; simpl in E; [done|]. injection E as <-.
       pose proof (sorted_by_NoDup bid_less (d_bids s)) as Hnd. fold (bid_price_index s) in Hnd. rewrite Hidx in Hnd.
       rewrite !fmap_app, !fmap_cons, NoDup_app, NoDup_cons in Hnd. destruct Hnd as (_ & _ & Hid & _).
       apply Hid. rewrite fmap_app, elem_of_app. right. by left. }
  apply Forall_cons in Hseg as [[Hq Hb] Hseg]. simpl in Hq, Hb.
  do 5 dstep. same_entries. dstep. dstep. rewrite Hnext. dstep. dstep. intros x _.
  set (debt := if _ <=? _ then to_cover else _). set (col := if _ <=? _ then fund else _).
  assert (in64 debt) as Hdebt.
  { subst debt. destruct (_ <=? _); [done|]. by apply amount_in64, (wf_bids s Hwf id v). }
  dstep. dstep. intros left Hleft. dstep. dstep. intros rem Hrem. inv_ok. dstep.
  assert (∃ b bd, d_bitassets s !! b = Some bd ∧ bd_asset_id bd = asset_id (quote (cb_inv_swan_price v)) ∧
    bo_short_backing_asset (bd_options bd) = asset_id (base (cb_inv_swan_price v))) as Hback.
  { destruct Hbad as (b & Hbd & Hid). exists b, bad. by rewrite Hq, Hb. }
  intros u s1 Hrun.
  destruct (execute_bid_effect id debt col _ s v Hwf Hbid Hdebt Hmcr (λ _, Hback) _ _ Hrun) as [Hwf1 Hg1].
  pose proof (execute_bid_bids _ _ _ _ s _ _ Hrun) as Hb1. pose proof (execute_bid_asset_frame _ _ _ _ s _ _ Hrun) as Ha1.
  simpl in Hb1, Ha1.
  pcall (IH seg pre rest (to_cover - debt) (fund - col) s1); [done|done|done| | |done|].
  { by injection Ha1 as _ ->. }
  { unfold bid_price_index. rewrite Hb1. by apply (bid_price_index_delete s pre id v (seg ++ rest)); [apply (wf_bids s Hwf)|]. }
  intros r s2 (Hwf2 & Ha2 & Hg2). split_and!; [done|congruence|]. intros a. rewrite Hg2, Hg1, Hb.
  rewrite !credit_sub. lia.
Qed.

Lemma process_bids_effect b bad s :
  wf s → d_bitassets s !! b = Some bad → has_settlement bad = true → effect (process_bids b) s (λ _, 0).
Proof.
  intros Hwf Hbad Hset. unfold effect, process_bids. dstep. dstep. same_entries.
  dstep; [by apply effect_ret|]. dstep; [by apply effect_ret|].
  destruct (wf_bitassets s Hwf b bad Hbad) as (Hne & _ & Hp). destruct (Hp Hset) as [Hpb Hpq].
  destruct (wf_owned s Hwf b bad Hbad) as [(ao & Hao & Hb)|[]].
  dstep. dstep. intros zero Hzero.
  assert (asset_id zero = bd_asset_id bad) as ->.
  { apply asset_mul_ids in Hzero as [[? ?]|[? ?]]; simpl in *; congruence. }
  dstep. dstep. dstep. dstep. intros pmax _. dstep. dstep. dstep. dstep. dstep.
  destruct (bid_lower_bound_split (bd_asset_id bad) pmax s) as (pre & suf & Hidx & ->).
  generalize (bids_fuel s). intros fuel.
  pcall (covering_bids_spec fuel (bd_asset_id bad) bad (current_supply d) 0 s pre suf); [exact Hpb|exact Hpq|exact Hne|exact Hidx|].
  intros [covered e] s' (-> & seg & rest & -> & He & Hseg). simpl in He. subst e. simpl.
  dstep; [by apply effect_ret|]. dstep.
  pcall (execute_bids_effect fuel (bd_asset_id bad) bad seg pre rest (current_supply d) (bd_settlement_fund bad) s);
    [done|by eapply (wf_dynamic s Hwf)|apply (wf_feeds s Hwf _ _ Hbad)|by exists b|done|done|].
  intros [tc left] s1 (Hwf1 & Ha1 & Hg1). injection Ha1 as Ha1 Hb1. simpl in Hg1. dstep. dstep. btrue.
  rewrite <- Ha1 in Hao. rewrite <- Hb1 in Hbad. intros u s2 Hrun.
  destruct (cancel_bids_and_revive_mpa_effect _ ao b bad s1 Hwf1 Hao Hb Hbad _ _ Hrun) as [Hwf2 Hg2].
  split; [done|]. intros a. rewrite Hg2, Hg1. unfold fund_credit. simpl in *. subst left.
  rewrite Z.sub_0_r. lia.
Qed.

(** ** The market issued assets *)

Lemma reset_bitasset_ok now flags b : same_fund b (reset_bitasset now flags b) ∧ (feeds_ok b → feeds_ok (reset_bitasset now flags b)).
Proof.
  unfold reset_bitasset. case_match; [|done]. split; [done|]. intros [Hc Hf]. split; [done|].
  intros k f [Hk _]%map_lookup_filter_Some. by apply (Hf k).
Qed.

Lemma process_bitassets_effect s : wf s → effect process_bitassets s (λ _, 0).
Proof.
  intros Hwf. unfold process_bitassets. eread. eread.
  apply (for_each_effect (λ _, True)); [|done|done|done]. clear. intros [b bd] s0 Hwf _. simpl. eread. eread.
  apply after_none.
  { apply modify_bitasset_effect; [done|]. intros d d' Hd [= <-].
    destruct (reset_bitasset_ok (d_head_block_time s) (o_flags (as_options v0)) d) as [Hsame Hfeeds].
    destruct (same_fund_ok _ _ Hsame) as (? & ? & ? & ?); [by apply (wf_bitassets s0 Hwf b)|].
    split_and!; [done|done| |done|done]. by apply Hfeeds, (wf_feeds s0 Hwf b). }
  intros u s1 Hwf1. eread. destruct (has_settlement _) eqn:E; [|by apply effect_ret].
  by eapply process_bids_effect.
Qed.

(** ** Hard forks

    At the times that [modern] describes, all of them are past. *)
Lemma modern_passed before after :
  HARDFORK_CORE_625_TIME < before →
  (before <? HARDFORK_613_TIME) = false ∧ passes before after HARDFORK_CORE_343_TIME = false ∧
  passes before after HARDFORK_CORE_868_890_TIME = false ∧ passes before after HARDFORK_CORE_935_TIME = false.
Proof.
  unfold passes, HARDFORK_CORE_625_TIME, HARDFORK_613_TIME, HARDFORK_CORE_343_TIME,
    HARDFORK_CORE_868_890_TIME, HARDFORK_CORE_935_TIME. intros H.
  rewrite (proj2 (Z.ltb_ge _ _)), (proj2 (Z.leb_gt _ _)) by lia. done.
Qed.

Lemma process_hardforks_effect before after s :
  HARDFORK_CORE_625_TIME < before → wf s → effect (process_hardforks before after) s (λ _, 0).
Proof.
  intros Hb Hwf. unfold process_hardforks. destruct (modern_passed before after Hb) as (-> & -> & -> & ->). simpl.
  apply after_none; [by apply effect_ret|]. intros u s1 Hwf1.
  apply after_none; [by apply effect_ret|]. intros. by apply effect_ret.
Qed.

(** ** The whole maintenance *)

Lemma distribute_fba_balances_clock : keeps_clock distribute_fba_balances.
Proof. unfold distribute_fba_balances, split_fba_balance, distribute_fba, burn_core, is_configured. frame. Qed.
Lemma update_parameters_held : keeps held update_parameters.
Proof. unfold update_parameters, get_gov, put_gov. frame. Qed.

(** A step of the maintenance before the clock moves on. *)
Lemma maintenance_step {A B} (m : DB A) (k : A → DB B) s :
  modern s → keeps_time m → effect m s (λ _, 0) →
  (∀ u s1, wf s1 → modern s1 → effect (k u) s1 (λ _, 0)) → effect (bind m k) s (λ _, 0).
Proof. intros. eapply effect_ext; [by apply (effect_bind_time _ _ _ (λ _, 0) (λ _, 0))|done]. Qed.
Lemma maintenance_held {B} (m : DB unit) (k : unit → DB B) s :
  wf s → modern s → keeps held m →
  (∀ u s1, wf s1 → modern s1 → effect (k u) s1 (λ _, 0)) → effect (bind m k) s (λ _, 0).
Proof. intros. apply maintenance_step; [done|by apply keeps_held_time|by apply keeps_held_effect|done]. Qed.

Lemma set_clock_effect t s : wf s → effect (put (set_d_next_maintenance_time t)) s (λ _, 0).
Proof. intros Hwf. unfold effect. dstep. split; [wf_solve|]. intros a. rewrite !gap_eq. simpl. lia. Qed.

Lemma perform_chain_maintenance_effect timestamp block_num s :
  wf s → modern s → effect (perform_chain_maintenance timestamp block_num) s (λ _, 0).
Proof.
  intros Hwf Hmod. unfold perform_chain_maintenance.
  apply maintenance_step; [done|apply clock_time, distribute_fba_balances_clock|by apply distribute_fba_balances_effect|].
  clear s Hwf Hmod. intros _ s Hwf Hmod.
  apply maintenance_step; [done|apply clock_time, create_buyback_orders_clock|by apply create_buyback_orders_effect|].
  clear s Hwf Hmod. intros _ s Hwf Hmod. apply maintenance_held; [done|done|apply start_tally_held|].
  clear s Hwf Hmod. intros _ s Hwf Hmod.
  apply maintenance_step; [done|apply clock_time, perform_account_maintenance_clock|by apply perform_account_maintenance_effect|].
  clear s Hwf Hmod. intros _ s Hwf Hmod. apply maintenance_held; [done|done|apply update_top_n_authorities_held|].
  clear s Hwf Hmod. intros _ s Hwf Hmod. apply maintenance_held; [done|done|apply update_active_witnesses_held|].
  clear s Hwf Hmod. intros _ s Hwf Hmod. apply maintenance_held; [done|done|apply update_active_committee_members_held|].
  clear s Hwf Hmod. intros _ s Hwf Hmod. apply maintenance_held; [done|done|apply update_worker_votes_held|].
  clear s Hwf Hmod. intros _ s Hwf Hmod. apply maintenance_held; [done|done|apply update_parameters_held|].
  clear s Hwf Hmod. intros _ s Hwf Hmod. eread. eread. eread.
  apply effect_read. dstep. intros after _. split; [done|].
  apply after_none; [by apply process_hardforks_effect|]. intros _ s1 Hwf1.
  apply after_none; [by apply set_clock_effect|]. intros _ s2 Hwf2.
  apply after_none; [apply keeps_held_effect; [unfold put_gov; frame|done]|]. intros _ s3 Hwf3.
  destruct (modern_passed _ after Hmod) as (_ & -> & _).
  apply after_none; [by apply effect_ret|]. intros _ s4 Hwf4.
  apply after_none; [by apply process_bitassets_effect|]. intros _ s5 Hwf5.
  apply after_none; [by apply process_budget_effect|]. intros _ s6 Hwf6.
  apply keeps_held_effect; [apply clear_tally_held|done].
Qed.

(** ** What the maintenance leaves alone *)

Lemma covering_bids_clock fuel mia bad : ∀ a b c, keeps_clock (covering_bids fuel mia bad a b c).
Proof. induction fuel; intros; simpl; frame. Qed.
Lemma execute_bids_clock fuel b last : ∀ t fund itr, keeps_clock (execute_bids fuel b t fund itr last).
Proof. induction fuel; intros; simpl; unfold execute_bid; frame. Qed.
Lemma cancel_rest_clock fuel mia : ∀ i, keeps_clock (cancel_bids fuel mia i).
Proof. induction fuel; intros; simpl; frame. Qed.
Hint Resolve covering_bids_clock execute_bids_clock cancel_rest_clock : frames.
Lemma process_bitassets_clock : keeps_clock process_bitassets.
Proof. unfold process_bitassets. frame. Qed.
Lemma pay_each_clock ws p : ∀ b, keeps_clock (pay_each ws p b).
Proof. induction ws; intros; simpl; unfold pay_worker, put_gov; frame. Qed.
Hint Resolve pay_each_clock : frames.
Lemma process_budget_clock : keeps_clock process_budget.
Proof. unfold process_budget. frame. Qed.
Lemma try_upgrade_clock ts (op : account_upgrade_operation) : keeps_clock (try_operation ts op).
Proof. apply try_operation_clock, start_evaluate_clock; intros; simpl; unfold account_upgrade_do_apply; frame. Qed.
Hint Resolve try_upgrade_clock : frames.
Lemma process_hardforks_clock a b : keeps_clock (process_hardforks a b).
Proof. unfold process_hardforks, deprecate_annual_members, process_hf_868_890, process_hf_935. frame. Qed.
Lemma update_call_prices_clock calls : ∀ a abd, keeps_clock (update_call_prices calls a abd).
Proof. induction calls; intros; simpl; frame. Qed.
Hint Resolve update_call_prices_clock : frames.
Lemma update_and_match_call_orders_clock : keeps_clock update_and_match_call_orders.
Proof. unfold update_and_match_call_orders. frame. Qed.

Lemma perform_chain_maintenance_now timestamp block_num : keeps_now (perform_chain_maintenance timestamp block_num).
Proof.
  unfold perform_chain_maintenance.
  apply keeps_bind; [apply clock_now, distribute_fba_balances_clock|]. intros _.
  apply keeps_bind; [apply clock_now, create_buyback_orders_clock|]. intros _.
  apply keeps_bind; [unfold start_tally, put_gov; frame|]. intros _.
  apply keeps_bind; [apply clock_now, perform_account_maintenance_clock|]. intros _.
  apply keeps_bind; [unfold update_top_n_authorities, update_top_n_authority, get_gov; frame|]. intros _.
  apply keeps_bind; [unfold update_active_witnesses, update_witness_total_votes, get_gov, put_gov; frame|]. intros _.
  apply keeps_bind; [unfold update_active_committee_members, update_committee_member_total_votes, get_gov, put_gov; frame|]. intros _.
  apply keeps_bind; [unfold update_worker_votes, put_gov; frame|]. intros _.
  apply keeps_bind; [unfold update_parameters, get_gov, put_gov; frame|]. intros _.
  do 4 (apply keeps_bind; [frame|]; intros ?).
  apply keeps_bind; [apply clock_now, process_hardforks_clock|]. intros _. apply keeps_bind; [frame|]. intros _.
  apply keeps_bind; [unfold put_gov; frame|]. intros _.
  apply keeps_bind; [destruct (passes _ _ _); [apply clock_now, update_and_match_call_orders_clock|frame]|]. intros _.
  apply keeps_bind; [apply clock_now, process_bitassets_clock|]. intros _.
  apply keeps_bind; [apply clock_now, process_budget_clock|]. intros _. unfold clear_tally, put_gov. frame.
Qed.
End maintenance_supply.
