(* ===== verification/BlockSupply.v ===== *)
(** * A block conserves the supply of every asset

    The effect on the gap of the functions of Update.v, of the expiry of transactions
    and proposals (Transactions.v) and of the pay of a witness; then the steps of
    [_apply_block] (ApplyBlock.v), put together from what the transactions, the
    maintenance and the expiry do. *)

From S2P Require Import Prelude Ext Config Asset Objects Parameters Governance Blocks Names Operations Validation Fees Ledger Authority Database Balance Market Matching OrderBook Feeds Evaluator ContractEval ProposalEval Maintenance Update Transactions SignedBlocks WitnessSchedule ApplyBlock Exchange Supply MarketSupply MatchSupply EvalSupply Frame GovernanceSupply OperationSupply BitassetSupply ChainSupply BudgetSupply MaintenanceSupply.

Section update_supply.
Context {X : Ext} {R : Regime} {P : Packing} {N : NthElement}.

(** ** Limit orders *)

Lemma clear_expired_limits_effect fuel : ∀ s, wf s → effect (clear_expired_limits fuel) s (λ _, 0).
Proof.
  induction fuel as [|fuel IH]; intros s Hwf; simpl; [unfold effect; dstep|]. eread. eread.
  destruct (head _) as [[id order]|]; [|by apply effect_ret]. destruct (_ <=? _); [|by apply effect_ret].
  apply after_none; [by apply cancel_limit_order_effect|]. intros _ s1 Hwf1. eread.
  apply after_none; [|intros; by apply IH]. destruct (_ <=? _); [|by apply effect_ret].
  do 2 (apply after_none; [by apply check_call_orders_effect|]; intros ? ? ?). by apply effect_ret.
Qed.

(** ** Force settlements *)

(** A price that is valid or exchanges nothing. *)
Definition usable (p : price) : Prop := p = null_price ∨ price_ok p.
Definition settling_ok (g : settling) : Prop :=
  usable (sg_settlement_fill_price g) ∧ usable (sg_settlement_price g).

Lemma catch_black_swan_effect {A} (m handler : DB A) s δ :
  effect m s δ → effect handler s δ → effect (catch_black_swan m handler) s δ.
Proof.
  unfold effect, catch_black_swan. intros Hm Hh x s' E. destruct (m s) as [[y s1]|e] eqn:Em.
  - injection E as <- <-. by apply (Hm _ _ Em).
  - destruct e; try discriminate E. by apply (Hh _ _ E).
Qed.

Lemma settle_order_effect fuel mia order_id p fill max : ∀ settled s,
  wf s → usable p → effect (settle_order fuel mia order_id p fill max settled) s (λ _, 0).
Proof.
  induction fuel as [|fuel IH]; intros settled s Hwf Hp; simpl; [unfold effect; dstep|].
  apply effect_read. dstep. intros below Hbelow. split; [done|]. eread.
  destruct (d_settles s !! order_id) as [order|] eqn:Ho; [|by apply effect_ret].
  destruct below; [|by apply effect_ret].
  apply effect_read. pcall reads_bitasset_of. intros bd s1 ->. split; [done|].
  apply effect_read. dstep. intros call_min _. split; [done|]. eread.
  apply effect_read. dstep. intros left Hleft. split; [done|]. destruct (_ =? 0).
  { apply after_none; [by apply cancel_settle_order_effect|]. intros. by apply effect_ret. }
  apply effect_read. dstep. intros call_id _. split; [done|].
  apply after_none.
  { apply catch_black_swan_effect.
    - apply after_none; [|intros; by apply effect_ret]. eapply match_call_settle_effect; eauto.
      unfold asset_lt, asset_sub in *. inv_ok. btrue. simpl. lia.
    - apply after_none; [by apply cancel_settle_order_effect|]. intros. by apply effect_ret. }
  intros [new|] s1 Hwf1; [|by apply effect_ret]. eread. destruct (_ && _).
  { eread. by apply effect_ret. }
  apply effect_read. dstep. intros sum _. split; [done|]. by apply IH.
Qed.

(** The price of a settlement: the feed, with the offset. *)
Lemma offset_price_ok feed percent r p :
  price_ok feed → ratio_make (GRAPHENE_100_PERCENT - u16 percent) GRAPHENE_100_PERCENT = Some r →
  price_div_ratio feed r = Ok p → price_ok p.
Proof.
  unfold price_div_ratio, u16, GRAPHENE_100_PERCENT. intros Hfeed Hr H.
  pose proof (Z.mod_pos_bound percent (2 ^ 16) eq_refl) as Hb. set (n := 10000 - _) in *.
  rewrite ratio_make_normal in Hr by (subst n; lia). injection Hr as <-.
  destruct (Z.lt_trichotomy n 0) as [Hn|[Hn|Hn]].
  - exfalso. assert (0 < Z.gcd n 10000) as Hg by (by apply gcd_pos). unfold normal_form in H. simpl in H.
    rewrite Z.mul_1_l in H. change (Z.abs 10000) with 10000 in H. set (g := Z.gcd n 10000) in *.
    assert (n ≤ n / g < 0) as Hneg by (split; [apply Z.div_le_lower_bound|apply Z.div_lt_upper_bound]; nia).
    assert (0 ≤ 10000 / g ≤ 10000) as Hten by (split; [by apply Z.div_pos; lia|apply Z.div_le_upper_bound; nia]).
    rewrite ratio_make_normal in H by (subst n; lia). simpl in H. unfold price_mul_ratio, normal_form in H. inv_ok. btrue.
    simpl in *. set (m := n / g) in *. set (q := 10000 / g) in *. rewrite Z.sgn_neg in * by lia.
    pose proof (Z.gcd_nonneg q m). assert (0 ≤ q / Z.gcd q m); [|lia].
    destruct (decide (Z.gcd q m = 0)) as [->|]; [by rewrite Zdiv_0_r|apply Z.div_pos; lia].
  - rewrite Hn in H. simpl in H. rewrite ratio_make_zero in H. done.
  - destruct (normal_form_pos n 10000 10000) as (Hnum & Hden & _); [subst n; lia|lia|].
    set (r := normal_form n 10000) in *. rewrite ratio_make_normal in H by lia. cbn [of_option rbind] in H.
    destruct (price_mul_ratio_total feed (normal_form (denominator r) (numerator r))) as (np & E & Hok & _); [done| |].
    { destruct (normal_form_pos (denominator r) (numerator r) 10000) as (? & ? & ?); [lia|lia|]. split_and!; try done; lia. }
    rewrite E in H. by injection H as <-.
Qed.

(** What a pass prepares: usable prices. *)
Lemma prepare_settlement_ok mia b order g s :
  modern s → settling_ok g → price_ok (settlement_price (bd_current_feed b)) →
  post (prepare_settlement mia b order g) s (λ g' s', s' = s ∧ settling_ok g').
Proof.
  intros Hmod [Hfill Hsettle] Hfeed. unfold prepare_settlement. dstep. dstep. cbv zeta.
  unfold modern, HARDFORK_CORE_625_TIME in Hmod. unfold HARDFORK_CORE_342_TIME.
  assert (d_next_maintenance_time s <=? 1532008920 = false) as -> by (apply Z.leb_gt; lia).
  dstep. apply (post_mono _ _ (λ p s', s' = s ∧ usable p)).
  { destruct (_ =? _); [by dstep|]. dstep. dstep. intros r Hr. dstep. intros p Hp. split; [done|]. right.
    unfold of_option in Hr. case_match; [|done]. injection Hr as <-. by eapply offset_price_ok. }
  intros p s1 [-> Hp]. dstep. destruct (_ =? _); by repeat dstep.
Qed.

Lemma next_asset_ok g s : settling_ok g →
  post (next_asset g) s (λ o s', s' = s ∧ ∀ g', o = Some g' → settling_ok g').
Proof.
  intros Hg. unfold next_asset. dstep. dstep. destruct (settlement_upper_bound (sg_current_asset g) s) as [k|]; [|by dstep].
  dstep. dstep. dstep. split; [done|]. by intros g' [= <-].
Qed.

(** A pass over a settlement: no effect on the gap, and prices as before. *)
Lemma settlement_pass_effect id g s :
  wf s → modern s → settling_ok g →
  post (settlement_pass id g) s (λ o s',
    (wf s' ∧ ∀ a, gap a s' = gap a s + 0) ∧ ∀ g', o = Some g' → settling_ok g').
Proof.
  intros Hwf Hmod Hg. unfold settlement_pass. dstep. dstep. dstep. dstep. dstep. dstep. cbv zeta.
  match goal with H : d_settles s !! id = Some ?o, Hb : d_bitassets s !! ?b = Some ?bd |- _ =>
    rename o into order, bd into bitasset, H into Ho, Hb into Hbd, b into bid end.
  assert (∀ g0, settling_ok g0 → post (let! _ := cancel_settle_order id true in ret (Some g0)) s (λ o s',
    (wf s' ∧ ∀ a, gap a s' = gap a s + 0) ∧ ∀ g', o = Some g' → settling_ok g')) as Hcancel.
  { intros g0 Hg0. dstep. pcall cancel_settle_order_effect; [done|]. intros u s1 Hs1. dstep. split; [done|]. by intros g' [= <-]. }
  assert (∀ g0, settling_ok g0 → post (next_asset g0) s (λ o s',
    (wf s' ∧ ∀ a, gap a s' = gap a s + 0) ∧ ∀ g', o = Some g' → settling_ok g')) as Hnext.
  { intros g0 Hg0. pcall next_asset_ok; [done|]. intros o s1 [E1 Hs1]. subst s1. split; [split; [done|intros; lia]|done]. }
  destruct (has_settlement bitasset); [by apply Hcancel|]. destruct (_ <? _); [by apply Hnext|].
  destruct (is_null _) eqn:Hnull; [by apply Hcancel|].
  dstep. apply (post_mono _ _ (λ g' s', s' = s ∧ settling_ok g')).
  { destruct (_ =? _); [by dstep|]. dstep. dstep. dstep. dstep. intros v _. by dstep. }
  intros g1 s1 [-> Hg1]. destruct (_ || _); [by apply Hnext|].
  assert (price_ok (settlement_price (bd_current_feed bitasset))) as Hfeed.
  { destruct (wf_feeds s Hwf _ _ Hbd) as [[[Hz|[? _]] _] _]; [by rewrite Hz in Hnull|done]. }
  dstep. pcall prepare_settlement_ok; [done|done|done|]. intros g2 s1 [-> Hg2].
  dstep. dstep. dstep. pcall settle_order_effect; [done|apply Hg2|]. intros [sum fin] s1 [Hwf1 Hgap1].
  dstep. simpl. apply (post_mono _ _ (λ _ s', wf s' ∧ ∀ a, gap a s' = gap a s1 + 0)).
  { destruct (_ =? _); [by apply effect_ret|]. apply kept_of_effect; [done|]. by intros bd bd' [= <-]. }
  intros u s2 [Hwf2 Hgap2]. dstep. split; [split; [done|]|by intros g' [= <-]]. intros a. rewrite Hgap2, Hgap1. lia.
Qed.

(** None of this changes the clock. *)
Lemma catch_black_swan_clock {A} (m handler : DB A) :
  keeps_clock m → keeps_clock handler → keeps_clock (catch_black_swan m handler).
Proof.
  unfold catch_black_swan. intros Hm Hh s x s' E. destruct (m s) as [[y s1]|e] eqn:Em.
  - injection E as <- <-. by apply (Hm _ _ _ Em).
  - destruct e; try discriminate E. by apply (Hh _ _ _ E).
Qed.
Lemma settle_order_clock fuel mia id p f max : ∀ settled, keeps_clock (settle_order fuel mia id p f max settled).
Proof.
  induction fuel as [|fuel IH]; intros settled; simpl; [apply keeps_reads, reads_fail|]. frame.
  apply catch_black_swan_clock; frame.
Qed.
Hint Resolve settle_order_clock : frames.
Lemma settlement_pass_clock id g : keeps_clock (settlement_pass id g).
Proof. unfold settlement_pass, prepare_settlement, next_asset. frame. Qed.
Lemma clear_expired_limits_clock fuel : keeps_clock (clear_expired_limits fuel).
Proof. induction fuel; simpl; frame. Qed.
Lemma clear_expired_settlements_clock fuel : ∀ g, keeps_clock (clear_expired_settlements fuel g).
Proof.
  induction fuel as [|fuel IH]; intros g; simpl; [apply keeps_reads, reads_fail|].
  apply keeps_bind; [frame|]. intros itr. destruct itr; [|frame]. apply keeps_bind; [apply settlement_pass_clock|].
  intros next. destruct next; [apply IH|frame].
Qed.
Lemma clear_expired_orders_clock : keeps_clock clear_expired_orders.
Proof.
  unfold clear_expired_orders. apply keeps_bind; [frame|]. intros fuel.
  apply keeps_bind; [apply clear_expired_limits_clock|]. intros _. apply keeps_bind; [frame|]. intros first.
  destruct first as [[? ?]|]; [|frame]. apply keeps_bind; [frame|]. intros. apply clear_expired_settlements_clock.
Qed.

Lemma modern_kept {A} (m : DB A) s x s' : keeps_time m → modern s → m s = Ok (x, s') → modern s'.
Proof. unfold modern. intros Hm Hs E. by rewrite (Hm _ _ _ E). Qed.

Lemma clear_expired_settlements_effect fuel : ∀ g s,
  wf s → modern s → settling_ok g → effect (clear_expired_settlements fuel g) s (λ _, 0).
Proof.
  induction fuel as [|fuel IH]; intros g s Hwf Hmod Hg; simpl; [unfold effect; dstep|]. eread.
  destruct (settlement_lower_bound _ s) as [id|]; [|by apply effect_ret].
  unfold effect. dstep. intros o s1 E.
  destruct (settlement_pass_effect id g s Hwf Hmod Hg _ _ E) as [[Hwf1 Hgap1] Hg1].
  assert (modern s1) as Hmod1 by (eapply modern_kept; [apply clock_time, settlement_pass_clock|done|done]).
  assert (effect (match o with Some g' => clear_expired_settlements fuel g' | None => ret tt end) s1 (λ _, 0)) as H.
  { destruct o as [g'|]; [apply IH; auto|by apply effect_ret]. }
  destruct o; (pcall H; intros x s2 [Hwf2 Hgap2]; split; [done|]; intros a; rewrite Hgap2, Hgap1; lia).
Qed.

Lemma clear_expired_orders_effect s : wf s → modern s → effect clear_expired_orders s (λ _, 0).
Proof.
  intros Hwf Hmod. unfold clear_expired_orders. eread. apply (effect_ext _ _ (λ a, 0 + 0)); [|done].
  eapply effect_bind_time; [done|apply clock_time, clear_expired_limits_clock|by apply clear_expired_limits_effect|].
  intros _ s1 Hwf1 Hmod1. eread. destruct (head _) as [[? order]|]; [|by apply effect_ret]. eread.
  apply clear_expired_settlements_effect; [done|done|split; by left].
Qed.

(** ** Feeds and core exchange rates *)

Lemma copy_cer_effect b s : wf s → effect (copy_cer b) s (λ _, 0).
Proof.
  intros Hwf. unfold copy_cer. eread. destruct (price_eqb _ _); [by apply effect_ret|].
  apply modify_asset_effect; [done|]. intros ao ao' Ha [= <-]. split; [done|].
  exact (wf_options s Hwf _ _ Ha).
Qed.

Lemma update_expired_feed_effect id s : wf s → effect (update_expired_feed id) s (λ _, 0).
Proof.
  intros Hwf. unfold update_expired_feed. eread. apply effect_read. dstep. split; [done|].
  match goal with H : d_bitassets s !! id = Some ?bd |- _ => rename bd into b, H into Hb end.
  destruct (_ || _); [|by apply effect_ret].
  apply effect_read. dstep. intros updated Hup. split; [done|]. cbv zeta. apply after_none.
  { apply modify_bitasset_effect; [done|]. intros bd bd' Hbd [= <-].
    assert (bd = b) as -> by congruence. destruct (update_median_feeds_ok _ _ _ Hup) as [Hfund Hfeeds].
    assert (bd_asset_id updated = bd_asset_id b ∧ bitasset_ok updated ∧
      (∀ a, fund_credit updated a = fund_credit b a) ∧ same_backing b updated) as (Hi & Hok & Hf & Hback).
    { apply same_fund_ok; [done|]. by eapply (wf_bitassets s Hwf). }
    assert (feeds_ok updated) as Hfo by (by eapply Hfeeds, (wf_feeds s Hwf)).
    destruct (need_to_update_cer updated); [|by split_and!]. split_and!; [exact Hi|exact Hok|exact Hfo|exact Hf|exact Hback]. }
  intros u s1 Hwf1. eread. apply after_none.
  { destruct (_ && _); [|by apply effect_ret]. apply after_none; [by apply check_call_orders_effect|]. intros. by apply effect_ret. }
  intros u2 s2 Hwf2. destruct (need_to_update_cer updated); [|by apply effect_ret]. eread. by apply copy_cer_effect.
Qed.

Lemma update_feeds_effect fuel : ∀ itr s, wf s → effect (update_feeds fuel itr) s (λ _, 0).
Proof.
  induction fuel as [|fuel IH]; intros itr s Hwf; simpl; [unfold effect; dstep|].
  destruct itr as [id|]; [|by apply effect_ret]. eread. eread. destruct (feed_is_expired _ _); [|by apply effect_ret].
  eread. apply after_none; [by apply update_expired_feed_effect|]. intros. by apply IH.
Qed.

Lemma update_expired_feeds_effect s : wf s → effect update_expired_feeds s (λ _, 0).
Proof.
  intros Hwf. unfold update_expired_feeds. eread. eread. eread. apply after_none; [by apply update_feeds_effect|].
  intros _ s1 Hwf1. destruct (_ <=? _); [by apply effect_ret|]. eread.
  generalize (merge_sort (λ a b, Is_true (a <=? b)) (elements (d_issue_453_affected_assets s1))). intros l. revert s1 Hwf1.
  induction l as [|a l IH]; intros s1 Hwf1; simpl; [by apply effect_ret|].
  apply after_none; [by apply check_call_orders_effect|]. intros. by apply IH.
Qed.

Lemma update_core_exchange_rates_effect s : wf s → effect update_core_exchange_rates s (λ _, 0).
Proof.
  intros Hwf. unfold update_core_exchange_rates. eread. generalize (S (size (d_bitassets s))). intros fuel. revert s Hwf.
  induction fuel as [|fuel IH]; intros s Hwf; simpl; [unfold effect; dstep|]. eread.
  destruct (next_cer_update s) as [id|]; [|by apply effect_ret]. eread.
  apply after_none; [by apply copy_cer_effect|]. intros _ s1 Hwf1. apply after_none; [|intros; by apply IH].
  apply kept_effect; [done|]. by intros bd bd' [= <-].
Qed.

(** ** Permissions, transactions and proposals *)
Context {K : KeyAddresses} {C : ContractMachine}.

Lemma update_withdraw_permissions_effect s : wf s → effect update_withdraw_permissions s (λ _, 0).
Proof.
  enough (∀ fuel s, wf s → effect (expire_permissions fuel) s (λ _, 0)) as H by exact (H _ s).
  clear s. intros fuel. induction fuel as [|fuel IH]; intros s Hwf; simpl; [unfold effect; dstep|]. eread. eread.
  destruct (first_by _ _) as [[id p]|]; [|by apply effect_ret]. destruct (_ <=? _); [|by apply effect_ret].
  apply after_none; [no_effect|]. intros. by apply IH.
Qed.

Lemma clear_expired_transactions_effect s : wf s → effect clear_expired_transactions s (λ _, 0).
Proof.
  enough (∀ fuel s, wf s → effect (clear_transactions fuel) s (λ _, 0)) as H by exact (H _ s).
  clear s. intros fuel. induction fuel as [|fuel IH]; intros s Hwf; simpl; [unfold effect; dstep|]. eread. eread.
  destruct (first_by _ _) as [[id p]|]; [|by apply effect_ret]. destruct (_ <? _); [|by apply effect_ret].
  apply after_none; [no_effect|]. intros. by apply IH.
Qed.
Lemma clear_expired_transactions_clock : keeps_clock clear_expired_transactions.
Proof.
  enough (∀ fuel, keeps_clock (clear_transactions fuel)) as H by (intros s; exact (H _ s)). intros fuel. induction fuel; simpl; unfold remove_transaction; frame.
Qed.

Lemma expire_proposal_effect skip id p s : wf s → modern s → effect (expire_proposal skip id p) s (λ _, 0).
Proof.
  intros Hwf Hmod. unfold expire_proposal. apply effect_read. pcall reads_is_authorized. intros authorized s1 E.
  split; [done|]. clear s1 E. destruct authorized; [|by apply remove_proposal_effect]. intros r s1.
  destruct (push skip id s) as [[u s2]|e] eqn:E.
  - intros [= <- <-]. by apply (push_effect skip id s Hwf Hmod _ _ E).
  - destruct (is_fc_exception e); [|done]. apply remove_proposal_effect; done.
Qed.
Lemma expire_proposal_epoch skip id p : keeps_epoch (expire_proposal skip id p).
Proof.
  unfold expire_proposal. apply keeps_bind; [apply keeps_reads, reads_is_authorized|].
  intros [|]; [|unfold remove_proposal; frame]. intros s r s1. destruct (push skip id s) as [[u s2]|e] eqn:E.
  - intros [= <- <-]. by apply (push_epoch skip id s _ _ E).
  - destruct (is_fc_exception e); [|done]. revert r s1. change (post (remove_proposal id) s (λ _ s', epoch s' = epoch s)).
    revert s E. intros s _. revert s. change (keeps_epoch (remove_proposal id)). unfold remove_proposal. frame.
Qed.

Lemma clear_expired_proposals_epoch skip : keeps_epoch (clear_expired_proposals skip).
Proof.
  enough (∀ fuel, keeps_epoch (clear_proposals fuel skip)) as H by (intros s; exact (H _ s)). intros fuel. induction fuel as [|fuel IH]; simpl; [apply keeps_reads, reads_fail|].
  apply keeps_bind; [frame|]. intros. apply keeps_bind; [frame|]. intros. destruct (first_by _ _) as [[id p]|]; [|frame].
  destruct (_ <=? _); [|frame]. apply keeps_bind; [apply expire_proposal_epoch|done].
Qed.
Lemma clear_expired_proposals_effect skip s : wf s → modern s → effect (clear_expired_proposals skip) s (λ _, 0).
Proof.
  enough (∀ fuel s, wf s → modern s → effect (clear_proposals fuel skip) s (λ _, 0)) as H by exact (H _ s).
  clear s. intros fuel. induction fuel as [|fuel IH]; intros s Hwf Hmod; simpl; [unfold effect; dstep|]. eread. eread.
  destruct (first_by _ _) as [[id p]|]; [|by apply effect_ret]. destruct (_ <=? _); [|by apply effect_ret].
  apply (effect_ext _ _ (λ a, 0 + 0)); [|done].
  eapply effect_bind_time; [done|apply epoch_time, expire_proposal_epoch|by apply expire_proposal_effect|].
  intros. by apply IH.
Qed.

Lemma create_block_summary_effect id n s : wf s → effect (create_block_summary id n) s (λ _, 0).
Proof. intros Hwf. unfold create_block_summary. no_effect. Qed.
Lemma create_block_summary_clock id n : keeps_clock (create_block_summary id n).
Proof. unfold create_block_summary, modify_block_summary. frame. Qed.

Lemma copy_cer_clock b : keeps_clock (copy_cer b).
Proof. unfold copy_cer. frame. Qed.
Lemma update_expired_feed_clock id : keeps_clock (update_expired_feed id).
Proof. unfold update_expired_feed, copy_cer. frame. Qed.
Lemma update_feeds_clock fuel : ∀ itr, keeps_clock (update_feeds fuel itr).
Proof.
  induction fuel as [|fuel IH]; intros itr; simpl; [apply keeps_reads, reads_fail|]. destruct itr as [id|]; [|frame].
  do 2 (apply keeps_bind; [frame|]; intros ?). destruct (feed_is_expired _ _); [|frame].
  apply keeps_bind; [frame|]. intros ?. apply keeps_bind; [apply update_expired_feed_clock|]. intros ?. apply IH.
Qed.
Lemma check_affected_clock l : keeps_clock (check_affected l).
Proof. induction l; simpl; frame. Qed.
Lemma update_expired_feeds_clock : keeps_clock update_expired_feeds.
Proof.
  unfold update_expired_feeds. do 3 (apply keeps_bind; [frame|]; intros ?).
  apply keeps_bind; [apply update_feeds_clock|]. intros ?. destruct (_ <=? _); [frame|].
  apply keeps_bind; [frame|]. intros ?. apply check_affected_clock.
Qed.
Lemma update_core_exchange_rates_clock : keeps_clock update_core_exchange_rates.
Proof.
  unfold update_core_exchange_rates. apply keeps_bind; [frame|]. intros fuel. induction fuel; simpl; unfold copy_cer; frame.
Qed.
Lemma update_withdraw_permissions_clock : keeps_clock update_withdraw_permissions.
Proof.
  enough (∀ fuel, keeps_clock (expire_permissions fuel)) as H by (intros s; exact (H _ s)).
  intros fuel. induction fuel; simpl; unfold remove_withdraw_permission; frame.
Qed.

(** ** The pay of a witness *)

Lemma deposit_witness_pay_effect w pay s : wf s → effect (deposit_witness_pay w pay) s (core_credit pay).
Proof.
  intros Hwf. unfold deposit_witness_pay. eread. destruct (Z.eqb_spec pay 0) as [->|].
  { eapply effect_ext; [by apply effect_ret|]. intros a. unfold core_credit. by rewrite credit_zero. }
  eread. apply (effect_ext _ _ (λ a, core_credit pay a + 0)); [|intros; lia].
  eapply effect_bind; [by apply deposit_lazy_vesting_effect|]. intros [vbid|] s1 Hwf1; [|by apply effect_ret].
  no_effect.
Qed.
Lemma deposit_witness_pay_clock w pay : keeps_clock (deposit_witness_pay w pay).
Proof. unfold deposit_witness_pay, deposit_lazy_vesting. frame. Qed.
End update_supply.

(** ** The steps of a block *)

(** ** The parts of the state *)

Lemma post_on_db {A} (m : DB A) c (Q : A → chain → Prop) :
  post m (c_db c) (λ x s, Q x (set_c_db s c)) → post (on_db m) c Q.
Proof.
  intros Hm x c'. unfold on_db. destruct (m (c_db c)) as [[y s]|] eqn:E; simpl; [|done].
  intros [= <- <-]. by apply Hm.
Qed.

(** The schedule changes nothing of the database but the time. *)
Lemma post_on_schedule {A} (m : M schedule_db A) c (Q : A → chain → Prop) :
  (∀ x t c', c_db c' = set_d_head_block_time t (c_db c) → Q x c') → post (on_schedule m) c Q.
Proof.
  intros HQ x c'. unfold on_schedule. destruct (m (schedule_of c)) as [[y d]|]; simpl; [|done].
  intros [= <- <-]. by eapply HQ.
Qed.

Section block_supply.
Context {X : Ext} {R : Regime} {P : Packing} {N : NthElement} {K : KeyAddresses} {C : ContractMachine} {T : TransactionCrypto}.
Context {B : BlockHash} {H : MerkleHash} {G : BlockSigner}.

(** ** Balanced books *)

Definition books_ok (s : database) : Prop := wf s ∧ conserved s.

Lemma effect_books {A} (m : DB A) s :
  books_ok s → (wf s → effect m s (λ _, 0)) → post m s (λ _ s', books_ok s').
Proof.
  unfold books_ok. rewrite conserved_gap. intros [Hwf Hc] Hm. pcall Hm; [done|]. intros _ s' [Hwf' Hg]. split; [done|].
  apply conserved_gap. intros a. rewrite Hg, Hc. lia.
Qed.

Lemma books_held s s' : held s' = held s → books_ok s → books_ok s'.
Proof.
  unfold held. intros E [Hwf Hc]. simplify_eq E. intros E1 E2 E3 E4 E5 E6 E7 E8 E9 E10 E11 E12 E13 E14 E15 E16. split.
  - destruct Hwf. by apply mk_wf; rewrite ?E1, ?E2, ?E3, ?E4, ?E5, ?E6, ?E7, ?E8, ?E9, ?E10, ?E14, ?E15.
  - rewrite conserved_gap in *. intros a. rewrite <- (Hc a), !gap_eq. congruence.
Qed.
Lemma books_time t s : books_ok s → books_ok (set_d_head_block_time t s).
Proof. by apply books_held. Qed.

(** A step on the database, and one on the schedule. *)
Lemma db_step {A D} (m : DB A) (k : A → M chain D) c Q :
  books_ok (c_db c) → (wf (c_db c) → effect m (c_db c) (λ _, 0)) →
  (∀ x c', books_ok (c_db c') → m (c_db c) = Ok (x, c_db c') → post (k x) c' Q) →
  post (bind (on_db m) k) c Q.
Proof.
  intros Hc Hm Hk. apply post_bind, post_on_db. pose proof (effect_books m (c_db c) Hc Hm) as Hb.
  intros x s E. apply Hk; [|done]. by apply (Hb _ _ E).
Qed.
Lemma schedule_step {A D} (m : M schedule_db A) (k : A → M chain D) c Q :
  books_ok (c_db c) →
  (∀ x c', books_ok (c_db c') → d_next_maintenance_time (c_db c') = d_next_maintenance_time (c_db c) → post (k x) c' Q) →
  post (bind (on_schedule m) k) c Q.
Proof.
  intros Hc Hk. apply post_bind, post_on_schedule. intros x t c' E. apply Hk; rewrite E; [by apply books_time|done].
Qed.

(** ** The steps *)

Lemma apply_transactions_effect skip n trxs : ∀ s,
  wf s → modern s →
  Forall (λ trx, Forall op_typed (trx_operations (stx_transaction (ptx_transaction trx))) ∧
                 Forall (λ op, left_out op = false) (trx_operations (stx_transaction (ptx_transaction trx)))) trxs →
  effect (apply_transactions skip n trxs) s (λ _, 0).
Proof.
  induction trxs as [|trx trxs IH]; intros s Hwf Hmod Ht; simpl; [by apply effect_ret|].
  apply Forall_cons in Ht as [[Htyped Hpos] Ht]. apply maintenance_step; [done|apply epoch_time, apply_transaction_epoch| |].
  - by apply apply_transaction_effect.
  - intros _ s1 Hwf1 Hmod1. by apply IH.
Qed.

Lemma apply_transactions_epoch skip n trxs : keeps_epoch (apply_transactions skip n trxs).
Proof.
  induction trxs as [|trx trxs IH]; simpl; [frame|].
  apply keeps_bind; [apply apply_transaction_epoch|done].
Qed.

Lemma pay_signing_witness_clock w : keeps_clock (pay_signing_witness w).
Proof.
  unfold pay_signing_witness. do 4 (apply keeps_bind; [frame|]; intros ?). apply deposit_witness_pay_clock.
Qed.
Lemma pay_signing_witness_effect w s : wf s → effect (pay_signing_witness w) s (λ _, 0).
Proof.
  intros Hwf. unfold pay_signing_witness. eread. eread.
  set (pay := Z.min _ _). apply effect_read. dstep. intros rest [-> _]%safe_spec. split; [done|].
  apply (effect_ext _ _ (λ a, core_credit (- pay) a + core_credit pay a)).
  - eapply effect_bind; [|intros; by apply deposit_witness_pay_effect]. unfold effect. dstep.
    split; [wf_solve|]. intros a. rewrite !gap_eq. simpl. unfold core_credit, credit. simpl. destruct (_ =? _); lia.
  - intros a. unfold core_credit, credit. simpl. destruct (_ =? _); lia.
Qed.

Lemma expire_epoch skip b : keeps_epoch (expire skip b).
Proof.
  unfold expire.
  apply keeps_bind; [apply clock_epoch, create_block_summary_clock|]. intros _.
  apply keeps_bind; [apply clock_epoch, clear_expired_transactions_clock|]. intros _.
  apply keeps_bind; [apply clear_expired_proposals_epoch|]. intros _.
  apply keeps_bind; [apply clock_epoch, clear_expired_orders_clock|]. intros _.
  apply keeps_bind; [apply clock_epoch, update_expired_feeds_clock|]. intros _.
  apply keeps_bind; [apply clock_epoch, update_core_exchange_rates_clock|]. intros _.
  apply clock_epoch, update_withdraw_permissions_clock.
Qed.

Lemma expire_effect skip b s : wf s → modern s → effect (expire skip b) s (λ _, 0).
Proof.
  intros Hwf Hmod. unfold expire.
  apply maintenance_step; [done|apply clock_time, create_block_summary_clock|by apply create_block_summary_effect|].
  clear s Hwf Hmod. intros _ s Hwf Hmod.
  apply maintenance_step; [done|apply clock_time, clear_expired_transactions_clock|by apply clear_expired_transactions_effect|].
  clear s Hwf Hmod. intros _ s Hwf Hmod.
  apply maintenance_step; [done|apply epoch_time, clear_expired_proposals_epoch|by apply clear_expired_proposals_effect|].
  clear s Hwf Hmod. intros _ s Hwf Hmod.
  apply after_none; [by apply clear_expired_orders_effect|]. clear s Hwf Hmod. intros _ s Hwf.
  apply after_none; [by apply update_expired_feeds_effect|]. clear s Hwf. intros _ s Hwf.
  apply after_none; [by apply update_core_exchange_rates_effect|]. clear s Hwf. intros _ s Hwf.
  by apply update_withdraw_permissions_effect.
Qed.

(** ** The block *)

Definition transaction_ok (trx : processed_transaction) : Prop :=
  Forall op_typed (trx_operations (stx_transaction (ptx_transaction trx))) ∧
  Forall (λ op, left_out op = false) (trx_operations (stx_transaction (ptx_transaction trx))).

(** After the maintenance: what expires may rely on the time of the next
    maintenance, which nothing after it changes. *)
Lemma finish_books skip b flag c :
  books_ok (c_db c) →
  post (do! on_db (expire skip b) in
        do! on_schedule (update_maintenance_flag flag) in
        do! on_schedule update_witness_schedule in
        on_db (put (set_d_applied_ops []))) c (λ _ c', modern (c_db c') → books_ok (c_db c')).
Proof.
  intros Hc. apply post_bind, post_on_db. intros u s E.
  apply post_bind, post_on_schedule. intros _ t1 c1 E1. apply post_bind, post_on_schedule. intros _ t2 c2 E2.
  apply post_on_db. dstep. rewrite E2, E1. intros Hmod.
  assert (books_ok s) as Hs.
  { apply (effect_books (expire skip b) (c_db c) Hc) with u; [|done]. intros Hwf. apply expire_effect; [done|].
    unfold modern in *. rewrite <- (epoch_time _ (expire_epoch skip b) _ _ _ E). exact Hmod. }
  by apply (books_held s).
Qed.

(** Clearing a log changes no book. *)
Lemma clear_step {D} (f : database → database) (k : unit → M chain D) c Q :
  (∀ s, held (f s) = held s) → books_ok (c_db c) →
  (∀ c', books_ok (c_db c') → d_next_maintenance_time (c_db c') = d_next_maintenance_time (c_db c) → post (k tt) c' Q) →
  post (bind (on_db (put f)) k) c Q.
Proof.
  intros Hf Hc Hk. apply post_bind, post_on_db. dstep. apply Hk; simpl; [by apply (books_held (c_db c))|].
  specialize (Hf (c_db c)). unfold held in Hf. congruence.
Qed.

Lemma begin_block_books checkpoint skip b c :
  books_ok (c_db c) → modern (c_db c) → Forall transaction_ok (sb_transactions b) →
  post (begin_block checkpoint skip b) c (λ _ c', books_ok (c_db c') ∧ modern (c_db c')).
Proof.
  intros Hc Hmod Ht. unfold begin_block.
  apply clear_step; [done|done|]. intros c1 Hc1 E1.
  apply post_bind, post_lift. intros [] _. apply post_bind, post_gets.
  apply schedule_step; [done|]. intros witness c2 Hc2 E2.
  apply clear_step; [done|done|]. intros c3 Hc3 E3. apply post_bind, post_gets.
  assert (modern (c_db c3)) as Hmod3 by (unfold modern in *; congruence). clear Hmod.
  apply db_step; [done|intros; by apply apply_transactions_effect|]. intros [] c4 Hc4 E4%(epoch_time _ (apply_transactions_epoch _ _ _)).
  unfold record_block. apply post_bind.
  apply schedule_step; [done|]. intros missed c5 Hc5 E5.
  apply post_on_schedule. intros [] t c6 E6. apply post_ret. rewrite E6.
  split; [by apply books_time|]. unfold modern in *. simpl. congruence.
Qed.

Lemma finish_block_books skip b w maint_needed c :
  books_ok (c_db c) → modern (c_db c) →
  post (finish_block skip b w maint_needed) c (λ _ c', modern (c_db c') → books_ok (c_db c')).
Proof.
  intros Hc Hmod. unfold finish_block.
  apply db_step; [done|by apply pay_signing_witness_effect|]. intros [] c7 Hc7 E7%(clock_time _ (pay_signing_witness_clock _)).
  apply schedule_step; [done|]. intros [] c8 Hc8 E8. apply schedule_step; [done|]. intros [] c9 Hc9 E9.
  assert (modern (c_db c9)) as Hmod9 by (unfold modern in *; congruence).
  destruct maint_needed; [|apply post_bind, post_ret; by apply finish_books].
  apply db_step; [done|intros; by apply perform_chain_maintenance_effect|]. intros [] c10 Hc10 _. by apply finish_books.
Qed.

Lemma apply_block_body_books checkpoint skip b c :
  books_ok (c_db c) → modern (c_db c) → Forall transaction_ok (sb_transactions b) →
  post (apply_block_body checkpoint skip b) c (λ _ c', modern (c_db c') → books_ok (c_db c')).
Proof.
  intros Hc Hmod Ht. apply post_bind. pcall begin_block_books; [done..|]. intros r c' [Hc' Hmod'].
  by apply finish_block_books.
Qed.
End block_supply.
