(* ===== verification/Sample.v ===== *)
(** * A sample chain

    Concrete instances of the interfaces and a small database, on which the
    properties are exercised: the core asset, a market issued asset USD backed
    by it with one feed, a user issued asset, three accounts, a limit order, a
    margin position and a vesting balance; the same when its maintenance is due, and
    a chain with a signed block. *)

From S2P Require Import Prelude Ext Config Asset Objects Parameters Governance Blocks Names Operations Validation Fees Ledger Authority Database Evaluator ContractEval Transactions SignedBlocks WitnessSchedule ApplyBlock.

(** ** Instances *)

(** Every packed object takes 100 bytes. *)
#[export] Instance flat_packing : Packing := {|
  pack_size_memo := λ _, 100;
  pack_size_memo_data := λ _, 100;
  pack_size_asset_create := λ _, 100;
  pack_size_asset_update := λ _, 100;
  pack_size_account_create := λ _, 100;
  pack_size_account_update := λ _, 100;
  pack_size_proposal_create := λ _, 100;
  pack_size_proposal_update := λ _, 100;
  pack_size_custom := λ _, 100;
|}.
(** A key owns the address of the same number. *)
#[export] Instance same_address : KeyAddresses := {| addresses_of k := [k] |}.
(** A contract whose state is the data of the last call. *)
#[export] Instance echo_machine : ContractMachine := {|
  construct_smart_contract _ _ construct_data _ := Ok construct_data;
  call_smart_contract _ _ call_data _ _ := Ok call_data;
|}.
(** A signature is named by its key, a transaction by the block it refers to. *)
#[export] Instance named_signatures : TransactionCrypto := {|
  trx_digest_id trx := 2 ^ 16 * trx_expiration trx + trx_ref_block_num trx;
  recover_key _ sig := Ok sig;
|}.
#[export] Existing Instance ext_std.
#[export] Existing Instance sort_nth_element.

(** ** The sample database *)

Definition USD : Z := 1.
Definition ART : Z := 2.
Definition alice : Z := 11.
Definition bob : Z := 12.
Definition carol : Z := 13.
Definition sample_time : Z := 1600000000.

Definition sample_account_with (options : account_options) (name : string) (statistics : Z) : account_object :=
  mk_account_object time_max alice alice alice 2000 3000 0 name
    (key_authority (100 + statistics)) (key_authority (100 + statistics)) options statistics ∅ ∅ ∅ ∅ None no_special_authority no_special_authority 0 None.
Definition no_votes : account_options := mk_account_options GRAPHENE_PROXY_TO_SELF_ACCOUNT 0 0 ∅.
Definition sample_account : string → Z → account_object := sample_account_with no_votes.

Definition no_fees (owner : Z) (name : string) (core_in_orders : Z) : account_statistics_object :=
  mk_account_statistics owner name core_in_orders 0 false false 0 0 0.

Definition plain_options (percent permissions : Z) (cer : price) : asset_options :=
  mk_asset_options 1000000000000 percent 1000 permissions (if percent =? 0 then 0 else 1) cer ∅ ∅ ∅ ∅ "".

Definition core_price (a : Z) (units : Z) : price := mk_price (mk_asset units a) (mk_asset 1 CORE).

Definition usd_options : bitasset_options := mk_bitasset_options 86400 1 86400 0 2000 CORE.
Definition usd_feed : price_feed :=
  mk_price_feed (mk_price (mk_asset 1 USD) (mk_asset 2 CORE)) (core_price USD 1) 1750 1100.

Definition sample_fees : fee_schedule :=
  mk_fee_schedule
    (list_to_map [(0, fee_kbyte 20 10); (1, fee_flat 5); (2, fee_flat 0); (3, fee_flat 20); (17, fee_flat 7);
                  (22, fee_kbyte 10 1); (23, fee_kbyte 5 1); (18, fee_flat 7); (33, fee_flat 3)]) 10000.

Definition sample_parameters : chain_parameters := {|
  cp_current_fees := sample_fees;
  cp_block_interval := 5;
  cp_maintenance_interval := 3600;
  cp_maintenance_skip_slots := 3;
  cp_committee_proposal_review_period := 1209600;
  cp_maximum_transaction_size := 2048;
  cp_maximum_block_size := 2000000;
  cp_maximum_time_until_expiration := 86400;
  cp_maximum_proposal_lifetime := 2419200;
  cp_maximum_asset_whitelist_authorities := 10;
  cp_maximum_asset_feed_publishers := 10;
  cp_maximum_witness_count := 1001;
  cp_maximum_committee_count := 1001;
  cp_maximum_authority_membership := 10;
  cp_reserve_percent_of_fee := 2000;
  cp_network_percent_of_fee := 2000;
  cp_lifetime_referrer_percent_of_fee := 3000;
  cp_cashback_vesting_period_seconds := 31536000;
  cp_cashback_vesting_threshold := 100000;
  cp_count_non_member_votes := true;
  cp_allow_non_member_whitelists := false;
  cp_witness_pay_per_block := 10;
  cp_witness_pay_vesting_seconds := 86400;
  cp_worker_budget_per_day := 50000;
  cp_max_predicate_opcode := 1;
  cp_fee_liquidation_threshold := 10000000;
  cp_accounts_per_fee_scale := 1000;
  cp_account_fee_scale_bitshifts := 4;
  cp_max_authority_depth := 2;
|}.

Definition sample_governance : governance := {|
  gv_last_budget_time := sample_time - 3600;
  gv_accounts_registered_this_interval := 0;
  gv_pending_parameters := None;
  gv_next_available_vote_id := 0;
  gv_active_committee_members := [];
  gv_active_witnesses := {[ 0 ]};
  gv_min_committee_member_count := 11;
  gv_min_witness_count := 11;
  gv_committee_members := ∅;
  gv_workers := ∅;
  gv_buybacks := ∅;
  gv_special_authorities := ∅;
  gv_budget_records := [];
  gv_vote_tally_buffer := [];
  gv_witness_count_histogram_buffer := [];
  gv_committee_count_histogram_buffer := [];
  gv_total_voting_stake := 0;
  gv_track_standby_votes := true;
|}.

Definition sample : database := {|
  d_head_block_time := sample_time;
  d_next_maintenance_time := sample_time + 3600;
  d_witness_budget := 0;
  d_parameters := sample_parameters;
  d_accounts := list_to_map
    [(alice, sample_account "alice" 0); (bob, sample_account "bob" 1); (carol, sample_account "carol" 2)];
  d_statistics := list_to_map
    [(0, no_fees alice "alice" 0); (1, no_fees bob "bob" 1000); (2, no_fees carol "carol" 4000)];
  d_balances := list_to_map
    [((alice, CORE), mk_account_balance 100000 false); ((bob, CORE), mk_account_balance 50000 false);
     ((alice, USD), mk_account_balance 1000 false); ((bob, ART), mk_account_balance 300 false)];
  d_assets := list_to_map
    [(CORE, mk_asset_object "NEST" 5 3 (plain_options 0 0 (core_price CORE 1)) 0 None None);
     (USD, mk_asset_object "USD" 4 alice (plain_options 0 511 (core_price USD 1)) 1 (Some 0) None);
     (ART, mk_asset_object "ART" 0 bob (plain_options 100 79 (core_price ART 1)) 2 None None)];
  d_dynamic := list_to_map
    [(0, mk_asset_dynamic_data 155550 0 0 0); (1, mk_asset_dynamic_data 1000 0 0 50);
     (2, mk_asset_dynamic_data 307 0 7 0)];
  d_bitassets := {[ 0 := mk_bitasset_data USD usd_options {[ alice := (sample_time - 10, usd_feed) ]}
                           usd_feed (sample_time - 10) false 0 null_price 0 false false ]};
  d_limits := {[ 0 := mk_limit_order time_max bob 1000
                        (mk_price (mk_asset 1000 CORE) (mk_asset 400 USD)) 0 (mk_asset 0 CORE) ]};
  d_calls := {[ 0 := mk_call_order carol 4000 1000
                       (mk_price (mk_asset 16 CORE) (mk_asset 7 USD)) None ]};
  d_settles := ∅;
  d_bids := ∅;
  d_vestings := {[ 0 := mk_vesting_balance bob (mk_asset 500 CORE)
                          (linear_policy (mk_linear_policy (sample_time - 500) 100 1000 500)) ]};
  d_genesis_balances := ∅;
  d_withdraw_permissions := ∅;
  d_fbas := ∅;
  d_witnesses := ∅;
  d_governance := sample_governance;
  d_next_ids := mk_next_ids 3 3 1 1 1 0 0 1 0 0 0 0 14 3 0 0 0 0 0 0;
  d_applied_ops := [];
  d_issue_453_affected_assets := ∅;
  d_ledger := empty_ledger;
|}.

(** ** The sample chain when its maintenance is due

    USD was globally settled and bob bids for its debt, alice votes for three of
    four witnesses, a committee member and two workers, and the fees of a fee backed
    asset are to be handed out. *)

Definition sample_votes : account_options :=
  mk_account_options GRAPHENE_PROXY_TO_SELF_ACCOUNT 3 3 {[ 0; 257; 514; 1026; 1537; 2049 ]}.

Definition sample_due_governance : governance := {|
  gv_last_budget_time := sample_time;
  gv_accounts_registered_this_interval := 0;
  gv_pending_parameters := None;
  gv_next_available_vote_id := 9;
  gv_active_committee_members := [];
  gv_active_witnesses := ∅;
  gv_min_committee_member_count := 1;
  gv_min_witness_count := 1;
  gv_committee_members := {[ 0 := mk_committee_member carol 0 0 "" ]};
  gv_workers :=
    {[ 0 := mk_worker carol 0 time_max 4800 (burn_worker 0) "" "" 514 770 0 0;
       1 := mk_worker carol 0 time_max 2400 (refund_worker 0) "" "" 1026 1282 0 0 ]};
  gv_buybacks := ∅;
  gv_special_authorities := ∅;
  gv_budget_records := [];
  gv_vote_tally_buffer := [];
  gv_witness_count_histogram_buffer := [];
  gv_committee_count_histogram_buffer := [];
  gv_total_voting_stake := 0;
  gv_track_standby_votes := true;
|}.

Definition sample_due : database := {|
  d_head_block_time := sample_time + 3600;
  d_next_maintenance_time := sample_time + 3600;
  d_witness_budget := 0;
  d_parameters := set_cp_current_fees
    (mk_fee_schedule (<[5 := fee_account 5 20 1]> (fs_parameters sample_fees)) 10000) sample_parameters;
  d_accounts := list_to_map
    [(0, sample_account "committee" 0); (1, sample_account "witness" 0); (2, sample_account "relaxed" 0);
     (alice, sample_account_with sample_votes "alice" 0); (bob, sample_account "bob" 1);
     (carol, sample_account "carol" 2)];
  d_statistics := <[0 := mk_account_statistics alice "alice" 0 0 false true 0 0 0]> (d_statistics sample);
  d_balances := list_to_map
    [((alice, CORE), mk_account_balance 100000 true); ((bob, CORE), mk_account_balance 49500 false);
     ((alice, USD), mk_account_balance 1000 false); ((bob, ART), mk_account_balance 300 false)];
  d_assets := d_assets sample;
  d_dynamic := list_to_map
    [(0, mk_asset_dynamic_data 156550 0 0 0); (1, mk_asset_dynamic_data 1000 0 0 50);
     (2, mk_asset_dynamic_data 307 0 7 0)];
  d_bitassets := {[ 0 := mk_bitasset_data USD usd_options {[ alice := (sample_time - 10, usd_feed) ]}
                           usd_feed (sample_time - 10) false 0
                           (mk_price (mk_asset 1000 USD) (mk_asset 4000 CORE)) 4000 false false ]};
  d_limits := d_limits sample;
  d_calls := ∅;
  d_settles := ∅;
  d_bids := {[ 0 := mk_collateral_bid bob (mk_price (mk_asset 500 CORE) (mk_asset 1000 USD)) ]};
  d_vestings := d_vestings sample;
  d_genesis_balances := ∅;
  d_withdraw_permissions := ∅;
  d_fbas := {[ 0 := mk_fba_accumulator 1000 None; 1 := mk_fba_accumulator 0 None; 2 := mk_fba_accumulator 0 None ]};
  d_witnesses := {[ 0 := mk_witness bob 0 None 257 0 ""; 1 := mk_witness alice 0 None 1537 0 "";
                    2 := mk_witness carol 0 None 1793 0 ""; 3 := mk_witness 2 0 None 2049 0 "" ]};
  d_governance := sample_due_governance;
  d_next_ids := mk_next_ids 3 3 1 1 1 0 1 1 4 1 2 0 14 3 0 0 0 0 0 0;
  d_applied_ops := [];
  d_issue_453_affected_assets := ∅;
  d_ledger := empty_ledger;
|}.

(** ** A block at the maintenance

    The sample chain five seconds before its maintenance, and the block of the
    next slot, in which alice pays bob. *)

#[export] Instance digest_hash : BlockHash := bh_digest.
#[export] Instance numbered_merkle : MerkleHash := {|
  merkle_digest t := trx_expiration (stx_transaction (ptx_transaction t));
  pair_hash a b := 2 * a + b;
  checksum a := a + 1;
|}.
(** The key of a witness is zero, and every block is signed with it. *)
#[export] Instance null_key : BlockSigner := λ _, Some 0.

Definition sample_before : database :=
  set_d_head_block_time (sample_time + 3595)
    (set_d_governance (set_gv_active_witnesses {[ 0; 1; 2 ]} sample_due_governance)
      (set_d_block_summaries {[ 41 := mk_block_id 41 77; 42 := null_id ]} sample_due)).
Definition sample_chain : chain :=
  mk_chain sample_before (mk_dgp 41 (mk_block_id 41 77) 0 1 0 320000719 (2 ^ 128 - 1) 0 40) [0; 1; 2]
    {[ 0 := mk_witness_counters 0 320000717 39; 1 := mk_witness_counters 0 320000718 40;
       2 := mk_witness_counters 0 320000719 41 ]} 2 2.

Definition sample_payment : processed_transaction :=
  mk_processed_transaction
    (mk_signed_transaction
       (mk_transaction 41 77 (sample_time + 4000)
          [op_transfer (mk_transfer (mk_asset 20 CORE) alice bob (mk_asset 100 USD) None)]) [100])
    [void_result].
Definition sample_block : signed_block :=
  mk_signed_block
    (mk_block_header (mk_block_id 41 77) (sample_time + 3600) 2 (sample_time + 4001) 78) [sample_payment].
