(* ===== verification/SampleSupply.v ===== *)
(** * The sample chain satisfies the invariant

    [wf] and [conserved] of Supply.v hold of the sample database, so that every
    theorem that assumes them applies to it. *)

From S2P Require Import Prelude Ext Config Asset Objects Parameters Governance Blocks Names Operations Validation Fees Ledger Authority Database Indices Supply Sample.

(** ** Assets nobody holds *)

Lemma credit_other x a : asset_id x ≠ a → credit x a = 0.
Proof. intros H. unfold credit. by destruct (Z.eqb_spec (asset_id x) a). Qed.
Lemma msum_zero {K V} `{Countable K} (f : K → V → Z) m :
  map_Forall (λ k v, f k v = 0) m → msum f m = 0.
Proof.
  intros Hf. rewrite (msum_ext f (λ _ _, 0)); [|done]. clear. induction m as [|k v m Hk IH] using map_ind; [done|].
  by rewrite msum_insert_fresh, IH.
Qed.

(** A part of the database in which every entry is of assets 0 to 2 holds
    nothing of another asset. *)
Ltac nowhere kinds :=
  symmetry; apply msum_zero; intros k v Hk;
  match type of Hk with ?m !! _ = _ =>
    assert (map_Forall (λ k v, Forall (λ i, i ∈ [0; 1; 2]) (kinds k v)) m) as H by (apply (bool_decide_eq_true_1 _); vm_compute; done);
    specialize (H k v Hk); simpl in H; rewrite ?Forall_cons in H; unfold limit_credit, fund_credit, core_credit;
    rewrite ?credit_other; try done; simpl; destruct_and?; set_solver
  end.


(** ** Databases over the assets of the sample

    The parts that the sample databases share, and the tactics that check the
    invariant of a concrete one by evaluation. *)
Ltac evaluate := apply (bool_decide_eq_true_1 _); vm_compute; done.

Definition own_dynamic (a : Z) (ao : asset_object) : Prop :=
  a < 3 ∧ as_dynamic_asset_data_id ao = a ∧
  as_bitasset_data_id ao = (if a =? 1 then Some 0 else None).

Section regime.
Context {R : Regime}.

Lemma check_wf s :
  map_Forall own_dynamic (d_assets s) →
  3 ≤ ni_asset (d_next_ids s) → 3 ≤ ni_dynamic (d_next_ids s) → 1 ≤ ni_bitasset (d_next_ids s) →
  map_Forall (λ _, fee_options_ok) (d_assets s) → map_Forall (λ _, limit_ok) (d_limits s) →
  is_Some (d_assets s !! 1) →
  map_Forall (λ b bd, bitasset_ok bd ∧ (bd_asset_id bd = 1 ∧ b = 0) ∧ feeds_ok bd) (d_bitassets s) →
  map_Forall (λ _, dyn_ok) (d_dynamic s) → map_Forall (λ _, bid_ok) (d_bids s) →
  map_Forall (λ _, call_ok) (d_calls s) →
  map_Forall (λ _, genesis_ok) (d_genesis_balances s) → map_Forall (λ _, settle_ok) (d_settles s) →
  d_proposals s = ∅ →
  (∃ bd, d_bitassets s !! 0 = Some bd ∧ bd_asset_id bd = 1 ∧ bo_short_backing_asset (bd_options bd) = 0) →
  map_Forall (λ _ c, co_debt_type c = 1 ∧ co_collateral_type c = 0) (d_calls s) →
  map_Forall (λ a k, a = 1 ∧ k = 0) kept_backings → wf s.
Proof.
  intros Hown Ha Hd Hb Ho Hl [a1 Ha1] Hbit Hsup Hbids Hcalls Hgen Hset Hprop (bd0 & Hbd0 & Hid0 & Hback0) Hpos Hkept.
  apply mk_wf; [| |done|done| | | | |done|done|done|done|done|by rewrite Hprop|].
  - intros a b ao bo (_ & H1 & _)%Hown (_ & H2 & _)%Hown. congruence.
  - intros a ao (Hlt & Hdyn & Hbits)%Hown. split_and!; [lia|lia|].
    intros b Eb. rewrite Hbits in Eb. destruct (a =? 1); [|done]. injection Eb as <-. lia.
  - intros b bd [H _]%Hbit. done.
  - intros b bd (_ & _ & H)%Hbit. done.
  - intros a ao b bd (_ & _ & Hbits)%Hown Eb (_ & [Hid _] & _)%Hbit. rewrite Hid.
    rewrite Hbits in Eb. by destruct (Z.eqb_spec a 1).
  - intros b bd (_ & [Hid ->] & _)%Hbit. left. exists a1. rewrite Hid. split; [done|].
    by destruct (Hown 1 a1 Ha1) as (_ & _ & ->).
  - intros _. split.
    + intros i c [H1 H2]%Hpos. exists 0, bd0. by rewrite H1, H2.
    + intros a k [-> ->]%Hkept. by exists 0, bd0.
Qed.
End regime.

(** Margin positions are updated, and USD stays backed by the core asset. *)
#[export] Instance sample_regime : Regime := {| positions_updated := true; kept_backings := {[ USD := CORE ]} |}.

Ltac check_wf :=
  apply check_wf; [evaluate|vm_compute; congruence|vm_compute; congruence|vm_compute; congruence
                  |evaluate|evaluate|eexists; vm_compute; reflexivity|apply map_Forall_singleton; split_and!; [done|done|done|split; [by split; [right|]|apply map_Forall_singleton; by split; [right|]]]
                  |evaluate|evaluate|evaluate|apply map_Forall_empty|evaluate|reflexivity
                  |eexists; split; [vm_compute; reflexivity|split; reflexivity]|evaluate|by apply map_Forall_singleton].

Ltac check_conserved :=
  let a := fresh "a" in let E := fresh "E" in let H := fresh "H" in
  intros a; destruct (Z.eq_dec a 0) as [->|?]; [vm_compute; done|];
  destruct (Z.eq_dec a 1) as [->|?]; [vm_compute; done|];
  destruct (Z.eq_dec a 2) as [->|?]; [vm_compute; done|];
  match goal with |- _ = supply _ ?s =>
    assert (d_assets s !! a = None) as E;
    [ destruct (d_assets s !! a) eqn:E; [|done];
      assert (map_Forall (λ k _, k ∈ [0; 1; 2]) (d_assets s)) as H by evaluate;
      specialize (H _ _ E); simpl in H; set_solver
    | unfold holdings, supply, dyn_field; rewrite E; simpl option_bind; unfold core_credit ]
  end;
  rewrite !credit_other by done;
  replace (balances_of _ _) with 0 by nowhere (λ (k : Z * Z) (_ : account_balance_object), [k.2]);
  replace (settles_of _ _) with 0 by nowhere (λ (_ : Z) o, [asset_id (fs_balance o)]);
  replace (bids_of _ _) with 0 by nowhere (λ (_ : Z) o, [asset_id (base (cb_inv_swan_price o))]);
  replace (limits_of _ _) with 0
    by nowhere (λ (_ : Z) o, [lo_sell_asset_id o; asset_id (lo_deferred_paid_fee o)]);
  replace (calls_of _ _) with 0 by nowhere (λ (_ : Z) o, [co_collateral_type o]);
  replace (funds_of _ _) with 0 by nowhere (λ (_ : Z) b, [bo_short_backing_asset (bd_options b)]);
  replace (vestings_of _ _) with 0 by nowhere (λ (_ : Z) o, [asset_id (vb_balance o)]);
  replace (genesis_of _ _) with 0 by nowhere (λ (_ : Z) o, [ba_asset_type o]);
  done.

Lemma sample_wf : wf sample.
Proof. check_wf. Qed.
Lemma sample_conserved : conserved sample.
Proof. check_conserved. Qed.

(** ** Crossed orders and a force settlement

    Alice sells 200 USD at a price that crosses Bob's order. *)
Definition sample_crossed : database :=
  set_d_limits (<[1 := mk_limit_order time_max alice 200
                          (mk_price (mk_asset 200 USD) (mk_asset 480 CORE)) 0 (mk_asset 0 CORE)]>
                 (d_limits sample))
    (set_d_balances (<[(alice, USD) := mk_account_balance 800 false]> (d_balances sample)) sample).

(** Alice asks for the settlement of 100 USD. *)
Definition sample_settling : database :=
  set_d_settles {[ 0 := mk_force_settlement alice (mk_asset 100 USD) (sample_time - 5) ]}
    (set_d_balances (<[(alice, USD) := mk_account_balance 900 false]> (d_balances sample)) sample).

Lemma sample_crossed_wf : wf sample_crossed.
Proof. check_wf. Qed.
Lemma sample_crossed_conserved : conserved sample_crossed.
Proof. check_conserved. Qed.
Lemma sample_settling_wf : wf sample_settling.
Proof. check_wf. Qed.
Lemma sample_settling_conserved : conserved sample_settling.
Proof. check_conserved. Qed.

Lemma sample_due_wf : wf sample_due.
Proof. check_wf. Qed.
Lemma sample_due_conserved : conserved sample_due.
Proof. check_conserved. Qed.
