(* ===== verification/GenesisSupply.v ===== *)
(** * The state of genesis is well formed and balanced

    What [init_genesis] (Genesis.v) leaves satisfies the invariant of the object
    graph, and the supplies it tallies are what it hands out: the state from
    which BlockSupply.v goes on. *)

From S2P Require Import Prelude Ext Config Asset Objects Parameters Governance Blocks Names Operations Validation Fees Ledger Authority Database Balance Evaluator AssetEval TransferEval GovernanceEval AccountEval ContractEval ProposalEval Transactions WitnessSchedule ApplyBlock Genesis Exchange Supply MarketSupply EvalSupply Frame GovernanceSupply OperationSupply CreateSupply AccountSupply ChainSupply BlockSupply Sample.

(** The parameters of every operation in the default schedule are those of its
    struct. *)
Lemma get_default_parameters op : fs_parameters get_default !! which op = Some (default_fee_parameters op).
Proof. by destruct op. Qed.

(** ** What the operations of genesis leave alone *)

(** The balances, the assets and their dynamic data, and what only the state of
    genesis creates *)
Definition handed_out (s : database) :=
  (d_balances s, d_assets s, d_dynamic s, d_genesis_balances s, d_fbas s, ni_asset (d_next_ids s)).
(** Nobody owes a fee. *)
Definition unpaid (s : database) : Prop :=
  map_Forall (λ _ st, st_pending_fees st = 0 ∧ st_pending_vested_fees st = 0) (d_statistics s).

Definition still {A} (m : DB A) : Prop :=
  ∀ s, unpaid s → post m s (λ _ s', handed_out s' = handed_out s ∧ unpaid s').

Lemma still_bind {A B} (m : DB A) (k : A → DB B) : still m → (∀ x, still (k x)) → still (bind m k).
Proof.
  intros Hm Hk s Hs. apply post_bind. pcall Hm; [done|]. intros x s1 [E Hs1]. simpl.
  pcall Hk; [done|]. intros y s2 [E2 Hs2]. split; [congruence|done].
Qed.
Lemma still_keeps {A} (m : DB A) : keeps (λ s, (handed_out s, d_statistics s)) m → still m.
Proof.
  intros Hm s Hs. pcall Hm. intros x s' E. simpl in E. apply pair_eq in E as [E1 E2].
  split; [done|]. unfold unpaid. by rewrite E2.
Qed.
Ltac stays := apply still_keeps; frame.

(** The positions of genesis are there before the data of their assets, and
    nothing updates them; [wf_change_regime] leads from here to a regime in which
    positions are updated. *)
#[local] Instance genesis_regime : Regime := {| positions_updated := false; kept_backings := ∅ |}.

Section genesis_supply.
Context {X : Ext} {P : Packing} {N : NthElement} {K : KeyAddresses} {C : ContractMachine}.

Lemma unpaid_insert id st s :
  unpaid s → st_pending_fees st = 0 → st_pending_vested_fees st = 0 →
  unpaid (set_d_statistics (<[id := st]> (d_statistics s)) s).
Proof. intros Hs ? ?. by apply map_Forall_insert_2. Qed.

Lemma create_statistics_still st :
  st_pending_fees st = 0 → st_pending_vested_fees st = 0 → still (create_statistics st).
Proof. intros H1 H2 s Hs. dstep. split; [done|]. by apply map_Forall_insert_2. Qed.
Lemma modify_statistics_still id f :
  (∀ st st', f st = Ok st' → st_pending_fees st = 0 ∧ st_pending_vested_fees st = 0 →
     st_pending_fees st' = 0 ∧ st_pending_vested_fees st' = 0) → still (modify_statistics id f).
Proof.
  intros Hf s Hs. apply post_modify. intros st st' Hst Hst'. split; [done|].
  apply map_Forall_insert_2; [|done]. by apply (Hf _ _ Hst'), (Hs id).
Qed.

(** ** The five operations *)

Lemma account_create_still i u o e : acc_buyback_options o = None → still (account_create_do_apply i u o e).
Proof.
  intros Hb. unfold account_create_do_apply. do 4 (apply still_bind; [stays|intros]).
  apply still_bind; [by apply create_statistics_still|]. intros stats.
  apply still_bind; [stays|]. intros id. apply still_bind.
  { apply still_keeps. unfold count_account, put_gov, get_gov. frame. }
  intros _. apply still_bind; [stays|]. intros _. rewrite Hb. stays.
Qed.

Lemma process_fees_still stats acct : still (process_fees stats acct).
Proof.
  intros s Hs. unfold process_fees. dstep. dstep. destruct (Hs stats v) as [H1 H2]; [done|].
  unfold has_pending_fees. rewrite H1, H2. simpl. by dstep.
Qed.
Lemma account_upgrade_still i u o e : still (account_upgrade_do_apply i u o e).
Proof.
  unfold account_upgrade_do_apply. do 2 (apply still_bind; [stays|intros]). apply still_bind; [|intros; stays].
  assert (∀ k, still (do! process_fees (ac_statistics x) (agr_account_to_upgrade o) in
                      modify_account (agr_account_to_upgrade o) k)) as Hfees.
  { intros k. apply still_bind; [apply process_fees_still|]. intros. stays. }
  destruct (agr_upgrade_to_lifetime_member o); [apply Hfees|].
  destruct (is_annual_member _ _); [stays|]. intros s Hs. dstep. by apply Hfees.
Qed.
Lemma next_vote_id_still t : still (get_next_vote_id t).
Proof. unfold get_next_vote_id, get_gov, put_gov. stays. Qed.
Lemma witness_create_still i u o e : still (witness_create_do_apply i u o e).
Proof. apply still_bind; [apply next_vote_id_still|]. intros. stays. Qed.
Lemma committee_member_create_still i u o e : still (committee_member_create_do_apply i u o e).
Proof. apply still_bind; [apply next_vote_id_still|]. intros. stays. Qed.
Lemma worker_create_still i u o e : still (worker_create_do_apply i u o e).
Proof.
  apply still_bind; [apply next_vote_id_still|]. intros. apply still_bind; [apply next_vote_id_still|]. intros.
  unfold worker_init. stays.
Qed.

(** ** An operation of genesis

    It costs nothing, and leaves the books as they are. *)

Definition quiet {A} (m : DB A) : Prop :=
  ∀ s, wf s → unpaid s →
    post m s (λ _ s', wf s' ∧ (∀ a, gap a s' = gap a s) ∧ handed_out s' = handed_out s ∧ unpaid s').

Lemma quiet_bind {A B} (m : DB A) (k : A → DB B) : quiet m → (∀ x, quiet (k x)) → quiet (bind m k).
Proof.
  intros Hm Hk s Hwf Hs. apply post_bind. pcall Hm; [done|done|]. intros x s1 (Hwf1 & Hg1 & E1 & Hs1). simpl.
  pcall Hk; [done|done|]. intros y s2 (Hwf2 & Hg2 & E2 & Hs2).
  split_and!; [done|intros a; by rewrite Hg2, Hg1|congruence|done].
Qed.
Lemma quiet_reads {A} (m : DB A) : reads m → quiet m.
Proof. intros Hm s Hwf Hs. pcall Hm. by intros x s' ->. Qed.
Lemma quiet_effect {A} (m : DB A) : (∀ s, wf s → effect m s (λ _, 0)) → still m → quiet m.
Proof.
  intros He Hm s Hwf Hs. eapply post_mono; [apply post_and; [by apply He|by apply Hm]|].
  intros x s' [[Hwf' Hg] [E Hs']]. split_and!; [done|intros a; rewrite Hg; lia|done|done].
Qed.
Lemma quiet_for_each {A} (f : A → DB unit) l : (∀ x, quiet (f x)) → quiet (for_each f l).
Proof.
  intros Hf. induction l as [|x l IH]; simpl; [intros s Hwf Hs; by dstep|]. apply quiet_bind; [apply Hf|]. by intros _.
Qed.

Lemma plain_still {Op E} (wrap : Op → operation) ev ap (o : Op) ts :
  op_fee (wrap o) = no_fee → skip_fee ts = false → (∀ i, reads (ev i o)) → (∀ i u (e : E), still (ap i u o e)) →
  still (start_evaluate (Ev := plain_evaluator wrap ev ap) ts o).
Proof.
  intros Hfee Hskip Hev Hap s Hs. unfold start_evaluate, evaluate. apply post_bind. apply post_bind.
  simpl ev_operation. rewrite Hfee. pcall prepare_fee_spec. intros i s1 (-> & Hfrom & _ & _ & Hasset & Hcore & _).
  rewrite Hfrom in Hasset. specialize (Hcore Hasset). rewrite Hfrom in Hcore. simpl in Hcore.
  dstep. dstep. apply post_bind. apply (post_mono _ _ (λ _ s', s' = s)).
  { destruct (skip_fee_schedule_check ts); [by dstep|]. dstep. dstep. intros x _. by dstep. }
  intros enough s1 ->. destruct enough; [|dstep]. dstep. simpl ev_do_evaluate. pcall Hev. intros e s1 ->. dstep.
  unfold apply. simpl ev_convert_fee. simpl ev_pay_fee. simpl ev_do_apply. unfold convert_fee.
  rewrite Hskip, Hasset. change (false || (asset_id no_fee =? CORE)) with true. cbv iota. dstep. dstep. unfold generic_pay_fee. rewrite Hskip.
  assert (still (bind global_parameters (λ params, modify_statistics (fee_paying_account_statistics i)
    (pay_fee (core_fee_paid i) (cp_cashback_vesting_threshold params))))) as Hpay.
  { apply still_bind; [stays|]. intros params. apply modify_statistics_still. intros st st' Hst [H1 H2].
    unfold pay_fee in Hst. rewrite Hcore in Hst. case_match; inv_ok; simpl; rewrite ?H1, ?H2; done. }
  apply post_bind. pcall Hpay; [done|]. intros u s1 [E1 Hs1]. apply post_bind. simpl. pcall Hap; [done|].
  intros r s2 [E2 Hs2]. apply post_bind. rewrite Hfrom. dstep. intros neg Hneg. unfold asset_neg in Hneg.
  simpl in Hneg. inv_ok. apply post_bind. unfold adjust_balance. simpl. dstep. dstep. split; [congruence|done].
Qed.

Lemma genesis_apply_quiet {Op E} (wrap : Op → operation) ev ap (o : Op) :
  PlainEvaluator (plain_evaluator wrap ev ap) →
  (∀ p ts, evaluate_operation p ts (wrap o) = start_evaluate (Ev := plain_evaluator wrap ev ap) ts o) →
  op_fee (wrap o) = no_fee → (∀ i u (e : E), still (ap i u o e)) → quiet (genesis_apply (wrap o)).
Proof.
  intros Hplain Heq Hfee Hap. unfold genesis_apply, apply_operation. rewrite Heq. apply quiet_bind.
  { apply quiet_effect; [intros s Hwf; no_effect|stays]. }
  intros _. apply quiet_effect; [intros; by apply plain_start_effect|]. apply plain_still; [done|done| |done].
  intros i. exact (pe_reads (Ev := plain_evaluator wrap ev ap) genesis_eval_state i o).
Qed.

(** ** Accounts *)

Lemma create_genesis_account_quiet o :
  acc_fee o = no_fee → acc_buyback_options o = None → quiet (create_genesis_account o).
Proof.
  intros Hfee Hb. apply quiet_bind.
  - apply (genesis_apply_quiet op_account_create account_create_do_evaluate account_create_do_apply);
      [apply _|done|done|]. intros. by apply account_create_still.
  - intros r. apply quiet_reads. destruct r; solve_reads.
Qed.
Lemma create_initial_account_quiet a : quiet (create_initial_account a).
Proof.
  apply quiet_bind; [by apply create_genesis_account_quiet|]. intros id.
  destruct (ia_is_lifetime_member a); [|apply quiet_reads, reads_ret]. apply quiet_bind; [|intros; apply quiet_reads, reads_ret].
  apply (genesis_apply_quiet op_account_upgrade account_upgrade_do_evaluate account_upgrade_do_apply);
    [apply _|done|done|]. intros. apply account_upgrade_still.
Qed.
Lemma get_account_id_reads name : reads (get_account_id name).
Proof. unfold get_account_id. solve_reads. Qed.
Lemma get_asset_id_reads symbol : reads (get_asset_id symbol).
Proof. unfold get_asset_id. solve_reads. Qed.

(** ** Steps that hand something out *)

Definition hands_out (s : database) (δ : Z → Z) (s' : database) : Prop :=
  wf s' ∧ (∀ a, gap a s' = gap a s + δ a) ∧ handed_out s' = handed_out s ∧ unpaid s'.

Lemma quiet_hands_out {A} (m : DB A) s : quiet m → wf s → unpaid s → post m s (λ _, hands_out s (λ _, 0)).
Proof. intros Hm Hwf Hs. pcall Hm; [done|done|]. intros x s' (? & Hg & ? & ?). split_and!; auto. intros a. rewrite Hg. lia. Qed.
Lemma hands_out_trans s1 s2 s3 δ1 δ2 δ :
  hands_out s1 δ1 s2 → hands_out s2 δ2 s3 → (∀ a, δ a = δ1 a + δ2 a) → hands_out s1 δ s3.
Proof.
  intros (_ & Hg1 & E1 & _) (Hwf & Hg2 & E2 & Hs) Hd. split_and!; [done| |congruence|done].
  intros a. rewrite Hg2, Hg1, Hd. lia.
Qed.

Definition initial_position_ok (r : initial_collateral_position) : Prop :=
  0 ≤ icp_collateral r ≤ int64_max ∧ in64 (icp_debt r).

Lemma create_position_spec symbol new n r s :
  initial_position_ok r → wf s → unpaid s →
  post (create_position symbol new n r) s (λ _, hands_out s (core_credit (icp_collateral r))).
Proof.
  intros [Hc Hd] Hwf Hs. unfold create_position. apply post_bind.
  pcall (quiet_hands_out (create_genesis_account (genesis_account _ _ _)));
    [by apply create_genesis_account_quiet|done|done|]. intros id s1 H1. pose proof H1 as (Hwf1 & _ & _ & Hs1).
  apply post_bind. pcall (quiet_hands_out (modify_statistics_of id _)); [|done|done|].
  { apply quiet_effect.
    - intros s2 Hwf2. apply (post_statistics_of _ _ 0); [intros st st' [= <-]; unfold st_pending; simpl; lia|].
      intros S HS. gap_leaf. credits.
    - unfold modify_statistics_of. apply still_bind; [stays|]. intros a. apply modify_statistics_still.
      by intros st st' [= <-]. }
  intros u s2 H2. pose proof H2 as (Hwf2 & _ & _ & Hs2). dstep. dstep. intros p Hp. apply post_bind. dstep. dstep.
  eapply hands_out_trans; [exact H1| |intros; symmetry; apply Z.add_0_l].
  eapply hands_out_trans; [exact H2| |intros; symmetry; apply Z.add_0_l]. split_and!; [| |done|done].
  - wf_solve; [|done]. apply (call_price_has_shape _ _ _ p) in Hp; [done|done|simpl; unfold in64, int64_min; lia|].
    unfold GRAPHENE_DEFAULT_MAINTENANCE_COLLATERAL_RATIO. lia.
  - intros a. rewrite !gap_eq; simpl. unfold calls_of. rewrite msum_insert_fresh by done.
    assert (asset_id (base p) = CORE) as Hbase by (unfold call_price in Hp; inv_ok; unfold asset_div in *; by inv_ok).
    unfold get_collateral, co_collateral_type. simpl. rewrite Hbase. unfold core_credit. lia.
Qed.

(** ** Tallied supplies *)

Definition total_of (S : gmap Z Z) (a : Z) : Z := default 0 (S !! a).
Definition totals_ok (S : gmap Z Z) : Prop := map_Forall (λ _, in64) S ∧ 0 ≤ total_of S CORE.

Lemma total_of_insert S a v b : total_of (<[a := v]> S) b = total_of S b + credit (mk_asset (v - total_of S a) a) b.
Proof.
  unfold total_of, credit; simpl. destruct (Z.eqb_spec a b) as [->|Hne]; [rewrite lookup_insert_eq; simpl; lia|].
  rewrite lookup_insert_ne by done. lia.
Qed.
Lemma add_total_ok a v S S' :
  add_total a v S = Ok S' → S' = <[a := total_of S a + v]> S ∧ in64 (total_of S a + v).
Proof. unfold add_total. intros H. inv_ok. done. Qed.
Lemma add_total_of a v S S' b : add_total a v S = Ok S' → total_of S' b = total_of S b + credit (mk_asset v a) b.
Proof. intros [-> _]%add_total_ok. rewrite total_of_insert. credits. Qed.
Lemma add_total_range a v S S' :
  map_Forall (λ _, in64) S → add_total a v S = Ok S' → map_Forall (λ _, in64) S'.
Proof. intros HS [-> Hv]%add_total_ok. by apply map_Forall_insert_2. Qed.
Lemma add_total_totals a v S S' :
  totals_ok S → (a = CORE → 0 ≤ v) → add_total a v S = Ok S' → totals_ok S'.
Proof.
  intros [HS Hc] Hv Hadd. split; [by eapply add_total_range|]. rewrite (add_total_of _ _ _ _ _ Hadd).
  unfold credit; simpl. destruct (Z.eqb_spec a CORE) as [->|]; [specialize (Hv eq_refl)|]; lia.
Qed.

Lemma create_positions_spec symbol new recs : ∀ n S D s,
  Forall initial_position_ok recs → totals_ok S → wf s → unpaid s →
  post (create_positions symbol new n recs S D) s (λ r s',
    hands_out s (λ a, total_of r.1 a - total_of S a) s' ∧ totals_ok r.1 ∧ ∀ a, a ≠ CORE → r.1 !! a = S !! a).
Proof.
  induction recs as [|r recs IH]; intros n S D s Hrecs HS Hwf Hs; simpl.
  { dstep. split; [|done]. split_and!; try done. intros a. simpl. lia. }
  apply Forall_cons in Hrecs as [Hr Hrecs]. apply post_bind. pcall create_position_spec; [done|done|done|].
  intros u s1 H1. pose proof H1 as (Hwf1 & _ & _ & Hs1). dstep. dstep. intros S1 HS1. dstep. dstep. intros D1 _.
  pcall IH; [done| |done|done|]. { eapply add_total_totals; [exact HS| |exact HS1]. intros _. apply Hr. }
  intros [S2 D2] s2 (H2 & HS2 & Hsame). simpl in *. split_and!; [|done|].
  - eapply hands_out_trans; [exact H1|exact H2|]. intros a. simpl. rewrite (add_total_of _ _ _ _ a HS1).
    unfold core_credit. lia.
  - intros a Ha. rewrite Hsame by done. apply add_total_ok in HS1 as [-> _]. by rewrite lookup_insert_ne.
Qed.

(** The state while the supplies are tallied: what is held of an asset is its
    total, on top of the balance of the committee, the supply of the core asset. *)
Record tallied (S : gmap Z Z) (s : database) : Prop := mk_tallied {
  ta_wf : wf s;
  ta_unpaid : unpaid s;
  ta_gap : ∀ a, gap a s = total_of S a;
  ta_totals : totals_ok S;
  ta_committee : d_balances s = {[ (GRAPHENE_COMMITTEE_ACCOUNT, CORE) := mk_account_balance GRAPHENE_MAX_SHARE_SUPPLY false ]};
  ta_fbas : d_fbas s = ∅;
  ta_supply : ∀ a ao d, d_assets s !! a = Some ao → d_dynamic s !! as_dynamic_asset_data_id ao = Some d →
    current_supply d = core_credit GRAPHENE_MAX_SHARE_SUPPLY a;
  ta_exists : ∀ a, is_Some (S !! a) → is_Some (d_assets s !! a);
  ta_core : is_Some (d_assets s !! CORE);
  ta_keys : ∀ k, is_Some (d_genesis_balances s !! k) → k < Z.of_nat (size (d_genesis_balances s));
}.

(** A step that hands out nothing new of what is tallied. *)
Lemma tallied_step S S' s s' :
  tallied S s → hands_out s (λ a, total_of S' a - total_of S a) s' → totals_ok S' →
  (∀ a, is_Some (S' !! a) → is_Some (d_assets s !! a)) → tallied S' s'.
Proof.
  intros Ht (Hwf & Hg & E & Hs) HS' Hex. injection E as E1 E2 E3 E4 E5 E6.
  destruct Ht as [_ _ Hg0 _ H1 H2 H3 _ H4 H5]. split; rewrite ?E1, ?E2, ?E3, ?E4, ?E5; try done.
  intros a. rewrite Hg, Hg0. lia.
Qed.

Lemma quiet_tallied {A} (m : DB A) S s : quiet m → tallied S s → post m s (λ _, tallied S).
Proof.
  intros Hm Ht. pcall (quiet_hands_out m); [done|apply Ht|apply Ht|]. intros x s' H.
  eapply tallied_step; [exact Ht| |apply Ht|apply Ht]. destruct H as (? & Hg & ? & ?). split_and!; try done.
  intros a. rewrite Hg. lia.
Qed.

(** ** Initial assets *)

Definition initial_asset_ok (a : initial_asset) : Prop := Forall initial_position_ok (ias_collateral_records a).

(** The identifier of the asset that is being created *)
Lemma new_asset_fresh S s :
  tallied S s → let new := ni_asset (d_next_ids s) in d_assets s !! new = None ∧ new ≠ CORE ∧ total_of S new = 0.
Proof.
  intros Ht new. assert (d_assets s !! new = None) as Hnew.
  { apply eq_None_not_Some. intros [ao Hao]. destruct (wf_refs s (ta_wf S s Ht) _ ao Hao) as (Hlt & _). unfold new in Hlt. lia. }
  split_and!; [done| |].
  - intros E. destruct (ta_core S s Ht) as [ao Hao]. rewrite <- E in Hao. congruence.
  - unfold total_of. destruct (S !! new) as [v|] eqn:E; [|done].
    destruct (ta_exists S s Ht new) as [ao Hao]; [eauto|congruence].
Qed.

(** The positions and the bitasset data, before the asset exists *)
Definition asset_started (s : database) (S : gmap Z Z) (r : gmap Z Z * option Z) (s' : database) : Prop :=
  let new := ni_asset (d_next_ids s) in
  wf_but (λ b a, r.2 = Some b ∧ a = new) s' ∧ (∀ a, gap a s' = gap a s + (total_of r.1 a - total_of S a)) ∧
  handed_out s' = handed_out s ∧ unpaid s' ∧ totals_ok r.1 ∧ (∀ a, a ≠ CORE → r.1 !! a = S !! a) ∧
  ∀ b, r.2 = Some b → b < ni_bitasset (d_next_ids s') ∧ ∀ bd, d_bitassets s' !! b = Some bd → bd_asset_id bd = new.

Lemma start_asset_spec a S D0 D s :
  initial_asset_ok a → totals_ok S → wf s → unpaid s → ni_asset (d_next_ids s) ≠ CORE →
  post (if ias_is_bitasset a then
          let! t := create_positions (ias_symbol a) (ni_asset (d_next_ids s)) 0 (ias_collateral_records a) S D in
          let! b := create_bitasset (new_bitasset_data (ni_asset (d_next_ids s)) genesis_bitasset_options false) in
          ret (t, Some b)
        else ret ((S, D0), None)) s (λ r s', asset_started s S (fst (fst r), snd r) s').
Proof.
  intros Ha HS Hwf Hs Hne. destruct (ias_is_bitasset a).
  - apply post_bind. pcall create_positions_spec; [done|done|done|done|]. intros [S1 D1] s1 ((Hwf1 & Hg1 & E1 & Hs1) & HS1 & Hsame).
    apply post_bind. apply post_create_bitasset. intros Hfresh. dstep.
    destruct (with_bitasset_spec (ni_asset (d_next_ids s)) genesis_bitasset_options false s1) as [Hwf2 Hg2]; [done|done|done|].
    unfold asset_started. simpl in *. split_and!; try done.
    + eapply wf_but_mono; [|exact Hwf2]. simpl. by intros b x [-> ->].
    + intros x. by rewrite Hg2, Hg1.
    + intros b [= <-]. split; [lia|]. intros bd. rewrite lookup_insert_eq. by intros [= <-].
  - dstep. unfold asset_started. simpl. split_and!; try done; [|intros; lia].
    by eapply wf_but_mono; [|exact Hwf].
Qed.

Lemma create_initial_asset_spec a S D s :
  initial_asset_ok a → tallied S s → post (create_initial_asset a (S, D)) s (λ r, tallied r.1).
Proof.
  intros Ha Ht. destruct (new_asset_fresh S s Ht) as (Hnew & Hne & Hzero). unfold create_initial_asset. dstep. dstep.
  simpl fst. simpl snd. set (new := ni_asset (d_next_ids s)) in *.
  assert (∀ b, total_of (<[new := 0]> S) b = total_of S b) as Htally.
  { intros b. rewrite total_of_insert, Hzero. rewrite credit_zero by done. lia. }
  apply post_bind. pcall (start_asset_spec a (<[new := 0]> S) D (<[new := 0]> D) s); [done| |apply Ht|apply Ht|done|].
  { destruct (ta_totals S s Ht) as [H1 H2]. split; [by apply map_Forall_insert_2|]. by rewrite Htally. }
  intros [[S1 D1] bit] s1 (Hwf1 & Hg1 & E1 & Hs1 & HS1 & Hsame & Hbit). simpl in *. injection E1 as Eb Ea Ed Eg Ef En.
  apply post_bind. apply post_create_dynamic. intros Hfresh.
  destruct (with_dynamic_spec _ (mk_asset_dynamic_data 0 0 (ias_accumulated_fees a) 0) s1 Hwf1) as [Hwf2 Hg2]; [done|done|].
  cbn [fee_pool] in Hg2. set (s2 := with_dynamic _ s1) in *. dstep. dstep. intros S2 HS2.
  apply post_bind. pcall get_account_id_reads. intros issuer s3 ->. apply post_bind. apply post_create_asset. intros _. dstep.
  match goal with |- tallied _ (with_asset ?ao _) =>
    destruct (with_asset_spec _ ao (mk_asset_dynamic_data 0 0 (ias_accumulated_fees a) 0) s2 Hwf2) as [Hwf4 Hg4];
      simpl; rewrite ?En; try done end.
  { lia. }
  { intros b bo Hbo. destruct (wf_refs s1 Hwf1 b bo Hbo) as (_ & Hlt & _). lia. }
  { apply lookup_insert_eq. }
  { by rewrite Ea. }
  assert (ni_asset (d_next_ids s2) = new) as En2 by done. rewrite En2 in Hg4.
  split; simpl; rewrite ?Eb, ?Eg, ?Ef, ?En; try done; try apply Ht.
  - intros b. rewrite Hg4, Hg2, Hg1, (ta_gap S s Ht), Htally, (add_total_of _ _ _ _ b HS2).
    unfold dyn_net, issuer_held. cbn [accumulated_fees confidential_supply current_supply]. credits.
  - apply (add_total_totals new (ias_accumulated_fees a) S1 S2 HS1); [by intros ?|exact HS2].
  - intros b bo d Hb Hd. rewrite Ea in Hb. apply lookup_insert_Some in Hb as [[<- <-]|[Hbn Hb]].
    + simpl in Hd. rewrite lookup_insert_eq in Hd. injection Hd as <-. simpl. unfold core_credit. credits.
    + destruct (wf_refs s (ta_wf S s Ht) b bo Hb) as (_ & Hlt & _). rewrite <- Ea in Hb.
      destruct (wf_refs s1 Hwf1 b bo Hb) as (_ & Hlt1 & _). rewrite lookup_insert_ne in Hd by lia.
      rewrite Ea in Hb. rewrite Ed in Hd. by apply (ta_supply S s Ht b bo d).
  - intros b. apply add_total_ok in HS2 as [-> _]. rewrite Ea. intros [v Hv]. apply lookup_insert_is_Some'.
    destruct (decide (new = b)) as [Hbn|Hbn]; [by left|]. right. rewrite lookup_insert_ne in Hv by done.
    destruct (decide (b = CORE)) as [->|Hbc]; [apply (ta_core S s Ht)|]. rewrite Hsame, lookup_insert_ne in Hv by (done || congruence).
    apply (ta_exists S s Ht). eauto.
  - rewrite Ea, lookup_insert_ne by done. apply (ta_core S s Ht).
Qed.

Lemma create_initial_assets_spec l : ∀ S D s,
  Forall initial_asset_ok l → tallied S s → post (create_initial_assets l (S, D)) s (λ r, tallied r.1).
Proof.
  induction l as [|a l IH]; intros S D s Hl Ht; simpl; [by dstep|]. apply Forall_cons in Hl as [Ha Hl].
  apply post_bind. pcall create_initial_asset_spec; [done|done|]. intros [S1 D1] s1 Ht1. by apply IH.
Qed.

(** ** Balances *)

Lemma get_asset_id_found symbol s : post (get_asset_id symbol) s (λ a s', s' = s ∧ is_Some (d_assets s !! a)).
Proof.
  unfold get_asset_id. dstep. dstep. dstep. intros a Ha. apply of_option_ok in Ha. split; [done|].
  unfold find_asset_by_symbol, find_first in Ha. destruct (List.find _ _) as [[k v]|] eqn:E; [|done]. injection Ha as <-.
  apply find_some in E as [Hin _]. apply list_elem_of_In, elem_of_map_to_list in Hin. eauto.
Qed.

Lemma create_genesis_balance_spec b v a S S' s :
  tallied S s → genesis_ok b → ba_balance b = mk_asset v a → is_Some (d_assets s !! a) → add_total a v S = Ok S' →
  post (create_genesis_balance b) s (λ _, tallied S').
Proof.
  intros Ht Hb Hbal Ha HS'. unfold create_genesis_balance. dstep.
  assert (d_genesis_balances s !! Z.of_nat (size (d_genesis_balances s)) = None) as Hfresh.
  { apply eq_None_not_Some. intros H%(ta_keys S s Ht). lia. }
  destruct Ht as [Hwf Hs Hg [HS Hc] Hcom Hfba Hsup Hex Hcore Hkeys]. split; try done.
  - wf_solve.
  - intros c. rewrite (add_total_of _ _ _ _ c HS'), <- Hg, !gap_eq. simpl. unfold genesis_of.
    rewrite msum_insert_fresh by done. rewrite Hbal. lia.
  - eapply add_total_totals; [by split| |exact HS']. intros _. destruct Hb as [Hb _]. by rewrite Hbal in Hb.
  - intros c. apply add_total_ok in HS' as [-> _]. intros [<-|[_ H]]%lookup_insert_is_Some; [done|by apply Hex].
  - intros k. simpl. rewrite map_size_insert_None by done. intros [<-|[_ H]]%lookup_insert_is_Some; [lia|].
    specialize (Hkeys k H). lia.
Qed.

Definition initial_vesting_ok (v : initial_vesting_balance) : Prop :=
  0 ≤ iv_amount v ∧ 0 ≤ iv_begin_balance v ≤ GRAPHENE_MAX_SHARE_SUPPLY ∧ 0 ≤ iv_vesting_duration_seconds v < 2 ^ 32.

Lemma create_initial_balances_spec l : ∀ S s,
  Forall (λ h, 0 ≤ ib_amount h) l → tallied S s → post (create_initial_balances l S) s tallied.
Proof.
  induction l as [|h l IH]; intros S s Hl Ht; simpl; [by dstep|]. apply Forall_cons in Hl as [Hh Hl].
  apply post_bind. pcall get_asset_id_found. intros a s1 [-> Ha]. dstep. intros u s1 Hrun. dstep. dstep. intros S' HS'.
  apply IH; [done|]. eapply (create_genesis_balance_spec (mk_balance _ (mk_asset (ib_amount h) a) None _) (ib_amount h) a S S' s);
    [done| |done|done|done|exact Hrun]. by split.
Qed.
Lemma create_vesting_balances_spec l : ∀ S s,
  Forall initial_vesting_ok l → tallied S s → post (create_vesting_balances l S) s tallied.
Proof.
  induction l as [|v l IH]; intros S s Hl Ht; simpl; [by dstep|]. apply Forall_cons in Hl as [(Hv & Hb & Hd) Hl].
  apply post_bind. pcall get_asset_id_found. intros a s1 [-> Ha]. dstep. intros u s1 Hrun. dstep. dstep. intros S' HS'.
  apply IH; [done|]. eapply (create_genesis_balance_spec (mk_balance _ (mk_asset (iv_amount v) a)
    (Some (mk_linear_policy (iv_begin_timestamp v) 0 (iv_vesting_duration_seconds v) (iv_begin_balance v))) _) (iv_amount v) a S S' s);
    [done| |done|done|done|exact Hrun].
  split; [done|]. by intros p [= <-].
Qed.

(** ** The supplies are saved *)

(** Everything is tallied: what is missing of each asset is its total. *)
Record to_save (S : gmap Z Z) (s : database) : Prop := mk_to_save {
  ts_wf : wf s;
  ts_fbas : d_fbas s = ∅;
  ts_gap : ∀ a, gap a s = total_of S a - core_credit GRAPHENE_MAX_SHARE_SUPPLY a;
  ts_range : map_Forall (λ _, in64) S;
  ts_supply : ∀ a ao d, d_assets s !! a = Some ao → d_dynamic s !! as_dynamic_asset_data_id ao = Some d →
    current_supply d = core_credit GRAPHENE_MAX_SHARE_SUPPLY a;
  ts_core : is_Some (S !! CORE);
  ts_exists : ∀ a, is_Some (S !! a) → is_Some (d_assets s !! a);
}.

Lemma settle_core_spec S s : tallied S s → post (settle_core S) s (λ S' s', to_save S' s' ∧ unpaid s').
Proof.
  intros [Hwf Hs Hg [HS Hc] Hcom Hfba Hsup Hex Hcore Hkeys]. unfold settle_core. fold (total_of S CORE). dstep.
  - btrue. unfold get_balance. dstep. dstep. rewrite Hcom. simpl. dstep. dstep. intros neg Hneg.
    unfold asset_neg in Hneg. inv_ok. dstep. apply post_adjust_balance. intros B HB. dstep. split; [|done].
    split; try done; [wf_solve| |].
    + intros a. rewrite <- Hg, !gap_eq. simpl. rewrite HB. rewrite lookup_singleton_eq. simpl. unfold total_of. credits.
    + unfold total_of in *. by destruct (S !! CORE).
  - btrue. dstep. split; [|done]. split; try done.
    + intros a. rewrite Hg, total_of_insert. assert (total_of S CORE = 0) as -> by lia.
      unfold core_credit. rewrite Z.sub_0_r. lia.
    + by apply map_Forall_insert_2.
    + by rewrite lookup_insert_eq.
    + intros a [<-|[_ Hx]]%lookup_insert_is_Some; [done|by apply Hex].
Qed.

Lemma check_balanced_reads S D : reads (check_balanced S D).
Proof. unfold check_balanced. solve_reads. Qed.

(** The supplies that are still to be saved *)
Definition unsaved (l : list (Z * Z)) (a : Z) : Z :=
  default 0 ((λ v, v - core_credit GRAPHENE_MAX_SHARE_SUPPLY a) <$> (list_to_map l : gmap Z Z) !! a).
Lemma unsaved_cons b v l a :
  b ∉ l.*1 → unsaved ((b, v) :: l) a = unsaved l a + credit (mk_asset (v - core_credit GRAPHENE_MAX_SHARE_SUPPLY b) b) a.
Proof.
  intros Hb. unfold unsaved, credit; simpl. destruct (Z.eqb_spec b a) as [<-|Hne].
  - rewrite lookup_insert_eq. rewrite (not_elem_of_list_to_map_1 l b Hb). simpl. lia.
  - rewrite lookup_insert_ne by done. lia.
Qed.
Lemma unsaved_by_id S s a : to_save S s → unsaved (by_id S) a = gap a s.
Proof.
  intros Hs. rewrite (ts_gap S s Hs). unfold unsaved, total_of.
  assert (list_to_map (by_id S) = S) as ->.
  { etransitivity; [apply list_to_map_proper; [|apply by_id_perm]|apply list_to_map_to_list].
    rewrite by_id_perm. apply NoDup_fst_map_to_list. }
  destruct (S !! a) as [v|] eqn:E; simpl; [done|]. unfold core_credit, credit; simpl.
  destruct (Z.eqb_spec CORE a) as [<-|]; [|done]. destruct (ts_core S s Hs). congruence.
Qed.

Lemma save_supply_spec b v s :
  in64 v → wf s →
  post (modify_dynamic_of b (λ d, Ok (set_current_supply v d))) s (λ _ s', ∃ ao d,
    d_assets s !! b = Some ao ∧ d_dynamic s !! as_dynamic_asset_data_id ao = Some d ∧
    s' = set_d_dynamic (<[as_dynamic_asset_data_id ao := set_current_supply v d]> (d_dynamic s)) s ∧ wf s' ∧
    ∀ a, gap a s' = gap a s + credit (mk_asset (current_supply d - v) b) a).
Proof.
  intros Hv Hwf. unfold modify_dynamic_of. dstep. dstep. apply post_modify. intros d d' Hd [= <-].
  exists v0, d. split_and!; try done; [wf_solve|]. intros a. rewrite !gap_eq. simpl.
  erewrite dyn_field_insert by eauto using wf_dyn_inj. unfold pools_of. erewrite msum_insert_some by eassumption.
  unfold dyn_net, issuer_held. simpl. credits.
Qed.

(** Well formed, balanced, and before any fee: where the elected are created *)
Record in_balance (s : database) : Prop := mk_in_balance {
  ib_wf : wf s;
  ib_gap : ∀ a, gap a s = 0;
  ib_unpaid : unpaid s;
  ib_fbas : d_fbas s = ∅;
}.

Lemma save_all_spec l : ∀ s,
  NoDup l.*1 → Forall (λ x, in64 x.2) l → wf s → unpaid s → d_fbas s = ∅ → (∀ a, gap a s = unsaved l a) →
  (∀ a ao d, a ∈ l.*1 → d_assets s !! a = Some ao → d_dynamic s !! as_dynamic_asset_data_id ao = Some d →
     current_supply d = core_credit GRAPHENE_MAX_SHARE_SUPPLY a) →
  post (for_each (λ x, modify_dynamic_of (fst x) (λ d, Ok (set_current_supply (snd x) d))) l) s (λ _, in_balance).
Proof.
  induction l as [|[b v] l IH]; intros s Hnd Hl Hwf Hs Hf Hg Hsup; simpl; [by dstep|].
  apply NoDup_cons in Hnd as [Hb Hnd]. apply Forall_cons in Hl as [Hv Hl].
  apply post_bind. pcall save_supply_spec; [done|done|].
  intros u s1 (ao & d & Hao & Hd & -> & Hwf1 & Hg1). apply IH; try done.
  - intros a. rewrite Hg1, Hg, unsaved_cons by done. rewrite (Hsup b ao d) by (done || by left). credits.
  - intros a bo d' Ha Hbo Hd'. simpl in *. assert (a ≠ b) as Hne by (by intros ->).
    rewrite lookup_insert_ne in Hd'; [by eapply (Hsup a bo); [right|..]|]. intros E. apply Hne. symmetry.
    by eapply (wf_dyn_inj s Hwf).
Qed.
Lemma save_supplies_spec S s : to_save S s → unpaid s → post (save_supplies S) s (λ _, in_balance).
Proof.
  intros Hts Hs. apply save_all_spec; try apply Hts; try done.
  - rewrite by_id_perm. apply NoDup_fst_map_to_list.
  - rewrite by_id_perm. apply Forall_forall. intros [k v] Hkv%elem_of_map_to_list. by apply (ts_range S s Hts k).
  - intros a. by rewrite (unsaved_by_id S s).
  - intros a ao d _. apply (ts_supply S s Hts).
Qed.

(** ** Witnesses, the committee and workers *)

Lemma in_balance_quiet {A} (m : DB A) s : quiet m → in_balance s → post m s (λ _, in_balance).
Proof.
  intros Hm [Hwf Hg Hs Hf]. pcall Hm; [done|done|]. intros x s' (? & Hg' & E & ?). injection E as _ _ _ _ E _.
  split; try done; [intros a; by rewrite Hg'|congruence].
Qed.

Lemma create_null_witness_quiet : quiet create_null_witness.
Proof.
  unfold create_null_witness, create_at. apply quiet_bind; [apply quiet_bind|].
  - apply quiet_effect; [intros s Hwf; no_effect|stays].
  - intros i. apply quiet_reads. solve_reads.
  - intros _. apply quiet_effect; [intros s Hwf; apply post_remove; intros w Hw; split; [wf_solve|intros a; rewrite !gap_eq; simpl; lia]|stays].
Qed.
Lemma create_initial_witness_quiet w : quiet (create_initial_witness w).
Proof.
  apply quiet_bind; [apply quiet_reads, get_account_id_reads|]. intros a. apply quiet_bind; [|intros; apply quiet_reads, reads_ret].
  apply (genesis_apply_quiet op_witness_create witness_create_do_evaluate witness_create_do_apply); [apply _|done|done|].
  intros. apply witness_create_still.
Qed.
Lemma create_initial_member_quiet w : quiet (create_initial_member w).
Proof.
  apply quiet_bind; [apply quiet_reads, get_account_id_reads|]. intros a. apply quiet_bind; [|intros; apply quiet_reads, reads_ret].
  apply (genesis_apply_quiet op_committee_member_create committee_member_create_do_evaluate committee_member_create_do_apply);
    [apply _|done|done|]. intros. apply committee_member_create_still.
Qed.
Lemma create_initial_worker_quiet now w : quiet (create_initial_worker now w).
Proof.
  apply quiet_bind; [apply quiet_reads, get_account_id_reads|]. intros a. apply quiet_bind; [|intros; apply quiet_reads, reads_ret].
  apply (genesis_apply_quiet op_worker_create worker_create_do_evaluate worker_create_do_apply); [apply _|done|done|].
  intros. apply worker_create_still.
Qed.
Lemma create_fbas_spec s : in_balance s → post create_fbas s (λ _ s', wf s' ∧ conserved s').
Proof.
  intros [Hwf Hg Hs Hf]. unfold create_fbas. match goal with |- context [set_d_fbas ?m] => assert (fbas_of m = 0) as Hm end.
  { vm_compute. reflexivity. }
  match type of Hm with fbas_of ?m = _ => generalize dependent m end. intros m Hm.
  dstep. split; [wf_solve|]. assert (∀ a, gap a (set_d_fbas m s) = 0) as H0.
  { intros a. rewrite <- (Hg a), !gap_eq. simpl. by rewrite Hf, Hm. }
  intros a. specialize (H0 a). unfold gap in H0. lia.
Qed.
Lemma create_elected_spec g s : in_balance s → post (create_elected g) s (λ _ s', wf s' ∧ conserved s').
Proof.
  intros Hs. unfold create_elected. apply post_bind. pcall in_balance_quiet; [apply create_null_witness_quiet|done|].
  intros u1 s1 H1. apply post_bind. pcall in_balance_quiet; [apply quiet_for_each, create_initial_witness_quiet|done|].
  intros u2 s2 H2. apply post_bind. pcall in_balance_quiet; [apply quiet_for_each, create_initial_member_quiet|done|].
  intros u3 s3 H3. apply post_bind. pcall in_balance_quiet; [apply quiet_for_each, create_initial_worker_quiet|done|].
  intros u4 s4 H4. apply post_bind. pcall (in_balance_quiet (set_active_witnesses (initial_active_witnesses g))); [|done|].
  { apply quiet_effect; [intros s5 Hwf5; unfold set_active_witnesses, put_gov; no_effect|unfold set_active_witnesses, put_gov; stays]. }
  intros u5 s5 H5. apply post_bind. pcall (in_balance_quiet (enable_fees (initial_parameters g))); [|done|].
  { apply quiet_effect; [intros s6 Hwf6; unfold enable_fees; no_effect|unfold enable_fees; stays]. }
  intros u6 s6 H6. by apply create_fbas_spec.
Qed.

(** ** The fixed objects *)

Lemma create_statistics_quiet st :
  st_pending_fees st = 0 → st_pending_vested_fees st = 0 → quiet (create_statistics st).
Proof.
  intros H1 H2. apply quiet_effect; [|by apply create_statistics_still]. intros s Hwf. apply post_create.
  intros id -> Hfresh _. split; [wf_solve|]. intros a. rewrite !gap_eq. simpl. unfold pending_of.
  rewrite msum_insert_fresh by done. unfold st_pending. credits.
Qed.
Lemma create_special_account_quiet name threshold patron percent core :
  quiet (create_special_account name threshold patron percent core).
Proof.
  unfold create_special_account. apply quiet_bind; [apply quiet_reads; solve_reads|]. intros id.
  apply quiet_bind; [by apply create_statistics_quiet|]. intros stats.
  apply quiet_effect; [|stays]. intros s Hwf. apply post_create. intros. split; [wf_solve|].
  intros a. rewrite !gap_eq. simpl. lia.
Qed.
Lemma create_at_quiet id m : quiet m → quiet (create_at id m).
Proof. intros Hm. apply quiet_bind; [done|]. intros i. apply quiet_reads. solve_reads. Qed.
Lemma reserve_accounts_quiet fuel n : quiet (reserve_accounts fuel n).
Proof.
  induction fuel as [|fuel IH]; simpl; [apply quiet_reads; solve_reads|].
  apply quiet_bind; [apply quiet_reads; solve_reads|]. intros id. destruct (n <=? id); [apply quiet_reads; solve_reads|].
  apply quiet_bind; [apply create_at_quiet, create_special_account_quiet|]. intros _. apply quiet_bind; [|by intros _].
  apply quiet_effect; [|stays]. intros s Hwf. apply post_remove. intros. split; [wf_solve|].
  intros a. rewrite !gap_eq. simpl. lia.
Qed.

(** The balance of the committee is all there is. *)
Record endowed (s : database) : Prop := mk_endowed {
  en_wf : wf s;
  en_unpaid : unpaid s;
  en_gap : ∀ a, gap a s = core_credit GRAPHENE_MAX_SHARE_SUPPLY a;
  en_handed : handed_out s =
    ({[ (GRAPHENE_COMMITTEE_ACCOUNT, CORE) := mk_account_balance GRAPHENE_MAX_SHARE_SUPPLY false ]}, ∅, ∅, ∅, ∅, 0);
}.
Lemma quiet_endowed {A} (m : DB A) s : quiet m → endowed s → post m s (λ _, endowed).
Proof.
  intros Hm [Hwf Hs Hg E]. pcall Hm; [done|done|]. intros x s' (? & Hg' & E' & ?). split; try done; [|congruence].
  intros a. by rewrite Hg'.
Qed.

Lemma empty_database_wf p : wf (empty_database p).
Proof.
  apply mk_wf; simpl; try apply map_Forall_empty; try done; intros ? ? ? ? ?; by rewrite lookup_empty.
Qed.
Lemma endowed_start p :
  endowed (set_d_balances (<[(GRAPHENE_COMMITTEE_ACCOUNT, CORE) := mk_account_balance GRAPHENE_MAX_SHARE_SUPPLY false]> ∅)
             (empty_database p)).
Proof.
  split; [|apply map_Forall_empty| |done].
  - apply mk_wf; apply (empty_database_wf p).
  - intros a. rewrite gap_eq. simpl. unfold balances_of. rewrite msum_insert_fresh by done.
    unfold settles_of, bids_of, limits_of, calls_of, funds_of, vestings_of, genesis_of, pending_of, pools_of, fbas_of, dyn_field.
    rewrite lookup_empty, !msum_empty. credits.
Qed.
Lemma create_fixed_accounts_spec p : post create_fixed_accounts (empty_database p) (λ _, endowed).
Proof.
  unfold create_fixed_accounts. dstep. dstep.
  apply (quiet_endowed); [|apply endowed_start].
  do 5 (apply quiet_bind; [apply create_at_quiet, create_special_account_quiet|intros _]).
  apply create_at_quiet, create_special_account_quiet.
Qed.

Lemma create_core_asset_spec m s : endowed s → post (create_core_asset m) s (λ _, tallied ∅).
Proof.
  intros [Hwf Hs Hg E]. injection E as Eb Ea Ed Eg Ef En. unfold create_core_asset.
  apply post_bind. apply post_create_dynamic. intros Hfresh.
  set (d := mk_asset_dynamic_data GRAPHENE_MAX_SHARE_SUPPLY 0 0 0).
  destruct (with_dynamic_spec _ d s Hwf) as [Hwf1 Hg1]; [done|done|].
  set (s1 := with_dynamic d s) in *. apply post_bind. apply post_create_asset. intros _.
  match goal with |- context [with_asset ?ao _] =>
    destruct (with_asset_spec _ ao d s1 Hwf1) as [Hwf2 Hg2]; simpl; rewrite ?En, ?Ea, ?Ed; try done end.
  { lia. }
  { apply lookup_insert_eq. }
  assert (ni_asset (d_next_ids s1) = CORE) as En1 by exact En. rewrite En1 in Hg2.
  set (s2 := with_asset _ s1) in *.
  match goal with |- post ?m _ _ => assert (reads m) as Hreads by solve_reads end.
  pcall Hreads. intros u s' ->. split; try done; simpl; rewrite ?Eb, ?Ea, ?Ed, ?Eg, ?Ef, ?En; try done.
  - intros a. rewrite Hg2, Hg1, Hg. unfold total_of. rewrite lookup_empty. unfold d. simpl. credits.
    all: unfold dyn_net, issuer_held; simpl; lia.
  - intros a ao' d' [[<- <-]|[_ Hao]]%lookup_insert_Some; [|by rewrite lookup_empty in Hao].
    by intros [[_ <-]|[[] _]]%lookup_insert_Some.
  - intros a [? Hx]. by rewrite lookup_empty in Hx.
  - intros k [? Hx]. by rewrite lookup_empty in Hx.
Qed.

(** An identifier of an asset that is passed over: its dynamic data stays. *)
Definition without_asset (s : database) : database :=
  set_d_next_ids (set_ni_asset (ni_asset (d_next_ids s) + 1) (d_next_ids s)) s.
Lemma tallied_reserve S s :
  tallied S s → d_dynamic s !! ni_dynamic (d_next_ids s) = None →
  tallied S (without_asset (with_dynamic (mk_asset_dynamic_data 0 0 0 0) s)).
Proof.
  intros Ht Hfresh. destruct (with_dynamic_spec _ (mk_asset_dynamic_data 0 0 0 0) s (ta_wf S s Ht)) as [Hwf Hg]; [done|done|].
  destruct Ht as [Hwf0 Hs Hg0 HS Hcom Hfba Hsup Hex Hcore Hkeys]. split; try done.
  - apply mk_wf; simpl; try apply Hwf. eapply refs_ok_mono; [..|apply Hwf]; simpl; lia.
  - intros a. rewrite <- Hg0. specialize (Hg a). rewrite !gap_eq in *. simpl in *. rewrite Hg. credits.
  - intros a ao d Ha Hd. simpl in *. destruct (wf_refs s Hwf0 a ao Ha) as (_ & Hlt & _).
    rewrite lookup_insert_ne in Hd by lia. by eapply Hsup.
Qed.
Lemma reserve_assets_spec fuel n S : ∀ s, tallied S s → post (reserve_assets fuel n) s (λ _, tallied S).
Proof.
  induction fuel as [|fuel IH]; intros s Ht; simpl; [dstep|]. dstep. dstep.
  destruct (n <=? _); [by dstep|].
  apply post_bind. apply post_create_dynamic. intros Hfresh. apply post_bind. unfold create_at. apply post_bind.
  apply post_create_asset. intros _. dstep. dstep. dstep. apply post_remove. intros ao Hao. apply IH.
  pose proof (new_asset_fresh S s Ht) as (Hnew & _).
  match goal with |- tallied S ?t => replace t with (without_asset (with_dynamic (mk_asset_dynamic_data 0 0 0 0) s)) end.
  { by apply tallied_reserve. }
  unfold with_asset, without_asset, with_dynamic. simpl. rewrite delete_insert_id by done. by destruct s.
Qed.

(** A change of what no amount depends on *)
Lemma put_quiet f :
  (∀ s, wf s → wf (f s)) → (∀ s a, gap a (f s) = gap a s) →
  (∀ s, handed_out (f s) = handed_out s ∧ d_statistics (f s) = d_statistics s) → quiet (put f).
Proof.
  intros H1 H2 H3 s Hwf Hs. dstep. destruct (H3 s) as [E1 E2]. split_and!; try done; [by apply H1|].
  unfold unpaid. by rewrite E2.
Qed.
Ltac put_quietly := apply put_quiet; [intros; wf_solve|intros; rewrite !gap_eq; simpl; lia|done].

Lemma block_summaries_quiet m : quiet (put (set_d_block_summaries m)).
Proof. put_quietly. Qed.
Lemma create_global_properties_quiet g : quiet (create_global_properties g).
Proof. put_quietly. Qed.
Lemma create_chain_properties_quiet p : quiet (create_chain_properties p).
Proof.
  unfold create_chain_properties, put_gov. intros s Hwf Hs. dstep. dstep.
  assert (quiet (put (λ s, set_d_governance (set_min_counts p (d_governance s)) s))) as Hput by put_quietly.
  by apply Hput.
Qed.

Lemma create_fixed_objects_spec g p : post (create_fixed_objects g) (empty_database p) (λ _, tallied ∅).
Proof.
  unfold create_fixed_objects. apply post_bind. pcall create_fixed_accounts_spec. intros u1 s1 H1.
  apply post_bind. pcall quiet_endowed; [apply reserve_accounts_quiet|done|]. intros u2 s2 H2.
  apply post_bind. pcall create_core_asset_spec; [done|]. intros u3 s3 H3.
  apply post_bind. pcall (reserve_assets_spec _ _ ∅); [done|]. intros u4 s4 H4.
  apply quiet_tallied; [|done]. apply quiet_bind; [apply create_global_properties_quiet|intros _].
  apply quiet_bind; [apply create_chain_properties_quiet|intros _]. apply block_summaries_quiet.
Qed.

(** ** The state of genesis *)

(** The amounts of a genesis state that are handed out are not negative. *)
Record genesis_state_ok (g : genesis_state) : Prop := mk_genesis_state_ok {
  go_assets : Forall initial_asset_ok (initial_assets g);
  go_balances : Forall (λ h, 0 ≤ ib_amount h) (initial_balances g);
  go_vestings : Forall initial_vesting_ok (initial_vesting_balances g);
}.

Lemma create_holdings_spec g s : genesis_state_ok g → tallied ∅ s → post (create_holdings g) s (λ _, in_balance).
Proof.
  intros [Ha Hb Hv] Ht. unfold create_holdings. apply post_bind.
  pcall quiet_tallied; [apply quiet_for_each, create_initial_account_quiet|done|]. intros u1 s1 H1.
  apply post_bind. pcall create_initial_assets_spec; [done|done|]. intros [S1 D1] s2 H2.
  apply post_bind. pcall create_initial_balances_spec; [done|done|]. intros S2 s3 H3.
  apply post_bind. pcall create_vesting_balances_spec; [done|done|]. intros S3 s4 H4.
  apply post_bind. pcall settle_core_spec; [done|]. intros S4 s5 [H5 Hs5].
  apply post_bind. pcall check_balanced_reads. intros u6 s6 ->. by apply save_supplies_spec.
Qed.

(** C6. The state of genesis, however many accounts, assets, collateral positions,
    balances, vesting balances, witnesses, committee members and workers it lists,
    is well formed and balanced when [init_genesis] accepts it: of every asset,
    the recorded supply is what is handed out, and it satisfies the invariant of
    the object graph. *)
Theorem init_genesis_balanced g c :
  genesis_state_ok g → init_genesis g = Ok c → wf (c_db c) ∧ conserved (c_db c).
Proof.
  intros Hg Hinit. unfold init_genesis in Hinit. inv_ok. destruct x as [u s]. simpl.
  assert (post (init_database g) (empty_database (initial_parameters g)) (λ _ s', wf s' ∧ conserved s')) as Hpost.
  { unfold init_database. do 4 dstep. apply post_bind. pcall create_fixed_objects_spec. intros u1 s1 Ht.
    apply post_bind. pcall create_holdings_spec; [done|done|]. intros u2 s2 Hb. by apply create_elected_spec. }
  by apply (Hpost u s).
Qed.
End genesis_supply.

(** Three accounts, a market issued asset with a collateral position, balances
    and a vesting balance, a witness, a committee member and a worker *)
Definition sample_genesis : genesis_state :=
  mk_genesis_state sample_time GRAPHENE_MAX_SHARE_SUPPLY sample_parameters
    (mk_immutable_parameters 11 11 8 2)
    [mk_initial_account "nathan" 100 0 true; mk_initial_account "init0" 101 102 true]
    [mk_initial_asset "USD" "nathan" "" 4 1000000 7 true [mk_collateral_position 500 3000 1007]]
    [mk_initial_balance 501 "BTS" 90000; mk_initial_balance 502 "USD" 600]
    [mk_initial_vesting 503 "USD" 400 sample_time 86400 400]
    1 [mk_initial_witness "init0" 101] ["nathan"] [mk_initial_worker "nathan" 5].

(** What the sample hands out: 3000 of the core asset are collateral and 90000 a
    balance; of the other asset 600 are a balance, 400 vest and 7 are fees. *)
Lemma sample_genesis_supplies :
  match init_genesis sample_genesis with
  | Ok c => (supply CORE (c_db c) =? 93000) && (supply 2 (c_db c) =? 1007)
  | Err _ => false
  end = true.
Proof. vm_compute. reflexivity. Qed.

Lemma init_genesis_balanced_witness :
  ∃ c, init_genesis sample_genesis = Ok c ∧ supply CORE (c_db c) = 93000 ∧ supply 2 (c_db c) = 1007 ∧
    wf (c_db c) ∧ conserved (c_db c).
Proof.
  pose proof sample_genesis_supplies as H. destruct (init_genesis sample_genesis) as [c|e] eqn:E; [|discriminate].
  apply andb_prop in H as [H1%Z.eqb_eq H2%Z.eqb_eq]. exists c. split; [done|]. split; [done|]. split; [done|].
  apply (init_genesis_balanced sample_genesis c); [|exact E]. clear.
  split; repeat constructor; simpl; unfold in64, int64_min, int64_max, GRAPHENE_MAX_SHARE_SUPPLY, GRAPHENE_BLOCKCHAIN_PRECISION; lia.
Defined.
