(* ===== verification/AuthorityTheory.v ===== *)
(** * What the authority checks decide

    [approves] is the least relation that the authorities of accounts ask for:
    an account approves when it is in the given approvals, or when keys that
    signed, their addresses and other approving accounts reach the threshold of
    its active authority. The checks of Authority.v are sound for it at any
    recursion depth, and complete for approvals nested no deeper than the
    maximum. *)

From S2P Require Import Prelude Ext Config Asset Objects Parameters Blocks Operations Authority.

(** ** Weights *)

(** The weights of the entries of a list, or map, whose key is in [S]. *)
Definition weight_in_list (S : gset Z) (l : list (Z * Z)) : Z :=
  foldr Z.add 0 ((λ x, if bool_decide (x.1 ∈ S) then x.2 else 0) <$> l).
Definition weight_in (S : gset Z) (m : gmap Z Z) : Z :=
  msum (λ x w, if bool_decide (x ∈ S) then w else 0) m.

Definition weights_ok (m : gmap Z Z) : Prop := map_Forall (λ _ w, 0 ≤ w) m.

(** The weights are those of [uint16_t], and their sum is less than 2^32. *)
Record authority_ok (au : authority) : Prop := mk_authority_ok {
  keys_ok : weights_ok (au_key_auths au);
  addresses_ok : weights_ok (au_address_auths au);
  accounts_ok : weights_ok (au_account_auths au);
  sum_ok : auth_weights (au_key_auths au) + auth_weights (au_address_auths au)
           + auth_weights (au_account_auths au) < 2 ^ 32;
}.

Lemma foldr_add_perm (l l' : list Z) : l ≡ₚ l' → foldr Z.add 0 l = foldr Z.add 0 l'.
Proof. induction 1; simpl; lia. Qed.

Lemma weight_in_by_id S m : weight_in_list S (by_id m) = weight_in S m.
Proof. unfold weight_in. rewrite msum_list. apply foldr_add_perm. by rewrite by_id_perm. Qed.

Lemma weights_by_id m : weights_ok m → Forall (λ x, 0 ≤ x.2) (by_id m).
Proof. intros H. rewrite by_id_perm. apply Forall_forall. intros [k w] Hk%elem_of_map_to_list. by apply (H k). Qed.

Definition sum_weights (l : list (Z * Z)) : Z := foldr Z.add 0 l.*2.
Lemma sum_weights_cons x l : sum_weights (x :: l) = x.2 + sum_weights l.
Proof. done. Qed.

Lemma weight_in_list_bound S l :
  Forall (λ x, 0 ≤ x.2) l → 0 ≤ weight_in_list S l ≤ sum_weights l.
Proof.
  unfold weight_in_list. induction 1 as [|x l Hx Hl IH]; [done|]. rewrite sum_weights_cons, fmap_cons. cbn [foldr].
  case_bool_decide; lia.
Qed.
Lemma sum_nonneg (l : list (Z * Z)) : Forall (λ x, 0 ≤ x.2) l → 0 ≤ sum_weights l.
Proof. induction 1 as [|x l Hx Hl IH]; [done|]. rewrite sum_weights_cons. lia. Qed.
Lemma sum_by_id m : sum_weights (by_id m) = auth_weights m.
Proof. unfold auth_weights, sum_weights. rewrite msum_list. apply foldr_add_perm. by rewrite by_id_perm. Qed.
Lemma auth_weights_nonneg m : weights_ok m → 0 ≤ auth_weights m.
Proof. intros H. apply msum_nonneg. exact H. Qed.
Lemma weight_in_nonneg S m : weights_ok m → 0 ≤ weight_in S m.
Proof. intros H. apply msum_nonneg. intros k v Hk. case_bool_decide; [by apply (H k)|lia]. Qed.

(** ** The loops that add weights up *)

Section weigh.
#[local] Set Default Proof Using "Type*".
Variable approves : Z → M sign_state bool.
Variable I : sign_state → Prop.
Variable good : Z → Prop.
Hypothesis approves_good : ∀ x s, I s → post (approves x) s (λ b s', I s' ∧ (b = true → good x)).

(** What is counted are the weights of entries that approve. *)
Lemma weigh_sound threshold l : ∀ total s,
  I s → 0 ≤ total → Forall (λ x, 0 ≤ x.2) l →
  post (weigh approves threshold l total) s (λ r s', I s' ∧ 0 ≤ r.1 ∧ (r.2 = true → threshold ≤ r.1) ∧
    ∃ S : gset Z, set_Forall good S ∧ ∀ S', S ⊆ S' → r.1 ≤ total + weight_in_list S' l).
Proof.
  induction l as [|[x w] l IH]; intros total s Hs Ht Hl; simpl.
  { pstep. split_and!; try done. exists ∅. split; [done|]. intros. unfold weight_in_list. simpl. lia. }
  apply Forall_cons in Hl as [Hw Hl]. simpl in Hw. pstep. pcall approves_good; [done|]. intros b s1 [Hs1 Hb].
  assert (∀ S', weight_in_list S' ((x, w) :: l) = (if bool_decide (x ∈ S') then w else 0) + weight_in_list S' l) as Hcons by done.
  assert (u32 (total + w) ≤ total + w) by (apply Z.mod_le; lia).
  assert (0 ≤ u32 (total + w)) by (apply Z.mod_pos_bound; lia).
  destruct b; simpl.
  - pstep.
    + pstep. btrue. simpl. split_and!; try done. exists {[ x ]}. split; [intros ? ->%elem_of_singleton; by apply Hb|].
      intros S' HS'. rewrite Hcons, bool_decide_eq_true_2 by set_solver.
      pose proof (weight_in_list_bound S' l Hl). lia.
    + pcall IH; [done|lia|done|]. intros r s2 (Hs2 & Hr & Hreach & S & HS & Hle). split_and!; try done.
      exists ({[ x ]} ∪ S). split.
      { intros y [->%elem_of_singleton|Hy]%elem_of_union; [by apply Hb|by apply HS]. }
      intros S' HS'. rewrite Hcons, bool_decide_eq_true_2 by set_solver. specialize (Hle S' ltac:(set_solver)). lia.
  - pcall IH; [done|lia|done|]. intros r s2 (Hs2 & Hr & Hreach & S & HS & Hle). split_and!; try done.
    exists S. split; [done|]. intros S' HS'. rewrite Hcons. specialize (Hle S' HS').
    case_bool_decide; lia.
Qed.

(** Entries that are known to approve are counted, when the sum does not wrap
    around. *)
Lemma weigh_complete (S : gset Z) threshold l : ∀ total s,
  (∀ x s, x ∈ S → I s → post (approves x) s (λ b _, b = true)) →
  I s → 0 ≤ total → Forall (λ x, 0 ≤ x.2) l → total + sum_weights l < 2 ^ 32 →
  post (weigh approves threshold l total) s (λ r _,
    r.2 = true ∨ total + weight_in_list S l ≤ r.1 ≤ total + sum_weights l).
Proof.
  induction l as [|[x w] l IH]; intros total s HS Hs Ht Hl Hsum; cbn [weigh].
  { pstep. right. change (weight_in_list S []) with 0. change (sum_weights []) with 0. simpl. lia. }
  rewrite sum_weights_cons in *. cbn [snd] in *.
  apply Forall_cons in Hl as [Hw Hl]. cbn [snd] in Hw.
  pose proof (sum_nonneg l Hl).
  assert (weight_in_list S ((x, w) :: l) = (if bool_decide (x ∈ S) then w else 0) + weight_in_list S l) as -> by done.
  assert (u32 (total + w) = total + w) as Hu by (apply Z.mod_small; lia).
  pstep. apply (post_mono _ _ (λ b s', I s' ∧ (x ∈ S → b = true))).
  { intros b s' Hrun. split; [by apply (approves_good _ _ Hs _ _ Hrun)|]. intros Hx. by apply (HS _ _ Hx Hs _ _ Hrun). }
  intros b s1 [Hs1 Hb]. destruct b.
  - pstep; [pstep; by left|]. rewrite Hu. pcall IH; [done|done|lia|done|lia|].
    intros r s2 [?|?]; [by left|right]. case_bool_decide; lia.
  - rewrite (bool_decide_eq_false_2 (x ∈ S)) by (intros Hx; by discriminate (Hb Hx)).
    pcall IH; [done|done|lia|done|lia|]. intros r s2 [?|?]; [by left|right; lia].
Qed.

(** The loop raises nothing that the entries do not raise. *)
Lemma weigh_total threshold l : ∀ total s,
  (∀ x s, x ∈ l.*1 → I s → ∃ b s', approves x s = Ok (b, s')) → I s →
  ∃ r s', weigh approves threshold l total s = Ok (r, s') ∧ I s'.
Proof.
  induction l as [|[x w] l IH]; intros total s Hrun Hs; simpl; [eexists _, _; split; [done|done]|].
  destruct (Hrun x s ltac:(set_solver) Hs) as (b & s1 & Hx). unfold bind. rewrite Hx.
  destruct (approves_good _ _ Hs _ _ Hx) as [Hs1 _].
  assert (∀ t, ∃ r s', weigh approves threshold l t s1 = Ok (r, s') ∧ I s') as Hl.
  { intros t. apply IH; [|done]. intros y s2 Hy. apply Hrun. set_solver. }
  destruct b; [|apply Hl]. destruct (threshold <=? _); [|apply Hl]. by eexists _, _.
Qed.
End weigh.

(** ** Approval *)

Section approval.
Context {K : KeyAddresses}.

(** The addresses of the keys that signed. *)
Definition signed_addresses (keys : gset Z) : gset Z := list_to_set (concat (addresses_of <$> elements keys)).

Lemma elem_of_signed_addresses keys a : a ∈ signed_addresses keys ↔ ∃ k, k ∈ keys ∧ a ∈ addresses_of k.
Proof.
  unfold signed_addresses. rewrite elem_of_list_to_set. setoid_rewrite <- elem_of_elements.
  induction (elements keys) as [|k l IH]; simpl; [set_solver|]. set_solver.
Qed.

(** [address_map] has the addresses of its keys. *)
Lemma address_map_one k l : ∀ (m : gmap Z Z) a,
  foldl (λ m a, <[a := k]> m) m l !! a = if bool_decide (a ∈ l) then Some k else m !! a.
Proof.
  induction l as [|b l IH]; intros m a; simpl; [done|]. rewrite IH. destruct (decide (a = b)) as [->|Hab].
  - rewrite lookup_insert_eq. repeat case_bool_decide; set_solver.
  - rewrite lookup_insert_ne by done. repeat case_bool_decide; set_solver.
Qed.
Lemma address_map_spec l a :
  match address_map l !! a with
  | Some k => k ∈ l ∧ a ∈ addresses_of k
  | None => ∀ k, k ∈ l → a ∉ addresses_of k
  end.
Proof.
  unfold address_map. induction l as [|k l IH] using rev_ind; [set_solver|].
  rewrite foldl_app. simpl. rewrite address_map_one. case_bool_decide as Ha; [set_solver|].
  destruct (_ !! a); set_solver.
Qed.

Variable get_active : Z → res (option authority).
Variable keys : gset Z.

(** The weight that signatures and the accounts [S] give to an authority. *)
Definition support (S : gset Z) (au : authority) : Z :=
  weight_in keys (au_key_auths au) + weight_in (signed_addresses keys) (au_address_auths au)
  + weight_in S (au_account_auths au).

Inductive approves (approvals : gset Z) : Z → Prop :=
  | approves_given a : a ∈ approvals → approves approvals a
  | approves_active a au S :
      get_active a = Ok (Some au) → (∀ b, b ∈ S → approves approvals b) →
      au_weight_threshold au ≤ support S au → approves approvals a.

(** An authority that keys and approving accounts satisfy. *)
Definition satisfied (approvals : gset Z) (au : authority) : Prop :=
  ∃ S, (∀ b, b ∈ S → approves approvals b) ∧ au_weight_threshold au ≤ support S au.

(** Approval nested at most [n] levels deep. *)
Fixpoint approves_within (approvals : gset Z) (n : nat) (a : Z) : Prop :=
  a ∈ approvals ∨
  match n with
  | O => False
  | S n' => ∃ au A, get_active a = Ok (Some au) ∧ (∀ b, b ∈ A → approves_within approvals n' b) ∧
      au_weight_threshold au ≤ support A au
  end.
Definition satisfied_within (approvals : gset Z) (n : nat) (au : authority) : Prop :=
  ∃ A, (∀ b, b ∈ A → approves_within approvals n b) ∧ au_weight_threshold au ≤ support A au.

Lemma approves_within_approves approvals n : ∀ a, approves_within approvals n a → approves approvals a.
Proof.
  induction n as [|n IH]; intros a [Ha|Ha]; try by apply approves_given.
  destruct Ha as (au & A & Hau & HA & Hle). eapply approves_active; eauto.
Qed.

(** ** The state of the checks *)

Definition address_maps_ok (maps : gmap Z Z * gmap Z Z) : Prop :=
  fst maps = ∅ ∧ ∀ a, match snd maps !! a with
    | Some k => k ∈ keys ∧ a ∈ addresses_of k
    | None => a ∉ (signed_addresses keys)
    end.

(** What the checks keep: who signed, that those who count as approving do, and
    the map of addresses. *)
Record checks_ok (approvals : gset Z) (s : sign_state) : Prop := mk_checks_ok {
  checks_keys : dom (provided_signatures s) = keys;
  checks_approved : ∀ a, a ∈ approved_by s → approves approvals a;
  checks_approvals : approvals ⊆ approved_by s;
  checks_addresses : from_option address_maps_ok True (address_sigs s);
}.

Lemma address_maps_computed s approvals :
  checks_ok approvals s →
  address_maps_ok (match address_sigs s with
    | Some maps => maps
    | None => (address_map (in_order ∅), address_map (by_id (provided_signatures s)).*1) end).
Proof.
  intros Hs. pose proof (checks_addresses _ _ Hs) as Hm. destruct (address_sigs s) as [maps|]; [done|].
  split; [done|]. intros a. simpl. pose proof (address_map_spec (by_id (provided_signatures s)).*1 a) as Ha.
  assert (∀ k, k ∈ (by_id (provided_signatures s)).*1 ↔ k ∈ keys) as Hin.
  { intros k. rewrite by_id_perm, <- (checks_keys _ _ Hs), elem_of_dom, list_elem_of_fmap. split.
    - intros ([k' v] & -> & Hk%elem_of_map_to_list). by eexists.
    - intros [v Hk]. exists (k, v). by rewrite elem_of_map_to_list. }
  destruct (_ !! a); [by rewrite Hin in Ha|]. intros (k & Hk & Hak)%elem_of_signed_addresses.
  by apply (Ha k); [apply Hin|].
Qed.

Lemma use_signature_ok approvals s k :
  checks_ok approvals s → k ∈ keys → post (use_signature k) s (λ _ s', checks_ok approvals s').
Proof.
  intros Hs Hk. apply post_put. split; simpl; try apply Hs. rewrite dom_insert_L, (checks_keys _ _ Hs). set_solver.
Qed.

Lemma signed_by_key_spec approvals s k :
  checks_ok approvals s →
  post (signed_by_key ∅ k) s (λ b s', checks_ok approvals s' ∧ (b = true ↔ k ∈ keys)).
Proof.
  intros Hs. assert (k ∈ keys ↔ is_Some (provided_signatures s !! k)) as Hin.
  { by rewrite <- (checks_keys _ _ Hs), elem_of_dom. }
  unfold signed_by_key. pstep. pstep. destruct (_ !! k) eqn:E.
  - assert (k ∈ keys) by (by apply Hin; eexists). pstep. pcall use_signature_ok; [done|done|].
    intros [] s' Hs'. pstep. by split.
  - rewrite bool_decide_eq_false_2 by set_solver. pstep. split; [done|]. split; [done|]. intros Hk.
    apply Hin in Hk as [? [=]].
Qed.
Lemma signed_by_key_total k s : ∃ b s', signed_by_key ∅ k s = Ok (b, s').
Proof.
  unfold signed_by_key, bind, gets. destruct (_ !! k); [by eexists _, _|].
  rewrite bool_decide_eq_false_2 by set_solver. by eexists _, _.
Qed.

Lemma signed_by_address_spec approvals s a :
  checks_ok approvals s →
  post (signed_by_address ∅ a) s (λ b s', checks_ok approvals s' ∧ (b = true ↔ a ∈ (signed_addresses keys))).
Proof.
  intros Hs. unfold signed_by_address. pstep. pstep. cbv zeta. unfold id.
  pose proof (address_maps_computed s approvals Hs) as Hmaps. revert Hmaps.
  generalize (match address_sigs s with
    | Some maps => maps
    | None => (address_map (in_order ∅), address_map (by_id (provided_signatures s)).*1) end).
  intros maps [Hempty Hmaps]. pstep. pstep.
  assert (checks_ok approvals (set_address_sigs (Some maps) s)) as Hs1 by (split; simpl; [apply Hs..|by split]).
  specialize (Hmaps a). destruct (snd maps !! a) as [k|] eqn:E.
  - destruct Hmaps as [Hk Ha]. pstep. pcall use_signature_ok; [done|done|]. intros [] s' Hs'. pstep.
    split; [done|]. split; [|done]. intros _. apply elem_of_signed_addresses. eauto.
  - rewrite Hempty, lookup_empty. apply post_fail.
Qed.

(** ** Checking an authority *)

Section check.
#[local] Set Default Proof Using "Type*".
Variable approvals : gset Z.
Hypothesis accounts_authorities_ok : ∀ a au, get_active a = Ok (Some au) → authority_ok au.

Notation ok := (checks_ok approvals).

(** How a member account of an authority is checked. *)
Definition check_member (left : nat) (a : Z) : M sign_state bool :=
  let! approved := gets approved_by in
  if bool_decide (a ∈ approved) then ret true
  else match left with
  | O => ret false
  | S left' =>
    let! active := lift (get_active a) in
    let! ok := check_authority ∅ get_active left' active in
    if ok then do! put (λ s, set_approved_by ({[ a ]} ∪ approved_by s) s) in ret true else ret false
  end.

Lemma check_authority_unfold left au :
  check_authority ∅ get_active left (Some au) =
    (let! ks := weigh (signed_by_key ∅) (au_weight_threshold au) (by_id (au_key_auths au)) 0 in
     if snd ks then ret true else
     let! addrs := weigh (signed_by_address ∅) (au_weight_threshold au) (by_id (au_address_auths au)) (fst ks) in
     if snd addrs then ret true else
     let! accts := weigh (check_member left) (au_weight_threshold au) (by_id (au_account_auths au)) (fst addrs) in
     if snd accts then ret true else ret (au_weight_threshold au <=? fst accts)).
Proof. by destruct left. Qed.

Lemma approve_ok s a : ok s → approves approvals a → ok (set_approved_by ({[ a ]} ∪ approved_by s) s).
Proof.
  intros Hs Ha. split; simpl; try apply Hs.
  - intros b [->%elem_of_singleton|Hb]%elem_of_union; [done|by apply (checks_approved _ _ Hs)].
  - pose proof (checks_approvals _ _ Hs). set_solver.
Qed.

(** A successful check of an authority proves that it is satisfied. *)
Definition sound (au : option authority) (b : bool) : Prop :=
  b = true → ∃ auth, au = Some auth ∧ satisfied approvals auth.

Lemma check_member_sound left a s :
  (∀ au s, from_option authority_ok True au → ok s → ∀ n, S n = left →
     post (check_authority ∅ get_active n au) s (λ b s', ok s' ∧ sound au b)) →
  ok s → post (check_member left a) s (λ b s', ok s' ∧ (b = true → approves approvals a)).
Proof.
  intros IH Hs. unfold check_member. pstep. pstep. pstep; btrue.
  { pstep. split; [done|]. intros _. by apply (checks_approved _ _ Hs). }
  destruct left as [|left]; [by pstep|]. pstep. pstep. intros active Hactive. pstep.
  assert (from_option authority_ok True active) as Hok.
  { destruct active; [by apply (accounts_authorities_ok a)|done]. }
  pcall IH; [done|done|done|]. intros b s1 [Hs1 Hb]. destruct b; [|by pstep].
  destruct (Hb eq_refl) as (au & -> & A & HA & Hle).
  assert (approves approvals a) by (by eapply approves_active). pstep. pstep. pstep. split; [by apply approve_ok|done].
Qed.

Lemma check_authority_sound left : ∀ au s,
  from_option authority_ok True au → ok s →
  post (check_authority ∅ get_active left au) s (λ b s', ok s' ∧ sound au b).
Proof.
  induction left as [left IH] using lt_wf_ind. intros [au|] s Hau Hs; [|by destruct left; apply post_ret].
  rewrite check_authority_unfold. simpl in Hau. destruct Hau as [Hk Ha Hc _].
  pstep. pcall (weigh_sound _ ok (λ k, k ∈ keys)); [|done|lia|by apply weights_by_id|].
  { intros k s' Hs'. pcall signed_by_key_spec; [done|]. naive_solver. }
  intros r1 s1 (Hs1 & Hr1 & Hreach1 & S1 & HS1 & Hle1).
  specialize (Hle1 keys HS1). rewrite weight_in_by_id in Hle1.
  assert (∀ x y z, x ≤ y → y ≤ z → x ≤ z) as Htrans by lia.
  pose proof (weight_in_nonneg (signed_addresses keys) (au_address_auths au) Ha) as Hna.
  destruct r1 as [t1 []]; simpl in *.
  { pstep. split; [done|]. intros _. exists au. split; [done|]. exists ∅. split; [set_solver|].
    unfold support. pose proof (weight_in_nonneg ∅ (au_account_auths au) Hc). specialize (Hreach1 eq_refl). lia. }
  pstep. pcall (weigh_sound _ ok (λ a, a ∈ signed_addresses keys)); [|done|lia|by apply weights_by_id|].
  { intros a s' Hs'. pcall signed_by_address_spec; [done|]. naive_solver. }
  intros r2 s2 (Hs2 & Hr2 & Hreach2 & S2 & HS2 & Hle2). specialize (Hle2 (signed_addresses keys) HS2).
  rewrite weight_in_by_id in Hle2. destruct r2 as [t2 []]; simpl in *.
  { pstep. split; [done|]. intros _. exists au. split; [done|]. exists ∅. split; [set_solver|].
    unfold support. pose proof (weight_in_nonneg ∅ (au_account_auths au) Hc). specialize (Hreach2 eq_refl). lia. }
  pstep. pcall (weigh_sound _ ok (approves approvals)); [|done|lia|by apply weights_by_id|].
  { intros a s' Hs'. apply check_member_sound; [|done]. intros au' s'' Hau' Hs'' n <-. apply IH; [lia|done|done]. }
  intros r3 s3 (Hs3 & Hr3 & Hreach3 & S3 & HS3 & Hle3). specialize (Hle3 S3 (reflexivity _)).
  rewrite weight_in_by_id in Hle3.
  assert (au_weight_threshold au ≤ r3.1 → satisfied approvals au) as Hsat.
  { intros Hle. exists S3. split; [done|]. unfold support. lia. }
  destruct r3 as [t3 []]; simpl in *; pstep; (split; [done|]).
  - intros _. exists au. split; [done|]. by apply Hsat, Hreach3.
  - intros Hle. btrue. exists au. split; [done|]. by apply Hsat.
Qed.

(** An authority whose approvals are nested no deeper than the maximum passes. *)
Lemma check_member_complete left a s :
  (∀ n au A s, S n = left → authority_ok au → ok s →
     (∀ b, b ∈ A → approves_within approvals n b) →
     au_weight_threshold au ≤ support A au →
     post (check_authority ∅ get_active n (Some au)) s (λ b _, b = true)) →
  ok s → approves_within approvals left a →
  post (check_member left a) s (λ b _, b = true).
Proof.
  intros IH Hs Ha. unfold check_member. pstep. pstep. case_bool_decide as Hin; [by pstep|].
  assert (a ∉ approvals) as Hnot by (pose proof (checks_approvals _ _ Hs); set_solver).
  destruct left as [|left]; simpl in Ha; destruct Ha as [Ha|Ha]; try done.
  destruct Ha as (au & A & Hau & HA & Hle). pstep. pstep. intros active Hactive. rewrite Hau in Hactive.
  injection Hactive as <-. pstep. pcall IH; [done|by eapply accounts_authorities_ok|done|done|done|].
  intros b s1 ->. pstep. pstep. by pstep.
Qed.

Lemma check_authority_complete left : ∀ au A s,
  authority_ok au → ok s → (∀ b, b ∈ A → approves_within approvals left b) →
  au_weight_threshold au ≤ support A au →
  post (check_authority ∅ get_active left (Some au)) s (λ b _, b = true).
Proof.
  induction left as [left IH] using lt_wf_ind. intros au A s Hau Hs HA Hle.
  rewrite check_authority_unfold. destruct Hau as [Hk Ha Hc Hsum]. unfold support in Hle.
  pose proof (auth_weights_nonneg _ Hk). pose proof (auth_weights_nonneg _ Ha). pose proof (auth_weights_nonneg _ Hc).
  assert (∀ k s, ok s → post (signed_by_key ∅ k) s (λ b s', ok s' ∧ (b = true → k ∈ keys))) as Hkeys.
  { intros k s' Hs'. pcall signed_by_key_spec; [done|]. naive_solver. }
  assert (∀ a s, ok s → post (signed_by_address ∅ a) s (λ b s', ok s' ∧ (b = true → a ∈ signed_addresses keys))) as Haddr.
  { intros a s' Hs'. pcall signed_by_address_spec; [done|]. naive_solver. }
  assert (∀ a s, ok s → post (check_member left a) s (λ b s', ok s' ∧ (b = true → approves approvals a))) as Hmem.
  { intros a s' Hs'. apply check_member_sound; [|done]. intros. by apply check_authority_sound. }
  pstep. eapply post_mono.
  { apply post_and; [apply (weigh_sound _ _ _ Hkeys); [done|lia|by apply weights_by_id]|].
    eapply (weigh_complete _ _ _ Hkeys keys); [|done|lia|by apply weights_by_id|].
    - intros k s' Hk' Hs'. pcall signed_by_key_spec; [done|]. naive_solver.
    - rewrite sum_by_id. lia. }
  intros r1 s1 [(Hs1 & Hr1 & _ & _) Hc1]. destruct r1 as [t1 []]; simpl in *; [by pstep|].
  destruct Hc1 as [|Hc1]; [done|]. rewrite weight_in_by_id, sum_by_id in Hc1.
  pstep. eapply post_mono.
  { apply post_and; [apply (weigh_sound _ _ _ Haddr); [done|lia|by apply weights_by_id]|].
    eapply (weigh_complete _ _ _ Haddr (signed_addresses keys)); [|done|lia|by apply weights_by_id|].
    - intros a s' Ha' Hs'. pcall signed_by_address_spec; [done|]. naive_solver.
    - rewrite sum_by_id. lia. }
  intros r2 s2 [(Hs2 & Hr2 & _ & _) Hc2]. destruct r2 as [t2 []]; simpl in *; [by pstep|].
  destruct Hc2 as [|Hc2]; [done|]. rewrite weight_in_by_id, sum_by_id in Hc2.
  pstep. eapply post_mono.
  { eapply (weigh_complete _ _ _ Hmem A); [|done|lia|by apply weights_by_id|].
    - intros a s' Ha' Hs'. apply check_member_complete; [|done|by apply HA]. intros n au' A' s'' <-. apply IH. lia.
    - rewrite sum_by_id. lia. }
  intros r3 s3 Hc3. destruct r3 as [t3 []]; simpl in *; [by pstep|].
  destruct Hc3 as [|Hc3]; [done|]. rewrite weight_in_by_id, sum_by_id in Hc3. pstep. apply Z.leb_le. lia.
Qed.

(** ** No exception

    [known] is a set of accounts closed under the members of their active
    authorities, none of which names an address. *)
Section total.
Variable known : Z → Prop.
Definition authority_known (au : authority) : Prop :=
  au_address_auths au = ∅ ∧ ∀ a, a ∈ dom (au_account_auths au) → known a.
Hypothesis known_closed : ∀ a, known a → ∃ au, get_active a = Ok (Some au) ∧ authority_known au.

Lemma by_id_dom (m : gmap Z Z) a : a ∈ (by_id m).*1 → a ∈ dom m.
Proof.
  rewrite by_id_perm, list_elem_of_fmap. intros ([k w] & -> & Hk%elem_of_map_to_list). by eapply elem_of_dom_2.
Qed.

Lemma check_authority_total left : ∀ au s,
  authority_ok au → authority_known au → ok s →
  ∃ b s', check_authority ∅ get_active left (Some au) s = Ok (b, s').
Proof.
  induction left as [left IH] using lt_wf_ind. intros au s Hau [Hno Hmem] Hs.
  rewrite check_authority_unfold, Hno. unfold by_id at 2. rewrite map_to_list_empty.
  change (sorted_by _ ([] : list (Z * Z))) with ([] : list (Z * Z)). cbn [weigh]. unfold bind.
  destruct (weigh_total (signed_by_key ∅) ok (λ k, k ∈ keys)
              ltac:(intros k s' Hs'; pcall signed_by_key_spec; [done|naive_solver])
              (au_weight_threshold au) (by_id (au_key_auths au)) 0 s) as (r & s1 & -> & Hs1); [|done|].
  { intros k s' _ _. apply signed_by_key_total. }
  destruct (snd r); [by eexists _, _|]. cbn [ret fst snd].
  destruct (weigh_total (check_member left) ok (approves approvals)
              ltac:(intros a s' Hs'; apply check_member_sound; [|done]; intros; by apply check_authority_sound)
              (au_weight_threshold au) (by_id (au_account_auths au)) (fst r) s1) as (r2 & s2 & -> & Hs2); [|done|].
  { intros a s' Ha%by_id_dom Hs'. unfold check_member, bind, gets, lift.
    case_bool_decide; [by eexists _, _|]. destruct left as [|left]; [by eexists _, _|].
    destruct (known_closed a (Hmem a Ha)) as (au' & Hau' & Hk'). rewrite Hau'.
    destruct (IH left ltac:(lia) au' s' ltac:(by eapply accounts_authorities_ok) Hk' Hs') as (b & s'' & ->).
    destruct b; by eexists _, _. }
  destruct (snd r2); by eexists _, _.
Qed.
End total.
End check.
End approval.

(** ** The checks of a transaction *)

Lemma for_each_runs {S A} (I : S → Prop) (f : A → M S unit) l : ∀ s,
  (∀ x s, x ∈ l → I s → ∃ s', f x s = Ok (tt, s') ∧ I s') → I s →
  ∃ s', for_each f l s = Ok (tt, s') ∧ I s'.
Proof.
  induction l as [|x l IH]; intros s Hf Hs; simpl; [by eexists|]. unfold bind.
  destruct (Hf x s ltac:(set_solver) Hs) as (s1 & -> & Hs1). apply IH; [|done]. intros. apply Hf; set_solver.
Qed.

(** A loop of assertions establishes what each of them does. *)
Lemma post_for_each_all {S A} (I : S → Prop) (P : A → Prop) (f : A → M S unit) l : ∀ s,
  (∀ x s, x ∈ l → I s → post (f x) s (λ _ s', I s' ∧ P x)) → I s →
  post (for_each f l) s (λ _ s', I s' ∧ ∀ x, x ∈ l → P x).
Proof.
  induction l as [|x l IH]; intros s Hf Hs; simpl; [pstep; split; [done|set_solver]|].
  pstep. pcall Hf; [set_solver|done|]. intros [] s1 [Hs1 Hx]. pcall IH; [|done|].
  { intros. apply Hf; set_solver. }
  intros [] s2 [Hs2 Hl]. split; [done|]. intros y [->|Hy]%elem_of_cons; auto.
Qed.

Section verify.
#[local] Set Default Proof Using "Type*".
Context {K : KeyAddresses}.
Variables get_active get_owner : Z → res (option authority).
Hypothesis active_ok : ∀ a au, get_active a = Ok (Some au) → authority_ok au.
Hypothesis owner_ok : ∀ a au, get_owner a = Ok (Some au) → authority_ok au.

(** The accounts that count as approving from the start. *)
Definition given_approvals (active_approvals owner_approvals : gset Z) : gset Z :=
  {[ GRAPHENE_TEMP_ACCOUNT ]} ∪ active_approvals ∪ owner_approvals.

Lemma start_ok sigs aa oa :
  checks_ok get_active sigs (given_approvals aa oa)
    (set_approved_by (approved_by (new_sign_state sigs) ∪ aa ∪ oa) (new_sign_state sigs)).
Proof.
  split; simpl; [by rewrite dom_gset_to_gmap|by apply approves_given|set_solver|done].
Qed.

Section run.
Variables (sigs ap : gset Z).
Notation ok := (checks_ok get_active sigs ap).

(** The owner authority of an account is satisfied. *)
Definition owner_satisfied (id : Z) : Prop :=
  ∃ au, get_owner id = Ok (Some au) ∧ satisfied get_active sigs ap au.

Lemma check_owner_sound n id s :
  ok s → post (check_owner get_active get_owner ∅ n id) s (λ b s', ok s' ∧ (b = true → owner_satisfied id)).
Proof.
  intros Hs. unfold check_owner. pstep. pstep. intros owner Howner.
  pcall check_authority_sound; [done| |done|].
  { destruct owner; [by eapply owner_ok|done]. }
  intros b s' [Hs' Hb]. split; [done|]. intros Htrue. destruct (Hb Htrue) as (au & -> & Hau). by exists au.
Qed.

Lemma check_account_sound n id s :
  ok s → post (check_account ∅ get_active n id) s (λ b s', ok s' ∧ (b = true → approves get_active sigs ap id)).
Proof.
  intros Hs. unfold check_account. pstep. pstep. pstep; btrue.
  { pstep. split; [done|]. intros _. by apply (checks_approved _ _ _ _ Hs). }
  pstep. pstep. intros active Hactive. pcall check_authority_sound; [done| |done|].
  { destruct active; [by eapply active_ok|done]. }
  intros b s' [Hs' Hb]. split; [done|]. intros Htrue. destruct (Hb Htrue) as (au & -> & A & HA & Hle).
  by eapply approves_active.
Qed.

Lemma or_else_sound (m1 m2 : M sign_state bool) (P1 P2 : Prop) s :
  (∀ s, ok s → post m1 s (λ b s', ok s' ∧ (b = true → P1))) →
  (∀ s, ok s → post m2 s (λ b s', ok s' ∧ (b = true → P2))) →
  ok s → post (or_else m1 m2) s (λ b s', ok s' ∧ (b = true → P1 ∨ P2)).
Proof.
  intros H1 H2 Hs. unfold or_else. pstep. pcall H1; [done|]. intros b s1 [Hs1 Hb]. pstep.
  - pstep. split; [done|]. intros _. left. by apply Hb.
  - pcall H2; [done|]. intros b' s2 [Hs2 Hb']. split; [done|]. intros. right. auto.
Qed.
Lemma assert_or_sound e (m : M sign_state bool) (Q : Prop) s :
  (∀ s, ok s → post m s (λ b s', ok s' ∧ (b = true → Q))) → ok s →
  post (assert_or e m) s (λ _ s', ok s' ∧ Q).
Proof.
  intros Hm Hs. unfold assert_or. pstep. pcall Hm; [done|]. intros b s1 [Hs1 Hb]. pstep; pstep.
  split; [done|]. by apply Hb.
Qed.
End run.

(** C7. A transaction whose authority is verified has all it requires: it does
    not act for the committee unless that is allowed, every further authority an
    operation names is satisfied, every account whose active authority is required
    approves through its active authority or has its owner authority satisfied,
    and every account whose owner authority is required has it satisfied or has
    approved with it. Here an authority is satisfied when the keys that signed,
    and accounts that approve in the same sense, reach its threshold. *)
Theorem verify_authority_sound ops sigs depth allow_committee aa oa :
  Forall authority_ok (rq_other (required_of ops)) →
  verify_authority get_active get_owner ops sigs depth allow_committee aa oa = Ok tt →
  let r := required_of ops in let ap := given_approvals aa oa in
  (allow_committee = false → GRAPHENE_COMMITTEE_ACCOUNT ∉ rq_active r) ∧
  (∀ au, au ∈ rq_other r → satisfied get_active sigs ap au) ∧
  (∀ id, id ∈ rq_active r → approves get_active sigs ap id ∨ owner_satisfied sigs ap id) ∧
  (∀ id, id ∈ rq_owner r → id ∈ oa ∨ owner_satisfied sigs ap id).
Proof.
  intros Hother Hrun r ap. unfold verify_authority in Hrun. apply require_r_ok in Hrun as [Hcom Hrun].
  apply rbind_ok in Hrun as ([[] s'] & Hrun & _).
  split; [intros ->; by simpl in Hcom; btrue|]. pose proof (start_ok sigs aa oa) as Hs. fold ap in Hs.
  revert Hrun. match goal with |- _ ?s = _ → ?G => cut (post (verify_required get_active get_owner
    (Z.to_nat depth) oa r) s (λ _ _, G)); [intros Hpost Hrun; exact (Hpost _ _ Hrun)|] end.
  unfold verify_required. pstep.
  pcall (post_for_each_all (checks_ok get_active sigs ap) (satisfied get_active sigs ap)); [|done|].
  { intros au s Hin Hs1. apply assert_or_sound; [|done]. intros s2 Hs2.
    pcall check_authority_sound; [done| |done|]; [simpl; by eapply Forall_forall|].
    intros b s3 [Hs3 Hb]. split; [done|]. intros Htrue. by destruct (Hb Htrue) as (? & [= <-] & ?). }
  intros [] s1 [Hs1 H1]. pstep. pcall (post_for_each_all (checks_ok get_active sigs ap)
    (λ id, approves get_active sigs ap id ∨ owner_satisfied sigs ap id)); [|done|].
  { intros id s Hin Hs2. apply assert_or_sound; [|done]. intros. apply or_else_sound; [| |done].
    - intros. by apply check_account_sound.
    - intros. by apply check_owner_sound. }
  intros [] s2 [Hs2 H2]. pstep. pcall (post_for_each_all (checks_ok get_active sigs ap)
    (λ id, id ∈ oa ∨ owner_satisfied sigs ap id)); [|done|].
  { intros id s Hin Hs3. apply assert_or_sound; [|done]. intros. apply or_else_sound; [| |done].
    - intros. pstep. split; [done|]. apply bool_decide_eq_true_1.
    - intros. by apply check_owner_sound. }
  intros [] s3 [Hs3 H3]. intros [] s4 _. split; [done|].
  split; intros id Hid; [apply H2|apply H3]; by apply elem_of_in_order.
Qed.

(** ** Sufficient authority passes *)

Section sufficient.
Variables (sigs : gset Z) (depth : Z) (aa oa : gset Z).
Let ap := given_approvals aa oa.
Notation ok := (checks_ok get_active sigs ap).
Variable known : Z → Prop.
Hypothesis known_closed : ∀ a, known a → ∃ au, get_active a = Ok (Some au) ∧ authority_known known au.

(** An authority, or the owner authority of an account, that the signatures
    satisfy without too deep a nesting. *)
Definition within (au : authority) : Prop := satisfied_within get_active sigs ap (Z.to_nat depth) au.
Definition owner_known (id : Z) (P : authority → Prop) : Prop :=
  ∃ au, get_owner id = Ok (Some au) ∧ authority_known known au ∧ P au.

Lemma check_authority_runs au s :
  authority_ok au → authority_known known au → ok s →
  ∃ b s', check_authority ∅ get_active (Z.to_nat depth) (Some au) s = Ok (b, s') ∧ ok s' ∧ (within au → b = true).
Proof.
  intros Hau Hk Hs.
  destruct (check_authority_total get_active sigs ap active_ok known known_closed (Z.to_nat depth) au s Hau Hk Hs)
    as (b & s' & Hrun).
  exists b, s'. split; [done|]. split.
  - by apply (check_authority_sound get_active sigs ap active_ok _ (Some au) s Hau Hs _ _ Hrun).
  - intros (A & HA & Hle).
    exact (check_authority_complete get_active sigs ap active_ok _ au A s Hau Hs HA Hle _ _ Hrun).
Qed.

Lemma check_owner_runs id s P :
  owner_known id P → ok s →
  ∃ b s', check_owner get_active get_owner ∅ (Z.to_nat depth) id s = Ok (b, s') ∧ ok s' ∧
    (owner_known id within → b = true).
Proof.
  intros (au & Hau & Hk & _) Hs. unfold check_owner, bind, lift. rewrite Hau.
  destruct (check_authority_runs au s ltac:(by eapply owner_ok) Hk Hs) as (b & s' & Hrun & Hs' & Hb).
  exists b, s'. split_and!; try done. intros (au' & Hau' & _ & Hw). apply Hb. congruence.
Qed.

Lemma check_account_runs id s :
  known id → ok s →
  ∃ b s', check_account ∅ get_active (Z.to_nat depth) id s = Ok (b, s') ∧ ok s' ∧
    (approves_within get_active sigs ap (S (Z.to_nat depth)) id → b = true).
Proof.
  intros Hid Hs. unfold check_account, bind, gets, lift. case_bool_decide as Hin; [by eexists _, _|].
  destruct (known_closed id Hid) as (au & Hau & Hk). rewrite Hau.
  destruct (check_authority_runs au s ltac:(by eapply active_ok) Hk Hs) as (b & s' & Hrun & Hs' & Hb).
  exists b, s'. split_and!; try done. intros [Hap|(au' & A & Hau' & HA & Hle)].
  - destruct Hin. by apply (checks_approvals _ _ _ _ Hs).
  - apply Hb. exists A. split; [done|]. congruence.
Qed.

Lemma assert_or_runs e (m : M sign_state bool) (P : Prop) s :
  (∃ b s', m s = Ok (b, s') ∧ ok s' ∧ (P → b = true)) → P → ∃ s', assert_or e m s = Ok (tt, s') ∧ ok s'.
Proof.
  intros (b & s' & Hm & Hs' & Hb) HP. unfold assert_or, bind. rewrite Hm, (Hb HP). by eexists.
Qed.
Lemma or_else_runs (m1 m2 : M sign_state bool) (P1 P2 : Prop) s :
  (∃ b s', m1 s = Ok (b, s') ∧ ok s' ∧ (P1 → b = true)) →
  (∀ s, ok s → ∃ b s', m2 s = Ok (b, s') ∧ ok s' ∧ (P2 → b = true)) →
  ∃ b s', or_else m1 m2 s = Ok (b, s') ∧ ok s' ∧ (P1 ∨ P2 → b = true).
Proof.
  intros (b & s1 & Hm1 & Hs1 & Hb) H2. unfold or_else, bind. rewrite Hm1. destruct b; [by eexists _, _|].
  destruct (H2 s1 Hs1) as (b & s2 & Hm2 & Hs2 & Hb2). exists b, s2. split_and!; try done.
  intros [HP|HP]; [discriminate (Hb HP)|by apply Hb2].
Qed.

(** C8. Sufficient authority passes: when the accounts named exist and no
    authority names an address, and every required authority is satisfied by
    approvals nested no deeper than the maximum, the only reason left to refuse
    the transaction is a signature that nothing needed. *)
Theorem verify_authority_complete ops allow_committee :
  let r := required_of ops in
  (allow_committee = true ∨ GRAPHENE_COMMITTEE_ACCOUNT ∉ rq_active r) →
  (∀ au, au ∈ rq_other r → authority_ok au ∧ authority_known known au ∧ within au) →
  (∀ id, id ∈ rq_active r → known id ∧ owner_known id (λ _, True) ∧
     (approves_within get_active sigs ap (S (Z.to_nat depth)) id ∨ owner_known id within)) →
  (∀ id, id ∈ rq_owner r → owner_known id (λ _, True) ∧ (id ∈ oa ∨ owner_known id within)) →
  let result := verify_authority get_active get_owner ops sigs depth allow_committee aa oa in
  result = Ok tt ∨ result = Err IrrelevantSignature.
Proof.
  intros r Hcom Hother Hactive Howner result.
  enough (∃ b : bool, result = if b then Ok tt else Err IrrelevantSignature) as [[] E]; [by left|by right|].
  unfold result, verify_authority. clear result. fold r.
  assert (allow_committee || negb (bool_decide (GRAPHENE_COMMITTEE_ACCOUNT ∈ rq_active r)) = true) as ->.
  { destruct Hcom as [->|Hcom]; [done|]. by rewrite bool_decide_eq_false_2, orb_true_r. }
  cbn [require_r]. pose proof (start_ok sigs aa oa) as Hs. fold ap in Hs. revert Hs.
  generalize (set_approved_by (approved_by (new_sign_state sigs) ∪ aa ∪ oa) (new_sign_state sigs)). intros s Hs.
  unfold verify_required, bind at 1. destruct (for_each_runs ok (λ auth, assert_or MissingOtherAuth
    (check_authority ∅ get_active (Z.to_nat depth) (Some auth))) (rq_other r) s) as (s1 & -> & Hs1); [|done|].
  { intros au s' Hin Hs'. destruct (Hother au Hin) as (Hau & Hk & Hw).
    apply (assert_or_runs _ _ (within au)); [by apply check_authority_runs|done]. }
  unfold bind at 1. destruct (for_each_runs ok (λ id, assert_or MissingActiveAuth
    (or_else (check_account ∅ get_active (Z.to_nat depth) id)
             (check_owner get_active get_owner ∅ (Z.to_nat depth) id))) (in_order (rq_active r)) s1)
    as (s2 & -> & Hs2); [|exact Hs1|].
  { intros id s' Hin%elem_of_in_order Hs'. destruct (Hactive id Hin) as (Hid & Hk & Hw).
    eapply assert_or_runs; [|exact Hw]. apply or_else_runs; [by apply check_account_runs|].
    intros. by eapply check_owner_runs. }
  unfold bind at 1. destruct (for_each_runs ok (λ id, assert_or MissingOwnerAuth
    (or_else (ret (bool_decide (id ∈ oa)))
             (check_owner get_active get_owner ∅ (Z.to_nat depth) id))) (in_order (rq_owner r)) s2)
    as (s3 & -> & Hs3); [|exact Hs2|].
  { intros id s' Hin%elem_of_in_order Hs'. destruct (Howner id Hin) as (Hk & Hw).
    eapply assert_or_runs; [|exact Hw]. apply or_else_runs; [|intros; by eapply check_owner_runs].
    eexists _, _. split; [done|]. split; [done|]. intros. by apply bool_decide_eq_true_2. }
  unfold assert_or, remove_unused_signatures, bind, gets, put, ret. simpl.
  exists (bool_decide (provided_signatures s3 = filter (λ x, x.2 = true) (provided_signatures s3))).
  by destruct (bool_decide _).
Qed.
End sufficient.
End verify.

(** ** A wallet

    Account 1 has one key; account 2 asks for two of account 1 and two keys. *)

#[local] Instance key_addresses : KeyAddresses := {| addresses_of k := [k] |}.
Definition wallet_authorities : gmap Z authority :=
  {[ 1 := key_authority 10; 2 := mk_authority 2 {[ 1 := 1 ]} {[ 20 := 1; 30 := 1 ]} ∅ ]}.
Definition wallet (id : Z) : res (option authority) :=
  match wallet_authorities !! id with Some au => Ok (Some au) | None => Err NotFound end.
Definition wallet_operations : list operation :=
  [op_transfer (mk_transfer (mk_asset 0 CORE) 2 1 (mk_asset 5 CORE) None)].

Lemma wallet_found a au : wallet a = Ok (Some au) → wallet_authorities !! a = Some au.
Proof. unfold wallet. destruct (_ !! _); congruence. Qed.
Lemma wallet_all (Q : authority → Prop) a au :
  Q (key_authority 10) → Q (mk_authority 2 {[ 1 := 1 ]} {[ 20 := 1; 30 := 1 ]} ∅) →
  wallet a = Ok (Some au) → Q au.
Proof.
  intros H1 H2 H%wallet_found. unfold wallet_authorities in H.
  apply lookup_insert_Some in H as [[_ <-]|[_ [_ <-]%lookup_singleton_Some]]; done.
Qed.
Lemma wallet_ok a au : wallet a = Ok (Some au) → authority_ok au.
Proof.
  apply wallet_all; (split; [..|vm_compute; done]);
    unfold weights_ok; apply (bool_decide_eq_true_1 _); vm_compute; done.
Qed.
Definition wallet_known (a : Z) : Prop := a = 1 ∨ a = 2.
Lemma wallet_closed a : wallet_known a → ∃ au, wallet a = Ok (Some au) ∧ authority_known wallet_known au.
Proof.
  intros [->| ->]; (eexists; split; [reflexivity|]); (split; [reflexivity|]); intros x Hx; simpl in Hx; [set_solver|].
  left. set_solver.
Qed.

Lemma verify_authority_sound_witness :
  verify_authority wallet wallet wallet_operations {[ 10; 20 ]} 2 false ∅ ∅ = Ok tt ∧
  (approves wallet {[ 10; 20 ]} (given_approvals ∅ ∅) 2 ∨ owner_satisfied wallet wallet {[ 10; 20 ]} (given_approvals ∅ ∅) 2).
Proof.
  assert (verify_authority wallet wallet wallet_operations {[ 10; 20 ]} 2 false ∅ ∅ = Ok tt) as E
    by (vm_compute; reflexivity).
  split; [exact E|].
  apply (verify_authority_sound wallet wallet wallet_ok wallet_ok wallet_operations {[ 10; 20 ]} 2 false ∅ ∅);
    [constructor|exact E|]. simpl. set_solver.
Defined.

(** Account 2 approves: account 1, whose key signed, and one of its keys. *)
Lemma verify_authority_complete_witness :
  verify_authority wallet wallet wallet_operations {[ 10; 20 ]} 2 false ∅ ∅ ≠ Err MissingActiveAuth.
Proof.
  edestruct (verify_authority_complete wallet wallet wallet_ok wallet_ok {[ 10; 20 ]} 2 ∅ ∅ wallet_known
    wallet_closed wallet_operations false) as [E|E]; [| | | |rewrite E; discriminate|rewrite E; discriminate].
  - right. simpl. set_solver.
  - intros au Hau. by apply elem_of_nil in Hau.
  - intros id Hid. assert (id = 2) as -> by (simpl in Hid; set_solver). split; [by right|]. split.
    + destruct (wallet_closed 2) as (au & Hau & Hk); [by right|]. by exists au.
    + left. right. exists (mk_authority 2 {[ 1 := 1 ]} {[ 20 := 1; 30 := 1 ]} ∅), {[ 1 ]}.
      split; [reflexivity|]. split; [|vm_compute; discriminate]. intros b ->%elem_of_singleton.
      right. exists (key_authority 10), ∅. split; [reflexivity|]. split; [set_solver|vm_compute; discriminate].
  - intros id Hid. by apply not_elem_of_empty in Hid.
Defined.
