(* ===== verification/Conservation.v ===== *)
(** * No operation creates or destroys an asset

    The balance-sheet properties of the chain, instances of what ChainSupply.v,
    MaintenanceSupply.v and BlockSupply.v prove, each with a run of the sample
    chain. *)

From S2P Require Import Prelude Ext Config Asset Objects Parameters Governance Blocks Names Operations Validation Fees Ledger Authority Database Balance Market Matching OrderBook Evaluator MarketEval BitassetEval ContractEval Budget Maintenance Transactions SignedBlocks WitnessSchedule ApplyBlock Exchange Supply MarketSupply MatchSupply EvalSupply BitassetSupply ChainSupply BudgetSupply MaintenanceSupply BlockSupply Sample SampleSupply.

Section conservation.
Context {X : Ext} {R : Regime} {P : Packing} {N : NthElement} {K : KeyAddresses} {C : ContractMachine} {T : TransactionCrypto}.
Context {B : BlockHash} {H : MerkleHash} {G : BlockSigner}.

(** A run without effect on the gap keeps a balanced database balanced. *)
Lemma effect_conserved {A} (m : DB A) s :
  conserved s → effect m s (λ _, 0) → post m s (λ _ s', wf s' ∧ conserved s').
Proof.
  rewrite conserved_gap. intros Hc Hm. pcall Hm. intros _ s' [Hwf Hg]. split; [done|].
  apply conserved_gap. intros a. rewrite Hg, Hc. lia.
Qed.

(** C1. A block that is applied keeps the books balanced: after its
    transactions, the pay of its witness, the maintenance of the chain when it is
    due, and everything that expires with it (transactions, proposals, orders,
    settlements, feeds, permissions), the holdings of every asset still add up to
    its current supply. This holds in two regimes ([Regime]), of which the
    transactions of the block ([transaction_ok]) and the pending proposals ([wf])
    follow one: margin positions are updated, every position is secured by the
    backing asset of its debt, and an update of bitasset options leaves its asset
    with the backing asset that is recorded for it; or no margin position is updated,
    and the options change as they like. The chain is past the last hard fork
    before and after ([modern]), so that the time of the next maintenance, a 32 bit
    number, does not run over, and a loop over margin calls that uses up its fuel
    returns no state. *)
Theorem apply_block_conserves checkpoints skip b c :
  wf (c_db c) → conserved (c_db c) → modern (c_db c) → Forall transaction_ok (sb_transactions b) →
  post (apply_block checkpoints skip b) c
    (λ _ c', modern (c_db c') → wf (c_db c') ∧ conserved (c_db c')).
Proof.
  intros Hwf Hc Hmod Ht. assert (books_ok (c_db c)) as Hs by done. unfold apply_block.
  apply post_bind, post_lift. intros p _. by apply apply_block_body_books.
Qed.

(** C2. A transaction that is applied keeps the books balanced: whatever its
    operations do, those of the proposals they execute included, with the margin
    calls, black swans and revivals they cause, the balances, orders, positions, bids,
    settlements, funds, vesting balances, confidential supplies, fee pools and pending
    fees of every asset still add up to its current supply. The transaction and the
    pending proposals follow one of the two regimes of [Regime] ([left_out]): they
    update margin positions and keep the backing assets that are recorded, or they
    update no margin position. The chain is past the last hard fork ([modern]). *)
Theorem apply_transaction_conserves skip head_block_num trx s :
  wf s → conserved s → modern s → Forall op_typed (trx_operations (stx_transaction trx)) →
  Forall (λ op, left_out op = false) (trx_operations (stx_transaction trx)) →
  post (apply_transaction skip head_block_num trx) s (λ _ s', wf s' ∧ conserved s').
Proof. intros. apply effect_conserved; [done|by apply apply_transaction_effect]. Qed.

(** Matching a new limit order against the book and against the margin
    calls keeps the books balanced, whatever it is matched with. *)
Theorem apply_order_conserves order_id s :
  wf s → conserved s → post (apply_order order_id) s (λ _ s', wf s' ∧ conserved s').
Proof. intros. apply effect_conserved; [done|by apply apply_order_effect]. Qed.

(** C4. Globally settling an asset at a price of that asset keeps the books
    balanced: the collateral of the positions it closes goes to the
    settlement fund and to the borrowers. *)
Theorem globally_settle_asset_conserves mia p s :
  wf s → conserved s → asset_id (base p) = mia →
  post (globally_settle_asset mia p) s (λ _ s', wf s' ∧ conserved s').
Proof. intros. apply effect_conserved; [done|apply globally_settle_asset_effect; [done|by right]]. Qed.

(** Matching a margin position with a force settlement keeps the books
    balanced, dust settlements that are cancelled included. *)
Theorem match_call_settle_conserves call_id settle_id p max fill_price order s :
  wf s → conserved s → d_settles s !! settle_id = Some order →
  price_ok p → 0 ≤ amount max →
  post (match_call_settle call_id settle_id p max fill_price) s (λ _ s', wf s' ∧ conserved s').
Proof.
  intros. apply effect_conserved; [done|]. eapply match_call_settle_effect; [done|done|by right|done].
Qed.

(** C3. The maintenance of the chain keeps the books balanced: fee backed assets
    and buyback orders, the payout of fees, elections, bids that revive a
    globally settled asset, and the budget of witnesses and workers neither
    create nor destroy a unit that the supply does not account for. *)
Theorem perform_chain_maintenance_conserves timestamp block_num s :
  wf s → conserved s → modern s →
  post (perform_chain_maintenance timestamp block_num) s (λ _ s', wf s' ∧ conserved s').
Proof. intros. apply effect_conserved; [done|by apply perform_chain_maintenance_effect]. Qed.

(** C5. The budget never takes the supply of the core asset over its maximum,
    when no worker asks for more than the maximum share supply a day and at most
    a year has passed since the last budget. *)
Theorem process_budget_caps_supply s ao d :
  d_assets s !! CORE = Some ao → d_dynamic s !! as_dynamic_asset_data_id ao = Some d →
  current_supply d ≤ o_max_supply (as_options ao) → 0 ≤ accumulated_fees d → 0 ≤ d_witness_budget s →
  map_Forall (λ _ w, 0 ≤ wk_daily_pay w ≤ GRAPHENE_MAX_SHARE_SUPPLY) (d_workers s) →
  0 ≤ d_head_block_time s - gv_last_budget_time (d_governance s) ≤ 365 * 86400 →
  post process_budget s (λ _ s', d_assets s' !! CORE = Some ao ∧
    ∃ d', d_dynamic s' !! as_dynamic_asset_data_id ao = Some d' ∧ accumulated_fees d' = 0 ∧
          current_supply d' ≤ o_max_supply (as_options ao)).
Proof.
  intros Hao Hd Hmax Hacc Hwit Hpay Htime. apply (process_budget_supply s ao d); try done.
  intros id w Hw. apply requested_pay_nonneg; [by apply (Hpay id)|done].
Qed.
End conservation.

(** ** Runs of the sample chain *)

(** The balance of an account *)
Definition get_amount (acct a : Z) (s : database) : Z := from_option ab_balance 0 (d_balances s !! (acct, a)).

(** The state after a run that returns. *)
Ltac run_to m :=
  let E := fresh "E" in
  destruct m as [[? ?]|] eqn:E; [|vm_compute in E; discriminate E].

(** Alice pays bob, sells dollars, and proposes that bob pays carol, which bob
    approves: the proposal is executed. Carol, whom
    alice pays the fee, borrows another hundred dollars on her position. *)
Definition sample_operations : list operation :=
  [op_transfer (mk_transfer (mk_asset 20 CORE) alice bob (mk_asset 100 USD) None);
   op_limit_order_create (mk_limit_order_create (mk_asset 5 CORE) alice (mk_asset 200 USD)
                            (mk_asset 480 CORE) time_max false);
   op_proposal_create (mk_proposal_create (mk_asset 20 CORE) alice
     [op_transfer (mk_transfer (mk_asset 20 CORE) bob carol (mk_asset 50 USD) None)] (sample_time + 60) None);
   op_proposal_update (mk_proposal_update alice (mk_asset 20 CORE) 0 {[ bob ]} ∅ ∅ ∅ ∅ ∅);
   op_transfer (mk_transfer (mk_asset 20 CORE) alice carol (mk_asset 20 CORE) None);
   op_call_order_update (mk_call_order_update (mk_asset 20 CORE) carol (mk_asset 0 CORE) (mk_asset 100 USD) None)].
Definition sample_transaction : signed_transaction :=
  mk_signed_transaction (mk_transaction 7 9 (sample_time + 30) sample_operations) [100; 101; 102].

Lemma apply_transaction_conserves_witness :
  ∃ rs s', apply_transaction skip_nothing 0 sample_transaction sample = Ok (rs, s') ∧
           get_amount carol USD s' = 150 ∧ wf s' ∧ conserved s'.
Proof.
  run_to (apply_transaction skip_nothing 0 sample_transaction sample). eexists _, _. split; [reflexivity|]. split.
  - vm_compute in E. injection E as _ <-. reflexivity.
  - eapply (apply_transaction_conserves skip_nothing 0 sample_transaction sample);
      [apply sample_wf|apply sample_conserved|reflexivity| | |eassumption].
    + repeat constructor; vm_compute; congruence.
    + repeat constructor.
Defined.

(** The block of the sample chain, checked in full, brings the maintenance and
    revives USD. *)
Lemma apply_block_conserves_witness :
  ∃ u c', apply_block ∅ 0 sample_block sample_chain = Ok (u, c') ∧
    d_next_maintenance_time (c_db c') = sample_time + 7200 ∧ d_bids (c_db c') = ∅ ∧
    wf (c_db c') ∧ conserved (c_db c').
Proof.
  run_to (apply_block ∅ 0 sample_block sample_chain). eexists _, _. split; [reflexivity|].
  assert (d_next_maintenance_time (c_db c) = sample_time + 7200 ∧ d_bids (c_db c) = ∅) as [Ht Hb].
  { vm_compute in E. injection E as _ <-. split; reflexivity. }
  split; [exact Ht|]. split; [exact Hb|].
  destruct (books_held sample_due (c_db sample_chain)) as [Hwf Hc];
    [reflexivity|split; [apply sample_due_wf|apply sample_due_conserved]|].
  eapply (apply_block_conserves ∅ 0 sample_block sample_chain);
    [exact Hwf|exact Hc|reflexivity|repeat constructor|exact E|unfold modern; rewrite Ht; reflexivity].
Defined.

Lemma apply_order_conserves_witness :
  ∃ removed s', apply_order 1 sample_crossed = Ok (removed, s') ∧
    d_limits s' !! 1 = None ∧ wf s' ∧ conserved s'.
Proof.
  run_to (apply_order 1 sample_crossed). eexists _, _. split; [reflexivity|]. split.
  - vm_compute in E. injection E as <- <-. reflexivity.
  - eapply (apply_order_conserves 1 sample_crossed);
      [apply sample_crossed_wf|apply sample_crossed_conserved|eassumption].
Defined.

Definition half_price : price := mk_price (mk_asset 1 USD) (mk_asset 2 CORE).

Lemma globally_settle_asset_conserves_witness :
  ∃ u s', globally_settle_asset USD half_price sample = Ok (u, s') ∧
    d_calls s' = ∅ ∧ wf s' ∧ conserved s'.
Proof.
  run_to (globally_settle_asset USD half_price sample). eexists _, _. split; [reflexivity|]. split.
  - vm_compute in E. injection E as <- <-. reflexivity.
  - eapply (globally_settle_asset_conserves USD half_price sample);
      [apply sample_wf|apply sample_conserved|reflexivity|eassumption].
Defined.

Lemma match_call_settle_conserves_witness :
  ∃ settled s',
    match_call_settle 0 0 half_price (mk_asset 1000 USD) half_price sample_settling = Ok (settled, s') ∧
    settled = mk_asset 100 USD ∧ wf s' ∧ conserved s'.
Proof.
  run_to (match_call_settle 0 0 half_price (mk_asset 1000 USD) half_price sample_settling).
  eexists _, _. split; [reflexivity|]. split.
  - vm_compute in E. injection E as <- _. reflexivity.
  - eapply (match_call_settle_conserves 0 0 half_price (mk_asset 1000 USD) half_price _ sample_settling);
      [apply sample_settling_wf|apply sample_settling_conserved|reflexivity| | |eassumption];
      (vm_compute; repeat split; congruence).
Defined.

Lemma perform_chain_maintenance_conserves_witness :
  ∃ u s', perform_chain_maintenance (sample_time + 3600) 100 sample_due = Ok (u, s') ∧
    d_bids s' = ∅ ∧ wf s' ∧ conserved s'.
Proof.
  run_to (perform_chain_maintenance (sample_time + 3600) 100 sample_due).
  eexists _, _. split; [reflexivity|]. split.
  - vm_compute in E. injection E as _ <-. reflexivity.
  - eapply (perform_chain_maintenance_conserves (sample_time + 3600) 100 sample_due);
      [apply sample_due_wf|apply sample_due_conserved|reflexivity|eassumption].
Defined.

Lemma process_budget_caps_supply_witness :
  ∃ u s' d', process_budget sample_due = Ok (u, s') ∧ d_dynamic s' !! 0 = Some d' ∧
    current_supply d' ≤ 1000000000000.
Proof.
  run_to (process_budget sample_due).
  edestruct (process_budget_caps_supply sample_due) as (_ & d' & Hd & _ & Hmax); [reflexivity|reflexivity|..|exact E|].
  - vm_compute. congruence.
  - vm_compute. congruence.
  - vm_compute. congruence.
  - apply (bool_decide_eq_true_1 _). vm_compute. done.
  - vm_compute. split; congruence.
  - eexists _, _, d'. split; [reflexivity|]. split; [exact Hd|exact Hmax].
Defined.
