(* ===== verification/MaintenanceTheory.v ===== *)
(** * Elections and the time of the next maintenance

    What Elections.v elects and with which authority, and when Maintenance.v
    runs next. *)

From S2P Require Import Prelude Ext Config Asset Objects Parameters Governance Blocks Names Operations Validation Fees Ledger Authority Database Evaluator WithdrawEval Elections Budget Maintenance Indices Sample.

(** ** The objects with most votes *)
Section votable.
Context {O : Type} `{Votable O} (buffer : list Z).

(** The votes of an object, as the comparison reads them. *)
Definition votes (x : Z * O) : Z := i64_of_u64 (default 0 (votes_at buffer (votable_vote_id x.2))).

Lemma more_votes_iff a b :
  more_votes buffer a b = true ↔
  votes b < votes a ∨ votes a = votes b ∧ votable_vote_id a.2 < votable_vote_id b.2.
Proof.
  unfold more_votes. fold (votes a) (votes b). destruct (Z.eqb_spec (votes a) (votes b)); simpl;
    rewrite Z.ltb_lt; lia.
Qed.
Lemma more_votes_false a b :
  more_votes buffer a b = false ↔
  ¬ (votes b < votes a ∨ votes a = votes b ∧ votable_vote_id a.2 < votable_vote_id b.2).
Proof. by rewrite <- more_votes_iff, not_true_iff_false. Qed.

Lemma more_votes_asym a b : more_votes buffer a b = true → more_votes buffer b a = false.
Proof. rewrite more_votes_iff, more_votes_false. lia. Qed.

Lemma more_votes_order l : strict_weak_order (more_votes buffer) l.
Proof. split_and!; intros *; rewrite ?more_votes_iff, ?more_votes_false; lia. Qed.

(** The head of a sorted list of objects has no fewer votes than the rest. *)
Lemma sorted_votes_split all n :
  ∀ x y, x ∈ take n (sorted_by (more_votes buffer) all) → y ∈ drop n (sorted_by (more_votes buffer) all) →
         votes y ≤ votes x.
Proof.
  intros x y Hx Hy.
  pose proof (sorted_by_sorted (more_votes buffer) more_votes_asym all (more_votes_order all)) as Hs.
  rewrite <- (take_drop n (sorted_by (more_votes buffer) all)) in Hs.
  apply StronglySorted_app in Hs as (Hs & _ & _).
  specialize (Hs x y Hx Hy). unfold le_by in Hs. apply Is_true_true, negb_true_iff, more_votes_false in Hs. lia.
Qed.

Lemma sort_votable_objects_spec all n l :
  sort_votable_objects buffer all n = Ok l →
  length l = Nat.min n (length all) ∧ l ⊆+ all ∧
  StronglySorted (λ x y, votes y ≤ votes x) l ∧
  ∀ x y, x ∈ l → y ∈ all → y ∉ l → votes y ≤ votes x.
Proof.
  unfold sort_votable_objects. case_match; [|done]. intros [= <-].
  set (sorted := sorted_by _ all). assert (sorted ≡ₚ all) as Hp by apply merge_sort_Permutation.
  split_and!.
  - rewrite length_take, Hp. lia.
  - transitivity sorted; [apply submseteq_take|by apply Permutation_submseteq].
  - pose proof (sorted_by_sorted (more_votes buffer) more_votes_asym all (more_votes_order all)) as Hs. fold sorted in Hs.
    rewrite <- (take_drop (Nat.min n (length all)) sorted) in Hs. apply StronglySorted_app in Hs as (_ & Hs & _).
    clear -Hs. induction Hs as [|x l Hs IH Hx]; constructor; [done|]. eapply Forall_impl; [done|].
    unfold le_by. intros y Hy. apply Is_true_true, negb_true_iff, more_votes_false in Hy. lia.
  - intros x y Hx Hy Hn. eapply sorted_votes_split; [exact Hx|]. fold sorted.
    rewrite <- Hp, <- (take_drop (Nat.min n (length all)) sorted), elem_of_app in Hy. tauto.
Qed.
End votable.

(** ** How many are elected *)

Definition tally_of (histogram : list Z) : Z := foldr Z.add 0 histogram.

Lemma tally_nonneg h : Forall (λ v, 0 ≤ v) h → 0 ≤ tally_of h.
Proof. induction 1; simpl; lia. Qed.

(** The number that [histogram] asks for: the least with more than [target]
    behind it or fewer, or as many as there are entries. *)
Definition count_asked (target : Z) (histogram : list Z) (k : nat) : Prop :=
  (k ≤ length histogram)%nat ∧
  (k = length histogram ∨ target < tally_of (take k histogram)) ∧
  ∀ j, (j < k)%nat → tally_of (take j histogram) ≤ target.

Lemma count_votes_spec add target h : ∀ count t,
  (∀ x y, 0 ≤ x → 0 ≤ y → x + y ≤ int64_max → add x y = Ok (x + y)) →
  Forall (λ v, 0 ≤ v) h → 0 ≤ t → t + tally_of h ≤ int64_max →
  ∃ k, count_votes add target h count t = Ok (count + Z.of_nat k) ∧ count_asked (target - t) h k.
Proof.
  intros count t Hadd Hh. revert count t. induction Hh as [|v h Hv Hh IH]; intros count t Ht Hsum; simpl in *.
  { exists 0%nat. split; [by rewrite Z.add_0_r|]. split_and!; simpl; [lia|by left|lia]. }
  pose proof (tally_nonneg h Hh). destruct (Z.leb_spec t target).
  - rewrite Hadd by lia. simpl. destruct (IH (count + 1) (t + v)) as (k & Hk & Hle & Hend & Hmin); [lia|lia|].
    exists (S k). rewrite Hk. split; [f_equal; lia|]. split_and!; simpl; [lia|destruct Hend; [left; lia|right; lia]|].
    intros [|j] Hj; simpl; [lia|]. specialize (Hmin j ltac:(lia)). lia.
  - exists 0%nat. split; [f_equal; lia|]. split_and!; simpl; [lia|right; lia|lia].
Qed.

Section elections.
Context {X : Ext}.

Lemma add_share_exact x y : 0 ≤ x → 0 ≤ y → x + y ≤ int64_max → add_share x y = Ok (x + y).
Proof.
  unfold add_share, int64_max. intros Hx Hy Hxy. unfold i64_of_u64.
  destruct (Z.leb_spec y (2 ^ 63 - 1)); [|lia]. apply safe_in. unfold in64, int64_min, int64_max. lia.
Qed.

(** Half of the stake that did not abstain. *)
Definition stake_target (total abstained : Z) : Z := (total - abstained) / 2.

Lemma elected_count_spec add total abstained h :
  (∀ x y, 0 ≤ x → 0 ≤ y → x + y ≤ int64_max → add x y = Ok (x + y)) →
  Forall (λ v, 0 ≤ v) h → tally_of h ≤ int64_max → 0 ≤ abstained ≤ total → total < 2 ^ 64 →
  ∃ k, elected_count add total (abstained :: h) = Ok (Z.of_nat k) ∧
    (stake_target total abstained = 0 ∧ k = 0%nat ∨ count_asked (stake_target total abstained) h k).
Proof.
  intros Hadd Hh Hsum Ha Ht. unfold elected_count, stake_target.
  assert (u64 (total - abstained) = total - abstained) as -> by (unfold u64; rewrite Z.mod_small; lia).
  destruct (Z.ltb_spec 0 ((total - abstained) / 2)).
  - destruct (count_votes_spec add ((total - abstained) / 2) h 0 0 Hadd Hh) as (k & Hk & Hasked); [lia|lia|].
    exists k. split; [exact Hk|]. right. by rewrite Z.sub_0_r in Hasked.
  - exists 0%nat. split; [done|]. left. split; [|done].
    assert (0 ≤ (total - abstained) / 2) by (apply Z.div_pos; lia). lia.
Qed.

(** The votes of witnesses that are in the buffer can be recorded. *)
Definition votes_recorded (buffer : list Z) (s : database) : Prop :=
  map_Forall (λ _ w, is_Some (votes_at buffer (wit_vote_id w))) (d_witnesses s).

Lemma update_witness_votes_total buffer ids : ∀ s,
  votes_recorded buffer s → Forall (λ id, is_Some (d_witnesses s !! id)) ids →
  ∃ s', for_each (update_witness_total_votes buffer) ids s = Ok (tt, s') ∧
        d_accounts s' = d_accounts s ∧ d_head_block_time s' = d_head_block_time s.
Proof.
  induction ids as [|id ids IH]; intros s Hrec Hids; simpl; [by exists s|].
  apply Forall_cons in Hids as [[w Hw] Hids]. destruct (Hrec id w Hw) as [v Hv].
  unfold bind, update_witness_total_votes, modify_witness, modify_in, votes_of. rewrite Hw. simpl. rewrite Hv. simpl.
  match goal with |- context [for_each _ ids ?s1] => destruct (IH s1) as (s' & Hrun & Ha & Ht) end.
  - apply map_Forall_insert_2; [by eexists|done].
  - eapply Forall_impl; [exact Hids|]. intros j Hj. simpl. destruct (decide (id = j)) as [->|Hne].
    + rewrite lookup_insert_eq. eauto.
    + by rewrite lookup_insert_ne.
  - exists s'. split; [exact Hrun|]. by rewrite Ha, Ht.
Qed.

(** C9. The election of witnesses succeeds, and the witnesses elected are those
    with most votes: twice as many and one more as the least number that more
    than half of the stake that did not abstain finds enough (never fewer than
    the configured minimum, and no more than there are), none of them with fewer
    votes than a witness left out. *)
Theorem update_active_witnesses_elects s abstained h :
  gv_witness_count_histogram_buffer (d_governance s) = abstained :: h →
  Forall (λ v, 0 ≤ v) h → tally_of h ≤ int64_max →
  0 ≤ abstained ≤ gv_total_voting_stake (d_governance s) → gv_total_voting_stake (d_governance s) < 2 ^ 64 →
  let buffer := gv_vote_tally_buffer (d_governance s) in
  votes_recorded buffer s → is_Some (d_accounts s !! GRAPHENE_WITNESS_ACCOUNT) →
  HARDFORK_533_TIME ≤ d_head_block_time s →
  let target := stake_target (gv_total_voting_stake (d_governance s)) abstained in
  ∃ k elected s', update_active_witnesses s = Ok (tt, s') ∧
    (target = 0 ∧ k = 0%nat ∨ count_asked target h k) ∧
    length elected = Nat.min (Z.to_nat (Z.max (Z.of_nat k * 2 + 1) (gv_min_witness_count (d_governance s))))
                             (size (d_witnesses s)) ∧
    elected ⊆+ map_to_list (d_witnesses s) ∧
    (∀ x y, x ∈ elected → y ∈ map_to_list (d_witnesses s) → y ∉ elected → votes buffer y ≤ votes buffer x) ∧
    gv_active_witnesses (d_governance s') = list_to_set elected.*1.
Proof.
  intros Hhist Hh Hsum Ha Ht buffer Hrec [acct Hacct] Hfork target.
  destruct (elected_count_spec add_share (gv_total_voting_stake (d_governance s)) abstained h
              add_share_exact Hh Hsum Ha Ht) as (k & Hcount & Hk).
  set (n := Z.to_nat (Z.max (Z.of_nat k * 2 + 1) (gv_min_witness_count (d_governance s)))).
  destruct (sort_votable_objects buffer (by_id (d_witnesses s)) n) as [elected|] eqn:Hsort.
  2: { unfold sort_votable_objects in Hsort. rewrite (proj2 (forallb_forall _ _)) in Hsort; [done|]. intros [id w] Hin.
       apply bool_decide_eq_true_2. rewrite <- list_elem_of_In, by_id_perm, elem_of_map_to_list in Hin. exact (Hrec id w Hin). }
  destruct (sort_votable_objects_spec _ _ _ _ Hsort) as (Hlen & Hsub & _ & Hmost).
  exists k, elected. unfold update_active_witnesses, get_gov, gets, lift, bind.
  cbn beta. rewrite Hhist, Hcount. fold buffer n. rewrite Hsort.
  match goal with |- context [for_each _ ?l s] => destruct (update_witness_votes_total buffer l s) as (s1 & Hrun & Ha1 & Ht1) end.
  { done. }
  { apply Forall_forall. intros id Hin.
    assert (id ∈ (by_id (d_witnesses s)).*1) as ([id' w] & -> & Hw)%list_elem_of_fmap.
    { case_match; [done|]. apply list_elem_of_fmap in Hin as (x & -> & Hx). apply list_elem_of_fmap.
      exists x. split; [done|]. by eapply elem_of_submseteq. }
    rewrite by_id_perm, elem_of_map_to_list in Hw. simpl. eauto. }
  rewrite Hrun. unfold head_block_time, gets. unfold modify_account, modify_in. rewrite Ha1, Hacct, Ht1.
  unfold elected_authority. rewrite (proj2 (Z.ltb_ge _ _) Hfork). simpl.
  eexists. split; [reflexivity|]. split; [done|]. split; [by rewrite Hlen, by_id_perm, length_map_to_list|].
  split; [by rewrite <- by_id_perm|]. split; [|done]. intros x y Hx Hy. apply Hmost; [done|by rewrite by_id_perm].
Qed.

(** ** The authority of the elected *)

Lemma bits_to_drop_spec v : 0 < v → 0 ≤ bits_to_drop v ∧ Z.shiftr v (bits_to_drop v) < 2 ^ 16.
Proof.
  intros Hv. unfold bits_to_drop. split; [lia|].
  pose proof (Z.log2_spec v Hv) as [_ Hlt]. rewrite Z.shiftr_div_pow2 by lia.
  destruct (Z.max_spec (Z.log2 v - 15) 0) as [[? ->]|[? ->]].
  - rewrite Z.div_1_r. apply (Z.lt_le_trans _ _ _ Hlt). apply Z.pow_le_mono_r; lia.
  - apply Z.div_lt_upper_bound; [apply Z.pow_pos_nonneg; lia|].
    rewrite <- Z.pow_add_r by lia. replace (Z.log2 v - 15 + 16) with (Z.succ (Z.log2 v)) by lia. done.
Qed.

(** The weight of an account: its votes without the bits dropped, at least 1. *)
Definition weight (drop v : Z) : Z := Z.max (Z.shiftr v drop) 1.

Definition weights (a : authority) : Z := msum (λ _ w, w) (au_account_auths a).

(** A counter that has counted accounts with these votes. *)
Definition counted (drop : Z) (l : list (Z * Z)) (vc : vote_counter) : Prop :=
  vc_bitshift vc = drop ∧ vc_total_votes vc = weights (vc_auth vc) ∧
  vc_total_votes vc ≤ 2 ^ 16 * Z.of_nat (length l) ∧ au_key_auths (vc_auth vc) = ∅ ∧
  ∀ who w, au_account_auths (vc_auth vc) !! who = Some w ↔ ∃ v, (who, v) ∈ l ∧ 0 < v ∧ w = weight drop v.

Lemma vc_add_counted drop l who v vc :
  0 ≤ drop → 0 ≤ v → Z.shiftr v drop < 2 ^ 16 → who ∉ l.*1 → (Z.of_nat (length l) < 2 ^ 16) → 0 ≤ vc_total_votes vc →
  counted drop l vc → counted drop (l ++ [(who, v)]) (vc_add who v vc) ∧ 0 ≤ vc_total_votes (vc_add who v vc).
Proof.
  intros Hd Hv Hs Hwho Hlen Hpos (Hshift & Htot & Hmax & Hkeys & Hin). unfold vc_add. destruct (Z.eqb_spec v 0) as [->|Hne].
  - split; [|done]. split_and!; [done|done|rewrite length_app; simpl; lia|done|].
    intros k w. rewrite Hin. setoid_rewrite elem_of_app. setoid_rewrite list_elem_of_singleton.
    split; [naive_solver|]. intros (v & [?|[= -> ->]] & ? & ?); [eauto|lia].
  - rewrite Hshift. rewrite (proj2 (Z.eqb_neq drop (-1))) by lia. fold (weight drop v).
    assert (1 ≤ weight drop v < 2 ^ 16) as Hw by (unfold weight; lia).
    assert (au_account_auths (vc_auth vc) !! who = None) as Hfresh.
    { destruct (au_account_auths (vc_auth vc) !! who) as [w|] eqn:E; [|done]. apply Hin in E as (v' & Hv' & _).
      destruct Hwho. apply list_elem_of_fmap. by exists (who, v'). }
    assert (u64 (vc_total_votes vc + weight drop v) = vc_total_votes vc + weight drop v) as ->.
    { unfold u64. apply Z.mod_small. lia. }
    assert (u16 (weight drop v) = weight drop v) as -> by (unfold u16; apply Z.mod_small; lia).
    split; [|simpl; lia]. split_and!; simpl; [done| |rewrite length_app; simpl; lia|done|].
    + unfold weights in *. simpl. rewrite msum_insert_fresh by done. lia.
    + intros k w. rewrite lookup_insert_Some, Hin. setoid_rewrite elem_of_app. setoid_rewrite list_elem_of_singleton.
      split.
      * intros [[<- <-]|[Hk (v' & ? & ? & ?)]]; [exists v; split_and!; auto; lia|eauto 6].
      * intros (v' & [Hl|[= -> ->]] & ? & ?); [|by left]. right. split; [|eauto].
        intros <-. destruct Hwho. apply list_elem_of_fmap. by exists (who, v').
Qed.

Lemma vc_add_all_counted drop l2 : ∀ l1 vc,
  0 ≤ drop → Forall (λ x, 0 ≤ x.2 ∧ Z.shiftr x.2 drop < 2 ^ 16) l2 → NoDup (l1 ++ l2).*1 →
  Z.of_nat (length (l1 ++ l2)) ≤ 2 ^ 16 → 0 ≤ vc_total_votes vc → counted drop l1 vc →
  counted drop (l1 ++ l2) (vc_add_all l2 vc).
Proof.
  induction l2 as [|[who v] l2 IH]; intros l1 vc Hd Hl2 Hnd Hlen Hpos Hc; [by rewrite app_nil_r|].
  apply Forall_cons in Hl2 as [[Hv Hs] Hl2]. simpl in Hv, Hs. cbn [vc_add_all foldl fst snd].
  pose proof Hnd as Hnd'. rewrite fmap_app, fmap_cons, NoDup_app in Hnd'. destruct Hnd' as (_ & Hne & _).
  rewrite length_app in Hlen. simpl in Hlen.
  destruct (vc_add_counted drop l1 who v vc) as [Hc' Hpos']; [done|done|done| |lia|done|done|].
  { intros Hin. apply (Hne who Hin). by left. }
  replace (l1 ++ (who, v) :: l2) with ((l1 ++ [(who, v)]) ++ l2) in * by (by rewrite <- app_assoc).
  apply IH; try done. rewrite !length_app. simpl. lia.
Qed.

Lemma weight_range drop v : 0 ≤ drop → Z.shiftr v drop < 2 ^ 16 → 1 ≤ weight drop v < 2 ^ 16.
Proof. unfold weight. lia. Qed.

(** C10. The authority of the elected accounts is one of the majority of their
    votes: exactly the accounts with votes have a weight, which is their votes
    without the bits that all of them drop so that the weights fit 16 bits, and
    the threshold is more than half of the weights and can be reached; no key
    has a weight. *)
Theorem elected_authority_majority now who0 v0 l a0 :
  HARDFORK_533_TIME ≤ now → 0 < v0 → Forall (λ x, 0 ≤ x.2 ≤ v0) l → NoDup ((who0, v0) :: l).*1 →
  Z.of_nat (length l) < 2 ^ 16 - 1 →
  ∃ a drop, elected_authority now ((who0, v0) :: l) a0 = Ok a ∧ 0 ≤ drop ∧
    (∀ who w, au_account_auths a !! who = Some w ↔
       ∃ v, (who, v) ∈ (who0, v0) :: l ∧ 0 < v ∧ w = weight drop v ∧ 1 ≤ w < 2 ^ 16) ∧
    weights a < 2 * au_weight_threshold a ∧ au_weight_threshold a ≤ weights a ∧ au_key_auths a = ∅.
Proof.
  intros Hnow Hv0 Hl Hnd Hlen. unfold elected_authority. rewrite (proj2 (Z.ltb_ge _ _) Hnow).
  destruct (bits_to_drop_spec v0 Hv0) as [Hd Hs]. set (drop := bits_to_drop v0) in *.
  assert (Forall (λ x, 0 ≤ x.2 ∧ Z.shiftr x.2 drop < 2 ^ 16) ((who0, v0) :: l)) as Hall.
  { constructor; [simpl; lia|]. eapply Forall_impl; [exact Hl|]. intros [k v] [H1 H2]. simpl in *. split; [done|].
    rewrite Z.shiftr_div_pow2 in * by done.
    pose proof (Z.div_le_mono v v0 (2 ^ drop) ltac:(apply Z.pow_pos_nonneg; lia) H2). lia. }
  assert (vc_add_all ((who0, v0) :: l) new_vote_counter =
          vc_add_all ((who0, v0) :: l) (mk_vote_counter 0 drop empty_authority)) as ->.
  { simpl. f_equal. unfold vc_add. rewrite (proj2 (Z.eqb_neq v0 0)) by lia. simpl.
    rewrite (proj2 (Z.eqb_neq drop (-1))) by lia. done. }
  assert (counted drop ([] ++ (who0, v0) :: l) (vc_add_all ((who0, v0) :: l) (mk_vote_counter 0 drop empty_authority)))
    as (Hshift & Htot & Hmax & Hkeys & Hin).
  { apply vc_add_all_counted; try done; [simpl; lia|]. split_and!; [done|done|done|done|].
    intros k w. simpl. rewrite lookup_empty. split; [done|]. intros (v & Hv & _). by apply not_elem_of_nil in Hv. }
  set (vc := vc_add_all _ _) in *. simpl in Hin, Hmax.
  assert (0 < vc_total_votes vc) as Hpos.
  { assert (au_account_auths (vc_auth vc) !! who0 = Some (weight drop v0)) as H0.
    { apply Hin. exists v0. split_and!; [by left|done|done]. }
    rewrite Htot. unfold weights. pose proof (msum_delete (λ _ w : Z, w) (au_account_auths (vc_auth vc)) who0) as Hdel.
    unfold at_key in Hdel. rewrite H0 in Hdel. simpl in Hdel. pose proof (weight_range drop v0 Hd Hs).
    assert (0 ≤ msum (λ _ w : Z, w) (delete who0 (au_account_auths (vc_auth vc)))); [|lia].
    apply msum_nonneg. intros k w [_ (v & _ & _ & ->)%Hin]%lookup_delete_Some. unfold weight. lia. }
  exists (vc_finish vc a0), drop. split; [done|]. split; [done|]. unfold vc_finish.
  rewrite (proj2 (Z.eqb_neq (vc_total_votes vc) 0)) by lia. simpl.
  assert (u32 (vc_total_votes vc) = vc_total_votes vc) as -> by (unfold u32; apply Z.mod_small; lia).
  rewrite Z.shiftr_div_pow2, Z.pow_1_r by lia. pose proof (Z.div_mod (vc_total_votes vc) 2 ltac:(lia)) as Hdm.
  pose proof (Z.mod_pos_bound (vc_total_votes vc) 2 ltac:(lia)).
  assert (u32 (vc_total_votes vc / 2 + 1) = vc_total_votes vc / 2 + 1) as -> by (unfold u32; apply Z.mod_small; lia).
  unfold weights in *. simpl. split_and!; [|lia|lia|done].
  intros k w. rewrite Hin. split; [|naive_solver]. intros (v & Hv & Hpv & ->). exists v. split_and!; try done.
  all: rewrite Forall_forall in Hall; destruct (Hall _ Hv) as [_ Hsv]; simpl in Hsv;
    pose proof (weight_range drop v Hd Hsv); lia.
Qed.

(** ** The next maintenance *)

(** C11. When the maintenance is due, the next one is the first time after the
    head block that is a whole number of intervals after the last; when it is
    not due, its time stays. *)
Theorem next_maintenance_first next interval timestamp block_num head_time :
  0 < interval → block_num ≠ 1 → 0 ≤ next ≤ head_time → head_time + interval < 2 ^ 32 →
  (timestamp < next → next_maintenance next interval timestamp block_num head_time = Ok next) ∧
  (next ≤ timestamp → ∃ k, next_maintenance next interval timestamp block_num head_time = Ok (next + k * interval) ∧
     head_time < next + k * interval ≤ head_time + interval).
Proof.
  intros Hi Hb Hn Hmax. unfold next_maintenance. split; intros Ht.
  - by rewrite (proj2 (Z.leb_gt next timestamp)).
  - rewrite (proj2 (Z.leb_le next timestamp)) by done. rewrite (proj2 (Z.eqb_neq interval 0)), (proj2 (Z.eqb_neq block_num 1)) by lia.
    rewrite Z.quot_div_nonneg by lia. set (y := (head_time - next) / interval). exists (y + 1).
    pose proof (Z.div_mod (head_time - next) interval ltac:(lia)). pose proof (Z.mod_pos_bound (head_time - next) interval Hi).
    fold y in H. assert (0 ≤ y) by (apply Z.div_pos; lia).
    assert ((y + 1) * interval = head_time - next - (head_time - next) mod interval + interval) by nia.
    assert (u32 ((y + 1) * interval) = (y + 1) * interval) as -> by (unfold u32; apply Z.mod_small; lia).
    split; [|lia]. f_equal. apply time_add_small; lia.
Qed.
End elections.

(** ** The sample elections *)

(** The sample chain after its tally. *)
Definition sample_tallied : database :=
  match (do! start_tally in perform_account_maintenance) sample_due with Ok (_, s) => s | Err _ => sample_due end.

Lemma update_active_witnesses_elects_witness :
  ∃ k (elected : list (Z * witness_object)) s', update_active_witnesses sample_tallied = Ok (tt, s') ∧
    k ≠ 0%nat ∧ length elected = 3%nat ∧ gv_active_witnesses (d_governance s') = list_to_set elected.*1.
Proof.
  destruct (update_active_witnesses_elects sample_tallied 0 (100000 :: replicate 499 0))
    as (k & elected & s' & Hrun & Hk & Hlen & _ & _ & Hact); [vm_compute; reflexivity|..].
  - constructor; [done|]. apply Forall_replicate. done.
  - vm_compute. congruence.
  - vm_compute. split; congruence.
  - vm_compute. congruence.
  - apply (bool_decide_eq_true_1 _). vm_compute. done.
  - eexists. vm_compute. reflexivity.
  - vm_compute. congruence.
  - exists k, elected, s'. split; [exact Hrun|].
    assert (k = 1%nat) as ->.
    { destruct Hk as [[Ht _]|(Hle & Hend & Hmin)]; [by vm_compute in Ht|].
      destruct k as [|[|k]]; [|done|].
      - destruct Hend as [Hend|Hend]; by vm_compute in Hend.
      - specialize (Hmin 1%nat ltac:(lia)). by vm_compute in Hmin. }
    split; [done|]. split; [|exact Hact]. rewrite Hlen. vm_compute. reflexivity.
Defined.

Lemma elected_authority_majority_witness :
  ∃ a, elected_authority sample_time [(alice, 300000); (bob, 100000); (carol, 0)] empty_authority = Ok a ∧
    au_account_auths a !! carol = None ∧ au_account_auths a !! bob = Some 12500 ∧
    weights a < 2 * au_weight_threshold a.
Proof.
  destruct (elected_authority_majority sample_time alice 300000 [(bob, 100000); (carol, 0)] empty_authority)
    as (a & drop & Hrun & _ & _ & Hmaj & _ & _); [vm_compute; congruence|done| | |done|].
  - repeat constructor; vm_compute; congruence.
  - apply (bool_decide_eq_true_1 _). vm_compute. done.
  - exists a. split; [exact Hrun|]. injection Hrun as <-. split; [vm_compute; reflexivity|].
    split; [vm_compute; reflexivity|exact Hmaj].
Defined.

Lemma next_maintenance_first_witness :
  ∃ k, next_maintenance sample_time 3600 (sample_time + 8000) 100 (sample_time + 8000) = Ok (sample_time + k * 3600) ∧
       sample_time + 8000 < sample_time + k * 3600 ≤ sample_time + 8000 + 3600.
Proof.
  apply (next_maintenance_first sample_time 3600 (sample_time + 8000) 100 (sample_time + 8000)); vm_compute;
    try split; congruence.
Defined.
