(* ===== verification/Pricing.v ===== *)
(** * Prices: rounding, order and derived prices

    The properties of the arithmetic of Asset.v, with the lemmas of Exchange.v, and
    of the fee of an operation that is paid in another asset (Fees.v). *)

From S2P Require Import Prelude Ext Config Asset Objects Parameters Governance Operations Validation Fees Exchange Sample.

Section pricing.
Context {X : Ext}.

(** C14. An exchange rounds down: [asset * price] returns the floor of the exact
    quotient in the other asset of the price, and raises exactly when that
    floor exceeds the maximum share supply. *)
Theorem asset_mul_rounds_down a p n d j :
  price_ok p → amount_ok a → rate_of (asset_id a) p = Some (n, d, j) →
  (∀ r, asset_mul a p = Ok r ↔
     asset_id r = j ∧ amount r ≤ GRAPHENE_MAX_SHARE_SUPPLY ∧
     d * amount r ≤ amount a * n < d * (amount r + 1)) ∧
  (GRAPHENE_MAX_SHARE_SUPPLY < amount a * n / d → asset_mul a p = Err AssertFailure).
Proof.
  intros Hp Ha Hrate. destruct (rate_of_ok _ _ _ _ _ Hp Hrate) as (Hn & Hd & _ & _).
  rewrite asset_mul_eq, Hrate by done. pose proof (floor_div_spec (amount a * n) d ltac:(lia)) as Hfl.
  split.
  - intros [r i]. rewrite exchanged_ok. simpl. split; [intros [[= -> ->] ?]; split_and!; try done; lia|].
    intros (-> & Hmax & Hr). assert (r = floor_div (amount a * n) d) as -> by nia. done.
  - unfold exchanged. fold (floor_div (amount a * n) d). intros H.
    by rewrite (proj2 (Z.leb_gt _ _)).
Qed.

(** C15. [multiply_and_round_up] returns the ceiling of the exact quotient, and
    raises exactly when that ceiling exceeds the maximum share supply. *)
Theorem multiply_and_round_up_spec a p n d j :
  price_ok p → amount_ok a → rate_of (asset_id a) p = Some (n, d, j) →
  (∀ r, multiply_and_round_up a p = Ok r ↔
     asset_id r = j ∧ amount r ≤ GRAPHENE_MAX_SHARE_SUPPLY ∧
     d * (amount r - 1) < amount a * n ≤ d * amount r) ∧
  (GRAPHENE_MAX_SHARE_SUPPLY * d < amount a * n → multiply_and_round_up a p = Err AssertFailure).
Proof.
  intros Hp Ha Hrate. destruct (rate_of_ok _ _ _ _ _ Hp Hrate) as (Hn & Hd & _ & _).
  rewrite round_up_eq, Hrate by done. pose proof (ceil_div_spec (amount a * n) d ltac:(lia)) as Hc.
  split.
  - intros [r i]. rewrite exchanged_ok. simpl. split; [intros [[= -> ->] ?]; split_and!; try done; lia|].
    intros (-> & Hmax & Hr). assert (r = ceil_div (amount a * n) d) as -> by nia. done.
  - intros H. unfold exchanged. rewrite (proj2 (Z.leb_gt _ _)); [done|]. nia.
Qed.

(** C16. Paying only what is needed: after an exchange of [a] into [r], the
    amount obtained by rounding [r] back up exists, is not more than [a], and
    buys exactly [r] again. *)
Theorem exchange_pays_no_more_than_needed a p r :
  price_ok p → amount_ok a → amount a ≤ GRAPHENE_MAX_SHARE_SUPPLY → asset_mul a p = Ok r →
  ∃ a', multiply_and_round_up r p = Ok a' ∧ asset_id a' = asset_id a ∧
    0 ≤ amount a' ≤ amount a ∧ asset_mul a' p = Ok r.
Proof.
  intros Hp Ha Hmax Hr. pose proof (asset_mul_amount_ok _ _ _ Hr) as Hra.
  destruct (asset_mul_ok _ _ _ Hp Ha Hr) as (n & d & Hrate & Hamt).
  destruct (rate_of_ok _ _ _ _ _ Hp Hrate) as (Hn & Hd & _ & Hback).
  pose proof (ceil_floor_le (amount a) n d ltac:(lia) ltac:(lia)) as Hle. rewrite <- Hamt in Hle.
  pose proof (ceil_div_spec (amount r * d) n ltac:(lia)) as Hc. destruct Hra as [Hr0 Hr1].
  set (x := ceil_div (amount r * d) n) in *. assert (0 ≤ x) by nia.
  exists (mk_asset x (asset_id a)). split_and!; try done.
  - rewrite round_up_eq, Hback by done. by apply exchanged_ok; split; [|lia].
  - destruct Ha. rewrite asset_mul_eq by (try done; split; simpl; lia). simpl. rewrite Hrate.
    apply exchanged_ok. apply asset_mul_range in Hr as [_ Hrm].
    pose proof (floor_ceil_ge (amount r) d n ltac:(lia) ltac:(lia)) as Hge.
    fold x in Hge. pose proof (floor_div_spec (x * n) d ltac:(lia)) as Hf1.
    pose proof (floor_div_spec (amount a * n) d ltac:(lia)) as Hf2. rewrite <- Hamt in Hf2.
    assert (floor_div (x * n) d = amount r) as -> by nia. split; [by destruct r|done].
Qed.

(** On valid prices [operator <] is a strict order whose incomparable
    elements are those [operator ==] identifies, and reading both prices the
    other way round reverses it for prices of the same assets. *)
Theorem price_order p q r :
  price_ok p → price_ok q → price_ok r →
  price_ltb p p = false ∧
  (price_ltb p q = true → price_ltb q r = true → price_ltb p r = true) ∧
  (price_eqb p q = true ↔ price_ltb p q = false ∧ price_ltb q p = false) ∧
  (price_eqb p q = true → price_eqb q r = true → price_eqb p r = true) ∧
  (asset_id (base p) = asset_id (base q) → asset_id (quote p) = asset_id (quote q) →
     price_ltb (price_inv q) (price_inv p) = price_ltb p q).
Proof.
  intros Hp Hq Hr. split_and!.
  - apply price_ltb_false; [auto..|]. unfold price_before. lia.
  - rewrite !price_ltb_iff by auto. apply price_before_trans; auto.
  - rewrite !price_ltb_false, price_eqb_iff by auto. unfold price_before, price_same. lia.
  - rewrite !price_eqb_iff by auto. unfold price_same, price_ok in *. intros (-> & -> & H1) (-> & -> & H2).
    split_and!; try done. nia.
  - intros Hb Hqq. apply eq_true_iff_eq. rewrite !price_ltb_iff by auto using price_inv_ok.
    unfold price_before, price_inv; simpl. lia.
Qed.

(** C17. The product of a valid price and a positive ratio is always a valid
    price of the same assets; a ratio above one never lowers the price, one
    below one never raises it, and the product is exact whenever some price in
    the range of share amounts expresses it exactly. *)
Theorem price_times_ratio p r :
  price_ok p → ratio_ok r →
  ∃ np, price_mul_ratio p r = Ok np ∧ price_ok np ∧ same_pair np p ∧
    (denominator r < numerator r → price_ltb np p = false) ∧
    (numerator r < denominator r → price_gtb np p = false) ∧
    (∀ q, price_times p r q → same_pair q p → price_in_range q → price_times p r np).
Proof.
  intros Hp Hr. destruct (price_mul_ratio_total p r Hp Hr) as (np & E & Hnp & Hids & Hup & Hdown & _ & Hx).
  exists np. split_and!; try done; intros H; apply price_ltb_false; auto.
Qed.

(** C18. The call price of a position exists for every positive debt and
    collateral, has positive terms in the range of share amounts, and is the
    exact quotient of collateral by debt times the collateral ratio unless its
    lowest terms are out of that range. *)
Theorem call_price_spec debt collateral ratio :
  int64_pair (amount debt) (amount collateral) → asset_id debt ≠ asset_id collateral →
  collateral_ratio_ok ratio →
  ∃ p, call_price debt collateral ratio = Ok p ∧ price_in_range p ∧
    asset_id (base p) = asset_id collateral ∧ asset_id (quote p) = asset_id debt ∧
    (amount debt * ratio ≤ GRAPHENE_MAX_SHARE_SUPPLY →
     amount collateral * GRAPHENE_COLLATERAL_RATIO_DENOM ≤ GRAPHENE_MAX_SHARE_SUPPLY →
     amount (quote p) * (amount collateral * GRAPHENE_COLLATERAL_RATIO_DENOM) =
     amount debt * ratio * amount (base p)).
Proof.
  intros Hpair Hne Hr.
  destruct (call_price_total debt collateral ratio) as (p & cp & E & Hp & Hb & Hq & Hval & Hcp & Hx); [done..|].
  exists p. split_and!; try done. intros Hd Hc. destruct Hpair as [Hd0 Hc0]. unfold collateral_ratio_ok in Hr.
  unfold GRAPHENE_COLLATERAL_RATIO_DENOM in *. destruct Hx as [-> ->]; [|done].
  apply out_of_range_false. destruct Hcp as (Hn & _ & Hnorm).
  eapply lowest_terms_le; [done|lia| | |exact Hval]; nia.
Qed.

(** The short squeeze price of a valid feed exists, has positive terms in
    the range of share amounts, and is the settlement price divided by the
    short squeeze ratio, exactly unless the lowest terms are out of range. *)
Theorem max_short_squeeze_price_spec f :
  price_ok (settlement_price f) → collateral_ratio_ok (maximum_short_squeeze_ratio f) →
  ∃ p, max_short_squeeze_price f = Ok p ∧ price_in_range p ∧ same_pair p (settlement_price f) ∧
    (amount (base (settlement_price f)) * GRAPHENE_COLLATERAL_RATIO_DENOM ≤ GRAPHENE_MAX_SHARE_SUPPLY →
     amount (quote (settlement_price f)) * maximum_short_squeeze_ratio f ≤ GRAPHENE_MAX_SHARE_SUPPLY →
     amount (base p) * (amount (quote (settlement_price f)) * maximum_short_squeeze_ratio f) =
     amount (base (settlement_price f)) * GRAPHENE_COLLATERAL_RATIO_DENOM * amount (quote p)).
Proof.
  intros Hsp Hr.
  destruct (max_short_squeeze_price_total f) as (p & cp & E & Hp & Hb & Hq & Hval & Hcp & Hx); [done..|].
  exists p. split_and!; try done. intros Hbm Hqm. destruct Hsp as (Hb0 & Hq0 & _). unfold collateral_ratio_ok in Hr.
  unfold GRAPHENE_COLLATERAL_RATIO_DENOM in *. destruct Hx as [-> ->]; [|done].
  apply out_of_range_false. destruct Hcp as (Hn & _ & Hnorm).
  eapply lowest_terms_le; [done|lia| | |exact Hval]; nia.
Qed.
End pricing.

(** ** Examples *)

(** Three units of USD for seven of the core asset. *)
Definition third_price : price := mk_price (mk_asset 3 USD) (mk_asset 7 CORE).

Ltac in_range := vm_compute; repeat split; congruence.

Lemma asset_mul_rounds_down_witness :
  asset_mul (mk_asset 100 USD) third_price = Ok (mk_asset 233 CORE) ∧
  asset_mul (mk_asset (10 ^ 15) USD) third_price = Err AssertFailure.
Proof.
  split.
  - apply (asset_mul_rounds_down (mk_asset 100 USD) third_price 7 3 CORE);
      [in_range|in_range|reflexivity|in_range].
  - apply (asset_mul_rounds_down (mk_asset (10 ^ 15) USD) third_price 7 3 CORE);
      [in_range|in_range|reflexivity|in_range].
Defined.

Lemma multiply_and_round_up_spec_witness :
  multiply_and_round_up (mk_asset 100 USD) third_price = Ok (mk_asset 234 CORE) ∧
  multiply_and_round_up (mk_asset (10 ^ 15) USD) third_price = Err AssertFailure.
Proof.
  split.
  - apply (multiply_and_round_up_spec (mk_asset 100 USD) third_price 7 3 CORE);
      [in_range|in_range|reflexivity|in_range].
  - apply (multiply_and_round_up_spec (mk_asset (10 ^ 15) USD) third_price 7 3 CORE);
      [in_range|in_range|reflexivity|in_range].
Defined.

(** 250 units of the core asset buy 107 of USD, for which 250 are needed; 251
    buy no more. *)
Lemma exchange_pays_no_more_than_needed_witness :
  asset_mul (mk_asset 251 CORE) third_price = Ok (mk_asset 107 USD) ∧
  ∃ a', multiply_and_round_up (mk_asset 107 USD) third_price = Ok a' ∧
    amount a' = 250 ∧ asset_mul a' third_price = Ok (mk_asset 107 USD).
Proof.
  split; [reflexivity|].
  destruct (exchange_pays_no_more_than_needed (mk_asset 251 CORE) third_price (mk_asset 107 USD))
    as (a' & E & _ & _ & Hback); [in_range|in_range|in_range|reflexivity|].
  exists a'. split; [exact E|]. split; [|exact Hback]. vm_compute in E. by injection E as <-.
Defined.

Lemma price_order_witness :
  price_ltb third_price (mk_price (mk_asset 4 USD) (mk_asset 9 CORE)) = true ∧
  price_eqb third_price (mk_price (mk_asset 6 USD) (mk_asset 14 CORE)) = true ∧
  price_ltb (price_inv (mk_price (mk_asset 4 USD) (mk_asset 9 CORE))) (price_inv third_price) = true.
Proof.
  destruct (price_order third_price (mk_price (mk_asset 4 USD) (mk_asset 9 CORE))
              (mk_price (mk_asset 6 USD) (mk_asset 14 CORE))) as (_ & _ & _ & _ & Hinv);
    [in_range..|].
  split; [reflexivity|]. split; [reflexivity|]. rewrite Hinv; reflexivity.
Defined.

Lemma price_times_ratio_witness :
  ∃ np, price_mul_ratio third_price (mk_rational 11 10) = Ok np ∧ price_ok np ∧
    price_ltb np third_price = false ∧ np = mk_price (mk_asset 33 USD) (mk_asset 70 CORE).
Proof.
  destruct (price_times_ratio third_price (mk_rational 11 10)) as (np & E & Hok & _ & Hup & _);
    [in_range|in_range|].
  exists np. split; [exact E|]. split; [exact Hok|]. split; [by apply Hup|]. vm_compute in E. by injection E as <-.
Defined.

Lemma call_price_spec_witness :
  ∃ p, call_price (mk_asset 1000 USD) (mk_asset 4000 CORE) 1750 = Ok p ∧ price_in_range p ∧
    p = mk_price (mk_asset 16 CORE) (mk_asset 7 USD).
Proof.
  destruct (call_price_spec (mk_asset 1000 USD) (mk_asset 4000 CORE) 1750) as (p & E & Hr & _);
    [in_range|done|in_range|].
  exists p. split; [exact E|]. split; [exact Hr|]. vm_compute in E. by injection E as <-.
Defined.

Lemma max_short_squeeze_price_spec_witness :
  ∃ p, max_short_squeeze_price usd_feed = Ok p ∧ price_in_range p ∧
    p = mk_price (mk_asset 5 USD) (mk_asset 11 CORE).
Proof.
  destruct (max_short_squeeze_price_spec usd_feed) as (p & E & Hr & _); [in_range|in_range|].
  exists p. split; [exact E|]. split; [exact Hr|]. vm_compute in E. by injection E as <-.
Defined.

(** ** Fees paid in another asset *)
Section other_asset.
Context {X : Ext} {P : Packing}.

(** [r] is worth at least [c] of core, and no smaller amount is. *)
Definition least_worth (c : Z) (cer : price) (r : asset) : Prop :=
  (∃ back, asset_mul r cer = Ok back ∧ asset_id back = CORE ∧ c ≤ amount back) ∧
  ∀ x b, 0 ≤ x < amount r → asset_mul (mk_asset x (asset_id r)) cer = Ok b → amount b < c.

Lemma raise_fee_least c n d j cer :
  price_ok cer → rate_of CORE cer = Some (n, d, j) → 0 ≤ c ≤ GRAPHENE_MAX_SHARE_SUPPLY →
  floor_div (c * n) d ≤ GRAPHENE_MAX_SHARE_SUPPLY →
  let r := raise_fee 2 (mk_asset (floor_div (c * n) d) j) cer (mk_asset c CORE) in
  r ≠ Err OutOfFuel ∧ ∀ a, r = Ok a → least_worth c cer a.
Proof.
  intros Hcer Hrate Hc Hmax r. destruct (rate_of_ok _ _ _ _ _ Hcer Hrate) as (Hn & Hd & _ & Hback).
  pose proof (floor_div_spec (c * n) d ltac:(lia)) as Hq. set (q := floor_div (c * n) d) in *.
  assert (0 ≤ q) as Hq0 by nia.
  assert (∀ x, 0 ≤ x ≤ int64_max → asset_mul (mk_asset x j) cer = exchanged (floor_div (x * d) n) CORE) as Hmul.
  { intros x Hx. rewrite asset_mul_eq by done. simpl. by rewrite Hback. }
  assert (q + 1 ≤ int64_max) by (unfold int64_max, GRAPHENE_MAX_SHARE_SUPPLY in *; lia).
  unfold r. simpl. rewrite Hmul by lia. unfold exchanged. pose proof (floor_div_spec (q * d) n ltac:(lia)) as Hf.
  rewrite (proj2 (Z.leb_le _ _)) by nia. simpl. unfold asset_lt at 1. simpl.
  destruct (Z.ltb_spec (floor_div (q * d) n) c) as [Hlow|Hhigh].
  - unfold safe. rewrite safe64_in by (unfold in64, int64_min; lia). simpl. rewrite Hmul by lia.
    pose proof (floor_div_spec ((q + 1) * d) n ltac:(lia)) as Hf1. unfold exchanged.
    destruct (Z.leb_spec (floor_div ((q + 1) * d) n) GRAPHENE_MAX_SHARE_SUPPLY) as [Hle|]; [|done]. simpl.
    unfold asset_lt. simpl. rewrite (proj2 (Z.ltb_ge _ _)) by nia. simpl. split; [done|]. intros a [= <-]. split.
    + exists (mk_asset (floor_div ((q + 1) * d) n) CORE). rewrite Hmul by lia. split_and!; [|done|simpl; nia].
      unfold exchanged. by rewrite (proj2 (Z.leb_le _ _)).
    + simpl. intros x b Hx. rewrite Hmul by lia. intros [-> _]%exchanged_ok. simpl.
      pose proof (floor_div_spec (x * d) n ltac:(lia)). nia.
  - split; [done|]. intros a [= <-]. split.
    + exists (mk_asset (floor_div (q * d) n) CORE). rewrite Hmul by lia. split_and!; [|done|simpl; lia].
      unfold exchanged. rewrite (proj2 (Z.leb_le _ _)) by nia. done.
    + simpl. intros x b Hx. rewrite Hmul by lia. intros [-> _]%exchanged_ok. simpl.
      pose proof (floor_div_spec (x * d) n ltac:(lia)). nia.
Qed.

#[local] Arguments raise_fee : simpl never.

(** C37. A fee that is paid in another asset: at a valid core exchange rate the loop
    of [calculate_fee] ends after at most one increment, and the fee is the least
    amount of that asset that is worth the fee in core. *)
Theorem calculate_fee_least s op cer base :
  calc_fee s op = Ok base → price_ok cer →
  let scaled := fc_u128 (fc_u128 (u64 base) * fs_scale s) / GRAPHENE_100_PERCENT in
  calculate_fee s op cer ≠ Err OutOfFuel ∧ ∀ r, calculate_fee s op cer = Ok r → least_worth scaled cer r.
Proof.
  intros Hbase Hcer scaled. unfold calculate_fee. rewrite Hbase. simpl. fold scaled.
  assert (0 ≤ scaled) as H0.
  { apply Z.div_pos; [apply fc_u128_range|]. unfold GRAPHENE_100_PERCENT. lia. }
  destruct (Z.leb_spec scaled GRAPHENE_MAX_SHARE_SUPPLY) as [Hmax|]; [|done]. simpl.
  rewrite to_uint64_small by (unfold GRAPHENE_MAX_SHARE_SUPPLY in *; lia). unfold i64_of_u64.
  rewrite (proj2 (Z.leb_le scaled _)) by (unfold GRAPHENE_MAX_SHARE_SUPPLY in *; lia).
  rewrite asset_mul_eq by (try done; unfold amount_ok, int64_max, GRAPHENE_MAX_SHARE_SUPPLY in *; simpl; lia).
  simpl asset_id. simpl amount. destruct (rate_of CORE cer) as [[[n d] j]|] eqn:Hrate; [|done].
  unfold exchanged. destruct (Z.leb_spec (floor_div (scaled * n) d) GRAPHENE_MAX_SHARE_SUPPLY) as [Hq|]; [|done]. simpl.
  destruct (raise_fee_least scaled n d j cer Hcer Hrate) as [Hfuel Hleast]; [done|done|].
  destruct (raise_fee 2 _ cer _) as [a|e] eqn:E; simpl; [|split; [congruence|done]].
  destruct (amount a <=? GRAPHENE_MAX_SHARE_SUPPLY); [|done]. simpl. split; [done|]. intros r [= <-]. by apply Hleast.
Qed.
End other_asset.

(** The fee of a transfer, 20 of core, at 7 USD for 3 of core: 46 USD would be worth
    19, so the fee is 47 *)
Lemma calculate_fee_least_witness :
  let op := op_transfer (mk_transfer (mk_asset 0 CORE) alice bob (mk_asset 5 CORE) None) in
  let cer := mk_price (mk_asset 3 CORE) (mk_asset 7 USD) in
  calculate_fee sample_fees op cer = Ok (mk_asset 47 USD) ∧ least_worth 20 cer (mk_asset 47 USD).
Proof.
  split; [vm_compute; reflexivity|].
  destruct (calculate_fee_least sample_fees
    (op_transfer (mk_transfer (mk_asset 0 CORE) alice bob (mk_asset 5 CORE) None))
    (mk_price (mk_asset 3 CORE) (mk_asset 7 USD)) 20) as [_ H].
  - vm_compute. reflexivity.
  - repeat split; vm_compute; congruence.
  - apply H. vm_compute. reflexivity.
Defined.
