(* ===== verification/TargetRatio.v ===== *)
(** * Covering debt up to the target collateral ratio

    [get_max_debt_to_cover] of CallOrder.v: it returns, within the passes
    allowed, an amount between zero and the debt which brings the position
    above its target, or the whole debt. *)

From S2P Require Import Prelude Ext Config Asset Objects Parameters Governance Blocks Names Operations Validation Fees Ledger Database CallOrder Exchange Sample.

(** ** Results that are not a loop cut short *)

Definition in_time {A} (r : res A) : Prop := r ≠ Err OutOfFuel.

Create HintDb in_time.

Section in_time.
Context {X : Ext}.

Lemma in_time_ok {A} (a : A) : in_time (Ok a).
Proof. done. Qed.
Lemma in_time_bind {A B} (r : res A) (k : A → res B) :
  in_time r → (∀ a, r = Ok a → in_time (k a)) → in_time (rbind r k).
Proof. unfold in_time. destruct r as [a|e]; simpl; [eauto|congruence]. Qed.
Lemma in_time_require {A} (b : bool) (k : res A) :
  (b = true → in_time k) → in_time (require_r b k).
Proof. unfold in_time. destruct b; simpl; auto. Qed.
Lemma in_time_if {A} (b : bool) (r1 r2 : res A) :
  (b = true → in_time r1) → (b = false → in_time r2) → in_time (if b then r1 else r2).
Proof. destruct b; auto. Qed.
Lemma in_time_safe z : in_time (safe z).
Proof. unfold in_time, safe. by destruct (safe64 z). Qed.
Lemma asset_mul_in_time a p : in_time (asset_mul a p).
Proof. unfold asset_mul, in_time, require_r. by repeat case_match. Qed.
Lemma round_up_in_time a p : in_time (multiply_and_round_up a p).
Proof. unfold multiply_and_round_up, in_time, require_r. by repeat case_match. Qed.
Lemma asset_le_in_time a b : in_time (asset_le a b).
Proof. unfold asset_le, asset_lt, in_time, require_r. by case_match. Qed.
End in_time.
#[export] Hint Resolve in_time_ok in_time_safe asset_mul_in_time round_up_in_time asset_le_in_time : in_time.

Ltac in_time :=
  repeat first
    [ solve [auto with in_time]
    | apply in_time_bind; [|intros ? ?]
    | apply in_time_require; intros ?
    | apply in_time_if; intros ?
    | match goal with |- in_time (let '(_, _) := ?p in _) => destruct p end
    | match goal with |- in_time (match ?x with inl _ => _ | inr _ => _ end) => destruct x as [?|[? ?]] end ].

(** ** Rounding at a price below one *)

(** When one unit of the result is worth less than one unit of the argument,
    rounding down and back up returns the argument. *)
Lemma ceil_floor_id x n d : 0 < n → 0 < d → d ≤ n → ceil_div (floor_div (x * n) d * d) n = x.
Proof.
  intros Hn Hd Hle. pose proof (floor_div_spec (x * n) d Hd). pose proof (ceil_div_spec (floor_div (x * n) d * d) n Hn).
  nia.
Qed.
Lemma floor_ceil_id x n d : 0 < n → 0 < d → d ≤ n → floor_div (ceil_div (x * n) d * d) n = x.
Proof.
  intros Hn Hd Hle. pose proof (ceil_div_spec (x * n) d Hd). pose proof (floor_div_spec (ceil_div (x * n) d * d) n Hn).
  nia.
Qed.

#[local] Set Default Proof Using "Type*".

Section target_ratio.
Context {X : Ext}.
Variable call : call_order_object.
Variables (match_price feed_price : price) (tcr : Z).

Local Abbreviation debt := (co_debt call).
Local Abbreviation collateral := (co_collateral call).

(** The position and the prices the search starts from: positive amounts in
    range, both prices in collateral / debt format. *)
Definition position_ok : Prop :=
  0 < debt ≤ GRAPHENE_MAX_SHARE_SUPPLY ∧ 0 < collateral ≤ GRAPHENE_MAX_SHARE_SUPPLY ∧
  co_debt_type call ≠ co_collateral_type call.
Definition call_format (p : price) : Prop :=
  price_ok p ∧ asset_id (base p) = co_collateral_type call ∧ asset_id (quote p) = co_debt_type call.

(** Paying [to_pay] for [v] of the debt leaves the position above its target. *)
Definition sufficient (to_pay v : Z) : Prop :=
  ∃ cp, price_after call tcr (mk_asset to_pay (co_collateral_type call)) (mk_asset v (co_debt_type call)) = Ok cp ∧
        price_gtb cp feed_price = true.
(** [to_pay] is what the match price asks for [v] of the debt, rounded up, as the
    matching engine does. *)
Definition paid_for (to_pay v : Z) : Prop :=
  multiply_and_round_up (mk_asset v (co_debt_type call)) match_price = Ok (mk_asset to_pay (co_collateral_type call)).
Definition enough (v : Z) : Prop :=
  v = debt ∨ ∃ to_pay, 0 ≤ to_pay < collateral ∧ 0 ≤ v < debt ∧ paid_for to_pay v ∧ sufficient to_pay v.

Definition in_collateral (a : asset) : Prop := 0 ≤ amount a ∧ asset_id a = co_collateral_type call.
Definition in_debt (a : asset) : Prop := 0 ≤ amount a ∧ asset_id a = co_debt_type call.

Hypothesis Hpos : position_ok.
Hypothesis Hmatch : call_format match_price.
Hypothesis Htcr : collateral_ratio_ok tcr.

Lemma price_after_total to_pay to_cover :
  in_collateral to_pay → in_debt to_cover → amount to_pay < collateral → amount to_cover < debt →
  ∃ cp, price_after call tcr to_pay to_cover = Ok cp.
Proof.
  intros [Hp Hpi] [Hc Hci] Hpl Hcl. destruct Hpos as (Hd & Hco & Hne).
  unfold GRAPHENE_MAX_SHARE_SUPPLY, price_after, asset_sub in *. simpl.
  rewrite Hpi, Hci, !Z.eqb_refl. cbn [require_r]. rewrite !safe_in by (unfold in64, int64_min, int64_max; lia).
  cbn [rbind]. destruct (call_price_total (mk_asset (debt - amount to_cover) (co_debt_type call))
    (mk_asset (collateral - amount to_pay) (co_collateral_type call)) tcr) as (p & _ & E & _);
    [|done|done|by exists p].
  unfold int64_pair, int64_max; simpl; lia.
Qed.

Lemma to_collateral a r :
  asset_id a = co_debt_type call →
  multiply_and_round_up a match_price = Ok r ∨ asset_mul a match_price = Ok r → in_collateral r.
Proof.
  intros Ha. destruct Hmatch as (_ & Hb & Hq). destruct Hpos as (_ & _ & Hne).
  destruct a as [x i], r as [y j]; simpl in *. subst i.
  intros [H|H]; [pose proof (round_up_range _ _ _ H)|pose proof (asset_mul_range _ _ _ H)];
    (split; [simpl in *; lia|]); unfold multiply_and_round_up, asset_mul in H; simpl in *;
    rewrite <- Hq in H; (destruct (Z.eqb_spec (asset_id (quote match_price)) (asset_id (base match_price))); [congruence|]);
    rewrite Z.eqb_refl in H; inv_ok; simpl; congruence.
Qed.
Lemma to_debt a r :
  asset_id a = co_collateral_type call →
  multiply_and_round_up a match_price = Ok r ∨ asset_mul a match_price = Ok r → in_debt r.
Proof.
  intros Ha. destruct Hmatch as (_ & Hb & Hq).
  destruct a as [x i], r as [y j]; simpl in *. subst i.
  intros [H|H]; [pose proof (round_up_range _ _ _ H)|pose proof (asset_mul_range _ _ _ H)];
    (split; [simpl in *; lia|]); unfold multiply_and_round_up, asset_mul in H; simpl in *;
    rewrite <- Hb, Z.eqb_refl in H; inv_ok; simpl; congruence.
Qed.

(** ** The binary search *)

Record search_inv (st : search) : Prop := {
  inv_order : amount (min_to_pay st) ≤ amount (max_to_pay st) ∧
              amount (min_to_cover st) ≤ amount (max_to_cover st);
  inv_min_pay : in_collateral (min_to_pay st);
  inv_min_cover : in_debt (min_to_cover st);
  inv_max_pay : in_collateral (max_to_pay st) ∧ amount (max_to_pay st) ≤ collateral;
  inv_max_cover : in_debt (max_to_cover st) ∧ amount (max_to_cover st) ≤ debt;
  inv_all : amount (max_to_pay st) = collateral → amount (max_to_cover st) = debt;
  inv_paid : amount (max_to_pay st) ≠ collateral → paid_for (amount (max_to_pay st)) (amount (max_to_cover st));
  inv_ok : max_is_ok st = true → enough (amount (max_to_cover st));
}.

(** The maximum as a candidate. *)
Definition at_max (st : search) : asset * asset :=
  (set_amount (amount (max_to_pay st)) (get_collateral call),
   set_amount (amount (max_to_cover st)) (get_debt call)).

(** A candidate strictly between the ends. *)
Definition between (st : search) (c : asset * asset) : Prop :=
  in_collateral (fst c) ∧ in_debt (snd c) ∧ paid_for (amount (fst c)) (amount (snd c)) ∧
  amount (min_to_pay st) < amount (fst c) < amount (max_to_pay st) ∧
  amount (min_to_cover st) < amount (snd c) < amount (max_to_cover st).

(** The width of the interval that is halved. *)
Definition width (st : search) : Z :=
  if amount (base match_price) <? amount (quote match_price)
  then amount (max_to_pay st) - amount (min_to_pay st)
  else amount (max_to_cover st) - amount (min_to_cover st).

(** The candidate splits the interval in halves. *)
Definition halves (st : search) (c : asset * asset) : Prop :=
  if amount (base match_price) <? amount (quote match_price)
  then amount (fst c) = (amount (min_to_pay st) + amount (max_to_pay st) + 1) / 2
  else amount (snd c) = (amount (min_to_cover st) + amount (max_to_cover st)) / 2.

Lemma rates : rate_of (co_debt_type call) match_price =
    Some (amount (base match_price), amount (quote match_price), co_collateral_type call) ∧
  rate_of (co_collateral_type call) match_price =
    Some (amount (quote match_price), amount (base match_price), co_debt_type call).
Proof.
  destruct Hmatch as (_ & Hb & Hq). destruct Hpos as (_ & _ & Hne). unfold rate_of.
  rewrite Hb, Hq, !Z.eqb_refl. by destruct (Z.eqb_spec (co_debt_type call) (co_collateral_type call)).
Qed.

(** Rounding back and forth from the coarser asset loses nothing. *)
Lemma cover_pay_id m cover pay :
  amount (base match_price) < amount (quote match_price) → 0 ≤ m ≤ GRAPHENE_MAX_SHARE_SUPPLY →
  asset_mul (mk_asset m (co_collateral_type call)) match_price = Ok cover →
  multiply_and_round_up cover match_price = Ok pay → amount pay = m.
Proof.
  intros Hlt Hm H1 H2. destruct rates as [Hrd Hrc]. pose proof Hmatch as (Hok & _ & _). pose proof Hok as (Hb & Hq & _).
  pose proof (asset_mul_amount_ok _ _ _ H1) as Hcok.
  apply asset_mul_ok in H1 as (n & d & Hr & Hc); [|done|unfold amount_ok, int64_max, GRAPHENE_MAX_SHARE_SUPPLY in *; simpl; lia].
  apply round_up_ok in H2 as (n' & d' & Hr' & Hp); [|done|done].
  simpl in Hr, Hc. rewrite Hrc in Hr. injection Hr as <- <- Hi. rewrite <- Hi, Hrd in Hr'. injection Hr' as <- <- _.
  rewrite Hp, Hc. apply ceil_floor_id; lia.
Qed.
Lemma pay_cover_id m pay cover :
  amount (quote match_price) ≤ amount (base match_price) → 0 ≤ m ≤ GRAPHENE_MAX_SHARE_SUPPLY →
  multiply_and_round_up (mk_asset m (co_debt_type call)) match_price = Ok pay →
  asset_mul pay match_price = Ok cover → amount cover = m.
Proof.
  intros Hlt Hm H1 H2. destruct rates as [Hrd Hrc]. pose proof Hmatch as (Hok & _ & _). pose proof Hok as (Hb & Hq & _).
  pose proof (round_up_amount_ok _ _ _ H1) as Hcok.
  apply round_up_ok in H1 as (n & d & Hr & Hc); [|done|unfold amount_ok, int64_max, GRAPHENE_MAX_SHARE_SUPPLY in *; simpl; lia].
  apply asset_mul_ok in H2 as (n' & d' & Hr' & Hp); [|done|done].
  simpl in Hr, Hc. rewrite Hrd in Hr. injection Hr as <- <- Hi. rewrite <- Hi, Hrc in Hr'. injection Hr' as <- <- _.
  rewrite Hp, Hc. apply floor_ceil_id; lia.
Qed.

(** What was paid pays for what it buys. *)
Lemma paid_of a p : in_debt a → in_collateral p → multiply_and_round_up a match_price = Ok p → paid_for (amount p) (amount a).
Proof. unfold paid_for. destruct a, p. by intros [_ <-] [_ <-]. Qed.
Lemma paid_back m pay cover :
  0 ≤ m ≤ int64_max → multiply_and_round_up (mk_asset m (co_debt_type call)) match_price = Ok pay →
  asset_mul pay match_price = Ok cover → paid_for (amount pay) (amount cover).
Proof.
  intros Hm H1 H2. destruct rates as [Hrd Hrc]. pose proof Hmatch as (Hok & _ & _). pose proof Hok as (Hb & Hq & _).
  pose proof (round_up_amount_ok _ _ _ H1) as Hpok. pose proof (asset_mul_amount_ok _ _ _ H2) as Hcok.
  pose proof (round_up_range _ _ _ H1) as Hpr.
  apply round_up_ok in H1 as (n & d & Hr & Hp); [|done|done].
  apply asset_mul_ok in H2 as (n' & d' & Hr' & Hc); [|done|done].
  simpl in Hr, Hp. rewrite Hrd in Hr. injection Hr as <- <- Hi. rewrite <- Hi, Hrc in Hr'. injection Hr' as <- <- Hj.
  unfold paid_for. rewrite round_up_eq by done. simpl. rewrite Hrd. apply exchanged_ok.
  assert (ceil_div (amount cover * amount (base match_price)) (amount (quote match_price)) = amount pay) as ->; [|split; [done|lia]].
  rewrite Hc. set (b := amount (base match_price)) in *. set (q := amount (quote match_price)) in *.
  pose proof (ceil_div_spec (m * b) q ltac:(lia)) as H1. rewrite <- Hp in H1.
  pose proof (floor_div_spec (amount pay * q) b ltac:(lia)) as H2. set (f := floor_div _ _) in *.
  pose proof (ceil_div_spec (f * b) q ltac:(lia)) as H3. set (c := ceil_div (f * b) q) in *.
  assert (m ≤ f) by nia. assert (c ≤ amount pay) by nia. assert (amount pay ≤ c) by nia. lia.
Qed.

Lemma middle_range a b c : 0 ≤ a ≤ GRAPHENE_MAX_SHARE_SUPPLY → 0 ≤ b ≤ GRAPHENE_MAX_SHARE_SUPPLY → 0 ≤ c ≤ 1 →
  Z.quot (a + b + c) 2 = (a + b + c) / 2 ∧ 0 ≤ (a + b + c) / 2 ≤ GRAPHENE_MAX_SHARE_SUPPLY.
Proof.
  intros. split; [apply Z.quot_div_nonneg; lia|].
  split; [apply Z.div_pos; lia|]. apply Z.lt_succ_r, Z.div_lt_upper_bound; lia.
Qed.

Lemma search_mean_spec st c :
  search_inv st → search_mean call match_price st = Ok c →
  c = at_max st ∨
  in_collateral (fst c) ∧ in_debt (snd c) ∧ paid_for (amount (fst c)) (amount (snd c)) ∧ halves st c ∧
  amount (fst c) < amount (max_to_pay st) ∧ amount (snd c) < amount (max_to_cover st).
Proof.
  intros [[Ho1 Ho2] [Hmp Hmpi] [Hmc Hmci] [[HMp HMpi] HMpl] [[HMc HMci] HMcl] _ _ _].
  pose proof Hpos as (Hd & Hco & _).
  unfold search_mean, halves. destruct (Z.ltb_spec (amount (base match_price)) (amount (quote match_price))) as [Hlt|Hge];
    intros H; inv_ok.
  - destruct (middle_range (amount (min_to_pay st)) (amount (max_to_pay st)) 1) as [Hmid Hm]; [lia..|].
    rewrite Hmid in H. unfold set_amount in H at 1 2. simpl in H. set (m := (_ + 1) / 2) in *.
    destruct (Z.eqb_spec m (amount (max_to_pay st))); inv_ok; [by left|].
    rename x into cover. destruct (Z.leb_spec (amount (max_to_cover st)) (amount cover)); inv_ok; [by left|].
    rename x into pay. btrue. right. simpl.
    pose proof (to_debt (mk_asset m (co_collateral_type call)) cover ltac:(done) ltac:(by right)) as Hcov.
    pose proof (to_collateral cover pay (proj2 Hcov) ltac:(by left)) as Hpay.
    split_and!; try done; [by apply paid_of|by eapply cover_pay_id].
  - destruct (middle_range (amount (min_to_cover st)) (amount (max_to_cover st)) 0) as [Hmid Hm]; [lia..|].
    rewrite !Z.add_0_r in Hmid, Hm. rewrite Hmid in H. unfold set_amount in H at 1 2. simpl in H. set (m := (_ + _) / 2) in *.
    destruct (Z.eqb_spec m (amount (max_to_cover st))); inv_ok; [by left|].
    rename x into pay. destruct (Z.leb_spec (amount (max_to_pay st)) (amount pay)); inv_ok; [by left|].
    rename x into cover. destruct (Z.leb_spec (amount (max_to_cover st)) (amount cover)); inv_ok; [by left|].
    right. simpl.
    pose proof (to_collateral (mk_asset m (co_debt_type call)) pay ltac:(done) ltac:(by left)) as Hpay.
    pose proof (to_debt pay cover (proj2 Hpay) ltac:(by right)) as Hcov.
    split_and!; try done; [|by eapply pay_cover_id].
    eapply paid_back; [|done|done]. unfold int64_max, GRAPHENE_MAX_SHARE_SUPPLY in *. lia.
Qed.

(** What a pass through the body of the search may end with. *)
Definition search_result (st : search) (r : search_step) : Prop :=
  match r with
  | search_return v => enough v
  | search_break p c => in_collateral p ∧ in_debt c ∧ amount p < collateral ∧ amount c < debt
  | search_continue st' => search_inv st' ∧ 1 < width st ∧ 2 * width st' ≤ width st + 1
  end.

Lemma search_adjust_spec st c :
  search_inv st → search_mean call match_price st = Ok c →
  search_adjust st c = at_max st ∨ (between st (search_adjust st c) ∧ halves st (search_adjust st c)).
Proof.
  intros Hst Hc. destruct (search_mean_spec st c Hst Hc) as [->|(Hp & Hd & Hpd & Hh & Hpl & Hdl)].
  - left. unfold search_adjust, at_max, set_amount; simpl. by case_match.
  - destruct c as [p d]; simpl in *. unfold search_adjust. case_match eqn:E.
    + left. unfold at_max, set_amount; simpl. by rewrite (proj2 Hp), (proj2 Hd).
    + right. btrue. split; [|done]. split_and!; simpl; try done; lia.
Qed.

Lemma check_at_max st r :
  search_inv st → search_check call feed_price tcr st (at_max st) = Ok r → search_result st r.
Proof.
  intros [Ho Hmp Hmc [[HMp HMpi] HMpl] [[HMc HMci] HMcl] Hall Hpaid Hok]. unfold search_check, at_max. simpl.
  rewrite Z.eqb_refl. simpl. destruct (max_is_ok st) eqn:Emax; simpl; [intros [= <-]; by apply Hok|].
  destruct (Z.eqb_spec (amount (max_to_pay st)) collateral) as [E|Hne].
  { intros [= <-]. left. by apply Hall. }
  intros H. inv_ok. btrue. rename x into cp. destruct (price_gtb cp feed_price) eqn:Egt; inv_ok.
  - right. exists (amount (max_to_pay st)). split_and!; try lia; [by apply Hpaid|by exists cp].
  - split_and!; simpl; try lia; by split.
Qed.

Lemma check_between st c r :
  search_inv st → between st c → halves st c → search_check call feed_price tcr st c = Ok r →
  search_result st r.
Proof.
  intros [Ho Hmp Hmc [[HMp HMpi] HMpl] [[HMc HMci] HMcl] Hall Hpaid Hok] (Hp & Hd & Hpd & Hpb & Hdb) Hh.
  destruct c as [p d]; simpl in *. unfold search_check.
  destruct (Z.eqb_spec (amount p) (amount (max_to_pay st))); [lia|]. simpl.
  intros H. inv_ok. btrue. rename x into cp, H1 into Ecp. destruct Hp as [Hp Hpi], Hd as [Hd Hdi].
  assert (1 < width st ∧ (if amount (base match_price) <? amount (quote match_price)
     then 2 * (amount p - amount (min_to_pay st)) ≤ width st + 1 ∧ 2 * (amount (max_to_pay st) - amount p) ≤ width st + 1
     else 2 * (amount d - amount (min_to_cover st)) ≤ width st + 1 ∧ 2 * (amount (max_to_cover st) - amount d) ≤ width st + 1))
    as [Hw Hw'].
  { unfold halves, width in *. destruct (_ <? _); simpl in Hh;
      [pose proof (Z.div_mod (amount (min_to_pay st) + amount (max_to_pay st) + 1) 2 ltac:(lia));
       pose proof (Z.mod_pos_bound (amount (min_to_pay st) + amount (max_to_pay st) + 1) 2 ltac:(lia)); lia
      |pose proof (Z.div_mod (amount (min_to_cover st) + amount (max_to_cover st)) 2 ltac:(lia));
       pose proof (Z.mod_pos_bound (amount (min_to_cover st) + amount (max_to_cover st)) 2 ltac:(lia)); lia]. }
  destruct (price_gtb cp feed_price) eqn:Egt; inv_ok; (split; [|split; [done|]]).
  - split; simpl; try done; try lia; [split; [split|]; simpl; (done || lia)|split; [split|]; simpl; (done || lia)|].
    intros _. right. exists (amount p). split_and!; try lia; [done|]. exists cp.
    destruct p, d; simpl in *; subst; by split.
  - unfold width at 1; simpl. destruct (_ <? _); lia.
  - split; simpl; try done; try lia; split; simpl; (done || lia || apply Hmp || apply Hmc).
  - unfold width at 1; simpl. destruct (_ <? _); lia.
Qed.

Lemma search_body_spec st r :
  search_inv st → search_body call match_price feed_price tcr st = Ok r → search_result st r.
Proof.
  intros Hst H. unfold search_body in H. inv_ok. rename x into c.
  destruct (search_adjust_spec st c) as [E|[Hb Hh]]; [done|done|rewrite E in H; by apply check_at_max|].
  by eapply check_between.
Qed.

Lemma search_check_in_time st c :
  search_inv st → c = at_max st ∨ between st c → in_time (search_check call feed_price tcr st c).
Proof.
  intros [Ho Hmp Hmc [HMp HMpl] [HMc HMcl] _ _ _] Hc. destruct c as [p d].
  assert (in_collateral p ∧ in_debt d) as [Hp Hd].
  { destruct Hc as [[= -> ->]|(Hp & Hd & _)]; [|done]. split; split; simpl; (done || apply HMp || apply HMc). }
  unfold search_check. case_match; [done|]. apply in_time_require. intros ?. btrue.
  destruct (price_after_total p d) as (cp & ->); [done..|]. simpl. repeat case_match; done.
Qed.

Lemma search_body_in_time st :
  search_inv st → in_time (search_body call match_price feed_price tcr st).
Proof.
  intros Hst. unfold search_body. apply in_time_bind.
  - unfold search_mean. in_time.
  - intros c Hc. apply search_check_in_time; [done|].
    destruct (search_adjust_spec st c) as [E|[Hb _]]; auto.
Qed.

(** The search ends within [k + 1] passes when the interval is at most [2 ^ k]
    wide. *)
Lemma binary_search_in_time : ∀ k fuel st,
  search_inv st → width st ≤ 2 ^ Z.of_nat k → (k < fuel)%nat →
  in_time (binary_search call match_price feed_price tcr fuel st).
Proof.
  induction k as [|k IH]; intros [|fuel] st Hst Hw Hk; try lia; cbn [binary_search];
    (apply in_time_bind; [by apply search_body_in_time|]); intros r Hr;
    apply search_body_spec in Hr; try done; destruct r as [v|p c|st']; try done; destruct Hr as (Hst' & Hw1 & Hw2).
  - simpl in Hw. lia.
  - rewrite Nat2Z.inj_succ, Z.pow_succ_r in Hw by lia. apply IH; [done|lia|lia].
Qed.

Lemma binary_search_spec fuel : ∀ st r,
  search_inv st → binary_search call match_price feed_price tcr fuel st = Ok r →
  match r with
  | inl v => enough v
  | inr (p, c) => in_collateral p ∧ in_debt c ∧ amount p < collateral ∧ amount c < debt
  end.
Proof.
  induction fuel as [|fuel IH]; intros st r Hst H; cbn [binary_search] in H; [done|].
  inv_ok. rename x into step. apply search_body_spec in H0; [|done].
  destruct step; inv_ok; [done|done|]. destruct H0 as (Hst' & _). by apply (IH st0).
Qed.

(** ** The forward search *)

(** What a candidate of the forward search satisfies. *)
Definition affordable (p c : asset) : Prop :=
  in_collateral p ∧ in_debt c ∧ amount p < collateral ∧ amount c < debt.

(** The bound of the steps: no wrap-around below it. *)
Definition step_ok (d : Z) : Prop := 0 < d ≤ 2 * GRAPHENE_MAX_SHARE_SUPPLY.

Lemma step_exact d : step_ok d → i64_of_u64 d = d.
Proof.
  unfold step_ok, i64_of_u64, GRAPHENE_MAX_SHARE_SUPPLY, int64_max. intros H.
  destruct (Z.leb_spec d (2 ^ 63 - 1)); [done|lia].
Qed.

Lemma forward_end p c cp v :
  in_collateral p → in_debt c → paid_for (amount p) (amount c) → price_after call tcr p c = Ok cp →
  (if price_gtb cp feed_price then Ok (inl (amount c)) else Ok (inr (p, c))) = Ok v →
  amount p < collateral → amount c < debt →
  match v with inl v => enough v | inr (p', c') => p' = p ∧ c' = c end.
Proof.
  intros [Hp Hpi] [Hc Hci] Hpd Ecp H Hpl Hcl. destruct (price_gtb cp feed_price) eqn:E; inv_ok; [|done].
  right. exists (amount p). split_and!; try lia; [done|]. exists cp. destruct p, c; simpl in *; subst. by split.
Qed.

(** A step returns an amount that suffices, or goes on with a candidate; then
    the step was smaller than the position. *)
Lemma forward_body_spec p c d r :
  affordable p c → step_ok d →
  forward_body call match_price feed_price tcr p c d = Ok r →
  match r with inl v => enough v | inr (p', c') => affordable p' c' ∧ d < GRAPHENE_MAX_SHARE_SUPPLY end.
Proof.
  intros (Hp & Hc & Hpl & Hcl) Hd H. pose proof Hpos as (Hdebt & Hcoll & _).
  assert (enough debt) as Hall by (by left). unfold forward_body in H. rewrite step_exact in H by done.
  destruct Hp as [Hp Hpi], Hc as [Hc Hci]. unfold step_ok in Hd.
  inv_ok. rename x into cand, H0 into Hcand.
  destruct (Z.ltb_spec (amount (quote match_price)) (amount (base match_price))).
  - inv_ok. destruct (Z.leb_spec collateral (amount (set_amount (amount p + d) p))); inv_ok; [done|]. simpl in *.
    rename x into c1, H1 into Hc1. destruct (Z.leb_spec debt (amount c1)); inv_ok; [done|].
    rename x into p2, H2 into Hp2. destruct (Z.leb_spec collateral (amount p2)); inv_ok; [done|].
    pose proof (to_debt (set_amount (amount p + d) p) c1 Hpi ltac:(by right)) as Hc1d.
    pose proof (to_collateral c1 p2 (proj2 Hc1d) ltac:(by left)) as Hp2c.
    pose proof (forward_end p2 c1 _ r Hp2c Hc1d (paid_of _ _ Hc1d Hp2c H4) H6 H ltac:(lia) ltac:(lia)) as Hend. destruct r as [v|[p' c']]; [done|].
    destruct Hend as [-> ->]. split; [by split_and!|lia].
  - inv_ok. destruct (Z.leb_spec debt (amount (set_amount (amount c + d) c))); inv_ok; [done|]. simpl in *.
    rename x into p1, H1 into Hp1. destruct (Z.leb_spec collateral (amount p1)); inv_ok; [done|].
    rename x into c2, H2 into Hc2. destruct (Z.leb_spec debt (amount c2)); inv_ok; [done|].
    pose proof (to_collateral (set_amount (amount c + d) c) p1 Hci ltac:(by left)) as Hp1c.
    pose proof (to_debt p1 c2 (proj2 Hp1c) ltac:(by right)) as Hc2d.
    assert (paid_for (amount p1) (amount c2)) as Hpd.
    { eapply (paid_back (amount c + d)); [unfold int64_max, GRAPHENE_MAX_SHARE_SUPPLY in *; lia| |done]. by rewrite <- Hci. }
    pose proof (forward_end p1 c2 _ r Hp1c Hc2d Hpd H6 H ltac:(lia) ltac:(lia)) as Hend. destruct r as [v|[p' c']]; [done|].
    destruct Hend as [-> ->]. split; [by split_and!|lia].
Qed.

Lemma forward_body_in_time p c d :
  affordable p c → in_time (forward_body call match_price feed_price tcr p c d).
Proof.
  intros (Hp & Hc & Hpl & Hcl). unfold forward_body. apply in_time_bind; [in_time|].
  intros [v|[p' c']] Hcand; [done|]. apply in_time_require. intros ?. btrue.
  assert (in_collateral p' ∧ in_debt c') as [Hp' Hc'].
  { destruct Hp as [Hp Hpi], Hc as [Hc Hci].
    destruct (_ <? _); inv_ok;
      repeat match goal with H : (if ?b then _ else _) = Ok _ |- _ => destruct b; inv_ok; try done end;
      match goal with
      | Ha : asset_mul _ _ = Ok ?c2, Hr : multiply_and_round_up _ _ = Ok ?p2 |- in_collateral ?p2 ∧ in_debt ?c2 =>
        first [pose proof (to_debt (set_amount _ p) c2 Hpi (or_intror Ha)) as Hx;
               split; [apply (to_collateral c2 p2 (proj2 Hx)); by left|done]
              |pose proof (to_collateral (set_amount _ c) p2 Hci (or_introl Hr)) as Hx;
               split; [done|apply (to_debt p2 c2 (proj2 Hx)); by right]]
      end. }
  destruct (price_after_total p' c') as (cp & ->); [done..|]. simpl. repeat case_match; done.
Qed.

(** The steps grow like the Fibonacci numbers: the product of two consecutive
    ones doubles at every pass. *)
Lemma forward_search_in_time : ∀ k fuel p c d2 d3,
  affordable p c → 0 < d2 ≤ d3 → d3 ≤ 2 * d2 → d2 ≤ 2 * GRAPHENE_MAX_SHARE_SUPPLY →
  2 * GRAPHENE_MAX_SHARE_SUPPLY * GRAPHENE_MAX_SHARE_SUPPLY ≤ d2 * d3 * 2 ^ Z.of_nat k → (k < fuel)%nat →
  in_time (forward_search call match_price feed_price tcr fuel p c d2 d3).
Proof.
  induction k as [|k IH]; intros [|fuel] p c d2 d3 Hpc Hd Hd3 Hd2 Hphi Hk; try lia; cbn [forward_search];
    (apply in_time_bind; [by apply forward_body_in_time|]); intros [v|[p' c']] Hr; try done;
    apply forward_body_spec in Hr as [Hpc' Hlt]; try done; unfold step_ok, GRAPHENE_MAX_SHARE_SUPPLY in *; try lia.
  - simpl in Hphi. nia.
  - rewrite Nat2Z.inj_succ, Z.pow_succ_r in Hphi by lia. unfold u64. rewrite Z.mod_small by lia.
    apply IH; [done|lia|lia|lia| |lia]. etransitivity; [exact Hphi|].
    transitivity (2 * (d2 * d3) * 2 ^ Z.of_nat k); [lia|]. apply Z.mul_le_mono_nonneg_r; [lia|nia].
Qed.

Lemma forward_search_spec fuel : ∀ p c d2 d3 v,
  affordable p c → 0 < d2 ≤ d3 → d3 ≤ 2 * d2 → d2 ≤ 2 * GRAPHENE_MAX_SHARE_SUPPLY →
  forward_search call match_price feed_price tcr fuel p c d2 d3 = Ok v → enough v.
Proof.
  induction fuel as [|fuel IH]; intros p c d2 d3 v Hpc Hd Hd3 Hd2 H; cbn [forward_search] in H; [done|].
  inv_ok. rename x into r. apply forward_body_spec in H0; [|done|unfold step_ok; lia].
  destruct r as [w|[p' c']]; inv_ok; [done|]. destruct H0 as [Hpc' Hlt].
  unfold GRAPHENE_MAX_SHARE_SUPPLY, u64 in *. rewrite Z.mod_small in H by lia.
  eapply (IH p' c' d3 (d2 + d3)); [done|lia|lia|lia|done].
Qed.

(** ** The whole computation *)

(** The position is above its target at the feed price already. *)
Definition above_target : Prop :=
  amount (base feed_price) * debt * tcr <
  amount (quote feed_price) * collateral * GRAPHENE_COLLATERAL_RATIO_DENOM.

Hypothesis Hfeed : call_format feed_price.

Lemma cover_numerator_exact :
  cover_numerator call match_price feed_price tcr =
  amount (quote match_price) *
    (amount (base feed_price) * debt * tcr
     - amount (quote feed_price) * collateral * GRAPHENE_COLLATERAL_RATIO_DENOM).
Proof.
  destruct Hpos as (Hd & Hco & _). destruct Hmatch as ((_ & Hqm & _) & _). destruct Hfeed as ((Hbf & Hqf & _) & _).
  unfold collateral_ratio_ok, int64_max, GRAPHENE_MAX_SHARE_SUPPLY, GRAPHENE_COLLATERAL_RATIO_DENOM in *.
  unfold cover_numerator, mul256, GRAPHENE_COLLATERAL_RATIO_DENOM.
  set (a := amount (base feed_price)) in *. set (b := amount (quote feed_price)) in *. set (q := amount (quote match_price)) in *.
  assert (0 ≤ a * q < 2 ^ 126) by nia. assert (0 ≤ b * q < 2 ^ 126) by nia.
  assert (0 ≤ a * q * debt < 2 ^ 180) by nia. assert (0 ≤ b * q * collateral < 2 ^ 180) by nia.
  assert (0 ≤ a * q * debt * tcr < 2 ^ 200) by nia.
  rewrite (i256_small (a * q)), (i256_small (b * q)), (i256_small (a * q * debt)),
    (i256_small (b * q * collateral)), (i256_small (a * q * debt * tcr)),
    (i256_small (b * q * collateral * 1000)), i256_small by lia. ring.
Qed.

(** The amount to cover with its fraction is at least one. *)
Lemma fraction_positive :
  0 ≤ cover_numerator call match_price feed_price tcr → 0 < cover_denominator match_price feed_price tcr →
  1 ≤ Z.quot (i256 (cover_numerator call match_price feed_price tcr
    + mul256 (mul256 (amount (base feed_price)) (amount (quote match_price))) tcr)) (cover_denominator match_price feed_price tcr) + 1.
Proof.
  intros Hn Hd. enough (0 ≤ i256 (cover_numerator call match_price feed_price tcr
    + mul256 (mul256 (amount (base feed_price)) (amount (quote match_price))) tcr)).
  { pose proof (Z.quot_pos _ _ H Hd). lia. }
  rewrite cover_numerator_exact in *.
  destruct Hpos as (Hdebt & Hco & _). destruct Hmatch as ((_ & Hqm & _) & _). destruct Hfeed as ((Hbf & Hqf & _) & _).
  unfold collateral_ratio_ok, int64_max, GRAPHENE_MAX_SHARE_SUPPLY, GRAPHENE_COLLATERAL_RATIO_DENOM, mul256 in *.
  set (a := amount (base feed_price)) in *. set (b := amount (quote feed_price)) in *. set (q := amount (quote match_price)) in *.
  assert (0 ≤ a * q < 2 ^ 126) by nia. assert (0 ≤ a * q * debt < 2 ^ 180) by nia.
  assert (0 ≤ a * q * debt * tcr < 2 ^ 200) by nia. assert (0 ≤ b * q * collateral) by nia.
  assert (0 ≤ a * q * tcr < 2 ^ 200) by nia.
  rewrite (i256_small (a * q)), (i256_small (a * q * tcr)), i256_small by nia. nia.
Qed.

(** The upper end the search starts from: clipped to the position. *)
Lemma upper_end mp mc mp' mc' :
  in_collateral mp → in_debt mc → amount mp ≤ collateral →
  (amount mp = collateral → amount mc = debt) → (amount mp ≠ collateral → paid_for (amount mp) (amount mc)) →
  (if debt <=? amount mc then (set_amount collateral mp, set_amount debt mc) else (mp, mc)) = (mp', mc') →
  (in_collateral mp' ∧ amount mp' ≤ collateral) ∧ (in_debt mc' ∧ amount mc' ≤ debt) ∧
  (amount mp' = collateral → amount mc' = debt) ∧ (amount mp' ≠ collateral → paid_for (amount mp') (amount mc')).
Proof.
  intros [Hp Hpi] [Hc Hci] Hle Hall Hpaid. destruct Hpos as (Hd & Hco & _).
  destruct (Z.leb_spec debt (amount mc)); intros [= <- <-]; simpl; (split; [|split; [|split]]);
    try done; repeat split; simpl; (done || lia).
Qed.

(** Opens the definition of the upper end. *)
Ltac open_end :=
  repeat match goal with
  | H : (if ?b then _ else _) = Ok _ |- _ => destruct b eqn:?; inv_ok
  end.

Lemma max_to_pay_spec amt r :
  (if amt =? debt then Ok (get_collateral call)
   else multiply_and_round_up (mk_asset amt (co_debt_type call)) match_price) = Ok r →
  let r' := if collateral <? amount r then set_amount collateral r else r in
  in_collateral r' ∧ amount r' ≤ collateral ∧
  (amount r' ≠ collateral → multiply_and_round_up (mk_asset amt (co_debt_type call)) match_price = Ok r').
Proof.
  destruct Hpos as (_ & Hco & _). intros H r'.
  assert (in_collateral r) as [Hr Hri].
  { destruct (amt =? debt); inv_ok; [split; simpl; (done || lia)|].
    apply (to_collateral (mk_asset amt (co_debt_type call))); [done|by left]. }
  subst r'. destruct (Z.ltb_spec collateral (amount r)); (split; [split; simpl; (done || lia)|split; [simpl; lia|]]); [done|].
  intros Hne. destruct (amt =? debt); [|done]. by injection H as <-.
Qed.

Lemma max_to_cover_spec mp r :
  in_collateral mp →
  (if amount mp =? collateral then Ok (get_debt call) else asset_mul mp match_price) = Ok r →
  in_debt r ∧ (amount mp = collateral → amount r = debt) ∧ (amount mp ≠ collateral → asset_mul mp match_price = Ok r).
Proof.
  destruct Hpos as (Hd & _ & _). intros [Hp Hpi] H. destruct (Z.eqb_spec (amount mp) collateral); inv_ok.
  - split; [split; simpl; (done || lia)|done].
  - split; [|done]. apply (to_debt mp r Hpi). by right.
Qed.

Lemma search_start_inv p c mp mc :
  affordable p c → in_collateral mp ∧ amount mp ≤ collateral → in_debt mc ∧ amount mc ≤ debt →
  (amount mp = collateral → amount mc = debt) → (amount mp ≠ collateral → paid_for (amount mp) (amount mc)) → amount p ≤ amount mp → amount c ≤ amount mc →
  search_inv (mk_search p c mp mc false).
Proof. intros (Hp & Hc & _) Hmp Hmc Hall Hpaid Hpm Hcm. split; simpl; try done; by split. Qed.

Lemma not_strange p c mp mc sp sc :
  asset_le mp p = Ok sp → (if sp then Ok true else asset_le mc c) = Ok sc → sc = false →
  amount p < amount mp ∧ amount c < amount mc.
Proof.
  unfold asset_le, asset_lt. intros H1 H2 ->. inv_ok. destruct (Z.ltb_spec (amount p) (amount mp)); [|discriminate H2].
  simpl in H2. inv_ok. destruct (Z.ltb_spec (amount c) (amount mc)); done.
Qed.

Lemma cover_with_fraction_spec p c :
  affordable p c → 0 ≤ cover_numerator call match_price feed_price tcr → 0 < cover_denominator match_price feed_price tcr →
  in_time (cover_with_fraction call match_price feed_price tcr p c) ∧
  ∀ v, cover_with_fraction call match_price feed_price tcr p c = Ok v → enough v.
Proof.
  intros Hpc Hnum Hden. pose proof Hpos as (Hd & Hco & _). unfold cover_with_fraction. cbv zeta.
  pose proof (fraction_positive Hnum Hden) as Hamt. set (amt := if debt <=? _ then debt else _). set (start mp mc := mk_search p c mp mc false).
  assert (∀ r mc0 mp mc sp sc,
    (if amt =? debt then Ok (get_collateral call)
     else multiply_and_round_up (mk_asset amt (co_debt_type call)) match_price) = Ok r →
    let r' := if collateral <? amount r then set_amount collateral r else r in
    (if amount r' =? collateral then Ok (get_debt call) else asset_mul r' match_price) = Ok mc0 →
    (if debt <=? amount mc0 then (set_amount collateral r', set_amount debt mc0) else (r', mc0)) = (mp, mc) →
    asset_le mp p = Ok sp → (if sp then Ok true else asset_le mc c) = Ok sc → sc = false →
    search_inv (start mp mc) ∧ width (start mp mc) ≤ 2 ^ Z.of_nat 50) as Hstart.
  { intros r mc0 mp mc sp sc Hr r' Hmc0 Hend Hsp Hsc ->.
    destruct (max_to_pay_spec amt r Hr) as (Hr' & Hle & Hpay). fold r' in Hr', Hle, Hpay.
    destruct (max_to_cover_spec r' mc0 Hr' Hmc0) as (Hmc & Hall & Hcov).
    destruct (upper_end r' mc0 mp mc) as (Hmp & Hmc' & Hall' & Hpaid); [done..| |done|].
    { intros Hne. apply (paid_back amt); [|by apply Hpay|by apply Hcov].
      unfold GRAPHENE_MAX_SHARE_SUPPLY, int64_max in *. subst amt. case_match; btrue; lia. }
    destruct (not_strange p c mp mc sp false Hsp Hsc eq_refl) as [Hlp Hlc].
    split; [apply search_start_inv; (done || lia)|]. destruct Hmp as [_ Hmp], Hmc' as [_ Hmc'].
    destruct Hpc as ([Hp0 _] & [Hc0 _] & _). unfold width, start, GRAPHENE_MAX_SHARE_SUPPLY in *; simpl in *.
    change (2 ^ Z.of_nat 50) with (2 ^ 50). destruct (amount (base match_price) <? amount (quote match_price)); lia. }
  split.
  - apply in_time_bind; [in_time|]. intros r Hr. apply in_time_bind; [in_time|]. intros mc0 Hmc0.
    destruct (if debt <=? amount mc0 then _ else _) as [mp mc] eqn:Eend.
    apply in_time_bind; [in_time|]. intros sp Hsp. apply in_time_bind; [in_time|]. intros [|] Hsc; [done|].
    destruct (Hstart r mc0 mp mc sp false) as [Hinv Hw]; [done..|].
    apply in_time_bind; [apply (binary_search_in_time 50); [done|done|unfold search_fuel; lia]|].
    intros [v|[p' c']] Hb; [done|]. apply binary_search_spec in Hb; [|done].
    apply (forward_search_in_time 101); [done|lia|lia|unfold GRAPHENE_MAX_SHARE_SUPPLY; lia|done|unfold forward_fuel; lia].
  - intros v H. inv_ok. rename x into r, x0 into mc0.
    destruct (if debt <=? amount mc0 then _ else _) as [mp mc] eqn:Eend. inv_ok.
    rename x into sp, x0 into sc. destruct sc; inv_ok; [by left|].
    destruct (Hstart r mc0 mp mc sp false) as [Hinv _]; [done..|]. rename x into b.
    apply binary_search_spec in H4; [|done]. destruct b as [w|[p' c']]; inv_ok; [done|].
    by eapply (forward_search_spec forward_fuel p' c' 1 1).
Qed.

Lemma cover_formula_spec :
  in_time (cover_formula call match_price feed_price tcr) ∧
  ∀ v, cover_formula call match_price feed_price tcr = Ok v → enough v ∨ v = 0 ∧ above_target.
Proof.
  assert (∀ n p c c' p',
    asset_mul (mk_asset n (co_debt_type call)) match_price = Ok p →
    asset_mul p match_price = Ok c → multiply_and_round_up c match_price = Ok p' → c' = c →
    in_collateral p' ∧ in_debt c') as Hids.
  { intros n p c c' p' H1 H2 H3 ->.
    pose proof (to_collateral (mk_asset n (co_debt_type call)) p eq_refl (or_intror H1)) as Hp.
    pose proof (to_debt p c (proj2 Hp) (or_intror H2)) as Hc.
    split; [|done]. apply (to_collateral c p' (proj2 Hc)). by left. }
  unfold cover_formula. cbv zeta. split.
  - apply in_time_if; intros Hn; [done|]. apply in_time_if; intros Hdn; [done|]. apply in_time_if; intros _; [done|]. btrue.
    apply in_time_bind; [in_time|]. intros p1 H1. apply in_time_bind; [in_time|]. intros c H2.
    apply in_time_bind; [in_time|]. intros p2 H3. destruct (Hids _ _ _ _ _ H1 H2 H3 eq_refl) as [Hp Hc].
    apply in_time_if; intros E; [done|]. btrue. destruct (price_after_total p2 c) as (cp & ->); [done..|].
    cbn [rbind]. apply in_time_if; intros _; [done|]. by apply cover_with_fraction_spec; [|lia..].
  - intros v H. pose proof (proj1 Hmatch) as (_ & Hqm & _).
    destruct (Z.ltb_spec (cover_numerator call match_price feed_price tcr) 0) as [Hneg|Hnum]; inv_ok.
    { right. split; [done|]. rewrite cover_numerator_exact in Hneg. unfold above_target. nia. }
    left. destruct (Z.leb_spec (cover_denominator match_price feed_price tcr) 0); inv_ok; [by left|].
    destruct (_ <=? _); inv_ok; [by left|]. rename x into p1, x0 into c, x1 into p2.
    destruct (Hids _ _ _ _ _ H1 H2 H3 eq_refl) as [Hp Hc].
    destruct (_ || _) eqn:E; inv_ok; [by left|]. btrue. rename x into cp.
    destruct (price_gtb cp feed_price) eqn:Eg; inv_ok; [|by eapply cover_with_fraction_spec; [..|eassumption]; [|lia..]].
    pose proof (paid_of _ _ Hc Hp H3). destruct Hp as [Hp Hpi], Hc as [Hc Hci].
    right. exists (amount p2). split_and!; try lia; [done|]. exists cp. destruct p2, c; simpl in *; subst. by split.
Qed.
End target_ratio.

(** ** The function as a whole *)

(** A price in either format. *)
Definition price_of_call (call : call_order_object) (p : price) : Prop :=
  call_format call p ∨ call_format call (price_inv p).

(** A price brought in the format of the call price. *)
Definition as_call_format (call : call_order_object) (p : price) : price :=
  if asset_id (base p) =? co_collateral_type call then p else price_inv p.

Section whole.
Context {X : Ext}.

Lemma as_call_format_ok call p :
  position_ok call → price_of_call call p →
  in_call_format call p = Ok (as_call_format call p) ∧ call_format call (as_call_format call p).
Proof.
  intros (_ & _ & Hne) Hp. unfold in_call_format, as_call_format. fold (co_collateral_type call).
  fold (co_debt_type call). unfold call_format in Hp |- *.
  destruct (Z.eqb_spec (asset_id (base p)) (co_collateral_type call)) as [E|E]; simpl.
  - destruct Hp as [(Hok & Hb & Hq)|(Hok & Hb & Hq)]; simpl in *; [|congruence].
    by rewrite E, Hq, !Z.eqb_refl.
  - destruct Hp as [(Hok & Hb & Hq)|(Hok & Hb & Hq)]; simpl in *; [congruence|].
    by rewrite Hb, Hq, !Z.eqb_refl.
Qed.

(** A price and its inverse exchange alike. *)
Lemma round_up_as_call_format call a p :
  position_ok call → price_of_call call p →
  multiply_and_round_up a (as_call_format call p) = multiply_and_round_up a p.
Proof.
  intros (_ & _ & Hne) Hp. unfold as_call_format. destruct (Z.eqb_spec (asset_id (base p)) (co_collateral_type call)); [done|].
  unfold multiply_and_round_up. simpl.
  destruct (Z.eqb_spec (asset_id a) (asset_id (quote p))), (Z.eqb_spec (asset_id a) (asset_id (base p))); try done.
  exfalso. destruct Hp as [((_ & _ & H) & _)|((_ & _ & H) & _)]; simpl in H; congruence.
Qed.

(** Opens [get_max_debt_to_cover] at valid prices. *)
Lemma get_max_debt_to_cover_eq call mp fp mcr :
  position_ok call → price_of_call call mp → price_of_call call fp →
  get_max_debt_to_cover call mp fp mcr =
    if price_gtb (co_call_price call) (as_call_format call fp) then Ok 0
    else match co_target_collateral_ratio call with
         | None => Ok (co_debt call)
         | Some target => cover_formula call (as_call_format call mp) (as_call_format call fp) (Z.max target mcr)
         end.
Proof.
  intros Hpos Hmp Hfp. unfold get_max_debt_to_cover.
  rewrite (proj1 (as_call_format_ok call fp Hpos Hfp)). cbn [rbind]. repeat (case_match; [done|]).
  case_match; [|done]. by rewrite (proj1 (as_call_format_ok call mp Hpos Hmp)).
Qed.

(** The collateral ratio a call is covered to. *)
Definition effective_ratio (call : call_order_object) (mcr : Z) : Z :=
  Z.max (default mcr (co_target_collateral_ratio call)) mcr.

(** C12. The debt to cover lies between zero and the debt; nothing is covered
    only when the position is not called or already above its target; and a
    part of the debt is covered only if paying it off leaves a position whose
    call price at the target ratio is above the feed, when the collateral paid is
    what the match price asks for that part, rounded up as the fill rounds it. *)
Theorem get_max_debt_to_cover_sufficient call match_price feed_price mcr v :
  position_ok call → price_of_call call match_price → price_of_call call feed_price →
  collateral_ratio_ok (effective_ratio call mcr) →
  get_max_debt_to_cover call match_price feed_price mcr = Ok v →
  let fp := as_call_format call feed_price in
  0 ≤ v ≤ co_debt call ∧
  (v = co_debt call ∨
   v = 0 ∧ (price_gtb (co_call_price call) fp = true ∨
            above_target call fp (effective_ratio call mcr)) ∨
   ∃ to_pay, 0 ≤ to_pay < co_collateral call ∧
     multiply_and_round_up (mk_asset v (co_debt_type call)) match_price = Ok (mk_asset to_pay (co_collateral_type call)) ∧
     sufficient call fp (effective_ratio call mcr) to_pay v).
Proof.
  intros Hpos Hmp Hfp Hr H fp. rewrite get_max_debt_to_cover_eq in H by done. fold fp in H.
  destruct (price_gtb (co_call_price call) fp) eqn:E.
  { injection H as <-. destruct Hpos as (Hd & _). split; [lia|auto]. }
  unfold effective_ratio in *. destruct (co_target_collateral_ratio call) as [t|]; simpl in *.
  - destruct (cover_formula_spec call (as_call_format call match_price) fp (Z.max t mcr)) as [_ Hspec];
      [done|by apply as_call_format_ok|done|by apply as_call_format_ok|].
    pose proof Hpos as (Hd & _). destruct (Hspec v H) as [[->|(p & Hp & Hv & Hpd & Hs)]|[-> Ha]];
      (split; [lia|]); [by left|right; right; exists p|right; left; auto].
    split; [done|]. split; [|done]. unfold paid_for in Hpd. by rewrite round_up_as_call_format in Hpd.
  - injection H as <-. destruct Hpos as (Hd & _). split; [lia|auto].
Qed.

(** C13. The two loops of [get_max_debt_to_cover] end within the passes
    allowed: the binary search halves its interval, and the steps of the
    forward search grow past the position. *)
Theorem get_max_debt_to_cover_terminates call match_price feed_price mcr :
  position_ok call → price_of_call call match_price → price_of_call call feed_price →
  collateral_ratio_ok (effective_ratio call mcr) →
  get_max_debt_to_cover call match_price feed_price mcr ≠ Err OutOfFuel.
Proof.
  intros Hpos Hmp Hfp Hr. rewrite get_max_debt_to_cover_eq by done.
  unfold effective_ratio in *. case_match; [done|]. destruct (co_target_collateral_ratio call) as [t|]; [|done].
  apply cover_formula_spec; try done; by apply as_call_format_ok.
Qed.
End whole.

(** ** Examples: a position of 1000 USD backed by 1900 of the core asset, at
    one unit for one, to be brought to a ratio of two. *)
Definition thin_position : call_order_object :=
  mk_call_order carol 1900 1000 (mk_price (mk_asset 10 CORE) (mk_asset 10 USD)) (Some 2000).
Definition par_price : price := mk_price (mk_asset 100 USD) (mk_asset 100 CORE).
Definition squeeze_price : price := mk_price (mk_asset 100 USD) (mk_asset 110 CORE).

Ltac thin := first [vm_compute; repeat split; congruence | right; vm_compute; repeat split; congruence].

Lemma thin_covers : get_max_debt_to_cover thin_position squeeze_price par_price 1750 = Ok 113.
Proof. vm_compute. reflexivity. Qed.

Lemma get_max_debt_to_cover_sufficient_witness :
  ∃ to_pay, 0 ≤ to_pay < 1900 ∧
    multiply_and_round_up (mk_asset 113 USD) squeeze_price = Ok (mk_asset to_pay CORE) ∧
    sufficient thin_position (as_call_format thin_position par_price)
               (effective_ratio thin_position 1750) to_pay 113.
Proof.
  destruct (get_max_debt_to_cover_sufficient thin_position squeeze_price par_price 1750 113)
    as [_ [Hall|[[Hzero _]|Hpart]]]; [thin|thin|thin|thin|exact thin_covers| | |exact Hpart].
  - vm_compute in Hall. discriminate Hall.
  - discriminate Hzero.
Defined.

Lemma get_max_debt_to_cover_terminates_witness :
  position_ok thin_position ∧ get_max_debt_to_cover thin_position squeeze_price par_price 1750 ≠ Err OutOfFuel.
Proof.
  split; [thin|]. apply (get_max_debt_to_cover_terminates thin_position squeeze_price par_price 1750); thin.
Defined.
