(* ===== verification/FeedMedian.v ===== *)
(** * The current feed is the median of the feeds alive

    For Feeds.v: each field of the current feed is that field of one of the
    feeds that are alive, with at most half of them below it and less than half
    above. *)

From S2P Require Import Prelude Ext Config Asset Objects Feeds Evaluator Exchange Indices Sample.

Section median.
Context {X : Ext} {N : NthElement}.

Lemma price_order_valid (l : list price) : Forall price_ok l → strict_weak_order price_ltb l.
Proof. intros Hl. apply price_order_on. eapply Forall_impl; [done|]. auto. Qed.
End median.

(** ** Medians *)

Definition count {A} (p : A → bool) (l : list A) : nat := length (List.filter p l).

Lemma count_perm {A} (p : A → bool) l l' : l ≡ₚ l' → count p l = count p l'.
Proof. unfold count. induction 1; simpl; repeat case_match; simpl; lia. Qed.

Lemma count_app {A} (p : A → bool) l l' : count p (l ++ l') = (count p l + count p l')%nat.
Proof. unfold count. by rewrite List.filter_app, length_app. Qed.

Lemma count_le {A} (p : A → bool) l : (count p l ≤ length l)%nat.
Proof. apply List.filter_length_le. Qed.

Lemma count_none {A} (p : A → bool) l : Forall (λ x, p x = false) l → count p l = 0%nat.
Proof. unfold count. induction 1 as [|x l Hx]; simpl; [done|]. by rewrite Hx. Qed.

(** One of the values, with at most half of them below it and less than half
    above it. *)
Definition is_median {A} (less : A → A → bool) (l : list A) (v : A) : Prop :=
  v ∈ l ∧ (count (λ y, less y v) l ≤ Nat.div2 (length l))%nat ∧ (2 * count (less v) l < length l)%nat.

Lemma is_median_perm {A} (less : A → A → bool) l l' v : l ≡ₚ l' → is_median less l v → is_median less l' v.
Proof.
  intros Hl (Hv & H1 & H2). unfold is_median.
  rewrite <- (count_perm _ _ _ Hl), <- (count_perm _ _ _ Hl), <- (Permutation_length Hl). by rewrite <- Hl.
Qed.

Lemma strict_weak_order_perm {A} (less : A → A → bool) l l' :
  l ≡ₚ l' → strict_weak_order less l → strict_weak_order less l'.
Proof. intros Hl Ho. eapply strict_weak_order_sub; [exact Ho|]. intros x. by rewrite Hl. Qed.

Section median.
Context {X : Ext} {N : NthElement}.

Lemma median_by_spec {A} (less : A → A → bool) (field : price_feed → A) feeds :
  feeds ≠ [] → strict_weak_order less (field <$> feeds) →
  ∃ feeds' v, median_by less field feeds = Ok (feeds', v) ∧ feeds' ≡ₚ feeds ∧ is_median less (field <$> feeds) v.
Proof.
  intros Hne Ho%strict_weak_order_map. unfold median_by. set (n := Nat.div2 (length feeds)).
  set (less' := λ a b, less (field a) (field b)) in *.
  pose proof (nth_element_perm less' n feeds) as Hp. pose proof (Nat.div2_odd (length feeds)) as Hodd. fold n in Hodd.
  assert (0 < length feeds)%nat by (destruct feeds; simpl; [done|lia]).
  destruct (lookup_lt_is_Some_2 (nth_element less' n feeds) n) as [x Hx].
  { rewrite (Permutation_length Hp). destruct (Nat.odd (length feeds)); simpl in *; lia. }
  destruct (nth_element_split less' n feeds x Ho Hx) as (before & after & E & Hlen & Hb & Ha).
  rewrite Hx. simpl. eexists _, _. split_and!; [done|done|].
  assert (is_median less (field <$> nth_element less' n feeds) (field x)) as Hm.
  2: { eapply is_median_perm; [|exact Hm]. by rewrite Hp. }
  rewrite E in *. rewrite <- Hp in Hodd. rewrite length_app in Hodd. simpl in Hodd.
  rewrite fmap_app, fmap_cons. unfold is_median. rewrite !count_app, length_app, !length_fmap. simpl.
  assert (less (field x) (field x) = false) as Hirr.
  { apply Ho. rewrite <- Hp. set_solver. }
  split_and!; [set_solver| |].
  - unfold n in Hlen. rewrite <- (Permutation_length Hp), length_app in Hlen. simpl in Hlen.
    rewrite length_fmap, <- Hlen. unfold count at 2. simpl. rewrite Hirr. fold (count (λ y, less y (field x)) (field <$> after)).
    rewrite (count_none _ (field <$> after)); [|by apply Forall_fmap].
    pose proof (count_le (λ y, less y (field x)) (field <$> before)). rewrite length_fmap in *. lia.
  - rewrite (count_none _ (field <$> before)) by (by apply Forall_fmap).
    unfold count. simpl. rewrite Hirr. pose proof (count_le (less (field x)) (field <$> after)).
    unfold count in *. rewrite length_fmap in *. destruct (Nat.odd _); simpl in Hodd; lia.
Qed.

(** The medians of the four fields. *)
Definition median_of (feeds : list price_feed) (m : price_feed) : Prop :=
  is_median price_ltb (settlement_price <$> feeds) (settlement_price m) ∧
  is_median Z.ltb (maintenance_collateral_ratio <$> feeds) (maintenance_collateral_ratio m) ∧
  is_median Z.ltb (maximum_short_squeeze_ratio <$> feeds) (maximum_short_squeeze_ratio m) ∧
  is_median price_ltb (core_exchange_rate <$> feeds) (core_exchange_rate m).

Definition feed_prices_ok (f : price_feed) : Prop := price_ok (settlement_price f) ∧ price_ok (core_exchange_rate f).

Lemma median_feed_spec feeds :
  feeds ≠ [] → Forall feed_prices_ok feeds → ∃ m, median_feed feeds = Ok m ∧ median_of feeds m.
Proof.
  intros Hne Hok. unfold median_feed.
  assert (∀ l, l ≡ₚ feeds → l ≠ []) as Hnil.
  { intros l Hl ->. by apply Permutation_nil_l in Hl. }
  assert (∀ l, l ≡ₚ feeds → strict_weak_order price_ltb (settlement_price <$> l)) as Hs.
  { intros l Hl. apply price_order_valid, Forall_fmap. rewrite Hl. by eapply Forall_impl; [exact Hok|intros f []]. }
  assert (∀ l, l ≡ₚ feeds → strict_weak_order price_ltb (core_exchange_rate <$> l)) as Hc.
  { intros l Hl. apply price_order_valid, Forall_fmap. rewrite Hl. by eapply Forall_impl; [exact Hok|intros f []]. }
  destruct (median_by_spec price_ltb settlement_price feeds) as (l1 & v1 & -> & P1 & M1); [done|by apply Hs|].
  destruct (median_by_spec Z.ltb maintenance_collateral_ratio l1) as (l2 & v2 & E2 & P2 & M2); [by apply Hnil|apply ltb_order|].
  cbn [rbind fst]. rewrite E2. assert (l2 ≡ₚ feeds) as Q2 by (by rewrite P2).
  destruct (median_by_spec Z.ltb maximum_short_squeeze_ratio l2) as (l3 & v3 & E3 & P3 & M3); [by apply Hnil|apply ltb_order|].
  cbn [rbind fst]. rewrite E3. assert (l3 ≡ₚ feeds) as Q3 by (by rewrite P3).
  destruct (median_by_spec price_ltb core_exchange_rate l3) as (l4 & v4 & E4 & P4 & M4); [by apply Hnil|by apply Hc|].
  cbn [rbind fst]. rewrite E4. eexists. split; [done|]. unfold median_of. cbn [snd].
  split_and!; simpl; [done|..]; (eapply is_median_perm; [|eassumption]; by f_equiv).
Qed.

(** C40. The current feed is the median of the feeds that are alive: with fewer of
    them than the option [minimum_feeds] it is the null feed; otherwise each of
    its fields is that field of one of them, at most half of them have a lower
    and less than half of them a higher value; and a core exchange rate that
    changed is noted. *)
Theorem update_median_feeds_spec now b :
  let alive := snd <$> alive_feeds now b in
  Forall feed_prices_ok alive → price_ok (core_exchange_rate (bd_current_feed b)) → alive ≠ [] →
  ∃ b', update_median_feeds now b = Ok b' ∧ bd_feeds b' = bd_feeds b ∧ bd_options b' = bd_options b ∧
    if Z.of_nat (length alive) <? bo_minimum_feeds (bd_options b) then bd_current_feed b' = null_feed
    else median_of alive (bd_current_feed b') ∧
      (¬ price_same (core_exchange_rate (bd_current_feed b)) (core_exchange_rate (bd_current_feed b')) →
       bd_feed_cer_updated b' = true).
Proof.
  intros alive Hok Hcer Hne. unfold update_median_feeds. subst alive. rewrite length_fmap.
  set (feeds := alive_feeds now b) in *. set (b1 := set_bd_current_feed_publication_time _ b).
  change (bd_options b1) with (bd_options b).
  destruct (Z.of_nat (length feeds) <? bo_minimum_feeds (bd_options b)); [eexists; split; done|].
  assert (∀ m, median_of (snd <$> feeds) m → ∃ b', Ok (set_current_feed m b1) = Ok b' ∧
    bd_feeds b' = bd_feeds b ∧ bd_options b' = bd_options b ∧ median_of (snd <$> feeds) (bd_current_feed b') ∧
    (¬ price_same (core_exchange_rate (bd_current_feed b)) (core_exchange_rate (bd_current_feed b')) →
     bd_feed_cer_updated b' = true)) as Hset.
  { intros m Hm. eexists. split; [done|]. unfold set_current_feed.
    assert (price_ok (core_exchange_rate m)) as Hmc.
    { destruct Hm as (_ & _ & _ & (f & -> & Hf)%list_elem_of_fmap & _). rewrite Forall_forall in Hok. by apply Hok. }
    change (bd_current_feed b1) with (bd_current_feed b).
    destruct (price_eqb _ _) eqn:E; simpl; split_and!; try done.
    intros Hdiff. exfalso. apply Hdiff. apply price_eqb_iff; auto. }
  destruct feeds as [|f [|f' l]]; [done| |].
  - apply Hset. unfold median_of, is_median, count. simpl.
    assert (feed_prices_ok f.2) as [H1 H2] by (by inversion Hok).
    assert (∀ p, price_ok p → price_ltb p p = false) as Hirr.
    { intros p Hp. apply price_ltb_false; [auto..|]. unfold price_before. lia. }
    rewrite !Hirr, !Z.ltb_irrefl by done. simpl. split_and!; try set_solver; lia.
  - destruct (median_feed_spec (snd <$> f :: f' :: l) Hne Hok) as (m & Hrun & Hm).
    change (map snd (f :: f' :: l)) with (snd <$> f :: f' :: l). rewrite Hrun. simpl. by apply Hset.
Qed.
End median.

(** Three feeds with different prices; the one in the middle becomes current. *)
Definition feed_at (usd core : Z) : price_feed :=
  mk_price_feed (mk_price (mk_asset usd USD) (mk_asset core CORE)) (core_price USD core) 1750 1100.
Definition three_feeds : asset_bitasset_data_object :=
  mk_bitasset_data USD usd_options
    {[ alice := (sample_time - 10, feed_at 1 2); bob := (sample_time - 20, feed_at 1 7); carol := (sample_time - 30, feed_at 1 5) ]}
    usd_feed (sample_time - 10) false 0 null_price 0 false false.

Lemma update_median_feeds_spec_witness :
  length (alive_feeds sample_time three_feeds) = 3%nat ∧
  ∃ b', update_median_feeds sample_time three_feeds = Ok b' ∧
    is_median price_ltb (settlement_price <$> (snd <$> alive_feeds sample_time three_feeds))
      (settlement_price (bd_current_feed b')).
Proof.
  assert (snd <$> alive_feeds sample_time three_feeds = [feed_at 1 2; feed_at 1 7; feed_at 1 5]) as E
    by (vm_compute; reflexivity).
  assert (∀ p q, 0 < p < 10 → 0 < q < 10 → feed_prices_ok (feed_at p q)) as Hok.
  { intros p q Hp Hq. split; unfold price_ok, int64_max; simpl; (split_and!; [lia|lia|lia|lia|discriminate]). }
  pose proof (update_median_feeds_spec sample_time three_feeds) as H. cbv zeta in H. rewrite E in H.
  destruct H as (b' & Hrun & _ & _ & Hm).
  - repeat (constructor; [apply Hok; lia|]). constructor.
  - unfold price_ok, int64_max. simpl. split_and!; [lia..|discriminate].
  - discriminate.
  - split; [vm_compute; reflexivity|]. exists b'. rewrite E. split; [exact Hrun|exact (proj1 (proj1 Hm))].
Defined.
