(* ===== verification/VestingTheory.v ===== *)
(** * Vesting balances pay out what has vested

    For Vesting.v: the machine arithmetic computes the exact amounts below, what
    may be withdrawn is never negative and never more than the balance, it grows
    with time, and deposits and withdrawals change it as they should. Of the
    conditions the code asserts in debug builds, [vesting_ok] implies the ones on
    what has vested, what is available and the coin seconds; that
    [withdrawn_already] is not negative fails after a deposit in a linear
    balance, which the proofs do not need. *)

From S2P Require Import Prelude Ext Config Asset Objects Vesting.

#[local] Arguments seconds1 : simpl never.

Section vesting.
Context {X : Ext}.
Implicit Types (v : vesting_balance_object) (now : Z) (x : asset).

(** ** The exact amounts *)

(** What a linear policy has vested, from the cliff on. *)
Definition linear_vested (p : linear_vesting_policy) now : Z :=
  let elapsed := now - lv_begin_timestamp p in
  if elapsed <? lv_vesting_duration_seconds p
  then lv_begin_balance p * elapsed / lv_vesting_duration_seconds p
  else lv_begin_balance p.
Definition linear_started (p : linear_vesting_policy) now : bool :=
  (lv_begin_timestamp p <? now) && (lv_vesting_cliff_seconds p <=? now - lv_begin_timestamp p).

(** The coin seconds a policy has earned with a balance. *)
Definition coin_seconds (p : cdd_vesting_policy) (balance : Z) now : Z :=
  Z.min (cdd_coin_seconds_earned p + balance * (now - cdd_coin_seconds_earned_last_update p)) (balance * seconds1 p).

Definition available v now : Z :=
  let balance := amount (vb_balance v) in
  match vb_policy v with
  | linear_policy p =>
    if linear_started p now then linear_vested p now - (lv_begin_balance p - balance) else 0
  | cdd_policy p => if now <=? cdd_start_claim p then 0 else coin_seconds p balance now / seconds1 p
  end.

(** ** The invariant *)

Definition policy_ok (balance : Z) now (p : vesting_policy) : Prop :=
  match p with
  | linear_policy p =>
    0 ≤ lv_begin_timestamp p ∧ 0 ≤ lv_begin_balance p ≤ GRAPHENE_MAX_SHARE_SUPPLY ∧
    0 ≤ lv_vesting_duration_seconds p ∧
    lv_begin_balance p - balance ≤ (if linear_started p now then linear_vested p now else 0)
  | cdd_policy p =>
    0 ≤ cdd_vesting_seconds p < 2 ^ 32 ∧
    0 ≤ cdd_coin_seconds_earned_last_update p ≤ now ∧
    0 ≤ cdd_coin_seconds_earned p ≤ balance * seconds1 p
  end.

Record vesting_ok v now : Prop := {
  ok_now : 0 ≤ now < 2 ^ 32;
  ok_balance : 0 ≤ amount (vb_balance v) ≤ GRAPHENE_MAX_SHARE_SUPPLY;
  ok_policy : policy_ok (amount (vb_balance v)) now (vb_policy v);
}.

Lemma seconds1_pos p : 1 ≤ seconds1 p.
Proof. unfold seconds1. lia. Qed.

Lemma seconds1_earned c p : seconds1 (set_cdd_coin_seconds_earned c p) = seconds1 p.
Proof. done. Qed.
Lemma seconds1_update t p : seconds1 (set_cdd_coin_seconds_earned_last_update t p) = seconds1 p.
Proof. done. Qed.

Lemma seconds1_max p : 0 ≤ cdd_vesting_seconds p < 2 ^ 32 → 1 ≤ seconds1 p < 2 ^ 32.
Proof. unfold seconds1. lia. Qed.

Lemma coin_seconds_range p balance now :
  policy_ok balance now (cdd_policy p) → 0 ≤ balance → 0 ≤ coin_seconds p balance now ≤ balance * seconds1 p.
Proof. unfold coin_seconds. intros (? & ? & ?) ?. pose proof (seconds1_pos p). nia. Qed.

Lemma compute_coin_seconds_exact p balance now x :
  policy_ok (amount balance) now (cdd_policy p) → 0 ≤ now < 2 ^ 32 →
  0 ≤ amount balance ≤ GRAPHENE_MAX_SHARE_SUPPLY →
  compute_coin_seconds_earned p (mk_context balance now x) = coin_seconds p (amount balance) now.
Proof.
  intros (Hs & Hl & Hc) Hnow Hb. pose proof (seconds1_max p Hs) as Hs1.
  unfold GRAPHENE_MAX_SHARE_SUPPLY in Hb. unfold compute_coin_seconds_earned. simpl.
  assert (∀ k, 0 ≤ k ≤ 2 ^ 32 → 0 ≤ amount balance * k ≤ 1000000000000000 * 2 ^ 32) as Hmul.
  { intros k Hk. split; [nia|]. apply Z.mul_le_mono_nonneg; lia. }
  pose proof (Hmul (now - cdd_coin_seconds_earned_last_update p) ltac:(lia)).
  pose proof (Hmul (seconds1 p) ltac:(lia)).
  rewrite !(fc_u128_small (amount balance)) by lia.
  rewrite (fc_u128_small (amount balance * (now - _))), (fc_u128_small (amount balance * seconds1 p)) by lia.
  rewrite fc_u128_small by lia. done.
Qed.

(** What has vested grows from zero to the whole balance. *)
Lemma linear_vested_range p now :
  lv_begin_timestamp p < now → 0 ≤ lv_begin_balance p → 0 ≤ lv_vesting_duration_seconds p →
  0 ≤ linear_vested p now ≤ lv_begin_balance p.
Proof.
  intros Ht Hb Hd. unfold linear_vested. case Z.ltb_spec; intros; [|lia]. split.
  - apply Z.div_pos; nia.
  - apply Z.div_le_upper_bound; nia.
Qed.

Lemma linear_vested_mono p now now' :
  lv_begin_timestamp p < now → now ≤ now' → 0 ≤ lv_begin_balance p → 0 ≤ lv_vesting_duration_seconds p →
  linear_vested p now ≤ linear_vested p now'.
Proof.
  intros Ht Hle Hb Hd. destruct (linear_vested_range p now Ht Hb Hd) as [_ Hmax]. unfold linear_vested in *.
  case (Z.ltb_spec (now' - lv_begin_timestamp p)); intros; [|done].
  rewrite (proj2 (Z.ltb_lt _ _)) in * by lia. apply Z.div_le_mono; nia.
Qed.

Lemma linear_started_mono p now now' : now ≤ now' → linear_started p now = true → linear_started p now' = true.
Proof. unfold linear_started. rewrite !andb_true_iff, !Z.ltb_lt, !Z.leb_le. lia. Qed.

Lemma vesting_ok_later v now now' : vesting_ok v now → now ≤ now' < 2 ^ 32 → vesting_ok v now'.
Proof.
  intros [Hn Hb Hp] Hle. split; [lia|done|]. destruct (vb_policy v) as [p|p]; simpl in *.
  - destruct Hp as (? & ? & ? & Hw). split_and!; try done; try lia.
    destruct (linear_started p now) eqn:E.
    + rewrite (linear_started_mono _ _ _ (proj1 Hle) E). unfold linear_started in E. btrue.
      pose proof (linear_vested_mono p now now'). lia.
    + destruct (linear_started p now') eqn:E'; [|done]. unfold linear_started in E'. btrue.
      pose proof (linear_vested_range p now'). lia.
  - destruct Hp as (? & ? & ?). split_and!; lia.
Qed.

Lemma available_range v now : vesting_ok v now → 0 ≤ available v now ≤ amount (vb_balance v).
Proof.
  intros [Hn Hb Hp]. unfold available. destruct (vb_policy v) as [p|p].
  - destruct Hp as (Ht & Hbb & Hd & Hw). destruct (linear_started p now) eqn:E; [|lia].
    unfold linear_started in E. btrue. pose proof (linear_vested_range p now). lia.
  - destruct (now <=? cdd_start_claim p); [lia|]. pose proof (seconds1_pos p).
    pose proof (coin_seconds_range p _ now Hp (proj1 Hb)). split; [apply Z.div_pos; lia|].
    apply Z.div_le_upper_bound; lia.
Qed.

Lemma available_mono v now now' : vesting_ok v now → now ≤ now' < 2 ^ 32 → available v now ≤ available v now'.
Proof.
  intros Hok Hle. pose proof (available_range v now' (vesting_ok_later v now now' Hok Hle)) as Hr'.
  destruct Hok as [Hn Hb Hp]. unfold available in *. destruct (vb_policy v) as [p|p].
  - destruct Hp as (Ht & Hbb & Hd & Hw). destruct (linear_started p now) eqn:E; [|lia].
    rewrite (linear_started_mono _ _ _ (proj1 Hle) E) in *. unfold linear_started in E. btrue.
    pose proof (linear_vested_mono p now now'). lia.
  - destruct Hp as (Hs & Hl & Hc). case (Z.leb_spec now (cdd_start_claim p)); intros; [lia|].
    rewrite (proj2 (Z.leb_gt _ _)) by lia. pose proof (seconds1_pos p).
    apply Z.div_le_mono; [lia|]. unfold coin_seconds. nia.
Qed.

Lemma max_shares_in64 z : - (2 * GRAPHENE_MAX_SHARE_SUPPLY) ≤ z ≤ 2 * GRAPHENE_MAX_SHARE_SUPPLY → in64 z.
Proof. unfold in64, int64_min, int64_max, GRAPHENE_MAX_SHARE_SUPPLY. lia. Qed.

Lemma linear_vested_machine p now :
  lv_begin_timestamp p < now → 0 ≤ lv_begin_timestamp p → now < 2 ^ 32 →
  0 ≤ lv_begin_balance p ≤ GRAPHENE_MAX_SHARE_SUPPLY → 0 ≤ lv_vesting_duration_seconds p →
  (let elapsed_seconds := now - lv_begin_timestamp p in
   if elapsed_seconds <? lv_vesting_duration_seconds p then
     to_uint64 (fc_u128 (fc_u128 (lv_begin_balance p) * elapsed_seconds) / lv_vesting_duration_seconds p)
   else lv_begin_balance p) = linear_vested p now.
Proof.
  intros Ht Ht0 Hn Hb Hd. pose proof (linear_vested_range p now Ht (proj1 Hb) Hd) as Hr.
  unfold linear_vested in *. cbv zeta in *. unfold GRAPHENE_MAX_SHARE_SUPPLY in Hb.
  destruct (Z.ltb_spec (now - lv_begin_timestamp p) (lv_vesting_duration_seconds p)); [|done].
  rewrite (fc_u128_small (lv_begin_balance p)) by lia.
  assert (0 ≤ lv_begin_balance p * (now - lv_begin_timestamp p) ≤ 1000000000000000 * 2 ^ 32).
  { split; [nia|]. apply Z.mul_le_mono_nonneg; lia. }
  rewrite fc_u128_small by lia. apply to_uint64_small. lia.
Qed.

(** The machine computes the exact amount. *)
Lemma linear_allowed_exact v p now x :
  vesting_ok v now → vb_policy v = linear_policy p →
  linear_get_allowed_withdraw p (mk_context (vb_balance v) now x) = Ok (mk_asset (available v now) (asset_id (vb_balance v))).
Proof.
  intros Hok Hp. pose proof (available_range v now Hok) as Hr. unfold available in *. rewrite Hp in *.
  destruct Hok as [Hn Hb Hpol]. rewrite Hp in Hpol. destruct Hpol as (Ht & Hbb & Hd & Hw).
  unfold linear_get_allowed_withdraw, linear_started in *. simpl in *.
  destruct (Z.ltb_spec (lv_begin_timestamp p) now) as [Hlt|]; simpl in *; [|done].
  destruct (lv_vesting_cliff_seconds p <=? now - lv_begin_timestamp p) eqn:E; simpl in *; [|done].
  pose proof (linear_vested_machine p now Hlt Ht (proj2 Hn) Hbb Hd) as E'. cbv zeta in E'. rewrite E'.
  rewrite safe_in by (apply max_shares_in64; lia). simpl. rewrite safe_in by (apply max_shares_in64; lia). done.
Qed.

Lemma cdd_allowed_exact v p now x :
  vesting_ok v now → vb_policy v = cdd_policy p →
  cdd_get_allowed_withdraw p (mk_context (vb_balance v) now x) = mk_asset (available v now) (asset_id (vb_balance v)).
Proof.
  intros Hok Hp. pose proof (available_range v now Hok) as Hr. unfold available in *. rewrite Hp in *.
  destruct Hok as [Hn Hb Hpol]. rewrite Hp in Hpol. unfold cdd_get_allowed_withdraw.
  cbn [ctx_now ctx_balance] in *. destruct (now <=? cdd_start_claim p); [done|].
  rewrite (compute_coin_seconds_exact p (vb_balance v) now x Hpol Hn Hb).
  rewrite to_uint64_small; [done|]. unfold GRAPHENE_MAX_SHARE_SUPPLY in Hb. lia.
Qed.

(** C38. What has vested can be withdrawn: the machine arithmetic of both policies
    computes the exact amount that is available, without an overflow; the amount
    is never negative, never more than the balance, and never shrinks with
    time. *)
Theorem vesting_get_allowed_withdraw v now :
  vesting_ok v now →
  vb_get_allowed_withdraw v now = Ok (mk_asset (available v now) (asset_id (vb_balance v))) ∧
  0 ≤ available v now ≤ amount (vb_balance v) ∧
  (∀ now', now ≤ now' < 2 ^ 32 → available v now ≤ available v now').
Proof.
  intros Hok. split_and!; [|by apply available_range..|intros now'; by apply available_mono].
  unfold vb_get_allowed_withdraw. destruct (vb_policy v) as [p|p] eqn:Hp.
  - by apply linear_allowed_exact.
  - by rewrite (cdd_allowed_exact v p).
Qed.

Lemma is_withdraw_allowed_exact v now x :
  vesting_ok v now →
  vb_is_withdraw_allowed v now x = Ok true ↔
  asset_id x = asset_id (vb_balance v) ∧ amount x ≤ available v now.
Proof.
  intros Hok. unfold vb_is_withdraw_allowed. destruct (vb_policy v) as [p|p] eqn:Hp.
  - unfold linear_is_withdraw_allowed. rewrite (linear_allowed_exact v p) by done. simpl.
    case (Z.eqb_spec (asset_id x) (asset_id (vb_balance v))) as [E|]; [|naive_solver].
    unfold asset_le, asset_lt. simpl. rewrite E, Z.eqb_refl. simpl. rewrite <- Z.leb_antisym.
    split; [intros [= Hle%Z.leb_le] | intros [_ Hle%Z.leb_le]; rewrite Hle]; done.
  - unfold cdd_is_withdraw_allowed. rewrite (cdd_allowed_exact v p) by done. unfold asset_le, asset_lt. simpl.
    case (Z.eqb_spec (asset_id (vb_balance v)) (asset_id x)) as [E|]; simpl; [|naive_solver].
    rewrite E, <- Z.leb_antisym.
    split; [intros [= Hle%Z.leb_le] | intros [_ Hle%Z.leb_le]; rewrite Hle]; done.
Qed.

(** A withdrawal costs its coin seconds, which have been earned. *)
Lemma cdd_on_withdraw_exact p balance now x :
  policy_ok (amount balance) now (cdd_policy p) → 0 ≤ now < 2 ^ 32 →
  0 ≤ amount balance ≤ GRAPHENE_MAX_SHARE_SUPPLY → 0 ≤ amount x →
  amount x * seconds1 p ≤ coin_seconds p (amount balance) now →
  cdd_on_withdraw p (mk_context balance now x) =
  set_cdd_coin_seconds_earned (coin_seconds p (amount balance) now - amount x * seconds1 p)
    (set_cdd_coin_seconds_earned_last_update now p).
Proof.
  intros Hp Hn Hb Hx Hcost. unfold cdd_on_withdraw, update_coin_seconds_earned.
  rewrite (compute_coin_seconds_exact p balance now x Hp Hn Hb). cbn.
  pose proof (coin_seconds_range p _ now Hp (proj1 Hb)) as Hcs. pose proof (seconds1_max p (proj1 Hp)) as Hs1.
  unfold GRAPHENE_MAX_SHARE_SUPPLY in Hb. fold (seconds1 p).
  assert (amount balance * seconds1 p ≤ 1000000000000000 * 2 ^ 32) by (apply Z.mul_le_mono_nonneg; lia).
  rewrite ?seconds1_earned, ?seconds1_update, ?seconds1_earned.
  rewrite (fc_u128_small (amount x)) by nia. rewrite (fc_u128_small (amount x * _)) by nia.
  rewrite fc_u128_small by lia. done.
Qed.

(** C39. Withdrawing from a vesting balance: a withdrawal is allowed exactly when
    it is of the same asset and not more than what is available; an allowed one
    succeeds, takes the amount from the balance and from what is available, and
    keeps the balance in order, in particular the coin seconds it costs have been
    earned. *)
Theorem vesting_withdraw v now x :
  vesting_ok v now → 0 ≤ amount x →
  (vb_is_withdraw_allowed v now x = Ok true ↔
   asset_id x = asset_id (vb_balance v) ∧ amount x ≤ available v now) ∧
  (vb_is_withdraw_allowed v now x = Ok true →
   ∃ v', vb_withdraw v now x = Ok v' ∧ vesting_ok v' now ∧
     vb_balance v' = mk_asset (amount (vb_balance v) - amount x) (asset_id (vb_balance v)) ∧
     available v' now = available v now - amount x).
Proof.
  intros Hok Hx. split; [by apply is_withdraw_allowed_exact|]. rewrite is_withdraw_allowed_exact by done.
  intros [Hid Hle]. pose proof (available_range v now Hok) as Hr. pose proof Hok as [Hn Hb Hp].
  unfold vb_withdraw, asset_sub. rewrite Hid, Z.eqb_refl. simpl.
  rewrite safe_in by (apply max_shares_in64; lia). simpl. eexists. split; [done|].
  destruct (vb_policy v) as [p|p] eqn:Epol.
  - unfold available in *. rewrite Epol in *. simpl. destruct Hp as (Ht & Hbb & Hd & Hw).
    split_and!; [split; simpl; [done|lia|]|done|destruct (linear_started p now); lia].
    split_and!; try done; try lia. destruct (linear_started p now); lia.
  - pose proof (coin_seconds_range p _ now Hp (proj1 Hb)) as Hcs. pose proof Hp as (Hs & Hl & Hc).
    pose proof (seconds1_max p Hs) as Hs1.
    assert (amount x * seconds1 p ≤ coin_seconds p (amount (vb_balance v)) now) as Hcost.
    { unfold available in Hle. rewrite Epol in Hle. destruct (now <=? cdd_start_claim p); [nia|].
      pose proof (Z.mul_div_le (coin_seconds p (amount (vb_balance v)) now) (seconds1 p) ltac:(lia)). nia. }
    rewrite (cdd_on_withdraw_exact p (vb_balance v) now x Hp Hn Hb Hx Hcost).
    split_and!; [split; simpl; [done|lia|]|done|].
    + rewrite ?seconds1_earned, ?seconds1_update, ?seconds1_earned. split_and!; try done; try lia; nia.
    + unfold available in *. rewrite Epol in *. simpl. destruct (now <=? cdd_start_claim p); [lia|].
      unfold coin_seconds at 1. simpl. rewrite ?seconds1_earned, ?seconds1_update, ?seconds1_earned.
      rewrite Z.sub_diag, Z.mul_0_r, Z.add_0_r, Z.min_l by nia.
      replace (coin_seconds p _ now - _) with (coin_seconds p (amount (vb_balance v)) now + - amount x * seconds1 p) by lia.
      rewrite Z.div_add by lia. lia.
Qed.

Lemma sum_below_max_shares_iff (a b : asset) :
  0 ≤ amount a → 0 ≤ amount b ≤ GRAPHENE_MAX_SHARE_SUPPLY →
  sum_below_max_shares a b = Ok true ↔ amount a + amount b ≤ GRAPHENE_MAX_SHARE_SUPPLY.
Proof.
  intros Ha Hb. unfold sum_below_max_shares. rewrite (proj2 (Z.leb_le (amount b) _)) by lia. rewrite andb_true_r.
  case (Z.leb_spec (amount a) GRAPHENE_MAX_SHARE_SUPPLY); intros; [|split; [done|lia]].
  rewrite safe_in by (apply max_shares_in64; lia). simpl.
  split; [intros [= Hle%Z.leb_le] | intros Hle%Z.leb_le; rewrite Hle]; done.
Qed.

Lemma is_deposit_allowed_iff v now x :
  vesting_ok v now → 0 ≤ amount x →
  vb_is_deposit_allowed v now x = Ok true ↔
  asset_id x = asset_id (vb_balance v) ∧ amount x + amount (vb_balance v) ≤ GRAPHENE_MAX_SHARE_SUPPLY.
Proof.
  intros [Hn Hb Hp] Hx. unfold vb_is_deposit_allowed, linear_is_deposit_allowed, cdd_is_deposit_allowed. simpl.
  destruct (vb_policy v); case (Z.eqb_spec (asset_id x) (asset_id (vb_balance v)));
    try (rewrite sum_below_max_shares_iff by done); naive_solver.
Qed.

Lemma cdd_on_deposit_exact p balance now x :
  policy_ok (amount balance) now (cdd_policy p) → 0 ≤ now < 2 ^ 32 →
  0 ≤ amount balance ≤ GRAPHENE_MAX_SHARE_SUPPLY →
  cdd_on_deposit p (mk_context balance now x) =
  set_cdd_coin_seconds_earned_last_update now (set_cdd_coin_seconds_earned (coin_seconds p (amount balance) now) p).
Proof.
  intros Hp Hn Hb. unfold cdd_on_deposit, update_coin_seconds_earned.
  by rewrite (compute_coin_seconds_exact p balance now x Hp Hn Hb).
Qed.

Lemma add_balance v x :
  asset_id x = asset_id (vb_balance v) → 0 ≤ amount x → 0 ≤ amount (vb_balance v) →
  amount x + amount (vb_balance v) ≤ GRAPHENE_MAX_SHARE_SUPPLY →
  asset_add (vb_balance v) x = Ok (mk_asset (amount (vb_balance v) + amount x) (asset_id (vb_balance v))).
Proof.
  intros Hid Hx Hb Hle. unfold asset_add. rewrite Hid, Z.eqb_refl. simpl.
  rewrite safe_in by (apply max_shares_in64; lia). done.
Qed.

(** What a balance of which [earned] coin seconds are earned by [now] gives. *)
Lemma coin_seconds_now p balance earned now :
  cdd_coin_seconds_earned p = earned → cdd_coin_seconds_earned_last_update p = now → earned ≤ balance * seconds1 p →
  coin_seconds p balance now = earned.
Proof. intros He Hl Hle. unfold coin_seconds. rewrite He, Hl, Z.sub_diag, Z.mul_0_r, Z.add_0_r. lia. Qed.

(** Depositing in a vesting balance: a deposit is allowed exactly when it is of
    the same asset and the sum does not exceed the maximal share supply; an
    allowed one succeeds, adds to the balance, keeps it in order, and does not
    change what is available of a coin days balance; a linear balance that has
    passed its cliff makes the whole deposit available at once. *)
Theorem vesting_deposit v now x :
  vesting_ok v now → 0 ≤ amount x →
  (vb_is_deposit_allowed v now x = Ok true ↔
   asset_id x = asset_id (vb_balance v) ∧ amount x + amount (vb_balance v) ≤ GRAPHENE_MAX_SHARE_SUPPLY) ∧
  (vb_is_deposit_allowed v now x = Ok true →
   ∃ v', vb_deposit v now x = Ok v' ∧ vesting_ok v' now ∧
     vb_balance v' = mk_asset (amount (vb_balance v) + amount x) (asset_id (vb_balance v)) ∧
     available v' now = available v now +
       match vb_policy v with linear_policy p => if linear_started p now then amount x else 0 | cdd_policy _ => 0 end).
Proof.
  intros Hok Hx. split; [by apply is_deposit_allowed_iff|]. rewrite is_deposit_allowed_iff by done.
  intros [Hid Hle]. pose proof Hok as [Hn Hb Hp]. unfold vb_deposit.
  rewrite (add_balance v x Hid Hx (proj1 Hb) Hle). simpl. eexists. split; [done|]. unfold available.
  destruct (vb_policy v) as [p|p] eqn:Epol.
  - destruct Hp as (Ht & Hbb & Hd & Hw). simpl.
    split; [split; simpl; [done|lia|]|split; [done|destruct (linear_started p now); lia]].
    split_and!; try done; try lia.
  - pose proof (coin_seconds_range p _ now Hp (proj1 Hb)) as Hcs. pose proof Hp as (Hs & Hl & Hc).
    pose proof (seconds1_pos p). rewrite (cdd_on_deposit_exact p _ now x Hp Hn Hb).
    split; [split; simpl; [done|lia|]|split; [done|]]; rewrite ?seconds1_earned, ?seconds1_update, ?seconds1_earned.
    + split_and!; try done; try lia; nia.
    + simpl. rewrite ?seconds1_earned, ?seconds1_update, ?seconds1_earned.
      rewrite Z.add_0_r. destruct (now <=? cdd_start_claim p); [done|]. f_equal. apply coin_seconds_now; [done..|].
      rewrite ?seconds1_update, ?seconds1_earned. nia.
Qed.

(** The built-in product of a vested deposit with the vesting seconds can overflow. *)
Definition vested_coin_seconds (p : cdd_vesting_policy) x : Z := wrap64 (amount x * seconds1 p).

Lemma vested_coin_seconds_le p x : 0 ≤ amount x → vested_coin_seconds p x ≤ amount x * seconds1 p.
Proof.
  intros Hx. unfold vested_coin_seconds, wrap64. pose proof (seconds1_pos p).
  pose proof (Z.mod_le (amount x * seconds1 p + 2 ^ 63) (2 ^ 64) ltac:(nia) ltac:(lia)). lia.
Qed.

Lemma vested_coin_seconds_small p x : 0 ≤ amount x → amount x * seconds1 p < 2 ^ 63 → vested_coin_seconds p x = amount x * seconds1 p.
Proof.
  intros Hx Hlt. unfold vested_coin_seconds, wrap64. pose proof (seconds1_pos p). rewrite Z.mod_small by nia. lia.
Qed.

Lemma vb_deposit_vested_exact v p now x :
  vesting_ok v now → 0 ≤ amount x → vb_policy v = cdd_policy p → 0 ≤ vested_coin_seconds p x →
  asset_id x = asset_id (vb_balance v) → amount x + amount (vb_balance v) ≤ GRAPHENE_MAX_SHARE_SUPPLY →
  ∃ v', vb_deposit_vested v now x = Ok v' ∧ vesting_ok v' now ∧
    vb_balance v' = mk_asset (amount (vb_balance v) + amount x) (asset_id (vb_balance v)) ∧
    available v' now = if now <=? cdd_start_claim p then 0
      else (coin_seconds p (amount (vb_balance v)) now + vested_coin_seconds p x) / seconds1 p.
Proof.
  intros Hok Hx Epol Hw Hid Hle. pose proof Hok as [Hn Hb Hp]. rewrite Epol in Hp. unfold vb_deposit_vested.
  rewrite Epol. simpl. rewrite (add_balance v x Hid Hx (proj1 Hb) Hle). simpl. eexists. split; [done|].
  pose proof (coin_seconds_range p _ now Hp (proj1 Hb)) as Hcs. pose proof Hp as (Hs & Hl & Hc).
  pose proof (seconds1_max p Hs). pose proof (vested_coin_seconds_le p x Hx) as Hwle. unfold cdd_on_deposit_vested.
  rewrite (cdd_on_deposit_exact p _ now x Hp Hn Hb).
  rewrite ?seconds1_earned, ?seconds1_update, ?seconds1_earned. simpl. fold (vested_coin_seconds p x).
  assert ((amount (vb_balance v) + amount x) * seconds1 p ≤ 1000000000000000 * 2 ^ 32) as Hmax.
  { unfold GRAPHENE_MAX_SHARE_SUPPLY in Hle. apply Z.mul_le_mono_nonneg; lia. }
  rewrite (fc_u128_small (vested_coin_seconds p x)) by nia. rewrite fc_u128_small by nia. unfold available. simpl.
  split; [split; simpl; [done|lia|]|split; [done|]]; rewrite ?seconds1_earned, ?seconds1_update, ?seconds1_earned.
  - split_and!; try done; try lia; nia.
  - destruct (now <=? cdd_start_claim p); [done|]. f_equal. apply coin_seconds_now; [done..|].
    rewrite ?seconds1_earned, ?seconds1_update, ?seconds1_earned. nia.
Qed.

(** Depositing vested funds in a coin days balance: only such a policy allows it,
    under the conditions of a deposit; as long as the built-in product of the
    amount and the vesting seconds fits in 64 bits, exactly the amount becomes
    available (from the start of claims on). *)
Theorem vesting_deposit_vested v p now x :
  vesting_ok v now → 0 ≤ amount x → vb_policy v = cdd_policy p → amount x * seconds1 p < 2 ^ 63 →
  (vb_is_deposit_vested_allowed v now x = Ok true ↔
   asset_id x = asset_id (vb_balance v) ∧ amount x + amount (vb_balance v) ≤ GRAPHENE_MAX_SHARE_SUPPLY) ∧
  (vb_is_deposit_vested_allowed v now x = Ok true →
   ∃ v', vb_deposit_vested v now x = Ok v' ∧ vesting_ok v' now ∧
     vb_balance v' = mk_asset (amount (vb_balance v) + amount x) (asset_id (vb_balance v)) ∧
     available v' now = if now <=? cdd_start_claim p then 0 else available v now + amount x).
Proof.
  intros Hok Hx Epol Hsmall.
  assert (vb_is_deposit_vested_allowed v now x = vb_is_deposit_allowed v now x) as ->.
  { unfold vb_is_deposit_vested_allowed, vb_is_deposit_allowed. by rewrite Epol. }
  split; [by apply is_deposit_allowed_iff|]. rewrite is_deposit_allowed_iff by done. intros [Hid Hle].
  pose proof (vested_coin_seconds_small p x Hx Hsmall) as Ew. pose proof (seconds1_pos p).
  destruct (vb_deposit_vested_exact v p now x) as (v' & Hv & Hok' & Hb' & Ha'); [done..|rewrite Ew; nia|done|done|].
  exists v'. split_and!; [done..|]. rewrite Ha', Ew. unfold available. rewrite Epol.
  destruct (now <=? cdd_start_claim p); [done|]. by rewrite Z.div_add by lia.
Qed.

(** A vested deposit can be swallowed: for a balance that vests over a year,
    depositing 584942417356 vested shares (under six million core units of five
    digits, far below the maximal supply) is allowed and succeeds, but the product
    with the vesting seconds passes 2^64, and nearly nothing of it becomes
    available. *)
Theorem vested_deposit_overflow :
  ∃ v now x v', vesting_ok v now ∧ vb_is_deposit_vested_allowed v now x = Ok true ∧
    vb_deposit_vested v now x = Ok v' ∧ amount x = 584942417356 ∧ available v' now = 0.
Proof.
  set (p := mk_cdd_policy 31536000 0 0 1000).
  set (v := mk_vesting_balance 7 (mk_asset 0 CORE) (cdd_policy p)). set (x := mk_asset 584942417356 CORE).
  assert (vesting_ok v 1000) as Hok.
  { split; simpl; unfold GRAPHENE_MAX_SHARE_SUPPLY, seconds1; simpl; lia. }
  destruct (vb_deposit_vested_exact v p 1000 x) as (v' & Hv & Hok' & Hb' & Ha'); [done|done|done|by vm_compute|done|by vm_compute|].
  exists v, 1000, x, v'. split_and!; [done|apply (proj2 (is_deposit_allowed_iff v 1000 x Hok ltac:(done)))|done|done|rewrite Ha'; by vm_compute].
  split; [done|by vm_compute].
Qed.
End vesting.

(** ** Witnesses *)

Definition vesting_sample : vesting_balance_object :=
  mk_vesting_balance 7 (mk_asset 1000 CORE) (cdd_policy (mk_cdd_policy 100 20000 0 1000)).

Lemma vesting_sample_ok : vesting_ok vesting_sample 1050.
Proof. split; vm_compute; by split_and!. Qed.

Lemma vesting_get_allowed_withdraw_witness :
  @vb_get_allowed_withdraw ext_std vesting_sample 1050 = Ok (mk_asset (available vesting_sample 1050) CORE) ∧
  available vesting_sample 1050 = 700.
Proof. split; [exact (proj1 (vesting_get_allowed_withdraw _ _ vesting_sample_ok))|by vm_compute]. Defined.

Lemma vesting_withdraw_witness :
  ∃ v', @vb_withdraw ext_std vesting_sample 1050 (mk_asset 300 CORE) = Ok v' ∧ available v' 1050 = 400.
Proof.
  destruct (proj2 (vesting_withdraw (X := ext_std) vesting_sample 1050 (mk_asset 300 CORE) vesting_sample_ok ltac:(done))
    ltac:(vm_compute; reflexivity)) as (v' & Hv & _ & _ & Ha).
  exists v'. split; [done|]. rewrite Ha. by vm_compute.
Defined.

Lemma vesting_deposit_witness :
  ∃ v', @vb_deposit ext_std vesting_sample 1050 (mk_asset 300 CORE) = Ok v' ∧ available v' 1050 = 700.
Proof.
  destruct (proj2 (vesting_deposit (X := ext_std) vesting_sample 1050 (mk_asset 300 CORE) vesting_sample_ok ltac:(done))
    ltac:(vm_compute; reflexivity)) as (v' & Hv & _ & _ & Ha).
  exists v'. split; [done|]. rewrite Ha. by vm_compute.
Defined.

Lemma vesting_deposit_vested_witness :
  ∃ v', @vb_deposit_vested ext_std vesting_sample 1050 (mk_asset 300 CORE) = Ok v' ∧ available v' 1050 = 1000.
Proof.
  destruct (proj2 (vesting_deposit_vested (X := ext_std) vesting_sample _ 1050 (mk_asset 300 CORE) vesting_sample_ok
    ltac:(done) eq_refl ltac:(vm_compute; reflexivity)) ltac:(vm_compute; reflexivity)) as (v' & Hv & _ & _ & Ha).
  exists v'. split; [done|]. rewrite Ha. by vm_compute.
Defined.
