(* ===== verification/Slots.v ===== *)
(** * Slots and schedules

    What the clock and the schedule of WitnessSchedule.v guarantee: slots
    and times correspond, every active witness is scheduled once per round,
    missed slots are charged to the witnesses that were scheduled in them, and a
    block that becomes irreversible was confirmed by the threshold of
    witnesses. *)

From S2P Require Import Prelude Ext Config Blocks WitnessSchedule.

(** ** Slot times *)
Section slot_times.
Context {X : Ext}.
Implicit Types (d : schedule_db) (n when : Z).

Lemma u32_small z : 0 ≤ z < 2 ^ 32 → u32 z = z.
Proof. apply Z.mod_small. Qed.
Lemma u64_small z : 0 ≤ z < 2 ^ 64 → u64 z = z.
Proof. apply Z.mod_small. Qed.

(** The clock does not run over within [n] slots of the head block. *)
Record clock_fits d n : Prop := {
  fit_interval : 1 ≤ block_interval (gpo d) < 256;
  fit_skip : 0 ≤ maintenance_skip_slots (gpo d) < 256;
  fit_time : 0 ≤ dgp_time (dgp d);
  fit_head : 0 ≤ head_block_number (dgp d);
  fit_slot : 1 ≤ n;
  fit_end : dgp_time (dgp d) + (n + maintenance_skip_slots (gpo d)) * block_interval (gpo d) < 2 ^ 32;
}.

Lemma clock_fits_le d n m : clock_fits d n → 1 ≤ m ≤ n → clock_fits d m.
Proof. intros [] ?. split; try done; [lia|nia]. Qed.

Lemma get_slot_time_value d n :
  clock_fits d n →
  ∃ start, get_slot_time d n = start + n * block_interval (gpo d) ∧
    get_slot_time d 1 = start + block_interval (gpo d) ∧ 0 ≤ start ∧
    dgp_time (dgp d) < get_slot_time d 1 ∧ get_slot_time d n < 2 ^ 32.
Proof.
  intros Hfit.
  enough (∃ start, 0 ≤ start ∧ dgp_time (dgp d) < start + block_interval (gpo d) ∧
    start ≤ dgp_time (dgp d) + maintenance_skip_slots (gpo d) * block_interval (gpo d) ∧
    ∀ m, 1 ≤ m ≤ n → get_slot_time d m = start + m * block_interval (gpo d)) as (start & Hs & Ht & Hk & H).
  { exists start. pose proof (fit_slot _ _ Hfit). pose proof (fit_end _ _ Hfit). rewrite (H n), (H 1) by lia.
    split_and!; lia. }
  destruct Hfit as [Hi Hk Ht Hh Hn He]. unfold get_slot_time.
  set (i := block_interval (gpo d)) in *. set (t := dgp_time (dgp d)) in *.
  set (k := maintenance_skip_slots (gpo d)) in *.
  case (Z.eqb_spec (head_block_number (dgp d)) 0) as [_|_].
  - exists t. split_and!; [done|lia|nia|]. intros m Hm.
    rewrite (proj2 (Z.eqb_neq m 0)) by lia. rewrite u32_small by nia. apply time_add_small; nia.
  - set (flag := Z.land (dynamic_flags (dgp d)) maintenance_flag =? 0).
    pose proof (Z.div_mod t i ltac:(lia)). pose proof (Z.mod_pos_bound t i ltac:(lia)).
    assert (0 ≤ t / i) by (apply Z.div_pos; lia).
    exists (t / i * i + (if flag then 0 else k * i)). split_and!; [destruct flag; nia..|]. intros m Hm.
    rewrite (proj2 (Z.eqb_neq m 0)) by lia. destruct flag.
    + rewrite !u32_small by nia. rewrite time_add_small by nia. lia.
    + rewrite (u32_small (m + k)) by nia. rewrite !u32_small by nia. rewrite time_add_small by nia. lia.
Qed.

Lemma get_slot_at_time_value d n when :
  clock_fits d n →
  get_slot_time d n ≤ when < get_slot_time d n + block_interval (gpo d) →
  when < 2 ^ 32 → get_slot_at_time d when = n.
Proof.
  intros Hfit Hwhen Hmax. destruct (get_slot_time_value d n Hfit) as (start & En & E1 & Hs & _ & _).
  destruct Hfit as [Hi Hk Ht Hh Hn He]. unfold get_slot_at_time. rewrite E1. rewrite En in Hwhen.
  set (i := block_interval (gpo d)) in *. rewrite (proj2 (Z.ltb_ge _ _)) by nia.
  assert ((when - (start + i)) / i = n - 1) as -> by (symmetry; apply Z.div_unique with (when - (start + n * i)); nia).
  rewrite u32_small; [lia|]. nia.
Qed.

(** C36. Slots and times correspond: the time of slot [n] after the head block is
    later than the head block, is in slot [n], and so is every time before the
    next slot, [block_interval] later; times before the first slot are in slot
    0. *)
Theorem slot_time_roundtrip d n :
  clock_fits d (n + 1) → 1 ≤ n →
  dgp_time (dgp d) < get_slot_time d 1 ∧
  get_slot_time d (n + 1) = get_slot_time d n + block_interval (gpo d) ∧
  get_slot_at_time d (get_slot_time d n) = n ∧
  (∀ when, get_slot_time d n ≤ when < get_slot_time d (n + 1) → get_slot_at_time d when = n) ∧
  (∀ when, when < get_slot_time d 1 → get_slot_at_time d when = 0).
Proof.
  intros Hfit Hn. pose proof (clock_fits_le d (n + 1) n Hfit ltac:(lia)) as Hfit'.
  destruct (get_slot_time_value d n Hfit') as (s & En & E1 & Hs & Hnow & _).
  destruct (get_slot_time_value d (n + 1) Hfit) as (s' & En' & E1' & _ & _ & Hlt).
  pose proof (fit_interval _ _ Hfit). pose proof (fit_end _ _ Hfit). pose proof (fit_skip _ _ Hfit).
  assert (get_slot_time d (n + 1) = get_slot_time d n + block_interval (gpo d)) as Enext by nia.
  split_and!; try done.
  - apply get_slot_at_time_value; [done|lia|lia].
  - intros when Hwhen. apply get_slot_at_time_value; [done|lia|lia].
  - intros when Hwhen. unfold get_slot_at_time. by rewrite (proj2 (Z.ltb_lt _ _)).
Qed.
End slot_times.

(** ** The shuffle *)

Lemma swap_perm {A} i j (l : list A) :
  (i < length l)%nat → (j < length l)%nat → ∃ l', swap i j l = Ok l' ∧ l' ≡ₚ l.
Proof.
  intros [x Ei]%lookup_lt_is_Some_2 [y Ej]%lookup_lt_is_Some_2. unfold swap. rewrite Ei, Ej.
  eexists; split; [done|]. by apply Permutation_insert_swap.
Qed.

Lemma xorshift_range now_hi i : 0 ≤ xorshift now_hi i < 2 ^ 64.
Proof. apply Z.mod_pos_bound. lia. Qed.

(** No pass of the loop leaves the list. *)
Lemma shuffle_loop_perm now_hi indices l :
  Z.of_nat (length l) < 2 ^ 32 → Forall (λ i, i < length l)%nat indices →
  ∃ l', shuffle_loop now_hi indices l = Ok l' ∧ l' ≡ₚ l.
Proof.
  revert l. induction indices as [|i indices IH]; intros l Hlen His; simpl; [eauto|].
  apply Forall_cons in His as [Hi His].
  rewrite (u32_small (Z.of_nat (length l) - _)) by lia.
  pose proof (Z.mod_pos_bound (xorshift now_hi (Z.of_nat i)) (Z.of_nat (length l) - Z.of_nat i) ltac:(lia)).
  rewrite u32_small by lia.
  destruct (swap_perm i (Z.to_nat (Z.of_nat i + xorshift now_hi (Z.of_nat i) mod
    (Z.of_nat (length l) - Z.of_nat i))) l Hi) as (l' & -> & Hl'); [lia|]. simpl.
  pose proof (Permutation_length Hl') as Hlen'.
  destruct (IH l') as (l2 & -> & Hl2); rewrite ?Hlen'; [done..|]. exists l2. split; [done|]. by rewrite Hl2.
Qed.

Lemma shuffle_perm now_hi l :
  Z.of_nat (length l) < 2 ^ 32 → ∃ l', shuffle now_hi l = Ok l' ∧ l' ≡ₚ l.
Proof.
  intros Hlen. apply shuffle_loop_perm; [done|]. apply Forall_seq. lia.
Qed.

(** ** Rounds *)

(** A window of as many slots as there are witnesses visits the shuffled list
    once around. *)
Lemma get_scheduled_witness_rotate d k i :
  0 ≤ current_aslot (dgp d) → 0 ≤ k → current_aslot (dgp d) + k + Z.of_nat i < 2 ^ 64 →
  (i < length (current_shuffled_witnesses d))%nat →
  get_scheduled_witness d (k + Z.of_nat i) =
  of_option Undefined (rotate (Z.to_nat (current_aslot (dgp d) + k)) (current_shuffled_witnesses d) !! i).
Proof.
  intros Ha Hk Hmax Hi. unfold get_scheduled_witness. rewrite u64_small by lia.
  rewrite lookup_rotate_r by done. unfold rotate_nat_add. by rewrite Z2Nat.id, Z.add_assoc by lia.
Qed.

Lemma rotate_perm {A} n (l : list A) : rotate n l ≡ₚ l.
Proof. unfold rotate. rewrite (Permutation_app_comm (drop _ _)). by rewrite take_drop. Qed.

(** C34. Every active witness is scheduled once per round: renewing the schedule
    never fails, the new one is a permutation of the active witnesses, and in any
    window of as many slots as there are active witnesses each of them is
    scheduled in exactly one slot. Between renewals the schedule is kept. *)
Theorem update_witness_schedule_round d k :
  active_witnesses (gpo d) ≠ [] → Z.of_nat (length (active_witnesses (gpo d))) < 2 ^ 32 →
  0 ≤ current_aslot (dgp d) → 0 ≤ k →
  current_aslot (dgp d) + k + Z.of_nat (length (active_witnesses (gpo d))) < 2 ^ 64 →
  ∃ d', update_witness_schedule d = Ok (tt, d') ∧
    if head_block_number (dgp d) mod Z.of_nat (length (active_witnesses (gpo d))) =? 0 then
      current_shuffled_witnesses d' ≡ₚ active_witnesses (gpo d) ∧
      ∃ round, round ≡ₚ active_witnesses (gpo d) ∧
        ∀ i w, round !! i = Some w → get_scheduled_witness d' (k + Z.of_nat i) = Ok w
    else d' = d.
Proof.
  intros Hne Hlen Ha Hk Hmax. unfold update_witness_schedule, bind, gets. simpl.
  rewrite bool_decide_eq_false_2 by done. set (active := active_witnesses (gpo d)) in *.
  destruct (head_block_number (dgp d) mod Z.of_nat (length active) =? 0); [|by exists d].
  destruct (shuffle_perm (u64 (Z.shiftl (dgp_time (dgp d)) 32)) active Hlen) as (l & -> & Hl).
  eexists; split; [done|]. simpl. split; [done|].
  exists (rotate (Z.to_nat (current_aslot (dgp d) + k)) l). split; [by rewrite rotate_perm|].
  intros i w Hw. apply lookup_lt_Some in Hw as Hi. rewrite length_rotate in Hi.
  rewrite (get_scheduled_witness_rotate (set_shuffled l d)); simpl; try done; [by rewrite Hw|].
  rewrite (Permutation_length Hl) in Hi. lia.
Qed.

(** ** Missed slots *)
Section missed.
Context {X : Ext}.
Implicit Types (d : schedule_db) (w : Z).

Definition add_missed (n : Z) (c : witness_counters) : witness_counters :=
  mk_witness_counters (total_missed c + n) (last_aslot c) (last_confirmed_block_num c).

(** How many of the slots are those of witness [w]. *)
Definition scheduled_in d w (i : Z) : bool :=
  match get_scheduled_witness d i with Ok w' => w' =? w | Err _ => false end.
Definition slots_of d w (slots : list Z) : Z :=
  Z.of_nat (length (List.filter (λ i, scheduled_in d w (i + 1)) slots)).

Lemma modify_witness_ok w f d c :
  witnesses d !! w = Some c →
  modify_witness w f d = Ok (tt, set_witnesses (<[w := f c]> (witnesses d)) d).
Proof. intros Hw. unfold modify_witness. by rewrite Hw. Qed.

Lemma add_missed_0 (o : option witness_counters) : o = add_missed 0 <$> o.
Proof. destruct o as [[m a c]|]; simpl; [|done]. unfold add_missed. simpl. by rewrite Z.add_0_r. Qed.

Lemma miss_slots_charges slots d :
  Forall (λ i, ∃ w, get_scheduled_witness d (i + 1) = Ok w ∧ is_Some (witnesses d !! w)) slots →
  ∃ ws, miss_slots slots d = Ok (tt, set_witnesses ws d) ∧
    ∀ w, ws !! w = add_missed (slots_of d w slots) <$> witnesses d !! w.
Proof.
  revert d. induction slots as [|i slots IH]; intros d Hs.
  { exists (witnesses d). split; [by destruct d|]. intros w. apply add_missed_0. }
  apply Forall_cons in Hs as [(x & Hx & c & Hc) Hs].
  set (d1 := set_witnesses (<[x := miss_block c]> (witnesses d)) d).
  destruct (IH d1) as (ws & Hrun & Hws).
  { eapply Forall_impl; [exact Hs|]. intros k (w & Hw & Hc'). exists w. split; [done|]. subst d1. simpl.
    destruct (decide (w = x)) as [->|]; [rewrite lookup_insert_eq; eauto|by rewrite lookup_insert_ne]. }
  exists ws. split.
  - simpl. unfold bind at 1, gets. simpl. unfold bind at 1, lift. rewrite Hx. simpl.
    unfold bind at 1. rewrite (modify_witness_ok x _ d c Hc). exact Hrun.
  - intros w. rewrite Hws. subst d1. simpl.
    change (slots_of (set_witnesses _ d) w slots) with (slots_of d w slots).
    unfold slots_of. simpl. unfold scheduled_in at 2. rewrite Hx. destruct (Z.eqb_spec x w) as [->|Hne].
    + rewrite lookup_insert_eq, Hc. simpl. unfold add_missed, miss_block. simpl. f_equal. f_equal.
      cbn [length]. lia.
    + rewrite lookup_insert_ne by done. done.
Qed.

(** C35. A block is charged for the slots before it: a block whose time is before
    the first slot after the head block is refused; otherwise the number of
    slots left empty before the block is returned, and, unless they are a whole
    round or more, every witness is charged with exactly the empty slots it was
    scheduled in, and nothing else changes. *)
Theorem update_witness_missed_blocks_charges d b :
  Forall (λ w, is_Some (witnesses d !! w)) (current_shuffled_witnesses d) →
  let slot := get_slot_at_time d (bh_timestamp b) in
  if slot =? 0 then update_witness_missed_blocks b d = Err AssertFailure
  else ∃ ws, update_witness_missed_blocks b d = Ok (slot - 1, set_witnesses ws d) ∧
    ∀ w, ws !! w =
      add_missed (if slot - 1 <? Z.of_nat (length (current_shuffled_witnesses d))
                  then slots_of d w (seqZ 0 (slot - 1)) else 0) <$> witnesses d !! w.
Proof.
  intros Hws slot. 
  change (update_witness_missed_blocks b d) with
    (require (negb (slot =? 0)) (bind (if slot - 1 <? Z.of_nat (length (current_shuffled_witnesses d))
       then miss_slots (seqZ 0 (slot - 1)) else ret tt) (λ _, ret (slot - 1))) d).
  case (Z.eqb_spec slot 0) as [->|Hne]; [done|].
  assert (0 ≤ slot < 2 ^ 32) as Hslot.
  { subst slot. unfold get_slot_at_time. destruct (_ <? _); [lia|apply Z.mod_pos_bound; lia]. }
  case (Z.ltb_spec (slot - 1) (Z.of_nat (length (current_shuffled_witnesses d)))) as [Hlt|].
  - destruct (miss_slots_charges (seqZ 0 (slot - 1)) d) as (ws & Hrun & Hc).
    { apply Forall_seqZ. intros i Hi. simpl in *. rewrite Forall_lookup in Hws.
      pose proof (Z.mod_pos_bound (u64 (current_aslot (dgp d) + (i + 1)))
        (Z.of_nat (length (current_shuffled_witnesses d))) ltac:(lia)).
      destruct (lookup_lt_is_Some_2 (current_shuffled_witnesses d)
        (Z.to_nat (u64 (current_aslot (dgp d) + (i + 1)) mod Z.of_nat (length (current_shuffled_witnesses d))))) as [w Hw];
        [lia|]. exists w. split; [|by eapply Hws]. unfold get_scheduled_witness. by rewrite Hw. }
    exists ws. split; [|done]. cbn [negb require]. unfold bind. by rewrite Hrun.
  - exists (witnesses d). split; [by destruct d|]. intros w. apply add_missed_0.
Qed.
End missed.

(** ** Irreversible blocks *)
Section irreversible.
Context {N : NthElement}.

Lemma confirmed_before_order l : strict_weak_order confirmed_before l.
Proof.
  unfold strict_weak_order, confirmed_before. split_and!; intros; rewrite ?Z.ltb_lt, ?Z.ltb_ge, ?Z.ltb_irrefl in *; lia.
Qed.

Definition confirmed (n : Z) (l : list witness_counters) : nat :=
  length (List.filter (λ w, n <=? last_confirmed_block_num w) l).

Lemma confirmed_perm n l l' : l ≡ₚ l' → confirmed n l = confirmed n l'.
Proof. intros Hl. unfold confirmed. induction Hl; simpl; repeat case_match; simpl; lia. Qed.

Lemma confirmed_app n l l' : confirmed n (l ++ l') = (confirmed n l + confirmed n l')%nat.
Proof. unfold confirmed. by rewrite List.filter_app, length_app. Qed.

Lemma confirmed_all n l : Forall (λ w, n ≤ last_confirmed_block_num w) l → confirmed n l = length l.
Proof.
  unfold confirmed. induction 1; simpl; [done|]. rewrite (proj2 (Z.leb_le _ _)) by done. simpl. lia.
Qed.

Lemma confirmed_none n l : Forall (λ w, last_confirmed_block_num w < n) l → confirmed n l = 0%nat.
Proof. unfold confirmed. induction 1; simpl; [done|]. by rewrite (proj2 (Z.leb_gt _ _)). Qed.

Lemma get_witnesses_length ids d l : get_witnesses ids d = Ok l → length l = length ids.
Proof.
  revert l. induction ids as [|i ids IH]; intros l; simpl; [by intros [= <-]|].
  rewrite rbind_ok. intros (w & _ & Hl). apply rbind_ok in Hl as (l' & Hl & [= <-]). simpl. f_equal. by apply IH.
Qed.

Lemma irreversible_offset_spec (n k : nat) :
  (k ≤ n)%nat →
  (n - irreversible_offset n ≤ k)%nat ↔ GRAPHENE_IRREVERSIBLE_THRESHOLD * Z.of_nat n ≤ GRAPHENE_100_PERCENT * Z.of_nat k.
Proof.
  intros Hk. unfold irreversible_offset. change GRAPHENE_IRREVERSIBLE_THRESHOLD with 7000.
  change GRAPHENE_100_PERCENT with 10000.
  pose proof (Z.div_mod ((10000 - 7000) * Z.of_nat n) 10000 ltac:(lia)).
  pose proof (Z.mod_pos_bound ((10000 - 7000) * Z.of_nat n) 10000 ltac:(lia)). lia.
Qed.

(** C33. A block becomes irreversible when enough witnesses confirmed it: with
    active witnesses the update succeeds, the number of the last irreversible
    block never decreases, a new one was confirmed by at least
    [GRAPHENE_IRREVERSIBLE_THRESHOLD] percent of the active witnesses, and no
    block beyond it was; nothing else changes. *)
Theorem update_last_irreversible_block_threshold d l :
  active_witnesses (gpo d) ≠ [] → get_witnesses (active_witnesses (gpo d)) d = Ok l →
  ∃ n, update_last_irreversible_block d = Ok (tt, set_dgp (set_last_irreversible n (dgp d)) d) ∧
    last_irreversible_block_num (dgp d) ≤ n ∧
    (n = last_irreversible_block_num (dgp d) ∨
     GRAPHENE_IRREVERSIBLE_THRESHOLD * Z.of_nat (length l) ≤ GRAPHENE_100_PERCENT * Z.of_nat (confirmed n l)) ∧
    (∀ m, n < m →
     GRAPHENE_100_PERCENT * Z.of_nat (confirmed m l) < GRAPHENE_IRREVERSIBLE_THRESHOLD * Z.of_nat (length l)).
Proof.
  intros Hne Hl. pose proof (get_witnesses_length _ _ _ Hl) as Hlen.
  assert (0 < length l)%nat as Hpos by (rewrite Hlen; destruct (active_witnesses (gpo d)); simpl; [done|lia]).
  unfold update_last_irreversible_block, bind, gets, lift. simpl. rewrite Hl. simpl.
  set (offset := irreversible_offset (length l)).
  assert (offset < length l)%nat as Hoff.
  { pose proof (irreversible_offset_spec (length l) 0 ltac:(lia)) as Hs. fold offset in Hs.
    destruct (decide (offset < length l)%nat); [done|]. destruct Hs as [Hs _].
    specialize (Hs ltac:(lia)). change GRAPHENE_IRREVERSIBLE_THRESHOLD with 7000 in Hs.
    change GRAPHENE_100_PERCENT with 10000 in Hs. lia. }
  pose proof (nth_element_perm confirmed_before offset l) as Hperm.
  destruct (lookup_lt_is_Some_2 (nth_element confirmed_before offset l) offset) as [x Hx].
  { by rewrite (Permutation_length Hperm). }
  rewrite Hx. simpl. destruct (nth_element_split _ _ _ _ (confirmed_before_order l) Hx) as (before & after & E & Hb & Hbefore & Hafter).
  rewrite E in Hperm. pose proof (Permutation_length Hperm) as Hsum. rewrite length_app in Hsum. simpl in Hsum.
  assert (∀ m, last_confirmed_block_num x < m → (confirmed m l < length l - offset)%nat) as Habove.
  { intros m Hm. rewrite <- (confirmed_perm m _ _ Hperm), confirmed_app, confirmed_none.
    - unfold confirmed. simpl. rewrite (proj2 (Z.leb_gt _ _)) by done.
      pose proof (List.filter_length_le (λ w, m <=? last_confirmed_block_num w) after). lia.
    - eapply Forall_impl; [exact Hbefore|]. intros y Hy%Z.ltb_ge. simpl. lia. }
  assert (length l - offset ≤ confirmed (last_confirmed_block_num x) l)%nat as Hat.
  { rewrite <- (confirmed_perm _ _ _ Hperm), confirmed_app, (confirmed_all _ (x :: after)); [simpl; lia|].
    constructor; [lia|]. eapply Forall_impl; [exact Hafter|]. by intros y Hy%Z.ltb_ge. }
  assert (∀ m, confirmed m l ≤ length l)%nat as Hle by (intros m; apply List.filter_length_le).
  assert (∀ m, last_confirmed_block_num x < m → GRAPHENE_100_PERCENT * Z.of_nat (confirmed m l) <
    GRAPHENE_IRREVERSIBLE_THRESHOLD * Z.of_nat (length l)) as Habove'.
  { intros m Hm. apply Z.lt_nge. rewrite <- irreversible_offset_spec by apply Hle.
    specialize (Habove m Hm). fold offset. lia. }
  case (Z.ltb_spec (last_irreversible_block_num (dgp d)) (last_confirmed_block_num x)) as [Hlt|Hge].
  - exists (last_confirmed_block_num x). split_and!; [done|lia| |done]. right.
    by apply irreversible_offset_spec; [apply Hle|].
  - exists (last_irreversible_block_num (dgp d)). split_and!; [by destruct d as [[]]|lia|by left|].
    intros m Hm. apply Habove'. lia.
Qed.
End irreversible.

(** ** Accepted blocks *)
Section accepted.
Context {X : Ext} {N : NthElement} {B : BlockHash}.
Implicit Types (d : schedule_db) (b : block_header).

(** The members of [dgp] of a state, with the parameters. *)
Definition same_clock d d' : Prop := dgp d' = dgp d ∧ gpo d' = gpo d.

Lemma modify_witness_clock w f d : post (modify_witness w f) d (λ _ d', same_clock d d').
Proof. intros a d' Hm. unfold modify_witness in Hm. case_match; [|done]. injection Hm as _ <-. done. Qed.

Lemma miss_slots_clock slots d : post (miss_slots slots) d (λ _ d', same_clock d d').
Proof.
  revert d. induction slots as [|i slots IH]; intros d; simpl; [by apply post_ret|].
  repeat pstep. intros w _. pstep. pcall (modify_witness_clock w miss_block d).
  intros [] d1 [H1 H2]. pcall (IH d1). intros [] d2 [H3 H4]. split; congruence.
Qed.

Lemma missed_blocks_post b d :
  post (update_witness_missed_blocks b) d (λ missed d',
    same_clock d d' ∧ 0 < get_slot_at_time d (bh_timestamp b) ∧ missed = get_slot_at_time d (bh_timestamp b) - 1).
Proof.
  assert (0 ≤ get_slot_at_time d (bh_timestamp b)) as Hs.
  { unfold get_slot_at_time. destruct (_ <? _); [lia|apply Z.mod_pos_bound; lia]. }
  unfold update_witness_missed_blocks. repeat pstep; btrue; simpl in *.
  - pcall (miss_slots_clock). intros [] d' Hd. pstep. split_and!; [done|lia|done].
  - split_and!; [done|lia|done].
Qed.

Lemma global_dynamic_data_post checkpoint skip b missed d :
  post (update_global_dynamic_data checkpoint skip b missed) d (λ _ d',
    gpo d' = gpo d ∧ head_block_number (dgp d') = block_num b ∧ head_block_id (dgp d') = header_id b ∧
    dgp_time (dgp d') = bh_timestamp b ∧ current_aslot (dgp d') = u64 (current_aslot (dgp d) + u32 (missed + 1)) ∧
    last_irreversible_block_num (dgp d') = last_irreversible_block_num (dgp d)).
Proof.
  intros a d'. unfold update_global_dynamic_data. destruct (_ || _); [|done]. intros [= <- <-]. done.
Qed.

(** Only the number of the last irreversible block may change. *)
Definition same_head d d' : Prop :=
  gpo d' = gpo d ∧ head_block_number (dgp d') = head_block_number (dgp d) ∧
  head_block_id (dgp d') = head_block_id (dgp d) ∧ dgp_time (dgp d') = dgp_time (dgp d) ∧
  current_aslot (dgp d') = current_aslot (dgp d) ∧
  last_irreversible_block_num (dgp d) ≤ last_irreversible_block_num (dgp d').

#[export] Instance same_head_preorder : PreOrder same_head.
Proof.
  split; [by intros d; repeat split|]. intros d1 d2 d3 (?&?&?&?&?&?) (?&?&?&?&?&?).
  repeat split; try congruence. lia.
Qed.

Lemma same_clock_head d d' : same_clock d d' → same_head d d'.
Proof. intros [E1 E2]. unfold same_head. rewrite E1, E2. repeat split. lia. Qed.

Lemma last_irreversible_post d : post update_last_irreversible_block d (λ _ d', same_head d d').
Proof.
  unfold update_last_irreversible_block. repeat pstep. intros l _. repeat pstep. intros x _. repeat pstep; [|done].
  unfold same_head. btrue. split_and!; try done. simpl in *. lia.
Qed.

Lemma maintenance_flag_post m d : post (update_maintenance_flag m) d (λ _ d', same_head d d').
Proof. unfold update_maintenance_flag. pstep. split_and!; done. Qed.

Lemma witness_schedule_post d : post update_witness_schedule d (λ _ d', same_head d d').
Proof.
  unfold update_witness_schedule. repeat pstep; [|done]. intros l _. pstep. split_and!; done.
Qed.

Lemma update_signing_witness_post w b d : post (update_signing_witness w b) d (λ _ d', same_head d d').
Proof.
  unfold update_signing_witness. pstep. pstep. eapply post_mono; [apply modify_witness_clock|].
  intros u d' Hd. by apply same_clock_head.
Qed.

Lemma validate_block_header_post skip_signature skip_schedule vs b d :
  post (validate_block_header skip_signature skip_schedule vs b) d (λ w d', d' = d ∧ w = bh_witness b ∧
    head_block_id (dgp d) = bh_previous b ∧ dgp_time (dgp d) < bh_timestamp b ∧
    (skip_signature = false → vs (bh_witness b) b = true) ∧
    (skip_schedule = false →
       get_scheduled_witness d (get_slot_at_time d (bh_timestamp b)) = Ok (bh_witness b))).
Proof.
  unfold validate_block_header. do 6 pstep. intros w _. repeat pstep.
  - btrue. subst. split_and!; try done. intros ->. by destruct (vs _ _).
  - intros s Hs. repeat pstep. btrue. subst. split_and!; try done. intros ->. by destruct (vs _ _).
Qed.

Lemma slot_range d t : 0 ≤ get_slot_at_time d t < 2 ^ 32.
Proof. unfold get_slot_at_time. destruct (_ <? _); [lia|apply Z.mod_pos_bound; lia]. Qed.
End accepted.

(** ** A concrete schedule *)
#[local] Existing Instance ext_std.
#[local] Existing Instance sort_nth_element.
#[local] Instance digest_hash : BlockHash := bh_digest.

Definition sample_head : block_id := mk_block_id 8 77.
Definition sample_schedule : schedule_db :=
  mk_schedule_db (mk_dgp 8 sample_head 1600000001 7 0 12 (2 ^ 100) 0 5) (mk_gpo 3 3 [4; 7; 9])
    [7; 9; 4] {[ 4 := mk_witness_counters 0 11 7; 7 := mk_witness_counters 1 12 8; 9 := mk_witness_counters 0 9 5 ]} 4 4.
(** The third slot after the head, two slots are missed. *)
Definition sample_header : block_header := mk_block_header sample_head 1600000010 7 0 78.

Lemma sample_fits n : 1 ≤ n ≤ 1000 → clock_fits sample_schedule n.
Proof. intros Hn. split; simpl; lia. Qed.

Lemma slot_time_roundtrip_witness :
  clock_fits sample_schedule 3 ∧ get_slot_time sample_schedule 2 = 1600000005 ∧
  get_slot_at_time sample_schedule 1600000005 = 2 ∧ get_slot_at_time sample_schedule 1600000007 = 2.
Proof.
  pose proof (slot_time_roundtrip sample_schedule 2 (sample_fits 3 ltac:(lia)) ltac:(lia)) as (_ & _ & H1 & H2 & _).
  split_and!; [apply sample_fits; lia|vm_compute; reflexivity|exact H1|].
  apply H2. vm_compute. split; [discriminate|reflexivity].
Defined.

Lemma update_witness_schedule_round_witness :
  let d := set_dgp (mk_dgp 9 sample_head 1600000001 7 0 12 (2 ^ 100) 0 5) sample_schedule in
  ∃ d', update_witness_schedule d = Ok (tt, d') ∧ current_shuffled_witnesses d' ≡ₚ [4; 7; 9].
Proof.
  intros d.
  destruct (update_witness_schedule_round d 1 ltac:(discriminate) ltac:(reflexivity) ltac:(discriminate)
    ltac:(discriminate) ltac:(reflexivity)) as (d' & Hrun & Hround).
  exists d'. split; [exact Hrun|]. exact (proj1 Hround).
Defined.

Lemma update_witness_missed_blocks_charges_witness :
  ∃ ws, update_witness_missed_blocks sample_header sample_schedule = Ok (2, set_witnesses ws sample_schedule) ∧
    total_missed <$> ws !! 9 = Some 1 ∧ total_missed <$> ws !! 7 = Some 1.
Proof.
  assert (Forall (λ w, is_Some (witnesses sample_schedule !! w)) (current_shuffled_witnesses sample_schedule)) as H.
  { repeat constructor; by eexists. }
  destruct (update_witness_missed_blocks_charges sample_schedule sample_header H) as (ws & Hrun & Hws).
  exists ws. split_and!; [exact Hrun|rewrite Hws; vm_compute; reflexivity..].
Defined.

Lemma update_last_irreversible_block_threshold_witness :
  ∃ n l, get_witnesses [4; 7; 9] sample_schedule = Ok l ∧
    update_last_irreversible_block sample_schedule =
      Ok (tt, set_dgp (set_last_irreversible n (dgp sample_schedule)) sample_schedule) ∧ 5 ≤ n.
Proof.
  destruct (get_witnesses [4; 7; 9] sample_schedule) as [l|] eqn:E; [|discriminate].
  destruct (update_last_irreversible_block_threshold sample_schedule l ltac:(discriminate) E) as (n & Hrun & Hn & _).
  exists n, l. split_and!; [done|exact Hrun|exact Hn].
Defined.
