(* ===== verification/BlockTheory.v ===== *)
(** * What the chain accepts

    The outcome of [_apply_block] (ApplyBlock.v): what an accepted block
    satisfied, and the head of the chain it leaves. *)

From S2P Require Import Prelude Ext Config Asset Objects Parameters Governance Blocks Names Operations Validation Fees Ledger Authority Database Balance Market Evaluator ContractEval ProposalEval Maintenance Update Transactions SignedBlocks WitnessSchedule ApplyBlock EvalSupply Frame ChainSupply MaintenanceSupply BlockSupply Sample Slots.

Lemma post_schedule {A} (m : M schedule_db A) c (Q : A → chain → Prop) :
  post m (schedule_of c) (λ x d, Q x (put_schedule d c)) → post (on_schedule m) c Q.
Proof.
  intros Hm x c'. unfold on_schedule. destruct (m (schedule_of c)) as [[y d]|] eqn:E; simpl; [|done].
  intros [= <- <-]. by apply Hm.
Qed.

(** ** What the steps leave alone *)

(** The head of the chain and its clock, up to the last irreversible block. *)
Definition kept_head (c c' : chain) : Prop :=
  head_block_number (c_dgp c') = head_block_number (c_dgp c) ∧
  WitnessSchedule.head_block_id (c_dgp c') = WitnessSchedule.head_block_id (c_dgp c) ∧
  current_aslot (c_dgp c') = current_aslot (c_dgp c) ∧
  d_head_block_time (c_db c') = d_head_block_time (c_db c) ∧
  last_irreversible_block_num (c_dgp c) ≤ last_irreversible_block_num (c_dgp c').

#[export] Instance kept_head_preorder : PreOrder kept_head.
Proof.
  split; [intros c; by repeat split|]. intros c1 c2 c3 (?&?&?&?&?) (?&?&?&?&?). repeat split; try congruence. lia.
Qed.

Lemma head_on_db {A} (m : DB A) c : keeps_now m → post (on_db m) c (λ _ c', kept_head c c').
Proof. intros Hm. apply post_on_db. pcall Hm. intros x s E. repeat split; [done|simpl; lia]. Qed.
Lemma head_on_schedule {A} (m : M schedule_db A) c :
  post m (schedule_of c) (λ _ d', same_head (schedule_of c) d') → post (on_schedule m) c (λ _ c', kept_head c c').
Proof. intros Hm. apply post_schedule. pcall Hm. intros x d (_ & ? & ? & ? & ? & ?). by repeat split. Qed.

Section block_theory.
Context {X : Ext} {P : Packing} {N : NthElement} {K : KeyAddresses} {C : ContractMachine} {T : TransactionCrypto}.
Context {B : BlockHash} {H : MerkleHash} {G : BlockSigner}.

(** What the slots depend on. *)
Definition slots_of (c : chain) : dynamic_global_property_object * global_property_object :=
  (dgp (schedule_of c), gpo (schedule_of c)).

Definition same_slots (c c' : chain) : Prop := slots_of c' = slots_of c.

Lemma slots_on_db {A} (m : DB A) c : keeps_epoch m → post (on_db m) c (λ _ c', same_slots c c').
Proof.
  intros Hm. apply post_on_db. pcall Hm. intros x s E. unfold epoch in E. injection E as E1 E2 E3 E4 E5.
  unfold same_slots, slots_of, schedule_of. simpl. congruence.
Qed.

Lemma slot_of_slots c c' t :
  same_slots c c' → get_slot_at_time (schedule_of c') t = get_slot_at_time (schedule_of c) t.
Proof.
  intros E. pose proof (f_equal fst E : dgp (schedule_of c') = dgp (schedule_of c)) as E1.
  pose proof (f_equal snd E : gpo (schedule_of c') = gpo (schedule_of c)) as E2.
  unfold get_slot_at_time, get_slot_time. by rewrite E1, E2.
Qed.

(** A step of a run, by what it is known to do. *)
Lemma post_step {S A D} (m : M S A) (k : A → M S D) (s : S) (R : S → S → Prop) (Q : D → S → Prop) :
  post m s (λ _ s', R s s') → (∀ x s', R s s' → post (k x) s' Q) → post (bind m k) s Q.
Proof. intros Hm Hk. apply post_bind. pcall Hm. intros x s' HR. by apply Hk. Qed.

(** ** The end of a block *)

Lemma finish_block_head skip b w maint_needed c : post (finish_block skip b w maint_needed) c (λ _ c', kept_head c c').
Proof.
  unfold finish_block. eapply post_step; [apply head_on_db, clock_now, pay_signing_witness_clock|]. intros _ c1 H1.
  eapply post_step; [apply head_on_schedule, update_signing_witness_post|]. intros _ c2 H2.
  eapply post_step; [apply head_on_schedule, last_irreversible_post|]. intros _ c3 H3.
  eapply (post_step _ _ _ kept_head).
  { destruct maint_needed; [apply head_on_db, perform_chain_maintenance_now|by apply post_ret]. }
  intros _ c4 H4. eapply post_step; [apply head_on_db, epoch_now, expire_epoch|]. intros _ c5 H5.
  eapply post_step; [apply head_on_schedule, maintenance_flag_post|]. intros _ c6 H6.
  eapply post_step; [apply head_on_schedule, witness_schedule_post|]. intros _ c7 H7.
  eapply post_mono; [apply head_on_db; frame|]. intros u c8 H8. by rewrite H1, H2, H3, H4, H5, H6, H7.
Qed.

(** ** Its beginning *)

(** What [_apply_block] has checked, and what the head of the chain is, when the
    transactions are applied and the block is recorded. *)
Definition checked (skip : Z) (b : signed_block) (c : chain) : Prop :=
  bh_previous b = WitnessSchedule.head_block_id (c_dgp c) ∧
  d_head_block_time (c_db c) < bh_timestamp b ∧
  (skip_merkle_check skip = false → calculate_merkle_root (sb_transactions b) = Ok (bh_transaction_merkle_root b)) ∧
  (skip_witness_signature skip = false → signed_by_witness (c_db c) (bh_witness b) b = true) ∧
  (skip_witness_schedule_check skip = false →
     get_scheduled_witness (schedule_of c) (get_slot_at_time (schedule_of c) (bh_timestamp b)) = Ok (bh_witness b)).

Definition recorded (b : signed_block) (c c' : chain) : Prop :=
  let slot := get_slot_at_time (schedule_of c) (bh_timestamp b) in
  0 < slot ∧
  WitnessSchedule.head_block_id (c_dgp c') = header_id b ∧ head_block_number (c_dgp c') = block_num b ∧
  d_head_block_time (c_db c') = bh_timestamp b ∧
  current_aslot (c_dgp c') = u64 (current_aslot (c_dgp c) + slot) ∧
  last_irreversible_block_num (c_dgp c) ≤ last_irreversible_block_num (c_dgp c').

Lemma check_merkle_root_ok skip b :
  check_merkle_root skip b = Ok tt → skip_merkle_check skip = false →
  calculate_merkle_root (sb_transactions b) = Ok (bh_transaction_merkle_root b).
Proof.
  unfold check_merkle_root. intros Hc Hs. rewrite Hs in Hc. apply rbind_ok in Hc as (root & -> & Hc).
  destruct (Z.eqb_spec (bh_transaction_merkle_root b) root); [by subst|done].
Qed.

Lemma begin_block_post checkpoint skip b c :
  post (begin_block checkpoint skip b) c (λ r c', fst r = bh_witness b ∧ checked skip b c ∧ recorded b c c').
Proof.
  unfold begin_block. apply post_bind, post_on_db. dstep. apply post_bind, post_lift. intros [] Hroot.
  pose proof (check_merkle_root_ok _ _ Hroot) as Hmerkle. clear Hroot. apply post_bind, post_gets.
  apply post_bind, post_schedule.
  pcall (validate_block_header_post (skip_witness_signature skip) (skip_witness_schedule_check skip)
           (signed_by_witness (c_db c)) b). intros w d (-> & -> & Hprev & Htime & Hsig & Hsched).
  eapply (post_step _ _ _ same_slots); [apply slots_on_db; frame|]. intros _ c1 E1. apply post_bind, post_gets.
  eapply (post_step _ _ _ same_slots); [apply slots_on_db, apply_transactions_epoch|]. intros _ c2 E2.
  apply post_bind. unfold record_block. apply post_bind, post_schedule. pcall (missed_blocks_post b). intros missed d1 ([Hd Hg] & Hslot & Hm).
  apply post_schedule. pcall global_dynamic_data_post. intros [] d2 (_ & Hn & Hid & Ht & Ha & Hl).
  apply post_ret. split; [done|]. split; [done|].
  assert (same_slots c c2) as Hc2 by exact (eq_trans E2 E1).
  rewrite (slot_of_slots c c2 (bh_timestamp b) Hc2) in Hslot, Hm.
  pose proof (f_equal fst Hc2 : dgp (schedule_of c2) = dgp (schedule_of c)) as Hdgp.
  pose proof (slot_range (schedule_of c) (bh_timestamp b)) as Hrange. unfold recorded. simpl in *.
  split_and!; [done|done|done|done| |].
  - rewrite Ha, Hd, Hdgp, u32_small by lia. simpl. f_equal. lia.
  - rewrite Hl, Hd, Hdgp. simpl. lia.
Qed.

(** C26. What the chain accepts: a block that is applied extends the head block
    and is later than it, and, unless the check is skipped, its Merkle root is that
    of its transactions, it is signed with the key of its witness, and that witness
    is the one scheduled for the slot of its time. Then the block is the head, with
    its number and its time, the absolute slot has advanced by the slots that went
    by, and no irreversible block is given up. *)
Theorem apply_block_accepts checkpoint skip b c c' :
  apply_block_body checkpoint skip b c = Ok (tt, c') →
  let slot := get_slot_at_time (schedule_of c) (bh_timestamp b) in
  (bh_previous b = WitnessSchedule.head_block_id (c_dgp c) ∧ d_head_block_time (c_db c) < bh_timestamp b ∧ 0 < slot ∧
   (skip_merkle_check skip = false → calculate_merkle_root (sb_transactions b) = Ok (bh_transaction_merkle_root b)) ∧
   (skip_witness_signature skip = false → signed_by_witness (c_db c) (bh_witness b) b = true) ∧
   (skip_witness_schedule_check skip = false → get_scheduled_witness (schedule_of c) slot = Ok (bh_witness b))) ∧
  WitnessSchedule.head_block_id (c_dgp c') = header_id b ∧ head_block_number (c_dgp c') = block_num b ∧
  d_head_block_time (c_db c') = bh_timestamp b ∧
  current_aslot (c_dgp c') = u64 (current_aslot (c_dgp c) + slot) ∧
  last_irreversible_block_num (c_dgp c) ≤ last_irreversible_block_num (c_dgp c').
Proof.
  unfold apply_block_body. intros Hrun.
  enough (post (apply_block_body checkpoint skip b) c (λ _ c', checked skip b c ∧ recorded b c c')) as Hpost.
  { destruct (Hpost tt c' Hrun) as [(?&?&?&?&?) (?&?&?&?&?&?)]. by split_and!. }
  clear. apply post_bind. pcall begin_block_post. intros r c1 (_ & Hc & Hr). pcall finish_block_head.
  intros _ c2 (E1 & E2 & E3 & E4 & Hl). split; [done|]. unfold recorded in *.
  destruct Hr as (?&?&?&?&?&?). rewrite E1, E2, E3, E4. split_and!; try done. lia.
Qed.

(** A block is applied, checks or not, on top of the head block only. *)
Lemma apply_block_extends checkpoints skip b c :
  post (apply_block checkpoints skip b) c (λ _ c',
    bh_previous b = WitnessSchedule.head_block_id (c_dgp c) ∧ WitnessSchedule.head_block_id (c_dgp c') = header_id b).
Proof.
  apply post_bind, post_lift. intros p _. apply post_bind. pcall begin_block_post.
  intros r c1 (_ & (Hp & _) & (_ & Hid & _)). pcall finish_block_head. intros _ c2 (_ & E2 & _). by rewrite E2.
Qed.
End block_theory.

(** ** The block of the sample chain *)
Lemma apply_block_accepts_witness :
  ∃ c', apply_block_body None 0 sample_block sample_chain = Ok (tt, c') ∧
    WitnessSchedule.head_block_id (c_dgp c') = mk_block_id 42 78 ∧ current_aslot (c_dgp c') = 320000720 ∧
    signed_by_witness sample_before 2 sample_block = true.
Proof.
  destruct (apply_block_body None 0 sample_block sample_chain) as [[[] c']|e] eqn:E; [|vm_compute in E; discriminate E].
  destruct (apply_block_accepts None 0 sample_block sample_chain c' E) as ((_ & _ & _ & _ & Hs & _) & Hid & _ & _ & Ha & _).
  exists c'. split_and!; [reflexivity|exact Hid|rewrite Ha; vm_compute; reflexivity|apply Hs; reflexivity].
Defined.

(** * The Merkle root commits to the transactions

    The loop of [calculate_merkle_root], which overwrites the vector it reads,
    computes the digest of a binary tree over the transactions (SignedBlocks.v);
    without collisions among the values that are hashed the root determines them. *)

(** ** The tree *)
Inductive hash_tree :=
  | leaf (t : processed_transaction)
  | branch (l r : hash_tree).

Fixpoint leaves (t : hash_tree) : list processed_transaction :=
  match t with leaf x => [x] | branch l r => leaves l ++ leaves r end.

(** The next level: neighbours become the children of a branch, the last of an odd
    number moves up. *)
Fixpoint next_level (ts : list hash_tree) : list hash_tree :=
  match ts with
  | a :: b :: ts => branch a b :: next_level ts
  | ts => ts
  end.
Fixpoint levels (fuel : nat) (ts : list hash_tree) : option hash_tree :=
  match fuel, ts with
  | _, [t] => Some t
  | S fuel, _ :: _ => levels fuel (next_level ts)
  | _, _ => None
  end.
(** The tree over a list of transactions; there is none over the empty list. *)
Definition merkle_tree (l : list processed_transaction) : option hash_tree := levels (length l) (map leaf l).

Section tree.
Context {H : MerkleHash}.

Fixpoint digest (t : hash_tree) : Z :=
  match t with leaf x => merkle_digest x | branch l r => pair_hash (digest l) (digest r) end.

(** ** Induction two by two *)
Lemma pairs_ind {A} (P : list A → Prop) :
  P [] → (∀ a, P [a]) → (∀ a b l, P l → P (a :: b :: l)) → ∀ l, P l.
Proof.
  intros H0 H1 H2. assert (∀ l, P l ∧ ∀ a, P (a :: l)) as Hl; [|by intros l; apply Hl].
  induction l as [|b l [IH IH']]; [by split|]. split; [apply IH'|]. intros a. by apply H2.
Qed.

Lemma next_level_leaves ts : concat (map leaves (next_level ts)) = concat (map leaves ts).
Proof. induction ts as [|a|a b ts IH] using pairs_ind; simpl; [done..|]. by rewrite IH, app_assoc. Qed.

Lemma next_level_length ts : length (next_level ts) = ((length ts + 1) / 2)%nat.
Proof.
  induction ts as [|a|a b ts IH] using pairs_ind; [done..|]. simpl length. rewrite IH.
  change (S (S (length ts)) + 1)%nat with (1 * 2 + (length ts + 1))%nat. by rewrite Nat.div_add_l.
Qed.
Lemma next_level_shrinks ts : (2 ≤ length ts → 1 ≤ length (next_level ts) < length ts)%nat.
Proof. intros Hl. rewrite next_level_length. pose proof (Nat.div_mod_eq (length ts + 1) 2). pose proof (Nat.mod_upper_bound (length ts + 1) 2). lia. Qed.

Lemma levels_leaves fuel : ∀ ts t, levels fuel ts = Some t → leaves t = concat (map leaves ts).
Proof.
  induction fuel as [|fuel IH]; intros [|a [|b ts]] t; simpl; try done; try (intros [= <-]; by rewrite app_nil_r).
  intros Ht%IH. change (branch a b :: next_level ts) with (next_level (a :: b :: ts)) in Ht.
  by rewrite next_level_leaves in Ht.
Qed.
Lemma levels_some fuel : ∀ ts, (1 ≤ length ts ≤ S fuel)%nat → is_Some (levels fuel ts).
Proof.
  induction fuel as [|fuel IH]; intros [|a [|b ts]] Hl; simpl in *; try lia; try by eexists.
  apply IH. pose proof (next_level_shrinks (a :: b :: ts)) as Hn. simpl in Hn. simpl. lia.
Qed.

(** ** One level, in place *)

(** What is at index [j] after a level. *)
Lemma next_level_lookup ts j :
  next_level ts !! j =
    match ts !! (2 * j)%nat, ts !! (2 * j + 1)%nat with
    | Some a, Some b => Some (branch a b)
    | Some a, None => Some a
    | None, _ => None
    end.
Proof.
  revert j. induction ts as [|a|a b ts IH] using pairs_ind; intros j; [done|destruct j; [done|]; by rewrite !lookup_cons_ne_0 by lia|].
  destruct j as [|j]; [done|]. simpl next_level. simpl. rewrite IH. by rewrite !Nat.add_succ_r.
Qed.

Lemma hash_pairs_spec m : ∀ k ids, (2 * (k + m) ≤ length ids)%nat →
  ∃ r, hash_pairs (seq k m) ids = Ok r ∧ length r = length ids ∧
    (∀ j, (k ≤ j < k + m)%nat → ∃ a b, ids !! (2 * j)%nat = Some a ∧ ids !! (2 * j + 1)%nat = Some b ∧
       r !! j = Some (pair_hash a b)) ∧
    ∀ j, ¬ (k ≤ j < k + m)%nat → r !! j = ids !! j.
Proof.
  induction m as [|m IH]; intros k ids Hl; simpl.
  { exists ids. split_and!; [done|done|lia|done]. }
  destruct (lookup_lt_is_Some_2 ids (2 * k)) as [a Ha]; [lia|].
  destruct (lookup_lt_is_Some_2 ids (2 * k + 1)) as [b Hb]; [lia|].
  unfold at_index. simpl in Ha, Hb. rewrite Ha, Hb. simpl.
  destruct (IH (S k) (<[k := pair_hash a b]> ids)) as (r & Hr & Hlen & Hin & Hout).
  { rewrite length_insert. lia. }
  rewrite length_insert in Hlen. exists r. split_and!; [done|done| |].
  - intros j Hj. destruct (decide (j = k)) as [->|Hne].
    + exists a, b. split_and!; [done|done|]. rewrite Hout by lia. by rewrite list_lookup_insert_eq by lia.
    + destruct (Hin j) as (x & y & Hx & Hy & Hrj); [lia|]. rewrite list_lookup_insert_ne in Hx, Hy by lia. eauto.
  - intros j Hj. rewrite Hout by lia. rewrite list_lookup_insert_ne; [done|]. lia.
Qed.

(** The first entries of a vector hold the digests of a level. *)
Definition represents (ids : list Z) (ts : list hash_tree) : Prop :=
  ∀ j t, ts !! j = Some t → ids !! j = Some (digest t).

Lemma represents_length ids ts : represents ids ts → (length ts ≤ length ids)%nat.
Proof.
  intros Hr. destruct ts as [|t ts] using rev_ind; [simpl; lia|]. clear IHts. rewrite length_app. simpl.
  pose proof (lookup_lt_Some ids (length ts) (digest t)) as Hlt.
  rewrite (Hr (length ts) t) in Hlt; [|apply list_lookup_middle; done]. specialize (Hlt eq_refl). lia.
Qed.

Lemma hash_level_spec ids ts :
  (2 ≤ length ts)%nat → represents ids ts →
  ∃ r, hash_level (length ts) ids = Ok (length (next_level ts), r) ∧ represents r (next_level ts).
Proof.
  intros Hn Hr. pose proof (represents_length _ _ Hr) as Hlen. rewrite next_level_length. unfold hash_level.
  set (n := length ts) in *. pose proof (Nat.div_mod_eq n 2) as Hdm. pose proof (Nat.mod_upper_bound n 2 ltac:(lia)) as Hm.
  replace (n - n mod 2)%nat with (n / 2 * 2)%nat by lia. rewrite Nat.div_mul by lia.
  destruct (hash_pairs_spec (n / 2) 0 ids) as (r & -> & Hlr & Hin & Hout); [lia|]. cbn [rbind].
  assert (∀ j a b, ts !! (2 * j)%nat = Some a → ts !! (2 * j + 1)%nat = Some b →
    r !! j = Some (pair_hash (digest a) (digest b))) as Hpair.
  { intros j a b Ha Hb. pose proof (lookup_lt_Some _ _ _ Hb) as Hlt. fold n in Hlt.
    destruct (Hin j) as (x & y & Hx & Hy & Hj); [lia|]. rewrite (Hr _ _ Ha) in Hx. rewrite (Hr _ _ Hb) in Hy. by simplify_eq. }
  destruct (Nat.eqb_spec (n mod 2) 0) as [He|He].
  - exists r. split. { apply (f_equal (λ m, Ok (m, r))). apply (Nat.div_unique (n + 1) 2 _ 1); lia. }
    intros j t. rewrite next_level_lookup. destruct (ts !! (2 * j)%nat) as [a|] eqn:Ea; [|done].
    destruct (ts !! (2 * j + 1)%nat) as [b|] eqn:Eb; [intros [= <-]; by apply Hpair|].
    apply lookup_ge_None in Eb. pose proof (lookup_lt_Some _ _ _ Ea). fold n in Eb. lia.
  - destruct (lookup_lt_is_Some_2 ts (n / 2 * 2)) as [t Ht]; [fold n; lia|]. unfold at_index.
    rewrite Hout by lia. rewrite (Hr _ _ Ht). cbn [rbind of_option]. exists (<[n / 2 := digest t]> r)%nat. split.
    { apply (f_equal (λ m, Ok (m, _))). apply (Nat.div_unique (n + 1) 2 _ 0); lia. }
    intros j u. rewrite next_level_lookup. destruct (ts !! (2 * j)%nat) as [a|] eqn:Ea; [|done].
    pose proof (lookup_lt_Some _ _ _ Ea) as Hlt. fold n in Hlt.
    destruct (ts !! (2 * j + 1)%nat) as [b|] eqn:Eb; intros [= <-].
    + pose proof (lookup_lt_Some _ _ _ Eb) as Hb. fold n in Hb. rewrite list_lookup_insert_ne by lia. by apply Hpair.
    + apply lookup_ge_None in Eb. fold n in Eb. assert (j = n / 2)%nat as -> by lia.
      rewrite Nat.mul_comm in Ea. rewrite Ht in Ea. injection Ea as ->. apply list_lookup_insert_eq. lia.
Qed.

Lemma hash_levels_spec fuel : ∀ ids ts t, levels fuel ts = Some t → represents ids ts →
  ∃ r, hash_levels fuel (length ts) ids = Ok r ∧ r !! 0%nat = Some (digest t).
Proof.
  induction fuel as [|fuel IH]; intros ids [|a [|b ts]] t; simpl levels; try done;
    try (intros [= <-] Hr; exists ids; split; [done|by apply (Hr 0%nat)]).
  intros Ht Hr. destruct (hash_level_spec ids (a :: b :: ts)) as (r & Hl & Hr'); [simpl; lia|done|].
  simpl hash_levels. change (S (S (length ts))) with (length (a :: b :: ts)). rewrite Hl. by apply IH.
Qed.

Lemma represents_leaves l : represents (map merkle_digest l) (map leaf l).
Proof. intros j t. rewrite !list_lookup_fmap. destruct (l !! j); [|done]. by intros [= <-]. Qed.

(** The root is the checksum of the digest of the tree. *)
Lemma merkle_root_tree l :
  l ≠ [] → ∃ t, merkle_tree l = Some t ∧ leaves t = l ∧ calculate_merkle_root l = Ok (checksum (digest t)).
Proof.
  intros Hl. destruct (levels_some (length l) (map leaf l)) as [t Ht].
  { rewrite length_map. destruct l; [done|simpl; lia]. }
  exists t. split_and!; [done| |].
  - rewrite (levels_leaves _ _ _ Ht). clear. induction l as [|x l IH]; simpl; [done|by rewrite IH].
  - destruct (hash_levels_spec _ _ _ _ Ht (represents_leaves l)) as (r & Hr & H0). unfold calculate_merkle_root.
    destruct l as [|x l]; [done|]. set (l' := x :: l) in *. rewrite length_map in Hr |- *. rewrite Hr. simpl. unfold at_index. by rewrite H0.
Qed.

(** ** The root determines the transactions *)

(** The pairs of digests that are hashed for a tree. *)
Fixpoint pairs (t : hash_tree) : list (Z * Z) :=
  match t with leaf _ => [] | branch l r => (digest l, digest r) :: pairs l ++ pairs r end.
Definition pairs_of (l : list processed_transaction) : list (Z * Z) := from_option pairs [] (merkle_tree l).
Definition root_digest (l : list processed_transaction) : option Z := digest <$> merkle_tree l.

(** Trees that differ in their transactions only; such are those over lists of the
    same length. *)
Fixpoint same_shape (t u : hash_tree) : Prop :=
  match t, u with
  | leaf _, leaf _ => True
  | branch l r, branch l' r' => same_shape l l' ∧ same_shape r r'
  | _, _ => False
  end.

Lemma next_level_shape ts : ∀ us, Forall2 same_shape ts us → Forall2 same_shape (next_level ts) (next_level us).
Proof.
  induction ts as [|a|a b ts IH] using pairs_ind; intros us Hs.
  - by apply Forall2_nil_inv_l in Hs as ->.
  - apply Forall2_cons_inv_l in Hs as (x & ? & ? & ->%Forall2_nil_inv_l & ->). by repeat constructor.
  - apply Forall2_cons_inv_l in Hs as (x & ? & ? & (y & ? & ? & ? & ->)%Forall2_cons_inv_l & ->).
    simpl. constructor; [by split|by apply IH].
Qed.
Lemma levels_shape fuel : ∀ ts us t u,
  Forall2 same_shape ts us → levels fuel ts = Some t → levels fuel us = Some u → same_shape t u.
Proof.
  induction fuel as [|fuel IH]; intros ts us t u Hs; pose proof (Forall2_length _ _ _ Hs) as Hl;
    destruct ts as [|a [|b ts]], us as [|x [|y us]]; try done; cbn [levels];
    try (intros [= <-] [= <-]; by inversion Hs).
  apply IH. by apply next_level_shape.
Qed.
Lemma merkle_tree_shape l l' t u :
  length l = length l' → merkle_tree l = Some t → merkle_tree l' = Some u → same_shape t u.
Proof.
  unfold merkle_tree. intros Hl. rewrite <- Hl. apply levels_shape. revert l' Hl.
  induction l as [|x l IH]; intros [|y l'] Hl; try done; constructor; [done|]. apply IH. by injection Hl.
Qed.

(** Without collisions among the values hashed, a digest determines its tree, when the
    digest of a transaction is not that of a pair, or the shapes are the same. *)
Lemma digest_inj t : ∀ u,
  (∀ x y, x ∈ leaves t → y ∈ leaves u → merkle_digest x = merkle_digest y → x = y) →
  (∀ p q, p ∈ pairs t → q ∈ pairs u → pair_hash p.1 p.2 = pair_hash q.1 q.2 → p = q) →
  same_shape t u ∨ (∀ x p, x ∈ leaves t ++ leaves u → p ∈ pairs t ++ pairs u → merkle_digest x ≠ pair_hash p.1 p.2) →
  digest t = digest u → t = u.
Proof.
  induction t as [x|l IHl r IHr]; intros [y|l' r'] Hx Hp Hs E; simpl in *.
  - f_equal. apply Hx; set_solver.
  - destruct Hs as [[]|Hs]. destruct (Hs x (digest l', digest r')); [set_solver..|done].
  - destruct Hs as [[]|Hs]. destruct (Hs y (digest l, digest r)); [set_solver..|done].
  - assert ((digest l, digest r) = (digest l', digest r')) as [= El Er] by (apply Hp; [by left|by left|done]).
    f_equal; [apply IHl|apply IHr]; try done; try (intros; apply Hx; set_solver); try (intros; apply Hp; set_solver).
    all: destruct Hs as [[]|Hs]; [by left|right]; intros z p Hz Hq; apply Hs; set_solver.
Qed.

(** C31. The Merkle root of a block determines its transactions and their
    results: two lists with the same root are equal, when no two of the transactions,
    no two of the pairs of digests and not the two digests at the top, which are
    hashed for these lists, collide, and the checksum at the top is not the zero that
    stands for the empty list. Lists of different lengths may have the same root
    where a transaction has the digest of a pair; that is excluded for them. *)
Theorem merkle_root_binding l l' root :
  (∀ x y, x ∈ l → y ∈ l' → merkle_digest x = merkle_digest y → x = y) →
  (∀ p q, p ∈ pairs_of l → q ∈ pairs_of l' → pair_hash p.1 p.2 = pair_hash q.1 q.2 → p = q) →
  length l = length l' ∨
    (∀ x p, x ∈ l ++ l' → p ∈ pairs_of l ++ pairs_of l' → merkle_digest x ≠ pair_hash p.1 p.2) →
  (∀ a b, root_digest l = Some a → root_digest l' = Some b → checksum a = checksum b → a = b) →
  (∀ a, root_digest l = Some a ∨ root_digest l' = Some a → checksum a ≠ 0) →
  calculate_merkle_root l = Ok root → calculate_merkle_root l' = Ok root → l = l'.
Proof.
  unfold root_digest, pairs_of. intros Hm Hp Hs Hc H0 Hl Hl'. destruct (decide (l = [])) as [->|Hne], (decide (l' = [])) as [->|Hne'].
  - done.
  - destruct (merkle_root_tree l' Hne') as (u & Hu & _ & E). rewrite E in Hl'. rewrite Hu in H0. simplify_eq/=.
    destruct (H0 (digest u)); auto.
  - destruct (merkle_root_tree l Hne) as (t & Ht & _ & E). rewrite E in Hl. rewrite Ht in H0. simplify_eq/=.
    destruct (H0 (digest t)); auto.
  - destruct (merkle_root_tree l Hne) as (t & Ht & Hlt & E), (merkle_root_tree l' Hne') as (u & Hu & Hlu & E').
    rewrite Ht, Hu in *. rewrite E in Hl. rewrite E', <- Hl in Hl'. simpl in *. injection Hl' as Hd%eq_sym.
    rewrite <- Hlt, <- Hlu. f_equal. apply digest_inj; [by rewrite Hlt, Hlu|done| |by apply Hc].
    destruct Hs as [Hs|Hs]; [left; by eapply (merkle_tree_shape l l')|right]. by rewrite Hlt, Hlu.
Qed.

(** C32. Computing the root always ends with one, and reads no entry the vector
    does not have: the loop in place gives the checksum of the digest of the
    binary tree over the transactions, and zero for a block without any. *)
Theorem merkle_root_total l :
  calculate_merkle_root l = Ok (from_option (λ t, checksum (digest t)) 0 (merkle_tree l)).
Proof.
  destruct (decide (l = [])) as [->|Hne]; [done|].
  by destruct (merkle_root_tree l Hne) as (t & -> & _ & ->).
Qed.
End tree.

(** ** A block of three transactions *)
Definition numbered_transaction (n : Z) : processed_transaction :=
  mk_processed_transaction (mk_signed_transaction (mk_transaction 0 0 0 []) [n]) [].

(** Even digests for transactions, odd ones for pairs. *)
#[local] Instance numbering_hash : MerkleHash := {|
  merkle_digest t := 2 * hd 0 (stx_signatures t);
  pair_hash a b := 2 * Zpos (encode (a, b)) + 1;
  checksum a := Zpos (encode a);
|}.

Lemma merkle_root_binding_witness :
  let l := map numbered_transaction [3; 1; 4] in
  ∃ root, calculate_merkle_root l = Ok root ∧
    ∀ n, calculate_merkle_root (map numbered_transaction [3; 1; n]) = Ok root →
         map numbered_transaction [3; 1; n] = l.
Proof.
  intros l. eexists. split; [vm_compute; reflexivity|]. intros n Hn.
  eapply merkle_root_binding; [| | | | |exact Hn|vm_compute; reflexivity].
  - intros x y Hx Hy. simpl in Hx, Hy. unfold merkle_digest, numbering_hash.
    repeat (apply elem_of_cons in Hx as [->|Hx]); [..|by apply elem_of_nil in Hx];
    repeat (apply elem_of_cons in Hy as [->|Hy]); try (by apply elem_of_nil in Hy); simpl; intros; (reflexivity || lia || (f_equal; f_equal; lia)).
  - intros [a b] [c d] _ _ E. unfold pair_hash, numbering_hash in E. simpl in E.
    assert (encode (a, b) = encode (c, d)) as E' by lia. by apply (inj encode) in E'.
  - by left.
  - intros a b _ _ E. unfold checksum, numbering_hash in E. assert (encode a = encode b) as E' by lia. by apply (inj encode).
  - intros a _. unfold checksum, numbering_hash. lia.
Defined.
