(* ===== verification/ForkTree.v ===== *)
(** * The blocks of the fork database form a tree

    The invariant of ForkDatabase.v, kept by every operation: the pointers of the
    indices, the head and the links lead to items, and an item is linked to
    the block it names as its previous one. On it rest the results on the head
    and on the branches between two blocks. *)

From S2P Require Import Prelude Ext Blocks SignedBlocks WitnessSchedule ForkDatabase.

Section tree.
Context {B : BlockHash}.
Implicit Types (f : fork_database) (a p : address) (i j : fork_item) (b : signed_block).

Record item_ok f a i : Prop := {
  item_allocated : (a < next_address f)%nat;
  item_num : fi_num i = block_num (fi_data i);
  item_id : fi_id i = header_id (fi_data i);
  item_prev p : fi_prev i = Some p → (p < a)%nat ∧ ∃ j, items f !! p = Some j ∧ fi_id j = previous_id i;
}.

Record tree_ok f : Prop := {
  tree_items a i : items f !! a = Some i → item_ok f a i;
  tree_index id a : index f !! id = Some a → ∃ i, items f !! a = Some i ∧ fi_id i = id;
  tree_unlinked : unlinked_index f = ∅;
  tree_head a : head f = Some a → is_Some (items f !! a);
}.

(** The operations, with the calls the rest of the code makes. *)
Inductive fork_call :=
  | call_reset
  | call_start (b : signed_block)
  | call_push (b : signed_block)
  | call_pop
  | call_max_size (n : Z)
  | call_set_head (id : block_id)
  | call_remove (id : block_id).

Definition run_fork_call (c : fork_call) f : fork_database :=
  let run {A} (m : M fork_database A) := match m f with Ok (_, f') => f' | Err _ => f end in
  match c with
  | call_reset => reset f
  | call_start b => run (start_block b)
  | call_push b => run (push_block b)
  | call_pop => run pop_block
  | call_max_size n => run (set_max_size n)
  | call_set_head id => match fetch_block f id with Some a => run (set_head (Some a)) | None => f end
  | call_remove id => run (remove id)
  end.

(** *** Steps that keep the invariant *)

Lemma tree_ok_index f m :
  tree_ok f → (∀ id a, m !! id = Some a → index f !! id = Some a) → tree_ok (set_index m f).
Proof.
  intros [Hi Hx Hu Hh] Hm. split; simpl; [|eauto|done|done].
  intros a i Ha. destruct (Hi a i Ha). by split.
Qed.

Lemma tree_ok_head f h : tree_ok f → (∀ a, h = Some a → is_Some (items f !! a)) → tree_ok (set_head_address h f).
Proof. intros [Hi Hx Hu Hh] Hm. split; simpl; [|done..]. intros a i Ha. destruct (Hi a i Ha). by split. Qed.

Lemma tree_ok_alloc f b prev :
  tree_ok f → (∀ p, prev = Some p → ∃ j, items f !! p = Some j ∧ fi_id j = bh_previous b) →
  tree_ok (alloc (new_item b prev) f).
Proof.
  intros [Hi Hx Hu Hh] Hp.
  assert (∀ a i, items f !! a = Some i → (a < next_address f)%nat) as Hlt.
  { intros a i Ha. by destruct (Hi a i Ha). }
  assert (∀ a i, items f !! a = Some i → items (alloc (new_item b prev) f) !! a = Some i) as Hkeep.
  { intros a i Ha. simpl. rewrite lookup_insert_ne; [done|]. specialize (Hlt a i Ha). lia. }
  split; simpl.
  - intros a i. intros [[<- <-]|[Hne Ha]]%lookup_insert_Some.
    + split; simpl; [lia|done..|]. intros p E. destruct (Hp p E) as (j & Hj & Hid).
      split; [by eapply Hlt|]. exists j. split; [by apply Hkeep|done].
    + destruct (Hi a i Ha) as [Ha' Hn Hid Hpr]. split; simpl; [lia|done..|].
      intros p E. destruct (Hpr p E) as (? & j & Hj & ?). split; [done|]. exists j. split; [by apply Hkeep|done].
  - intros id a Ha. destruct (Hx id a Ha) as (i & Hai & ?). exists i. split; [by apply Hkeep|done].
  - done.
  - intros a Ha. destruct (Hh a Ha) as [i Hai]. exists i. by apply Hkeep.
Qed.

Lemma tree_ok_insert f id a i :
  tree_ok f → items f !! a = Some i → fi_id i = id → tree_ok (insert_index id a f).
Proof.
  intros [Hi Hx Hu Hh] Ha Hid. unfold insert_index. destruct (index f !! id); [done|].
  split; simpl; [| |done|done].
  - intros a' i' Ha'. destruct (Hi a' i' Ha'). by split.
  - intros id' a' [[<- <-]|[Hne Hid']]%lookup_insert_Some; eauto.
Qed.

Lemma tree_ok_set_unlinked f : tree_ok f → tree_ok (set_unlinked_index ∅ f).
Proof. intros [Hi Hx Hu Hh]. split; simpl; [|done..]. intros a i Ha. destruct (Hi a i Ha). by split. Qed.

Lemma tree_ok_size f n : tree_ok f → tree_ok (set_size n f).
Proof. intros [Hi Hx Hu Hh]. split; simpl; [|done..]. intros a i Ha. destruct (Hi a i Ha). by split. Qed.

Lemma erase_below_sub f n m id a : erase_below f n m !! id = Some a → m !! id = Some a.
Proof. unfold erase_below. by intros [H _]%map_lookup_filter_Some. Qed.

Lemma insert_index_items id a f : items (insert_index id a f) = items f.
Proof. unfold insert_index. by case_match. Qed.

Lemma new_block_ok f b prev :
  tree_ok f → (∀ p, prev = Some p → ∃ j, items f !! p = Some j ∧ fi_id j = bh_previous b) →
  let f' := insert_index (header_id b) (next_address f) (alloc (new_item b prev) f) in
  tree_ok f' ∧ items f' !! next_address f = Some (new_item b prev).
Proof.
  intros Hf Hp f'. assert (items (alloc (new_item b prev) f) !! next_address f = Some (new_item b prev)) as Ha.
  { simpl. by rewrite lookup_insert_eq. }
  split; [|by unfold f'; rewrite insert_index_items].
  eapply tree_ok_insert; [by apply tree_ok_alloc|exact Ha|done].
Qed.

(** *** The operations keep it *)

Lemma reset_ok f : tree_ok f → tree_ok (reset f).
Proof. intros Hf. apply tree_ok_index; [by apply tree_ok_head|done]. Qed.

Lemma start_block_ok f b : tree_ok f → post (start_block b) f (λ _ f', tree_ok f').
Proof.
  intros Hf. unfold start_block. pstep. destruct (new_block_ok f b None Hf) as [Hf' Ha]; [done|].
  apply tree_ok_head; [done|]. intros a [= <-]. eauto.
Qed.

Lemma push_block_ok f b : tree_ok f → post (push_block b) f (λ _ f', tree_ok f').
Proof.
  intros Hf. unfold push_block. pstep. pstep. simpl. pstep. pstep. intros n Hn. pstep. pstep. pstep. intros prev Hprev.
  assert (∀ p, prev = Some p → ∃ j, items f !! p = Some j ∧ fi_id j = bh_previous b) as Hp.
  { intros p ->. case_match; [|done]. apply rbind_ok in Hprev as (q & Hq & [= ->]).
    apply of_option_ok in Hq. by apply (tree_index f Hf). }
  destruct (new_block_ok f b prev Hf Hp) as [Hf' Ha].
  pstep. pstep. pstep. set (f1 := insert_index _ _ _) in *.
  assert (tree_ok (set_head_address (Some (next_address f)) f1)) as Hh.
  { apply tree_ok_head; [done|]. intros a [= <-]. eauto. }
  destruct n as [n|]; [|by repeat pstep]. repeat pstep; [|done].
  change (unlinked_index _) with (unlinked_index f1). rewrite (tree_unlinked _ Hf').
  replace (erase_number _ _ _) with (∅ : gmap block_id address) by (unfold erase_number; by rewrite map_filter_empty).
  apply tree_ok_set_unlinked, tree_ok_index; [done|]. intros id a. apply erase_below_sub.
Qed.

Lemma lock_item f i p : tree_ok f → lock f (fi_prev i) = Some p → fi_prev i = Some p.
Proof. intros _. unfold lock. repeat case_match; congruence. Qed.

Lemma pop_block_ok f : tree_ok f → post pop_block f (λ _ f', tree_ok f').
Proof.
  intros Hf. unfold pop_block. repeat pstep. intros h Hh. repeat pstep. intros i Hi. repeat pstep. intros p Hp.
  pstep. apply of_option_ok in Hi, Hp. apply lock_item in Hp; [|done].
  apply tree_ok_head; [done|]. intros a [= <-].
  destruct (item_prev _ _ _ (tree_items f Hf _ _ Hi) p Hp) as (_ & j & ? & _). eauto.
Qed.

Lemma set_max_size_ok f n : tree_ok f → post (set_max_size n) f (λ _ f', tree_ok f').
Proof.
  intros Hf. apply (tree_ok_size f n) in Hf. unfold set_max_size. repeat pstep. simpl.
  destruct (head f); [|by pstep]. repeat pstep. intros i _. repeat pstep.
  change (unlinked_index _) with (unlinked_index (set_size n f)). rewrite (tree_unlinked _ Hf).
  replace (erase_below _ _ ∅) with (∅ : gmap block_id address) by (unfold erase_below; by rewrite map_filter_empty).
  apply tree_ok_set_unlinked, tree_ok_index; [done|]. intros id a'. apply erase_below_sub.
Qed.

Lemma run_fork_call_ok c f : tree_ok f → tree_ok (run_fork_call c f).
Proof.
  intros Hf. destruct c; simpl.
  - by apply reset_ok.
  - destruct (start_block b f) as [[[] f']|] eqn:E; [|done]. by eapply start_block_ok.
  - destruct (push_block b f) as [[r f']|] eqn:E; [|done]. by eapply push_block_ok.
  - destruct (pop_block f) as [[[] f']|] eqn:E; [|done]. by eapply pop_block_ok.
  - destruct (set_max_size n f) as [[[] f']|] eqn:E; [|done]. by eapply set_max_size_ok.
  - destruct (fetch_block f id) as [a|] eqn:E; [|done]. apply tree_ok_head; [done|]. intros ? [= <-].
    unfold fetch_block in E. rewrite (tree_unlinked _ Hf), lookup_empty in E.
    destruct (index f !! id) as [a'|] eqn:E'; [|done]. injection E as ->.
    destruct (tree_index f Hf id a E') as (i & ? & _). eauto.
  - apply tree_ok_index; [done|]. intros id' a [_ ?]%lookup_delete_Some. done.
Qed.

(** *** What the invariant says *)

Lemma empty_tree_ok : tree_ok empty_fork_database.
Proof. by split. Qed.

Lemma run_fork_calls_ok calls f : tree_ok f → tree_ok (foldl (λ f c, run_fork_call c f) f calls).
Proof. revert f. induction calls as [|c calls IH]; intros f Hf; simpl; [done|]. by apply IH, run_fork_call_ok. Qed.

Lemma same_id_same_num f a i j p :
  tree_ok f → items f !! a = Some i → items f !! p = Some j → fi_id i = fi_id j → fi_num i = fi_num j.
Proof.
  intros Hf Hi Hj Hid. destruct (tree_items f Hf a i Hi) as [_ Hni Hii _], (tree_items f Hf p j Hj) as [_ Hnj Hij _].
  rewrite Hii, Hij in Hid. injection Hid as Hn _. congruence.
Qed.

Lemma prev_num f a i p :
  tree_ok f → items f !! a = Some i → fi_prev i = Some p →
  ∃ j, items f !! p = Some j ∧ fi_id j = previous_id i ∧ fi_num i = u32 (fi_num j + 1).
Proof.
  intros Hf Hi Hp. destruct (tree_items f Hf a i Hi) as [_ Hn _ Hpr]. destruct (Hpr p Hp) as (_ & j & Hj & Hid).
  exists j. split_and!; [done..|]. destruct (tree_items f Hf p j Hj) as [_ Hnj Hij _].
  rewrite Hn. unfold block_num. change (bh_previous (fi_data i)) with (previous_id i).
  rewrite <- Hid, Hij, Hnj. done.
Qed.

(** ** Pushing a block, by cases *)

Lemma insert_index_head id a f : head (insert_index id a f) = head f.
Proof. unfold insert_index. by case_match. Qed.

(** The database after the insertion of a block, and after the new head was
    set and the blocks out of reach were erased. *)
Definition inserted (b : signed_block) (prev : option address) f : fork_database :=
  insert_index (header_id b) (next_address f) (alloc (new_item b prev) f).
Definition with_new_head (b : signed_block) (prev : option address) f : fork_database :=
  let f1 := set_head_address (Some (next_address f)) (inserted b prev f) in
  set_unlinked_index ∅ (set_index (erase_below f1 (block_num b - Z.min (max_size f) (block_num b)) (index f1)) f1).

Lemma push_block_cases f b h i :
  tree_ok f → head f = Some h → items f !! h = Some i →
  push_block b f =
    if block_num b <=? Z.max 0 (fi_num i - max_size f) then Err AssertFailure
    else if bool_decide (bh_previous b = null_id) then
      Ok (if fi_num i <? block_num b then (Some (next_address f), with_new_head b None f)
          else (Some h, inserted b None f))
    else match index f !! bh_previous b with
         | None => Err AssertFailure
         | Some p =>
           Ok (if fi_num i <? block_num b then (Some (next_address f), with_new_head b (Some p) f)
               else (Some h, inserted b (Some p) f))
         end.
Proof.
  intros Hf Hh Hi.
  assert (∀ prev, unlinked_index (inserted b prev f) = ∅) as Hu.
  { intros prev. unfold inserted, insert_index. case_match; apply (tree_unlinked f Hf). }
  assert (∀ prev, head (inserted b prev f) = Some h) as Hhead.
  { intros prev. unfold inserted. by rewrite insert_index_head. }
  unfold push_block, bind, gets, lift. simpl. rewrite Hh. unfold deref. rewrite Hi. simpl.
  rewrite Z.leb_antisym. destruct (Z.max 0 (fi_num i - max_size f) <? block_num b); simpl; [|done].
  assert (∀ m : gmap block_id address, m = ∅ → ∀ g n, erase_number g n m = ∅) as Hempty.
  { intros m -> g n. unfold erase_number. by rewrite map_filter_empty. }
  case_bool_decide as Hnull; simpl; [|destruct (index f !! bh_previous b) as [p|]; simpl; [|done]].
  all: destruct (fi_num i <? block_num b); simpl.
  all: fold (inserted b None f) || fold (inserted b (Some p) f); rewrite ?Hhead; try done.
  all: by rewrite Hempty by apply Hu.
Qed.

Lemma inserted_items f b prev :
  items (inserted b prev f) = <[next_address f := new_item b prev]> (items f).
Proof. unfold inserted. by rewrite insert_index_items. Qed.

(** *** The roots *)

(** The links from [a] to [c], through the items of [l]. *)
Inductive leads f : address → list address → address → Prop :=
  | leads_nil a : leads f a [] a
  | leads_cons a i p l c : items f !! a = Some i → fi_prev i = Some p → leads f p l c → leads f a (a :: l) c.









(** ** Pushing a block *)

(** No indexed block is above the head. *)
Definition highest f : Prop := ∀ h i id a j,
  head f = Some h → items f !! h = Some i → index f !! id = Some a → items f !! a = Some j → fi_num j ≤ fi_num i.

Lemma insert_index_lookup id a f x y :
  index (insert_index id a f) !! x = Some y → index f !! x = Some y ∨ x = id ∧ y = a.
Proof.
  unfold insert_index. case_match; [by left|]. simpl. intros [[<- <-]|[_ ?]]%lookup_insert_Some; auto.
Qed.

Lemma insert_index_known id a f : is_Some (index (insert_index id a f) !! id).
Proof. unfold insert_index. destruct (index f !! id) eqn:E; [eauto|]. simpl. rewrite lookup_insert_eq. eauto. Qed.

(** The item of the block after it was inserted: the new one, or one with the
    same identifier. *)
Lemma inserted_block f b prev :
  tree_ok f → (∀ p, prev = Some p → ∃ j, items f !! p = Some j ∧ fi_id j = bh_previous b) →
  let f' := insert_index (header_id b) (next_address f) (alloc (new_item b prev) f) in
  ∃ a i, index f' !! header_id b = Some a ∧ items f' !! a = Some i ∧ fi_num i = block_num b.
Proof.
  intros Hf Hp f'. destruct (new_block_ok f b prev Hf Hp) as [Hf' Ha]. fold f' in Hf', Ha.
  destruct (insert_index_known (header_id b) (next_address f) (alloc (new_item b prev) f)) as [a Hx].
  fold f' in Hx. destruct (tree_index f' Hf' _ _ Hx) as (i & Hi & Hid). exists a, i. split_and!; [done..|].
  by rewrite (same_id_same_num f' a i (new_item b prev) (next_address f)).
Qed.

(** After the insertion no indexed block is above both the old head and the new
    block. *)
Lemma inserted_numbers f b prev h i id a j :
  tree_ok f → highest f → head f = Some h → items f !! h = Some i →
  index (inserted b prev f) !! id = Some a → items (inserted b prev f) !! a = Some j →
  fi_num j ≤ Z.max (fi_num i) (block_num b).
Proof.
  intros Hf Hhigh Hh Hi Hx Hj. rewrite inserted_items in Hj. apply insert_index_lookup in Hx as [Hx|[-> ->]].
  - apply lookup_insert_Some in Hj as [[<- <-]|[_ Hj]]; [simpl; lia|].
    pose proof (Hhigh h i id a j Hh Hi Hx Hj). lia.
  - rewrite lookup_insert_eq in Hj. injection Hj as <-. simpl. lia.
Qed.

Lemma inserted_highest f b prev h i :
  tree_ok f → head f = Some h → items f !! h = Some i → block_num b ≤ fi_num i →
  highest f → highest (inserted b prev f).
Proof.
  intros Hf Hh Hi Hle Hhigh h' i' id a j Hh' Hi' Hx Hj. unfold inserted in Hh'. rewrite insert_index_head in Hh'.
  simpl in Hh'. rewrite Hh in Hh'. injection Hh' as <-. rewrite inserted_items in Hi'.
  destruct (tree_items f Hf h i Hi) as [Hlt _ _ _]. rewrite lookup_insert_ne, Hi in Hi' by lia. injection Hi' as <-.
  pose proof (inserted_numbers f b prev h i id a j Hf Hhigh Hh Hi Hx Hj). lia.
Qed.

Lemma with_new_head_highest f b prev h i :
  tree_ok f → head f = Some h → items f !! h = Some i → fi_num i < block_num b →
  highest f → highest (with_new_head b prev f).
Proof.
  intros Hf Hh Hi Hlt Hhigh h' i' id a j [= <-] Hi' Hx Hj. simpl in *.
  rewrite inserted_items, lookup_insert_eq in Hi'. injection Hi' as <-. simpl.
  apply erase_below_sub in Hx. pose proof (inserted_numbers f b prev h i id a j Hf Hhigh Hh Hi Hx Hj). lia.
Qed.

Lemma with_new_head_known f b prev k x :
  0 ≤ max_size f → index (inserted b prev f) !! header_id b = Some k →
  items (inserted b prev f) !! k = Some x → fi_num x = block_num b →
  is_known_block (with_new_head b prev f) (header_id b) = true.
Proof.
  intros Hmax Hk Hx Hn. unfold is_known_block, fetch_block. simpl.
  match goal with |- context [erase_below ?g ?n ?m] => assert (erase_below g n m !! header_id b = Some k) as -> end;
    [|by apply bool_decide_eq_true].
  apply map_lookup_filter_Some. split; [done|]. simpl. rewrite Hx. simpl. apply Z.leb_le.
  assert (0 ≤ block_num b) by apply Z.mod_pos_bound, eq_refl. lia.
Qed.

(** A block that names a previous block that is not there is refused: it is not
    cached. *)
Lemma unlinkable_block_refused f b h i :
  tree_ok f → head f = Some h → items f !! h = Some i →
  bh_previous b ≠ null_id → index f !! bh_previous b = None → push_block b f = Err AssertFailure.
Proof.
  intros Hf Hh Hi Hb Hx. rewrite (push_block_cases f b h i) by done. rewrite bool_decide_eq_false_2, Hx by done.
  by case_match.
Qed.

(** C23. Pushing a block that links, or names no previous block: a block that is too
    old for the cache is refused and nothing changes; any other one is known
    afterwards, it is linked to the block it names, the returned item is the head,
    which is the new block if it is higher than the old head and the old head if
    not, and when no block was above the head none is. *)
Theorem push_block_result f b h i :
  tree_ok f → head f = Some h → items f !! h = Some i → 0 ≤ max_size f →
  bh_previous b = null_id ∨ is_Some (index f !! bh_previous b) →
  if block_num b <=? Z.max 0 (fi_num i - max_size f) then push_block b f = Err AssertFailure
  else ∃ r f' j, push_block b f = Ok (Some r, f') ∧ head f' = Some r ∧ items f' !! r = Some j ∧
    is_known_block f' (header_id b) = true ∧
    (if fi_num i <? block_num b then fi_data j = b ∧ fi_num j = block_num b else r = h ∧ j = i) ∧
    items f' = <[next_address f :=
      new_item b (if bool_decide (bh_previous b = null_id) then None else index f !! bh_previous b)]> (items f) ∧
    (highest f → highest f').
Proof.
  intros Hf Hh Hi Hmax Hlink. rewrite (push_block_cases f b h i) by done.
  destruct (block_num b <=? _); [done|].
  assert (∀ prev, (∀ p, prev = Some p → ∃ j, items f !! p = Some j ∧ fi_id j = bh_previous b) →
    ∃ r f' j, Ok (if fi_num i <? block_num b then (Some (next_address f), with_new_head b prev f)
                  else (Some h, inserted b prev f)) = Ok (Some r, f') ∧
      head f' = Some r ∧ items f' !! r = Some j ∧ is_known_block f' (header_id b) = true ∧
      (if fi_num i <? block_num b then fi_data j = b ∧ fi_num j = block_num b else r = h ∧ j = i) ∧
      items f' = <[next_address f := new_item b prev]> (items f) ∧ (highest f → highest f')) as Hpush.
  { intros prev Hprev. destruct (new_block_ok f b prev Hf Hprev) as [Hf' Ha].
    destruct (inserted_block f b prev Hf Hprev) as (k & x & Hk & Hx & Hnum). fold (inserted b prev f) in *.
    destruct (fi_num i <? block_num b) eqn:E; btrue; do 3 eexists.
    - split_and!; [done|done|exact Ha| |done|done|apply inserted_items|].
      + by apply with_new_head_known with k x.
      + by eapply with_new_head_highest.
    - split_and!; [done|unfold inserted; by rewrite insert_index_head| | |done|done|apply inserted_items|].
      + rewrite inserted_items, lookup_insert_ne; [exact Hi|].
        destruct (tree_items f Hf h i Hi). lia.
      + unfold is_known_block, fetch_block. rewrite Hk. by apply bool_decide_eq_true.
      + by eapply inserted_highest. }
  case_bool_decide as H1; simpl; [by apply Hpush|].
  destruct (index f !! bh_previous b) as [p|] eqn:Ep; [|by destruct Hlink as [|[]]].
  apply Hpush. intros p' [= <-].
  destruct (tree_index f Hf _ _ Ep) as (j & ? & ?). eauto.
Qed.

(** ** Branches *)

Lemma leads_app f (a x c : address) l l' : leads f a l x → leads f x l' c → leads f a (l ++ l') c.
Proof. induction 1; simpl; [done|]. intros Hc. econstructor; eauto. Qed.

(** The items are for different blocks with different previous blocks. *)
Definition part f (a b : address) : Prop :=
  ∃ i j, items f !! a = Some i ∧ items f !! b = Some j ∧ previous_id i ≠ previous_id j.
Definition meet f (a b : address) : Prop :=
  ∃ i j, items f !! a = Some i ∧ items f !! b = Some j ∧ previous_id i = previous_id j.

Lemma item_range f a i : tree_ok f → items f !! a = Some i → 0 ≤ fi_num i < 2 ^ 32.
Proof. intros Hf Hi. destruct (tree_items f Hf a i Hi) as [_ -> _ _]. apply Z.mod_pos_bound. lia. Qed.

(** What a run of the loops gives, with enough fuel for the addresses, which
    decrease along the links. *)
Lemma descend_spec f n fuel branch a :
  tree_ok f → 0 ≤ n → (a < fuel)%nat → is_Some (items f !! a) →
  match descend fuel f n branch a with
  | Ok (l, c) => ∃ (p : list address) i, l = branch ++ p ∧ leads f a p c ∧ items f !! c = Some i ∧ fi_num i ≤ n ∧
      (p = [] ∨ fi_num i = n) ∧ (∀ j, items f !! a = Some j → fi_num j ≤ n → p = [])
  | Err e => e = AssertFailure
  end.
Proof.
  intros Hf Hn. revert branch a. induction fuel as [|fuel IH]; intros branch a Ha [i Hi]; [lia|]. simpl.
  unfold deref. rewrite Hi. simpl. case (Z.ltb_spec n (fi_num i)) as [Hlt|Hle].
  - destruct (lock f (fi_prev i)) as [p|] eqn:El; simpl; [|done]. apply lock_item in El; [|done].
    destruct (item_prev _ _ _ (tree_items f Hf a i Hi) p El) as (Hp & _).
    destruct (prev_num f a i p Hf Hi El) as (j & Hj & _ & Hnum).
    specialize (IH (branch ++ [a]) p ltac:(lia) ltac:(eauto)).
    destruct (descend fuel f n (branch ++ [a]) p) as [[l c]|]; [|done].
    destruct IH as (q & k & -> & Hq & Hk & Hle & Hall & _). exists (a :: q), k. split_and!; try done.
    + by rewrite <- app_assoc.
    + by econstructor.
    + right. destruct Hall as [->|]; [|done]. inversion Hq; subst. rewrite Hj in Hk. injection Hk as ->.
      pose proof (item_range f _ k Hf Hj). unfold u32 in Hnum.
      destruct (decide (fi_num k + 1 = 2 ^ 32)) as [E|]; [rewrite E, Z.mod_same in Hnum by lia; lia|].
      rewrite Z.mod_small in Hnum; lia.
    + intros j' [= <-]. lia.
  - exists [], i. rewrite app_nil_r. split_and!; try done; [constructor|by left].
Qed.

Lemma descend_both_spec f fuel first second (a b : address) :
  tree_ok f → (a < fuel)%nat → is_Some (items f !! a) → is_Some (items f !! b) →
  match descend_both fuel f first second a b with
  | Ok (l, l') => ∃ (p q : list address) (x y : address), l = first ++ p ++ [x] ∧ l' = second ++ q ++ [y] ∧
      leads f a p x ∧ leads f b q y ∧ Forall2 (part f) p q ∧ meet f x y
  | Err e => e = AssertFailure
  end.
Proof.
  intros Hf. revert first second a b. induction fuel as [|fuel IH]; intros first second a b Ha [i Hi] [j Hj]; [lia|].
  simpl. unfold deref. rewrite Hi, Hj. simpl. case_bool_decide as Hprev.
  { exists [], [], a, b. split_and!; try done; try constructor. by exists i, j. }
  destruct (lock f (fi_prev i)) as [p|] eqn:El; simpl; [|done]. apply lock_item in El; [|done].
  destruct (lock f (fi_prev j)) as [q|] eqn:El'; simpl; [|done]. apply lock_item in El'; [|done].
  destruct (item_prev _ _ _ (tree_items f Hf a i Hi) p El) as (Hp & i' & Hi' & _).
  destruct (item_prev _ _ _ (tree_items f Hf b j Hj) q El') as (Hq & j' & Hj' & _).
  specialize (IH (first ++ [a]) (second ++ [b]) p q ltac:(lia) ltac:(eauto) ltac:(eauto)).
  destruct (descend_both fuel f (first ++ [a]) (second ++ [b]) p q) as [[l l']|]; [|done].
  destruct IH as (p' & q' & x & y & -> & -> & Hlp & Hlq & Hall & Hmeet).
  exists (a :: p'), (b :: q'), x, y. split_and!; try done.
  - by rewrite <- app_assoc.
  - by rewrite <- app_assoc.
  - by econstructor.
  - by econstructor.
  - constructor; [by exists i, j|done].
Qed.

(** C24. The branches of a fork: [fetch_branch_from] terminates on every fork
    database; it fails only with an exception of the code, and its result is the
    links from the first block and from the second one down to the first pair
    of blocks at the same level that have the same previous block: the longer
    branch is followed alone while it is above the other, and above the pair the
    two branches part. *)
Theorem fetch_branch_from_spec f first second :
  tree_ok f →
  match fetch_branch_from f first second with
  | Err e => e = AssertFailure
  | Ok (l, l') => ∃ (a b : address) (p p' q q' : list address) (x y : address),
      index f !! first = Some a ∧ index f !! second = Some b ∧
      l = p ++ q ++ [x] ∧ l' = p' ++ q' ++ [y] ∧
      leads f a (p ++ q) x ∧ leads f b (p' ++ q') y ∧
      (p = [] ∨ p' = []) ∧ Forall2 (part f) q q' ∧ meet f x y
  end.
Proof.
  intros Hf. unfold fetch_branch_from. cbv zeta.
  destruct (index f !! first) as [a|] eqn:Ea; cbn [of_option rbind]; [|done].
  destruct (index f !! second) as [b|] eqn:Eb; cbn [of_option rbind]; [|done].
  destruct (tree_index f Hf _ _ Ea) as (i & Hi & _), (tree_index f Hf _ _ Eb) as (j & Hj & _).
  unfold deref at 1. rewrite Hj. cbn [of_option rbind].
  assert (∀ c k, items f !! c = Some k → (c < S (next_address f))%nat) as Hfuel.
  { intros c k Hk. destruct (tree_items f Hf c k Hk). lia. }
  pose proof (item_range f b j Hf Hj) as Hjr.
  pose proof (descend_spec f (fi_num j) (S (next_address f)) [] a Hf ltac:(lia) ltac:(by eapply Hfuel) ltac:(eauto)) as H1.
  destruct (descend _ f (fi_num j) [] a) as [[l c]|]; [|done]. destruct H1 as (p & k & -> & Hp & Hk & Hle & Hpn & _).
  cbn [rbind fst snd]. unfold deref. rewrite Hk. cbn [of_option rbind]. pose proof (item_range f c k Hf Hk) as Hkr.
  pose proof (descend_spec f (fi_num k) (S (next_address f)) [] b Hf ltac:(lia) ltac:(by eapply Hfuel) ltac:(eauto)) as H2.
  destruct (descend _ f (fi_num k) [] b) as [[l' c']|]; [|done]. destruct H2 as (p' & k' & -> & Hp' & Hk' & Hle' & _ & Hpn').
  cbn [rbind fst snd app].
  pose proof (descend_both_spec f (S (next_address f)) p p' c c' Hf ltac:(by eapply Hfuel) ltac:(eauto) ltac:(eauto)) as H3.
  destruct (descend_both _ f p p' c c') as [[l l']|]; [|done].
  destruct H3 as (q & q' & x & y & -> & -> & Hq & Hq' & Hall & Hmeet).
  exists a, b, p, p', q, q', x, y. split_and!; try done; try by eapply leads_app.
  destruct Hpn as [->|Hkj]; [by left|right]. apply (Hpn' j Hj). lia.
Qed.
End tree.

(** ** A concrete tree *)
#[local] Instance digest_hash : BlockHash := bh_digest.

Definition trunk : signed_block := mk_signed_block (mk_block_header null_id 3 0 0 1) [].
Definition left_2 : signed_block := mk_signed_block (mk_block_header (header_id trunk) 6 0 0 12) [].
Definition right_2 : signed_block := mk_signed_block (mk_block_header (header_id trunk) 9 0 0 22) [].
Definition right_3 : signed_block := mk_signed_block (mk_block_header (header_id right_2) 12 0 0 23) [].
Definition right_4 : signed_block := mk_signed_block (mk_block_header (header_id right_3) 15 0 0 24) [].
Definition small_tree : fork_database :=
  foldl (λ f c, run_fork_call c f) empty_fork_database (call_push <$> [trunk; left_2; right_2; right_3]).

Lemma small_tree_ok : tree_ok small_tree.
Proof. apply run_fork_calls_ok, empty_tree_ok. Qed.

Lemma push_block_result_witness :
  ∃ h i, head small_tree = Some h ∧ items small_tree !! h = Some i ∧ fi_num i = 3 ∧
    ∃ r f' j, push_block right_4 small_tree = Ok (Some r, f') ∧ head f' = Some r ∧ items f' !! r = Some j ∧
      fi_data j = right_4.
Proof.
  assert (head small_tree = Some 3%nat) as Hh by (vm_compute; reflexivity).
  destruct (items small_tree !! 3%nat) as [i|] eqn:Ei; [|vm_compute in Ei; discriminate Ei].
  exists 3%nat, i. assert (fi_num <$> items small_tree !! 3%nat = Some 3) as E by (vm_compute; reflexivity).
  rewrite Ei in E. injection E as E. split_and!; [exact Hh|exact Ei|exact E|].
  pose proof (push_block_result small_tree right_4 3%nat i small_tree_ok Hh Ei ltac:(discriminate)
    ltac:(right; vm_compute; eauto)) as H.
  rewrite E in H.
  assert ((block_num right_4 <=? Z.max 0 (3 - max_size small_tree)) = false) as E1 by (vm_compute; reflexivity).
  rewrite E1 in H. assert ((3 <? block_num right_4) = true) as E2 by (vm_compute; reflexivity). rewrite E2 in H.
  destruct H as (r & f' & j & Hp & Hr & Hj & _ & [Hd _] & _). exists r, f', j. split_and!; assumption.
Defined.

Lemma fetch_branch_from_spec_witness :
  tree_ok small_tree ∧ fetch_branch_from small_tree (header_id right_3) (header_id left_2) = Ok ([3; 2], [1])%nat ∧
  meet small_tree 2%nat 1%nat.
Proof.
  pose proof (fetch_branch_from_spec small_tree (header_id right_3) (header_id left_2) small_tree_ok) as H.
  assert (fetch_branch_from small_tree (header_id right_3) (header_id left_2) = Ok ([3; 2], [1])%nat) as E
    by (vm_compute; reflexivity).
  rewrite E in H. destruct H as (a & b & p & p' & q & q' & x & y & _ & _ & E1 & E2 & _ & _ & _ & _ & Hm).
  apply (f_equal last) in E1, E2. rewrite app_assoc, last_snoc in E1, E2. injection E1 as <-. injection E2 as <-.
  split_and!; [apply small_tree_ok|exact E|exact Hm].
Defined.
