(* ===== verification/ForkSwitch.v ===== *)
(** * Switching forks is all or nothing

    What the outcome of [_push_block] says about the state of the chain
    (PushBlock.v): a block extends the head, or the chain moves to a longer fork
    block by block, or the block is refused and the state is the old one. The only
    exception after which the state is another one is that of a [pop_block] during a
    switch. The last section runs calls for which the code leaves this path. *)

From S2P Require Import Prelude Ext Config Asset Objects Parameters Governance Blocks Operations Fees Ledger Authority Database Evaluator ContractEval Transactions SignedBlocks WitnessSchedule ApplyBlock ForkDatabase PushBlock Sample BlockTheory ForkTree.

Section switch.
Context {St : Type} {B : BlockHash} {C : ChainState St}.
Implicit Types (n : node St) (b : signed_block) (s t : St) (f : fork_database) (a p y : address).

(** The blocks that reach the node; a header says all about each of them. *)
Variable known : signed_block → Prop.
Definition headers_unique : Prop := ∀ b b', known b → known b' → header_id b = header_id b' → b = b'.

Definition num s : Z := num_from_id (head_block s).

(** Blocks applied one after the other. *)
Fixpoint apply_blocks (l : list signed_block) s : res St :=
  match l with
  | [] => Ok s
  | b :: l => let? s := apply_block b s in apply_blocks l s
  end.

(** Every state of the list comes from the next one by a block, and the numbers
    of the blocks have not run over. *)
Fixpoint consistent (l : list St) : Prop :=
  match l with
  | s :: l' =>
    match l' with
    | [] => True
    | s' :: _ => (∃ b, known b ∧ apply_block b s' = Ok s ∧ block_num b = num_from_id (bh_previous b) + 1) ∧ consistent l'
    end
  | [] => True
  end.

Definition numbered f : Prop :=
  ∀ a i, items f !! a = Some i → fi_num i = num_from_id (previous_id i) + 1.

Definition all_known f : Prop := ∀ a i, items f !! a = Some i → known (fi_data i).

Definition states n : list St := state n :: history n.

Record node_ok n : Prop := {
  node_tree : tree_ok (fork_db n);
  node_numbered : numbered (fork_db n);
  node_known : all_known (fork_db n);
  node_consistent : consistent (states n);
}.

(** ** Lists of states *)

Lemma apply_blocks_app l l' s : apply_blocks (l ++ l') s = rbind (apply_blocks l s) (apply_blocks l').
Proof. revert s. induction l as [|b l IH]; intros s; simpl; [done|]. destruct (apply_block b s); simpl; [apply IH|done]. Qed.

Lemma applied_num b s s' :
  apply_block b s = Ok s' → block_num b = num_from_id (bh_previous b) + 1 → num s' = num s + 1.
Proof. intros [Hp Hh]%apply_block_head Hb. unfold num. rewrite Hh, <- Hp. exact Hb. Qed.

Lemma consistent_num l s k t : consistent (s :: l) → (s :: l) !! k = Some t → num t = num s - Z.of_nat k.
Proof.
  revert s k. induction l as [|s' l IH]; intros s k Hl Hk; destruct k as [|k]; simpl in Hk; simplify_eq; try lia.
  destruct Hl as ((b & _ & Hb & Hn) & Hl). pose proof (applied_num b s' s Hb Hn). rewrite (IH s' k Hl Hk). lia.
Qed.

Lemma consistent_drop k l : consistent l → consistent (drop k l).
Proof.
  revert l. induction k as [|k IH]; intros l Hl; [done|]. destruct l as [|s l]; [done|]. simpl. apply IH.
  destruct l; [done|]. apply Hl.
Qed.

Lemma consistent_take k l : consistent l → consistent (take k l).
Proof.
  revert l. induction k as [|k IH]; intros l Hl; [done|]. destruct l as [|s [|s' l]]; [done| |].
  - by destruct k.
  - destruct Hl as [Hb Hl]. specialize (IH _ Hl). destruct k; [done|]. simpl in *. by split.
Qed.

(** [l'] is [l] with newer states on top, some of its oldest ones dropped. *)
Definition grown s (l l' : list St) : Prop :=
  ∃ top len, l' = top ++ take len l ∧ Forall (λ x, num s < num x) top.

Lemma grown_refl s l : grown s l l.
Proof. exists [], (length l). by rewrite take_ge. Qed.

Lemma grown_trans s l l' l'' : grown s l l' → grown s l' l'' → grown s l l''.
Proof.
  intros (top & k & -> & Htop) (top' & k' & -> & Htop').
  exists (top' ++ take k' top), ((k' - length top) `min` k)%nat. split.
  - by rewrite take_app, take_take, app_assoc.
  - apply Forall_app. split; [done|]. by apply Forall_take.
Qed.

(** The state a fork was started from is found again by its number. *)
Lemma grown_lookup s l l' j t :
  consistent (s :: l) → grown s (s :: l) l' → l' !! j = Some t → num t = num s → t = s.
Proof.
  intros Hl (top & k & -> & Htop) Hj Ht. apply lookup_app_Some in Hj as [Hj|[_ Hj]].
  - rewrite Forall_lookup in Htop. specialize (Htop j t Hj). simpl in Htop. lia.
  - apply lookup_take_Some in Hj as [Hj _]. pose proof (consistent_num l s _ t Hl Hj).
    assert (j - length top = 0)%nat as E by lia. rewrite E in Hj. by injection Hj.
Qed.

(** ** Branches and states *)

Lemma leads_num f a l y i j :
  tree_ok f → numbered f → leads f a l y → items f !! a = Some i → items f !! y = Some j →
  fi_num j = fi_num i - Z.of_nat (length l).
Proof.
  intros Hf Hn Hl. revert i. induction Hl as [a|a i' p l y Hi' Hp Hl IH]; intros i Hi Hj; simpl.
  { rewrite Hi in Hj. injection Hj as ->. lia. }
  rewrite Hi in Hi'. injection Hi' as <-.
  destruct (item_prev _ _ _ (tree_items f Hf a i Hi) p Hp) as (_ & k & Hk & Hid).
  rewrite (IH k Hk Hj). rewrite (Hn a i Hi), <- Hid.
  destruct (tree_items f Hf p k Hk) as [_ -> -> _]. unfold num_from_id. simpl. lia.
Qed.

Definition datas f (l : list address) (ds : list signed_block) : Prop :=
  Forall2 (λ a d, ∃ i, items f !! a = Some i ∧ fi_data i = d) l ds.

(** The blocks of the branch of the head block lead from the state they start
    from to the state of the chain. *)
Lemma branch_states f a l y s ss k t :
  headers_unique → all_known f →
  tree_ok f → numbered f → leads f a l y → consistent (s :: ss) →
  (∃ i, items f !! a = Some i ∧ fi_id i = head_block s) →
  (∃ j, items f !! y = Some j ∧ previous_id j = head_block t) → (s :: ss) !! k = Some t →
  ∃ ds, datas f (rev (l ++ [y])) ds ∧ apply_blocks ds t = Ok s.
Proof.
  intros Hinj Hkn Hf Hn Hl Hs (i & Hi & Hid) (j & Hj & Hprev) Hk.
  assert (k = S (length l)) as ->.
  { pose proof (leads_num f a l y i j Hf Hn Hl Hi Hj). pose proof (consistent_num ss s k t Hs Hk).
    pose proof (Hn y j Hj) as Hnj. rewrite Hprev in Hnj. fold (num t) in Hnj.
    destruct (tree_items f Hf a i Hi) as [_ Hni Hii _].
    assert (num s = fi_num i) by (unfold num; rewrite <- Hid, Hii, Hni; done). lia. }
  revert s ss Hs Hk i Hi Hid. induction Hl as [a|a i' p l y Hi' Hp Hl IH]; intros s ss Hs Hk i Hi Hid;
    (destruct ss as [|s1 ss]; [done|]); destruct Hs as ((b & Hbk & Hb & Hbn) & Hs);
    pose proof (apply_block_head b s1 s Hb) as [Hb1 Hb2];
    (assert (b = fi_data i) as -> by (apply Hinj; [done|by apply (Hkn a)|]; rewrite <- Hb2, <- Hid; by destruct (tree_items f Hf a i Hi))).
  - simpl in Hk. injection Hk as <-. rewrite Hj in Hi. injection Hi as <-. exists [fi_data j].
    split; [|simpl; by rewrite Hb]. constructor; [eauto|constructor].
  - rewrite Hi in Hi'. injection Hi' as <-.
    destruct (item_prev _ _ _ (tree_items f Hf a i Hi) p Hp) as (_ & u & Hu & Huid).
    destruct (IH Hj s1 ss Hs Hk u Hu) as (ds & Hds & Hrun); [by rewrite Huid|].
    exists (ds ++ [fi_data i]). split.
    + simpl. apply Forall2_app; [done|]. constructor; [eauto|constructor].
    + rewrite apply_blocks_app, Hrun. simpl. by rewrite Hb.
Qed.

Lemma datas_det f l ds ds' : datas f l ds → datas f l ds' → ds = ds'.
Proof.
  intros H. revert ds'. induction H as [|a d l ds (i & Hi & <-) _ IH]; intros ds' H'.
  - by inversion H'.
  - inversion H' as [|a' d' l' ds'' (i' & Hi' & <-) Hl]; subst. rewrite Hi in Hi'. injection Hi' as <-.
    f_equal. by apply IH.
Qed.

(** ** Steps of the node *)

(** What every step keeps: the invariant and the items. *)
Definition step_ok n n' : Prop := node_ok n' ∧ items (fork_db n') = items (fork_db n).

Lemma step_ok_refl n : node_ok n → step_ok n n.
Proof. by split. Qed.

Lemma step_ok_trans n n' n'' : step_ok n n' → step_ok n' n'' → step_ok n n''.
Proof. intros [_ H] [H1 H2]. split; [done|]. by rewrite H2. Qed.

Lemma set_fork_db_ok n f :
  node_ok n → tree_ok f → items f = items (fork_db n) → step_ok n (set_fork_db f n).
Proof.
  intros [_ Hn Hk Hc] Hf Hi. split; [|done]. split; simpl; [done| | |done]; intros a i; rewrite Hi; [apply Hn|apply Hk].
Qed.

Lemma set_max_size_items w f f' : set_max_size w f = Ok (tt, f') → items f' = items f.
Proof.
  unfold set_max_size, bind, put, gets, lift. simpl. destruct (head f); [|by intros [= <-]].
  unfold deref. simpl. destruct (items f !! a); [|done]. by intros [= <-].
Qed.

Lemma set_window_ok w n : node_ok n → step_ok n (set_window w n) ∧ states (set_window w n) = states n.
Proof.
  intros Hn. split; [|by destruct w]. destruct w as [w|]; [|by apply step_ok_refl]. unfold set_window.
  destruct (set_max_size w (fork_db n)) as [[[] f]|] eqn:E.
  - pose proof (set_max_size_items _ _ _ E). pose proof (set_max_size_ok (fork_db n) w (node_tree n Hn) tt f E).
    destruct (set_fork_db_ok n f Hn) as [[H1 H2 H3 H4] H5]; [done..|]. by split; [split|].
  - destruct Hn. by split; [split|].
Qed.

Lemma apply_in_session_spec b n s0 :
  node_ok n → known b → block_num b = num_from_id (bh_previous b) + 1 → num s0 ≤ num (state n) →
  let '(n', r) := apply_in_session b n in
  step_ok n n' ∧ grown s0 (states n) (states n') ∧ num s0 ≤ num (state n') ∧
  match r with
  | Ok _ => apply_block b (state n) = Ok (state n')
  | Err e => state n' = state n ∧ ∃ k, history n' = take k (history n)
  end.
Proof.
  intros Hn Hkb Hb Hs0. unfold apply_in_session.
  destruct (set_window_ok (window b (state n)) n Hn) as [[Hw Hwi] Hws].
  set (k := Z.to_nat (undo_max n)). pose proof (node_consistent n Hn) as Hc.
  destruct (apply_block b (state n)) as [s|e] eqn:E.
  - pose proof (applied_num b (state n) s E Hb). split_and!; simpl; [|exists [s], (S k)|lia|done].
    + split; [|done]. destruct Hw as [H1 H2 H3 _]. split; simpl; [done..|]. split; [eauto|].
      apply (consistent_take (S k) _ Hc).
    + split; [done|]. constructor; [lia|done].
  - split_and!; simpl; [|exists [], (S k); done|done|done|by exists k]. split; [|done].
    destruct Hw as [H1 H2 H3 _]. split; simpl; [done..|]. apply (consistent_take (S k) _ Hc).
Qed.

Lemma pop_block_items f f' : pop_block f = Ok (tt, f') → items f' = items f.
Proof.
  unfold pop_block, bind, put, gets, lift. simpl. intros H. repeat (case_match; simplify_eq); done.
Qed.

Lemma pop_head_spec n : node_ok n →
  let '(n', r) := pop_head n in
  step_ok n n' ∧ ∃ k, states n' = drop k (states n) ∧ match r with Ok _ => k = 1%nat | Err _ => k = 0%nat end.
Proof.
  intros Hn. unfold pop_head. destruct (fetch_block_by_id _ _) as [b|]; [|split; [by apply step_ok_refl|by exists 0%nat]].
  destruct (pop_block (fork_db n)) as [[[] f]|e] eqn:E; [|split; [by apply step_ok_refl|by exists 0%nat]].
  pose proof (pop_block_items _ _ E) as Hi. pose proof (pop_block_ok _ (node_tree n Hn) tt f E) as Hf.
  destruct (history n) as [|s older] eqn:Eh.
  - split; [by apply set_fork_db_ok|by exists 0%nat].
  - destruct (set_fork_db_ok n f Hn Hf Hi) as [[H1 H2 H3 H4] H5].
    split; [|exists 1%nat; unfold states; simpl; by rewrite Eh]. split; [|done]. split; simpl; [done..|].
    pose proof (node_consistent n Hn) as Hc. unfold states in *. rewrite Eh in Hc.
    apply (consistent_drop 1 _ Hc).
Qed.

Lemma pop_head_shorter n n' : pop_head n = (n', Ok tt) → S (length (history n')) = length (history n).
Proof.
  unfold pop_head. destruct (fetch_block_by_id _ _); [|done]. destruct (pop_block _) as [[u f]|]; [|done].
  destruct (history n) as [|s0 older]; [done|]. by intros [= <-].
Qed.

(** A [pop_block] cannot go on from the node: there is no undo state left, or it
    throws with the items that are held at that point. *)
Definition pop_failed (e : error) n' : Prop := history n' = [] ∨ ∃ l, snd (pop_head (hold l n')) = Err e.

Lemma pop_head_failed n n' e : pop_head n = (n', Err e) → pop_failed e n'.
Proof.
  intros E. assert (hold (held (fork_db n)) n = n) as Hh by (by destruct n as [[] ? ? ? ? ?]).
  assert (n' = n → pop_failed e n') as Hsame.
  { intros ->. right. exists (held (fork_db n)). by rewrite Hh, E. }
  unfold pop_head in E. destruct (fetch_block_by_id _ _); [|injection E as <- _; by apply Hsame].
  destruct (pop_block (fork_db n)) as [[u f]|]; [|injection E as <- _; by apply Hsame].
  destruct (history n) as [|x older] eqn:Ehist; [|done]. injection E as <- _. by left.
Qed.

(** There is fuel enough: every pop takes a state off the history. *)
Lemma pop_until_spec fuel id n : node_ok n → (length (history n) < fuel)%nat →
  let '(n', r) := pop_until fuel id n in
  step_ok n n' ∧ (∃ k, states n' = drop k (states n)) ∧
  match r with Ok _ => head_block_id n' = id | Err e => pop_failed e n' end.
Proof.
  revert n. induction fuel as [|fuel IH]; intros n Hn Hfuel; [lia|]. simpl. case_bool_decide as Hid.
  { split_and!; [by apply step_ok_refl|by exists 0%nat|done]. }
  pose proof (pop_head_spec n Hn) as Hp. pose proof (pop_head_shorter n) as Hlen.
  destruct (pop_head n) as [n1 [[]|e]] eqn:E; destruct Hp as [Hok (k & Hk & _)].
  - specialize (Hlen n1 eq_refl). specialize (IH n1 (proj1 Hok) ltac:(lia)). destruct (pop_until fuel id n1) as [n2 r].
    destruct IH as (Hok' & (k' & Hk') & Hr).
    split_and!; [by eapply step_ok_trans| |done]. exists (k + k')%nat. by rewrite Hk', Hk, drop_drop.
  - split_and!; [done|eauto|]. by apply (pop_head_failed n).
Qed.

(** *** The states a call can leave *)

(** [s] comes from a state of [n0] by applying blocks. *)
Definition reached n0 s : Prop := ∃ k t blocks, states n0 !! k = Some t ∧ apply_blocks blocks t = Ok s.

Lemma reached_states n : Forall (reached n) (states n).
Proof. apply Forall_lookup. intros k t Hk. by exists k, t, []. Qed.

Lemma reached_drop n0 n n' k : states n' = drop k (states n) → Forall (reached n0) (states n) → Forall (reached n0) (states n').
Proof. intros ->. apply Forall_drop. Qed.

Lemma apply_in_session_reached b n0 n :
  Forall (reached n0) (states n) → Forall (reached n0) (states (fst (apply_in_session b n))).
Proof.
  intros Hn. pose proof (Forall_inv Hn) as (k & t & blocks & Ht & Hb). pose proof (Forall_inv_tail Hn) as Hh.
  unfold apply_in_session. destruct (apply_block b (state n)) as [s|e] eqn:E; unfold states; simpl.
  - constructor; [|constructor; [by apply (Forall_inv Hn)|by apply Forall_take]].
    exists k, t, (blocks ++ [b]). split; [done|]. rewrite apply_blocks_app, Hb. simpl. by rewrite E.
  - constructor; [by apply (Forall_inv Hn)|by apply Forall_take].
Qed.

Lemma push_fork_reached branch n0 : ∀ n,
  Forall (reached n0) (states n) → Forall (reached n0) (states (fst (push_fork branch n))).
Proof.
  induction branch as [|a branch IH]; intros n Hn; simpl; [done|]. destruct (block_of n a) as [i|]; [|done].
  pose proof (apply_in_session_reached (fi_data i) n0 n Hn). destruct (apply_in_session (fi_data i) n) as [n1 [[]|e]]; auto.
Qed.

(** ** Forks *)

Lemma push_fork_spec branch n s0 :
  node_ok n → num s0 ≤ num (state n) → Forall (λ a, is_Some (items (fork_db n) !! a)) branch →
  let '(n', r) := push_fork branch n in
  step_ok n n' ∧ grown s0 (states n) (states n') ∧
  match r with
  | Ok None => ∃ ds, datas (fork_db n) branch ds ∧ apply_blocks ds (state n) = Ok (state n')
  | Ok (Some _) => True
  | Err _ => False
  end.
Proof.
  revert n. induction branch as [|a branch IH]; intros n Hn Hs0 Hitems; simpl.
  { split_and!; [by apply step_ok_refl|apply grown_refl|]. exists []. split; [constructor|done]. }
  inversion Hitems as [|? ? [i Ei] Hrest]; subst. unfold block_of, deref. rewrite Ei. simpl.
  assert (block_num (fi_data i) = num_from_id (bh_previous (fi_data i)) + 1) as Hb.
  { destruct (tree_items _ (node_tree n Hn) a i Ei) as [_ Hnum _ _]. rewrite <- Hnum. by apply (node_numbered n Hn a). }
  pose proof (apply_in_session_spec (fi_data i) n s0 Hn (node_known n Hn a i Ei) Hb Hs0) as Ha.
  destruct (apply_in_session (fi_data i) n) as [n1 [[]|e]]; destruct Ha as (Hok & Hg & Hs1 & Hr).
  - rewrite <- (proj2 Hok) in Hrest. specialize (IH n1 (proj1 Hok) Hs1 Hrest). destruct (push_fork branch n1) as [n2 r].
    destruct IH as (Hok' & Hg' & Hr'). split_and!; [by eapply step_ok_trans|by eapply grown_trans|].
    destruct r as [[x|]|]; [done| |done]. destruct Hr' as (ds & Hds & Hrun). exists (fi_data i :: ds). split.
    + constructor; [eauto|]. unfold datas in *. by rewrite (proj2 Hok) in Hds.
    + simpl. by rewrite Hr.
  - done.
Qed.

(** The loop goes through when the blocks can be applied one after the other. *)
Lemma push_fork_applies branch ds n s :
  node_ok n → datas (fork_db n) branch ds → apply_blocks ds (state n) = Ok s →
  ∃ n', push_fork branch n = (n', Ok None) ∧ state n' = s.
Proof.
  revert n ds. induction branch as [|a branch IH]; intros n ds Hn Hds Hrun.
  { inversion Hds; subst. injection Hrun as <-. by exists n. }
  inversion Hds as [|? d ? ds' (i & Ei & <-) Hds']; subst. simpl. unfold block_of, deref. rewrite Ei. simpl.
  simpl in Hrun. apply rbind_ok in Hrun as (s1 & Hs1 & Hrun).
  assert (block_num (fi_data i) = num_from_id (bh_previous (fi_data i)) + 1) as Hb.
  { destruct (tree_items _ (node_tree n Hn) a i Ei) as [_ Hnum _ _]. rewrite <- Hnum. by apply (node_numbered n Hn a). }
  pose proof (apply_in_session_spec (fi_data i) n (state n) Hn (node_known n Hn a i Ei) Hb ltac:(lia)) as Ha.
  assert (snd (apply_in_session (fi_data i) n) = Ok tt) as Hok by (unfold apply_in_session; by rewrite Hs1).
  destruct (apply_in_session (fi_data i) n) as [n1 r]. simpl in Hok. subst r. destruct Ha as (Hstep & _ & _ & Hr).
  rewrite Hs1 in Hr. injection Hr as ->. apply (IH n1 ds'); [apply Hstep| |done].
  unfold datas in *. by rewrite (proj2 Hstep).
Qed.

Lemma restore_fork_push branch n :
  restore_fork branch n =
    let '(n', r) := push_fork branch n in
    (n', match r with Ok None => Ok tt | Ok (Some (e, _)) => Err e | Err e => Err e end).
Proof.
  revert n. induction branch as [|a branch IH]; intros n; simpl; [done|]. destruct (block_of n a); [|done].
  destruct (apply_in_session (fi_data a0) n) as [n1 [[]|e]]; [apply IH|done].
Qed.

Lemma remove_items_ok l n :
  node_ok n → step_ok n (remove_items l n) ∧ states (remove_items l n) = states n.
Proof.
  revert n. induction l as [|a l IH]; intros n Hn; simpl; [by split; [apply step_ok_refl|]|].
  set (f := match block_of n a with Ok _ => _ | Err _ => _ end).
  assert (step_ok n (set_fork_db f n)) as Hok.
  { apply set_fork_db_ok; [done| |subst f; by case_match]. subst f. pose proof (node_tree n Hn).
    case_match; [|done]. apply tree_ok_index; [done|]. by intros id x [_ ?]%lookup_delete_Some. }
  destruct (IH _ (proj1 Hok)) as [Hok' Hs]. split; [by eapply step_ok_trans|done].
Qed.

Lemma hold_ok l n : node_ok n → step_ok n (hold l n) ∧ states (hold l n) = states n.
Proof.
  intros Hn. split; [|done]. apply set_fork_db_ok; [done| |done]. destruct (node_tree n Hn) as [H1 H2 H3 H4].
  split; simpl; [|done..]. intros a i Ha. destruct (H1 a i Ha). by split.
Qed.

(** ** The outcome of a pushed block *)

Lemma push_block_items b f :
  post (push_block b) f (λ r f', r = head f' ∧
    ∃ prev, items f' = <[next_address f := new_item b prev]> (items f)).
Proof.
  unfold push_block. pstep. pstep. simpl. pstep. pstep. intros n _. pstep. pstep. pstep. intros prev _.
  pstep. pstep. pstep. destruct n as [n|]; repeat pstep; (split; [done|]; exists prev; apply inserted_items).
Qed.

Lemma pushed_node_ok b n r f :
  node_ok n → known b → block_num b = num_from_id (bh_previous b) + 1 → push_block b (fork_db n) = Ok (r, f) →
  node_ok (set_fork_db f n) ∧ r = head f.
Proof.
  intros [Hf Hn Hk Hc] Hkb Hb E. destruct (push_block_items b _ r f E) as (-> & prev & Hi). split; [|done].
  split; simpl; [by eapply push_block_ok|intros a i; rewrite Hi..|done];
    (intros [[<- <-]|[_ Ha]]%lookup_insert_Some; [done|]); [by apply (Hn a i)|by apply (Hk a i)].
Qed.

Lemma leads_head f a l y : leads f a l y → ∃ l', l ++ [y] = a :: l'.
Proof. destruct 1; simpl; eauto. Qed.

Lemma apply_blocks_last ds b s s' : apply_blocks (ds ++ [b]) s = Ok s' → head_block s' = header_id b.
Proof.
  rewrite apply_blocks_app. intros (x & _ & Hb)%rbind_ok. simpl in Hb.
  apply rbind_ok in Hb as (y & Hb & [= <-]). by destruct (apply_block_head b x y Hb).
Qed.

Lemma states_drop n n' k : states n' = drop k (states n) → states n !! k = Some (state n').
Proof. intros H. rewrite <- (Nat.add_0_r k), <- lookup_drop, <- H. done. Qed.

Definition at_ancestor n t y : Prop := ∃ j, items (fork_db n) !! y = Some j ∧ previous_id j = head_block t.

(** Back from a refused fork: the blocks of the old one lead to the old state. *)
Lemma switch_back_restores ancestor rest second e n t s ss k a l y n0 :
  headers_unique →
  node_ok n → (∃ l, grown t (t :: l) (states n) ∧ consistent (t :: l)) → ancestor = head_block t →
  second = l ++ [y] → leads (fork_db n) a l y → consistent (s :: ss) →
  (∃ i, items (fork_db n) !! a = Some i ∧ fi_id i = head_block s) → at_ancestor n t y → (s :: ss) !! k = Some t →
  Forall (reached n0) (states n) →
  let '(n', r) := switch_back ancestor rest second e n in
  step_ok n n' ∧
  match r with
  | Refused _ => state n' = s
  | Failed e => pop_failed e n' ∧ reached n0 (state n')
  | _ => False
  end.
Proof.
  intros Hinj Hn (lt & Hg & Hlt) -> -> Hl Hs Ha Hy Hk Hre. unfold switch_back.
  destruct (remove_items_ok rest n Hn) as [Hr Hrs].
  set (n1 := set_fork_db _ (remove_items rest n)).
  assert (step_ok n n1) as H1.
  { eapply step_ok_trans; [exact Hr|]. apply set_fork_db_ok; [by destruct Hr| |done].
    apply tree_ok_head; [apply (node_tree _ (proj1 Hr))|]. intros x Hx.
    destruct (leads_head _ _ _ _ Hl) as (l' & E). rewrite E in Hx. injection Hx as <-.
    destruct Ha as (i & Hi & _). rewrite (proj2 Hr). eauto. }
  assert (states n1 = states n) as Hs1 by done.
  pose proof (pop_until_spec (S (length (history n1))) (head_block t) n1 (proj1 H1) ltac:(lia)) as Hp.
  destruct (pop_until _ _ n1) as [n2 [[]|e']]; destruct Hp as (H2 & (j & Hj) & Hid); rewrite Hs1 in Hj.
  2: { split; [by eapply step_ok_trans|]. split; [done|]. exact (Forall_inv (reached_drop n0 n n2 j Hj Hre)). }
  assert (state n2 = t) as Ht.
  { apply (grown_lookup t lt (states n) j); [done|done| |by unfold num; rewrite <- Hid]. by apply states_drop. }
  destruct (branch_states (fork_db n) a l y s ss k t Hinj (node_known n Hn) (node_tree n Hn) (node_numbered n Hn) Hl Hs Ha Hy Hk)
    as (ds & Hds & Hrun).
  assert (datas (fork_db n2) (rev (l ++ [y])) ds) as Hds2.
  { unfold datas in *. by rewrite (proj2 H2), (proj2 H1). }
  rewrite <- Ht in Hrun. destruct (push_fork_applies _ ds n2 s (proj1 H2) Hds2 Hrun) as (n3 & E & Hs3).
  assert (Forall (λ a, is_Some (items (fork_db n2) !! a)) (rev (l ++ [y]))) as Hitems.
  { apply Forall_lookup. intros q x Hx. destruct (Forall2_lookup_l _ _ _ _ _ Hds2 Hx) as (d & _ & i & Hi & _). eauto. }
  pose proof (push_fork_spec (rev (l ++ [y])) n2 (state n2) (proj1 H2) ltac:(lia) Hitems) as Hf.
  rewrite restore_fork_push, E. rewrite E in Hf. destruct Hf as (H3 & _). split; [|done].
  eapply step_ok_trans; [|exact H3]. by eapply step_ok_trans.
Qed.

Definition outcome_ok n b (r : push_result) n' : Prop :=
  match r with
  | NotSwitched =>
      apply_block b (state n) = Ok (state n') ∨ state n' = state n ∧ block_num b ≤ num (state n)
  | Switched => ∃ k t blocks, states n !! k = Some t ∧ apply_blocks blocks t = Ok (state n') ∧ num (state n) < num (state n')
  | Refused _ => state n' = state n
  | Failed e => state n' = state n ∨ pop_failed e n' ∧ reached n (state n')
  end.

Lemma extend_spec b n :
  node_ok n → known b → block_num b = num_from_id (bh_previous b) + 1 →
  let '(n', r) := extend b n in node_ok n' ∧ outcome_ok n b r n'.
Proof.
  intros Hn Hk Hb. unfold extend. pose proof (apply_in_session_spec b n (state n) Hn Hk Hb ltac:(lia)) as Ha.
  destruct (apply_in_session b n) as [n1 [[]|e]]; destruct Ha as (Hok & _ & _ & Hr).
  - split; [apply Hok|by left].
  - split; [|apply Hr]. apply (set_fork_db_ok n1); [apply Hok| |done].
    apply tree_ok_index; [apply (node_tree n1 (proj1 Hok))|]. by intros id x [_ ?]%lookup_delete_Some.
Qed.

Lemma leads_items f f' a l y : leads f a l y → items f' = items f → leads f' a l y.
Proof. intros Hl Hi. induction Hl as [|a i p l y Ha Hp _ IH]; [constructor|]. econstructor; [by rewrite Hi|done|done]. Qed.

Lemma leads_items_exist f a l y :
  leads f a l y → is_Some (items f !! y) → Forall (λ a, is_Some (items f !! a)) (l ++ [y]).
Proof. induction 1; simpl; intros Hy; constructor; eauto. Qed.

Lemma switch_fork_spec new_head b n :
  headers_unique →
  node_ok n → fi_num new_head = block_num (fi_data new_head) → num (state n) < fi_num new_head →
  let '(n', r) := switch_fork new_head n in node_ok n' ∧ outcome_ok n b r n'.
Proof.
  intros Hinj Hn Hnew Hlt. unfold switch_fork.
  pose proof (fetch_branch_from_spec (fork_db n) (header_id (fi_data new_head)) (head_block_id n) (node_tree n Hn)) as Hb.
  destruct (fetch_branch_from _ _ _) as [[first second]|e]; [|split; [done|by left]].
  destruct Hb as (a & b' & p & p' & q & q' & x & y & Ha & Hb' & -> & -> & Hla & Hlb & _ & _ & (ix & iy & Ex & Ey & _)).
  rewrite (app_assoc p q [x]), (app_assoc p' q' [y]). set (l1 := p ++ q) in *. set (l2 := p' ++ q') in *. rewrite last_snoc. simpl of_option. cbn [rbind].
  set (held := (l1 ++ [x]) ++ l2 ++ [y]). destruct (hold_ok held n Hn) as [H0 Hs0].
  change (block_of (hold held n) y) with (of_option Undefined (items (fork_db n) !! y)).
  rewrite Ey. cbn [of_option].
  assert (∀ m r, step_ok n m → outcome_ok n b r m → node_ok (hold [] m) ∧ outcome_ok n b r (hold [] m)) as Hdone.
  { intros m r Hm Hr. split; [apply (hold_ok [] m (proj1 Hm))|destruct r; apply Hr]. }
  pose proof (pop_until_spec (S (length (history (hold held n)))) (bh_previous (fi_data iy)) _ (proj1 H0) ltac:(lia)) as Hp.
  destruct (pop_until _ _ (hold held n)) as [n1 [[]|e]]; destruct Hp as (H1 & (k & Hk) & Hid).
  all: rewrite Hs0 in Hk; pose proof (reached_drop n n n1 k Hk (reached_states n)) as Hre1.
  2: { apply Hdone; [exact (step_ok_trans _ _ _ H0 H1)|]. right. split; [exact Hid|exact (Forall_inv Hre1)]. }
  pose proof (states_drop n n1 k Hk) as Ht.
  assert (Forall (λ a, is_Some (items (fork_db n1) !! a)) (rev (l1 ++ [x]))) as Hitems.
  { rewrite (proj2 H1), (proj2 H0). apply Forall_rev. apply (leads_items_exist _ a); [done|eauto]. }
  pose proof (push_fork_spec (rev (l1 ++ [x])) n1 (state n1) (proj1 H1) ltac:(lia) Hitems) as Hf.
  pose proof (push_fork_reached (rev (l1 ++ [x])) n n1 Hre1) as Hre2.
  destruct (push_fork (rev (l1 ++ [x])) n1) as [n2 r]. simpl in Hre2. destruct Hf as (H2 & Hg & Hr).
  assert (step_ok n n2) as H02 by exact (step_ok_trans _ _ _ (step_ok_trans _ _ _ H0 H1) H2).
  destruct r as [[[e rest]|]|e].
  - pose proof (switch_back_restores (bh_previous (fi_data iy)) rest (l2 ++ [y]) e n2 (state n1) (state n) (history n)
      k b' l2 y n Hinj (proj1 H02)) as Hback.
    destruct (switch_back _ rest (l2 ++ [y]) e n2) as [n3 r]. destruct Hback as [H3 Hr3]; try done.
    + exists (history n1). split; [done|]. apply (node_consistent n1 (proj1 H1)).
    + apply (leads_items (fork_db n)); [done|apply H02].
    + apply (node_consistent n Hn).
    + destruct (tree_index _ (node_tree n Hn) _ _ Hb') as (i & Hi & Hid'). exists i. by rewrite (proj2 H02).
    + exists iy. by rewrite (proj2 H02).
    + apply Hdone; [exact (step_ok_trans _ _ _ H02 H3)|]. destruct r; try done. by right.
  - apply Hdone; [done|]. destruct Hr as (ds & Hds & Hrun). exists k, (state n1), ds. split_and!; [done..|].
    destruct (leads_head _ _ _ _ Hla) as (l' & E). rewrite E in Hds. simpl in Hds.
    apply Forall2_app_inv_l in Hds as (ds1 & ds2 & _ & Hds2 & ->).
    apply Forall2_cons_inv_l in Hds2 as (d & ? & (i & Hi & <-) & Hnil%Forall2_nil_inv_l & ->). subst.
    apply apply_blocks_last in Hrun.
    destruct (tree_index _ (node_tree n Hn) _ _ Ha) as (i' & Hi' & Hid'). 
    rewrite (proj2 H1), (proj2 H0), Hi' in Hi. injection Hi as <-.
    destruct (tree_items _ (node_tree n Hn) _ _ Hi') as [_ _ Hii _]. unfold num at 2. rewrite Hrun, <- Hii, Hid'.
    rewrite Hnew in Hlt. exact Hlt.
  - done.
Qed.

(** The head of the fork database is not below the block that was pushed. *)
Lemma push_block_head_num f b h f' i :
  tree_ok f → push_block b f = Ok (Some h, f') → items f' !! h = Some i → block_num b ≤ fi_num i.
Proof.
  intros Hf E Hi. destruct (head f) as [h0|] eqn:Hh.
  - destruct (tree_head f Hf h0 Hh) as [i0 Hi0]. rewrite (push_block_cases f b h0 i0) in E by done.
    assert (∀ prev, Ok (if fi_num i0 <? block_num b then (Some (next_address f), with_new_head b prev f)
      else (Some h0, inserted b prev f)) = Ok (Some h, f') → block_num b ≤ fi_num i) as Hcase.
    { intros prev. case (Z.ltb_spec (fi_num i0) (block_num b)) as [Hlt|Hle]; intros [= <- <-]; simpl in Hi;
        rewrite inserted_items in Hi.
      - rewrite lookup_insert_eq in Hi. injection Hi as <-. simpl. lia.
      - destruct (tree_items f Hf h0 i0 Hi0) as [Hlt _ _ _]. rewrite lookup_insert_ne, Hi0 in Hi by lia.
        injection Hi as <-. done. }
    destruct (block_num b <=? _); [done|]. case_bool_decide; [by eapply Hcase|].
    destruct (index f !! bh_previous b); [by eapply Hcase|done].
  - unfold push_block, bind, gets, lift in E. simpl in E. rewrite Hh in E. simpl in E. injection E as <- <-.
    simpl in Hi. rewrite insert_index_items in Hi. simpl in Hi. rewrite lookup_insert_eq in Hi. injection Hi as <-. simpl. lia.
Qed.

(** C21. Pushing a block is all or nothing, as long as block identifiers do not
    collide and block numbers do not run over: when the call returns without a
    switch, the state is the old one with the block applied, or the old one, for a
    block that is not above the head; when it switches, the state is reached by
    applying the blocks of the other fork one by one to the current or an earlier
    state of the history, and has a higher block number than before; when the block
    or its fork is refused, the state is the old one: the loops that pop the blocks
    of the refused fork and restore those of the old one undo every change. When an
    exception is thrown elsewhere, the state is the old one too, unless it is the
    exception of a [pop_block] during the switch ([pop_failed]: the head block is
    not found, its item has no previous one, or the undo history is empty), which
    the code does not handle: the state is then one on the way. In every case each state of
    the history still comes from the one before it by a block. *)
Theorem node_push_block_all_or_nothing n b :
  headers_unique →
  node_ok n → known b → block_num b = num_from_id (bh_previous b) + 1 →
  let '(n', r) := node_push_block b n in
  node_ok n' ∧
  match r with
  | NotSwitched =>
      apply_block b (state n) = Ok (state n') ∨ state n' = state n ∧ block_num b ≤ num (state n)
  | Switched => ∃ k t blocks, states n !! k = Some t ∧ apply_blocks blocks t = Ok (state n') ∧
      num (state n) < num (state n')
  | Refused _ => state n' = state n
  | Failed e => state n' = state n ∨ pop_failed e n' ∧ reached n (state n')
  end.
Proof.
  intros Hinj Hn Hk Hb. unfold node_push_block.
  destruct (push_block b (fork_db n)) as [[[h|] f]|e] eqn:E; [| |by split; [|left]].
  2: { split; [by eapply pushed_node_ok|by left]. }
  destruct (pushed_node_ok b n _ f Hn Hk Hb E) as [Hn' _]. set (n1 := set_fork_db f n) in *.
  unfold block_of, deref. change (fork_db n1) with f. destruct (items f !! h) as [i|] eqn:Ei; simpl; [|by split; [|left]].
  case_bool_decide.
  - pose proof (extend_spec b n1 Hn' Hk Hb) as He. by destruct (extend b n1) as [n' r].
  - case (Z.ltb_spec (head_block_num n1) (fi_num i)) as [Hlt|Hle].
    + destruct (tree_items f (node_tree n1 Hn') h i Ei) as [_ Hnum _ _].
      pose proof (switch_fork_spec i b n1 Hinj Hn' Hnum Hlt) as Hs. by destruct (switch_fork i n1) as [n' r].
    + split; [done|]. right. split; [done|]. pose proof (push_block_head_num _ b h f i (node_tree n Hn) E Ei).
      etransitivity; [exact H0|exact Hle].
Qed.
End switch.


(** ** The chain *)
Section chain_state.
Context {X : Ext} {P : Packing} {N : NthElement} {K : KeyAddresses} {M : ContractMachine} {T : TransactionCrypto}.
Context {B : BlockHash} {H : MerkleHash} {G : BlockSigner}.

Definition run_block (checkpoints : gmap Z block_id) (skip : Z) (b : signed_block) (c : chain) : res chain :=
  let? r := ApplyBlock.apply_block checkpoints skip b c in Ok (snd r).

Lemma run_block_head checkpoints skip b c c' :
  run_block checkpoints skip b c = Ok c' →
  bh_previous b = WitnessSchedule.head_block_id (c_dgp c) ∧ WitnessSchedule.head_block_id (c_dgp c') = header_id b.
Proof.
  unfold run_block. intros ([u c1] & Hrun & [= <-])%rbind_ok.
  exact (apply_block_extends checkpoints skip b c u c1 Hrun).
Qed.

(** The chain of ApplyBlock.v is what the node keeps. *)
Definition block_chain_state (checkpoints : gmap Z block_id) (skip : Z) : ChainState chain := {|
  apply_block := run_block checkpoints skip;
  window := block_window checkpoints skip;
  head_block c := WitnessSchedule.head_block_id (c_dgp c);
  apply_block_head := run_block_head checkpoints skip;
|}.
End chain_state.

(** ** Concrete chains *)

(** A hash without collisions: an encoding of the header. *)
#[local] Instance encoding_hash : BlockHash := λ b,
  Zpos (encode [id_num (bh_previous b); id_hash (bh_previous b); bh_timestamp b; bh_witness b;
               bh_transaction_merkle_root b; bh_digest b]).
(** Blocks with digest 13 have a bad signature. *)
#[local] Instance good_digest : BlockSigner := λ b, if bh_digest b =? 13 then None else Some 0.

(** Blocks without transactions. *)
Definition empty_block (b : signed_block) : Prop := sb_transactions b = [].

Lemma encoding_headers_unique : headers_unique empty_block.
Proof.
  intros [[[] ? ? ? ?] l] [[[] ? ? ? ?] l'] Hl Hl'. unfold empty_block in Hl, Hl'. simpl in Hl, Hl'. subst.
  unfold header_id, block_hash, encoding_hash. cbn -[encode].
  intros [= _ E]. apply (inj encode) in E. by simplify_eq.
Qed.

(** The sample chain before its first block, with one witness. *)
#[local] Instance sample_chain_state : ChainState chain := block_chain_state ∅ 0.
Definition genesis_time : Z := sample_time + 3600.
Definition genesis : chain :=
  mk_chain
    (set_d_next_maintenance_time time_max
      (set_d_governance (set_gv_active_witnesses {[ 0 ]} sample_due_governance)
        (set_d_block_summaries (list_to_map ((λ n, (n, null_id)) <$> [0; 1; 2; 3; 4; 5])) sample_due)))
    (mk_dgp 0 null_id genesis_time 0 0 0 0 0 0) [0] ∅ 256 1024.
Definition genesis_node : node chain := mk_node empty_fork_database genesis [] 256 ∅ [].

(** The block of a slot on top of another one. *)
Definition block_on (prev : block_id) (slot digest : Z) : signed_block :=
  mk_signed_block (mk_block_header prev (genesis_time + 5 * slot) 0 0 digest) [].
Definition b1 : signed_block := block_on null_id 1 0.
Definition b2 : signed_block := block_on (header_id b1) 2 0.
Definition b3_bad : signed_block := block_on (header_id b2) 3 13.
(** Blocks of another fork, on top of [b1]. *)
Definition c2 : signed_block := block_on (header_id b1) 3 0.
Definition c3 : signed_block := block_on (header_id c2) 4 0.
(** Blocks of another fork from the start, the second one bad. *)
Definition c1 : signed_block := block_on null_id 2 0.
Definition c2_bad : signed_block := block_on (header_id c1) 3 13.

Fixpoint push_blocks (l : list signed_block) (n : node chain) : node chain * list push_result :=
  match l with
  | [] => (n, [])
  | b :: l =>
    let '(n, r) := node_push_block b n in
    let '(n, rs) := push_blocks l n in (n, r :: rs)
  end.

Lemma genesis_node_ok : node_ok empty_block genesis_node.
Proof. split; [apply empty_tree_ok|by intros a i..|done]. Qed.

Lemma node_push_block_all_or_nothing_witness :
  let push b n := fst (node_push_block b n) in
  let n := push c2 (push b2 (push b1 genesis_node)) in
  node_ok empty_block n ∧ snd (node_push_block c3 n) = Switched ∧ num (state n) < num (state (fst (node_push_block c3 n))).
Proof.
  intros push n.
  assert (∀ n b, node_ok empty_block n → empty_block b → block_num b = num_from_id (bh_previous b) + 1 →
    node_ok empty_block (push b n)) as Hok.
  { intros m b Hm He Hb. pose proof (node_push_block_all_or_nothing empty_block m b encoding_headers_unique Hm He Hb) as H.
    unfold push. destruct (node_push_block b m). apply H. }
  assert (node_ok empty_block n) as Hn.
  { apply Hok; [apply Hok; [apply Hok; [apply genesis_node_ok|..]|..]|..]; vm_compute; reflexivity. }
  assert (block_num c3 = num_from_id (bh_previous c3) + 1) as Hb by (vm_compute; reflexivity).
  assert (snd (node_push_block c3 n) = Switched) as Hr by (vm_compute; reflexivity).
  pose proof (node_push_block_all_or_nothing empty_block n c3 encoding_headers_unique Hn eq_refl Hb) as H.
  clearbody n. destruct (node_push_block c3 n) as [n4 r]. simpl in Hr. subst r.
  destruct H as [_ (k & t & blocks & _ & _ & Hlt)]. split_and!; [exact Hn|reflexivity|exact Hlt].
Defined.

(** A refused block can cut the node off from a valid fork. The blocks [c2]
    and [c3] form a valid fork that a node with [b1] and [b2] switches to; but
    when the node was offered a bad block on top of [b2] before, which stays the
    head of the fork database after it was refused and removed, [c2] is applied
    on top of [b2], refused and removed as well, and [c3] does not link. *)
Theorem valid_fork_refused_after_bad_block :
  (let '(n, results) := push_blocks [b1; b2; c2; c3] genesis_node in
   results = [NotSwitched; NotSwitched; NotSwitched; Switched] ∧ head_block_id n = header_id c3) ∧
  (let '(n, results) := push_blocks [b1; b2; b3_bad; c2; c3] genesis_node in
   results = [NotSwitched; NotSwitched; Refused AssertFailure; Refused AssertFailure; Failed AssertFailure] ∧
   head_block_id n = header_id b2).
Proof. vm_compute. repeat split; reflexivity. Qed.

(** A switch that fails is not always undone. When the two forks have no
    common block, a bad block on the other fork makes the clean-up pop the
    fork database further than its first block; the exception leaves the chain
    on the part of the bad fork that was applied. *)
Theorem failed_switch_keeps_bad_fork :
  let '(n, results) := push_blocks [b1; c1; c2_bad] genesis_node in
  results = [NotSwitched; NotSwitched; Failed AssertFailure] ∧
  head_block_id n = header_id c1 ∧ header_id c1 ≠ header_id b1.
Proof. vm_compute. repeat split; [reflexivity..|discriminate]. Qed.

(** The fork database knows a block by the hash of its header. A copy of [c2] with
    other transactions, which its Merkle root does not allow, is refused when it is
    to be applied; but while its fork is not the longest, it is kept without a look
    at the root, takes the place of [c2] in the index, and makes the node refuse the
    fork of [c2] and [c3]. *)
Definition c2_tampered : signed_block := mk_signed_block (sb_header c2) [sample_payment].
Theorem tampered_block_blocks_fork :
  (let '(n, results) := push_blocks [b1; b2; c2; c3] genesis_node in
   results = [NotSwitched; NotSwitched; NotSwitched; Switched] ∧ head_block_id n = header_id c3) ∧
  (let '(n, results) := push_blocks [b1; b2; c2_tampered; c2; c3] genesis_node in
   results = [NotSwitched; NotSwitched; NotSwitched; NotSwitched; Refused AssertFailure] ∧
   head_block_id n = header_id b2).
Proof. vm_compute. repeat split; reflexivity. Qed.
