(* ===== verification/ProductionTheory.v ===== *)
(** * Pending transactions and produced blocks are sound

    The session of the pending transactions holds what applying them to the head of
    the chain gives, and a block that is made of them passes the checks of the
    block it becomes (Production.v, ApplyBlock.v). *)

From S2P Require Import Prelude Ext Config Asset Objects Parameters Governance Blocks Names Operations Validation Fees Ledger Authority Database Evaluator ContractEval Transactions SignedBlocks WitnessSchedule ApplyBlock ForkDatabase PushBlock Production Frame ChainSupply BlockSupply Sample Slots BlockTheory ForkSwitch.

(** The step after one whose outcome is known. *)
Lemma bind_run {St A R} (m : M St A) (k : A → M St R) s x s' : m s = Ok (x, s') → bind m k s = k x s'.
Proof. intros E. unfold bind. by rewrite E. Qed.

Section production.
Context {X : Ext} {P : Packing} {N : NthElement} {K : KeyAddresses} {C : ContractMachine} {T : TransactionCrypto}.
Context {B : BlockHash} {G : BlockSigner} {D : BlockProducer} {S : BlockPacking} {St : ChainState chain}.
Context {H : MerkleHash}.
Implicit Types (n : full_node) (c : chain) (b : signed_block).

(** ** Transactions applied one after the other *)

(** The state after transactions that were applied one after the other, each with
    the flags of its call, and their results. *)
Inductive replays c : list processed_transaction → chain → Prop :=
  | replays_nil : replays c [] c
  | replays_snoc skip l c' ptx c'' :
    replays c l c' → process_transaction skip (ptx_transaction ptx) c' = Ok (ptx, c'') →
    replays c (l ++ [ptx]) c''.

(** What [_pending_tx_session] and [_pending_tx] have to do with each other. *)
Definition pending_ok n : Prop := replays (state (fn_node n)) (fn_pending_tx n) (current n).

Lemma process_transaction_ok skip trx c ptx c' :
  process_transaction skip trx c = Ok (ptx, c') →
  ptx_transaction ptx = trx ∧ ∃ s,
    apply_transaction (transaction_steps skip) (head_block_number (c_dgp c)) trx (c_db c) =
      Ok (ptx_operation_results ptx, s) ∧ c' = set_c_db s c.
Proof.
  unfold process_transaction, bind, gets, on_db, ret. intros E.
  destruct (apply_transaction _ _ _ _) as [[rs s]|] eqn:Ea; simpl in E; [|done]. injection E as <- <-. simpl. eauto.
Qed.

Lemma push_transaction_ok skip trx n : pending_ok n → pending_ok (fst (push_transaction skip trx n)).
Proof.
  unfold pending_ok, push_transaction. intros Hn. destruct (process_transaction skip trx (current n)) as [[ptx c']|e] eqn:E.
  - simpl. econstructor; [exact Hn|]. destruct (process_transaction_ok _ _ _ _ _ E) as [-> _]. exact E.
  - exact Hn.
Qed.

Lemma restore_transactions_ok skip trxs : ∀ n, pending_ok n → pending_ok (fst (restore_transactions skip trxs n)).
Proof.
  induction trxs as [|trx trxs IH]; intros n Hn; simpl; [done|]. destruct (is_known_transaction _ _); [by apply IH|].
  pose proof (push_transaction_ok skip trx n Hn) as Hp. destruct (push_transaction skip trx n) as [n' [ptx|e]]; [by apply IH|].
  destruct (is_fc_exception e); [by apply IH|done].
Qed.

Lemma restore_pending_ok skip pending n : pending_ok n → pending_ok (fst (restore_pending skip pending n)).
Proof.
  intros Hn. unfold restore_pending. pose proof (restore_transactions_ok skip (popped_tx (fn_node n)) n Hn) as Hr.
  destruct (restore_transactions _ _ n) as [n' [[]|e]]; [|done]. by apply restore_transactions_ok.
Qed.

Lemma push_new_block_ok skip b n : pending_ok (fst (push_new_block skip b n)).
Proof.
  unfold push_new_block. destruct ((if skip_fork_db skip then extend else node_push_block) b _) as [m r].
  pose proof (restore_pending_ok skip (fn_pending_tx n) (mk_full_node m None []) (replays_nil _)) as Hr.
  by destruct (restore_pending _ _ _) as [n' [[]|e]].
Qed.

(** C28. The pending transactions are those the pending state consists of: pushing a
    transaction, whether it applies or not, keeps the state of the session what
    the pending transactions give one after the other on the head of the chain,
    with the results that are kept of them; and pushing a block, with or without a
    switch of forks, whatever its outcome, or producing one, leaves such a state
    again. *)
Theorem pending_transactions_replay n :
  (∀ skip trx, pending_ok n → pending_ok (fst (push_transaction skip trx n))) ∧
  (∀ skip b, pending_ok (fst (push_new_block skip b n))) ∧
  (∀ when witness_id key skip n' b, generate_block when witness_id key skip n = (n', Ok b) → pending_ok n') ∧
  pending_ok (clear_pending n).
Proof.
  split_and!.
  - intros skip trx. apply push_transaction_ok.
  - intros skip b. apply push_new_block_ok.
  - intros when w key skip n' b. unfold generate_block. destruct (build_block _ _ _ _ n) as [n1 [b'|]]; [|done].
    pose proof (push_new_block_ok skip b' n1) as Hp. destruct (push_new_block skip b' n1) as [n2 []]; simpl in Hp;
      intros [= <- <-]; done.
  - constructor.
Qed.

(** ** The produced block *)

(** What pending transactions leave alone. *)
Lemma replays_slots c l c' : replays c l c' → same_slots c c' ∧ c_dgp c' = c_dgp c ∧ c_shuffled c' = c_shuffled c.
Proof.
  induction 1 as [|skip l c' ptx c'' _ (E1 & E2 & E3) Hp]; [done|].
  destruct (process_transaction_ok _ _ _ _ _ Hp) as (_ & s & Ha & ->). split; [|done].
  unfold same_slots in *. rewrite <- E1.
  apply (slots_on_db (apply_transaction (transaction_steps skip) (head_block_number (c_dgp c')) ptx) c'
           (apply_transaction_epoch _ _ _) (ptx_operation_results ptx)).
  unfold on_db. by rewrite Ha.
Qed.

Lemma apply_transactions_app skip num l l' s :
  apply_transactions skip num (l ++ l') s =
    rbind (apply_transactions skip num l s) (λ r, apply_transactions skip num l' (snd r)).
Proof.
  revert s. induction l as [|trx l IH]; intros s; simpl; [done|]. unfold bind.
  destruct (apply_transaction _ _ _ _) as [[rs s1]|]; simpl; [apply IH|done].
Qed.

(** The transactions of a block, with their results, are what the loop applied. *)
Lemma fill_block_applied skip max c0 : ∀ pending size trxs c c' out,
  (∃ s, apply_transactions (transaction_steps skip) (head_block_number (c_dgp c0)) trxs (c_db c0) = Ok (tt, s) ∧
        c = set_c_db s c0) →
  fill_block skip max pending size trxs c = (c', Ok out) →
  ∃ s, apply_transactions (transaction_steps skip) (head_block_number (c_dgp c0)) out (c_db c0) = Ok (tt, s).
Proof.
  induction pending as [|tx pending IH]; intros size trxs c c' out (s & Hs & ->); simpl.
  { intros [= <- <-]. eauto. }
  destruct (max <=? _); [apply IH; eauto|].
  destruct (process_transaction skip tx _) as [[ptx c1]|e] eqn:E.
  - destruct (process_transaction_ok _ _ _ _ _ E) as (Ht & s1 & Ha & ->). apply IH. exists s1. split; [|done].
    rewrite apply_transactions_app, Hs. simpl in *. unfold bind. rewrite Ht, Ha. done.
  - destruct (is_fc_exception e); [apply IH; eauto|done].
Qed.

Lemma set_c_db_same c : set_c_db (c_db c) c = c.
Proof. by destruct c. Qed.
Lemma clean_database s : d_applied_ops s = [] → set_d_applied_ops [] s = s.
Proof. destruct s. simpl. by intros ->. Qed.
Lemma clean_affected s : d_issue_453_affected_assets s = ∅ → set_d_issue_453_affected_assets ∅ s = s.
Proof. destruct s. simpl. by intros ->. Qed.
Lemma clean_time s : set_d_head_block_time (d_head_block_time s) s = s.
Proof. by destruct s. Qed.

Lemma check_producer_ok when w key skip c :
  check_producer when w key skip c = Ok tt →
  0 < get_slot_at_time (schedule_of c) when ∧
  get_scheduled_witness (schedule_of c) (get_slot_at_time (schedule_of c) when) = Ok w ∧
  ∃ o, d_witnesses (c_db c) !! w = Some o ∧ (skip_witness_signature skip = false → wit_signing_key o = public_key key).
Proof.
  unfold check_producer. intros [Hslot Hr]%require_r_ok. apply rbind_ok in Hr as (w' & Hw & Hr).
  apply require_r_ok in Hr as [Heq Hr]. apply rbind_ok in Hr as (o & Ho & Hr). apply of_option_ok in Ho.
  apply require_r_ok in Hr as [Hk _]. btrue. subst w'. split_and!; [lia|done|]. exists o. split; [done|].
  intros E. rewrite E in Hk. simpl in Hk. lia.
Qed.

(** The members of the block's header that are checked. *)
Lemma assemble_block_ok when w key skip head_id trxs b :
  assemble_block when w key skip head_id trxs = Ok b →
  bh_previous b = head_id ∧ bh_timestamp b = when ∧ bh_witness b = w ∧ sb_transactions b = trxs ∧
  calculate_merkle_root trxs = Ok (bh_transaction_merkle_root b) ∧
  (skip_witness_signature skip = false → ∃ h, sb_header b = sign key h).
Proof.
  unfold assemble_block. intros (root & Hroot & [= <-])%rbind_ok. simpl.
  destruct (skip_witness_signature skip); split_and!; try done. intros _. by eexists.
Qed.

(** The checks of the producer pass again when the header is validated. *)
Lemma header_validated skip vs c w o b :
  clock_fits (schedule_of c) 1 →
  bh_previous b = WitnessSchedule.head_block_id (c_dgp c) → bh_witness b = w →
  0 < get_slot_at_time (schedule_of c) (bh_timestamp b) →
  get_scheduled_witness (schedule_of c) (get_slot_at_time (schedule_of c) (bh_timestamp b)) = Ok w →
  d_witnesses (c_db c) !! w = Some o → (skip_witness_signature skip = false → vs w (sb_header b) = true) →
  validate_block_header (skip_witness_signature skip) (skip_witness_schedule_check skip) vs b (schedule_of c) =
    Ok (w, schedule_of c).
Proof.
  intros Hfit Hprev Hw Hslot Hsched Ho Hsig. destruct (get_slot_time_value _ _ Hfit) as (_ & _ & _ & _ & Hnow & _).
  assert (get_slot_time (schedule_of c) 1 ≤ bh_timestamp b) as Hwhen.
  { unfold get_slot_at_time in Hslot. destruct (Z.ltb_spec (bh_timestamp b) (get_slot_time (schedule_of c) 1)); lia. }
  assert (witnesses (schedule_of c) !! w = Some (default new_counters (c_counters c !! w))) as Hc.
  { simpl. unfold counters_of. by rewrite map_lookup_imap, Ho. }
  unfold validate_block_header, bind, gets, lift, require, ret, id. rewrite Hw, Hc, Hsched.
  rewrite bool_decide_true by done. rewrite (proj2 (Z.ltb_lt _ _)) by lia. simpl.
  assert (skip_witness_signature skip || vs w b = true) as ->.
  { destruct (skip_witness_signature skip); [done|]. by rewrite Hsig. }
  destruct (skip_witness_schedule_check skip); [done|]. rewrite (proj2 (Z.ltb_lt _ _)) by lia. by rewrite Z.eqb_refl.
Qed.

(** C27. A produced block applies: [_apply_block] finds its Merkle root, its header,
    witness and signature in order, and its transactions apply with the results the
    block carries, so that only recording it as the head is left. The signature of
    a key must be recognised, the clock must not run over, no pending transaction
    may change the key of the witness, and the state is one a block leaves. *)
Theorem build_block_applies checkpoint when w key skip n n' b :
  (∀ h, signee (sign key h) = Some (public_key key)) →
  let c := state (fn_node n) in
  pending_ok n → clock_fits (schedule_of c) 1 →
  wit_signing_key <$> d_witnesses (c_db (current n)) !! w = wit_signing_key <$> d_witnesses (c_db c) !! w →
  d_applied_ops (c_db c) = [] → d_issue_453_affected_assets (c_db c) = ∅ →
  build_block when w key skip n = (n', Ok b) →
  ∃ s, apply_transactions (transaction_steps skip) (head_block_number (c_dgp c)) (sb_transactions b) (c_db c) = Ok (tt, s) ∧
    begin_block checkpoint skip b c =
      bind (record_block checkpoint skip b) (λ _, ret (w, d_next_maintenance_time (c_db c) <=? when))
        (set_c_db s (put_schedule (schedule_of c) c)).
Proof.
  intros Hsign c Hpend Hfit Hkey Hops H453. unfold build_block. fold c.
  destruct (check_producer when w key skip (current n)) as [[]|] eqn:Hcheck; [|done].
  apply check_producer_ok in Hcheck as (Hslot & Hsched & o & Ho & Hok).
  destruct (fill_block _ _ _ _ _ _) as [c1 [trxs|]] eqn:Hfill; [|done]. intros [= <- Hb].
  apply rbind_ok in Hb as (b' & Hb & [_ [= ->]]%require_r_ok).
  destruct (assemble_block_ok _ _ _ _ _ _ _ Hb) as (Hprev & Hwhen & Hw & Htrx & Hroot & Hsigned).
  destruct (replays_slots _ _ _ Hpend) as (Hsame & Hdgp & Hshuf). fold c in Hsame, Hdgp, Hshuf.
  rewrite (slot_of_slots _ _ _ Hsame) in Hslot, Hsched.
  assert (get_scheduled_witness (schedule_of c) (get_slot_at_time (schedule_of c) when) = Ok w) as Hsched'.
  { rewrite <- Hsched. unfold get_scheduled_witness. simpl. by rewrite Hdgp, Hshuf. }
  rewrite Ho in Hkey. destruct (d_witnesses (c_db c) !! w) as [oc|] eqn:Hoc; [|done]. injection Hkey as Hkey.
  destruct (fill_block_applied skip _ c _ _ [] _ _ _ (ex_intro _ (c_db c) (conj eq_refl (eq_sym (set_c_db_same c)))) Hfill) as (s & Hs).
  exists s. rewrite Htrx. split; [done|].
  assert (validate_block_header (skip_witness_signature skip) (skip_witness_schedule_check skip)
    (signed_by_witness (c_db c)) b (schedule_of c) = Ok (w, schedule_of c)) as Hval.
  { eapply header_validated; rewrite ?Hwhen; try done. intros Hsk. unfold signed_by_witness. rewrite Hoc.
    destruct (Hsigned Hsk) as [h ->]. rewrite Hsign. apply Z.eqb_eq. rewrite <- Hkey. symmetry. by apply Hok. }
  assert (set_c_db (set_d_applied_ops [] (c_db c)) c = c) as E1 by (rewrite clean_database by done; apply set_c_db_same).
  assert (c_db (put_schedule (schedule_of c) c) = c_db c) as E2 by apply clean_time.
  assert (check_merkle_root skip b = Ok tt) as E3.
  { unfold check_merkle_root. destruct (skip_merkle_check skip); [done|]. rewrite Htrx, Hroot. simpl. by rewrite Z.eqb_refl. }
  unfold begin_block.
  rewrite (bind_run _ _ c tt c) by (unfold on_db, put; simpl; by rewrite E1).
  rewrite (bind_run _ _ c tt c) by (unfold lift; by rewrite E3).
  rewrite (bind_run _ _ c (c_db c) c) by done.
  rewrite (bind_run _ _ c w (put_schedule (schedule_of c) c)) by (unfold on_schedule; by rewrite Hval).
  set (c2 := put_schedule (schedule_of c) c) in *.
  rewrite (bind_run _ _ c2 tt c2) by (change (Ok (tt, set_c_db (set_d_issue_453_affected_assets ∅ (c_db c2)) c2) = Ok (tt, c2));
    rewrite E2, clean_affected by done; by rewrite <- E2, set_c_db_same).
  rewrite (bind_run _ _ c2 (head_block_number (c_dgp c)) c2) by done.
  rewrite (bind_run _ _ c2 tt (set_c_db s c2)); [by rewrite Hwhen|]. unfold on_db. by rewrite E2, Htrx, Hs.
Qed.
End production.

(** ** A block of the sample chain *)

(** Every transaction takes 100 bytes; a key is its own public key. *)
#[local] Instance flat_blocks : BlockPacking := {|
  pack_size_transaction _ := 100;
  pack_size_block b := 200 + 100 * Z.of_nat (length (sb_transactions b));
  max_block_header_size := 100;
|}.
#[local] Instance same_keys : BlockProducer := {|
  public_key k := k; unsigned_digest := 0; signed_digest k _ := 78 + k
|}.
#[local] Instance sample_blocks : ChainState chain := block_chain_state ∅ 0.

(** The node of the sample chain, and with alice's payment pending. *)
Definition sample_node : full_node :=
  mk_full_node (mk_node empty_fork_database sample_chain [] 256 ∅ []) None [].
Definition sample_pending : full_node := fst (push_transaction 0 (ptx_transaction sample_payment) sample_node).

Lemma pending_transactions_replay_witness :
  fn_pending_tx sample_pending = [sample_payment] ∧ pending_ok sample_pending.
Proof.
  split; [vm_compute; reflexivity|].
  apply (proj1 (pending_transactions_replay sample_node) 0 (ptx_transaction sample_payment)). constructor.
Defined.

Lemma build_block_applies_witness :
  ∃ b s, snd (build_block (sample_time + 3600) 2 0 0 sample_pending) = Ok b ∧ sb_transactions b = [sample_payment] ∧
    apply_transactions (transaction_steps 0) 41 (sb_transactions b) sample_before = Ok (tt, s).
Proof.
  destruct (build_block (sample_time + 3600) 2 0 0 sample_pending) as [n' [b|]] eqn:E; [|vm_compute in E; discriminate E].
  edestruct (build_block_applies None (sample_time + 3600) 2 0 0 sample_pending n' b) as (s & Hs & _); [..|exact E|].
  - reflexivity.
  - apply push_transaction_ok. constructor.
  - split; vm_compute; repeat split; congruence.
  - vm_compute. reflexivity.
  - vm_compute. reflexivity.
  - vm_compute. reflexivity.
  - exists b, s. split; [reflexivity|]. split; [vm_compute in E; injection E as _ <-; reflexivity|exact Hs].
Defined.
