(* ===== verification/ExpiryTheory.v ===== *)
(** * The loops over the database end, and what has expired is gone

    The loops of [clear_expired_transactions], [clear_expired_proposals] and
    [update_withdraw_permissions] (Transactions.v, Update.v), the nesting of
    proposals (Transactions.v), and the loops of the market that match limit orders,
    settle an asset globally and cancel bids (Matching.v, OrderBook.v). *)

From S2P Require Import Prelude Ext Config Asset Objects Parameters Governance Blocks Names Operations Validation Fees Ledger Authority Database Balance Market Matching OrderBook Feeds Evaluator ContractEval ProposalEval Update Transactions SignedBlocks ApplyBlock Indices EvalSupply Frame GovernanceSupply ChainSupply BlockSupply Sample.

(** ** The first of an index by expiration *)

Lemma first_by_some {V} (time : V → Z) (m : gmap Z V) id v :
  first_by time m = Some (id, v) → m !! id = Some v ∧ ∀ k w, m !! k = Some w → time v ≤ time w.
Proof.
  unfold first_by. set (less := λ a b : Z * V, _). intros Hhead.
  destruct (sorted_by less (map_to_list m)) as [|x l] eqn:E; [done|]. injection Hhead as ->.
  assert (∀ a b, less a b = true → less b a = false) as Hasym by (intros a b; unfold less; btrue; lia).
  split. { apply elem_of_map_to_list, (elem_of_sorted_by less Hasym). rewrite E. set_solver. }
  pose proof (sorted_by_sorted less Hasym (map_to_list m)) as Hs. rewrite E in Hs.
  intros k w Hk. assert ((k, w) ∈ (id, v) :: l) as Hin.
  { rewrite <- E. by apply (elem_of_sorted_by less Hasym), elem_of_map_to_list. }
  apply elem_of_cons in Hin as [[= -> ->]|Hin]; [lia|].
  apply StronglySorted_inv in Hs as [_ Hall].
  - rewrite Forall_forall in Hall. specialize (Hall _ Hin). unfold le_by, less in Hall. simpl in Hall.
    apply Is_true_true, negb_true_iff in Hall. lia.
  - unfold less. repeat split; intros; simpl in *; lia.
Qed.

Lemma first_by_none {V} (time : V → Z) (m : gmap Z V) : first_by time m = None → m = ∅.
Proof.
  unfold first_by. set (less := λ a b : Z * V, _). destruct (sorted_by less (map_to_list m)) eqn:E; [|done]. intros _.
  apply map_to_list_empty_iff, Permutation_nil_r. rewrite <- E. symmetry. apply sorted_by_perm.
Qed.

(** ** Loops that only remove the first element

    [old] holds of a prefix of the index; a loop that removes the first element
    as long as it is old leaves the elements that are not. *)
Section drain.
Context {V : Type} (proj : database → gmap Z V) (upd : gmap Z V → database → database).
Context (time : V → Z) (old : Z → V → bool) (loop : nat → DB unit).
#[local] Set Default Proof Using "Type*".
Hypothesis proj_upd : ∀ m s, proj (upd m s) = m.
Hypothesis upd_upd : ∀ m m' s, upd m (upd m' s) = upd m s.
Hypothesis upd_proj : ∀ s, upd (proj s) s = s.
Hypothesis upd_now : ∀ m s, d_head_block_time (upd m s) = d_head_block_time s.
Hypothesis old_first : ∀ now v w, old now w = true → time v ≤ time w → old now v = true.
Hypothesis loop_step : ∀ fuel s,
  loop (S fuel) s =
    match first_by time (proj s) with
    | Some (id, v) =>
      if old (d_head_block_time s) v then bind (remove_from proj upd id) (λ _, loop fuel) s else Ok (tt, s)
    | None => Ok (tt, s)
    end.

Definition young (now : Z) (m : gmap Z V) : gmap Z V := filter (λ kv, old now kv.2 = false) m.

Lemma young_all now m : (∀ k v, m !! k = Some v → old now v = false) → young now m = m.
Proof. intros H. by apply map_filter_id. Qed.

Lemma drain_loop fuel : ∀ s, (size (proj s) < fuel)%nat →
  loop fuel s = Ok (tt, upd (young (d_head_block_time s) (proj s)) s).
Proof.
  induction fuel as [|fuel IH]; intros s Hf; [lia|]. rewrite loop_step.
  destruct (first_by time (proj s)) as [[id v]|] eqn:E.
  - destruct (first_by_some _ _ _ _ E) as [Hid Hmin]. destruct (old _ v) eqn:Hold.
    + unfold bind, remove_from. rewrite Hid. rewrite IH.
      * rewrite proj_upd, upd_upd, upd_now. unfold young. rewrite map_filter_delete_not; [done|].
        intros w Hw. rewrite Hid in Hw. injection Hw as ->. simpl. by rewrite Hold.
      * rewrite proj_upd, map_size_delete, Hid. assert (size (proj s) ≠ 0%nat); [|simpl; lia].
        rewrite map_size_ne_0_lookup. by exists id, v.
    + rewrite young_all, upd_proj; [done|]. intros k w Hk. apply not_true_iff_false. intros Hw.
      rewrite (old_first _ v w Hw) in Hold; [done|]. by apply (Hmin k).
  - apply first_by_none in E. rewrite young_all, upd_proj; [done|]. intros k w. by rewrite E, lookup_empty.
Qed.
End drain.

(** One pass of a loop. *)
Ltac expiry_step :=
  intros fuel s'; simpl; unfold bind, head_block_time, gets;
  destruct (first_by _ _) as [[? ?]|]; [|reflexivity];
  match goal with |- context [if ?b then _ else _] => destruct b end; reflexivity.

(** What is left of the transactions and of the permissions. *)
Definition unexpired_transactions (s : database) : gmap Z transaction_object :=
  filter (λ kv, d_head_block_time s ≤ to_get_expiration kv.2) (d_transactions s).
Definition unexpired_permissions (s : database) : gmap Z withdraw_permission_object :=
  filter (λ kv, d_head_block_time s < wp_expiration kv.2) (d_withdraw_permissions s).

(** The loops that forget expired transactions and withdraw permissions always
    end normally, whatever the database, and remove exactly the transactions
    that expired before the time of the head block and the permissions that
    expire at it or before. *)
Theorem expired_records_removed (s : database) :
  clear_expired_transactions s = Ok (tt, set_d_transactions (unexpired_transactions s) s) ∧
  update_withdraw_permissions s = Ok (tt, set_d_withdraw_permissions (unexpired_permissions s) s).
Proof.
  split; [unfold clear_expired_transactions|unfold update_withdraw_permissions].
  - rewrite (drain_loop d_transactions set_d_transactions to_get_expiration
      (λ now t, to_get_expiration t <? now) clear_transactions);
      try done; [|intros s'; destruct s' as [? ? ? ? ? ? ? ? ? ? ? ? ? ? ? ? ? ? ? ? ? ? ? []]; done|intros now v w; cbv beta; rewrite !Z.ltb_lt; intros; lia| |lia].
    2: expiry_step.
    do 3 f_equal. apply map_filter_ext. intros k t _. simpl. rewrite Z.ltb_ge. lia.
  - rewrite (drain_loop d_withdraw_permissions set_d_withdraw_permissions wp_expiration
      (λ now p, wp_expiration p <=? now) expire_permissions);
      try done; [|by intros []|intros now v w; cbv beta; rewrite !Z.leb_le; intros; lia| |lia].
    2: expiry_step.
    do 3 f_equal. apply map_filter_ext. intros k t _. simpl. rewrite Z.leb_gt. lia.
Qed.

(** ** Proposals that are due *)

Definition due (s : database) : gset Z :=
  dom (filter (λ kv, po_expiration_time kv.2 ≤ d_head_block_time s) (d_proposals s)).

Lemma elem_of_due s id :
  id ∈ due s ↔ ∃ p, d_proposals s !! id = Some p ∧ po_expiration_time p ≤ d_head_block_time s.
Proof.
  unfold due. rewrite elem_of_dom. split.
  - intros [p [Hp Hle]%map_lookup_filter_Some]. eauto.
  - intros (p & Hp & Hle). exists p. by apply map_lookup_filter_Some.
Qed.

(** Nothing becomes due. *)
Definition no_new_due (s s' : database) : Prop :=
  d_head_block_time s' = d_head_block_time s ∧ due s' ⊆ due s.
Definition settles {A} (m : DB A) : Prop := ∀ s, post m s (λ _, no_new_due s).

#[export] Instance no_new_due_preorder : PreOrder no_new_due.
Proof.
  split; [by split|]. intros s1 s2 s3 [Ht Hd] [Ht' Hd']. split; [congruence|set_solver].
Qed.

Lemma settles_bind {A B} (m : DB A) (k : A → DB B) :
  settles m → (∀ x, settles (k x)) → settles (bind m k).
Proof.
  intros Hm Hk s. apply post_bind. pcall Hm. intros x s1 H1. simpl. pcall Hk. intros y s2 H2. by transitivity s1.
Qed.
(** Put or removed proposals *)
Lemma no_new_due_step (m : gmap Z proposal_object) s s' :
  d_head_block_time s' = d_head_block_time s → d_proposals s' = m →
  (∀ id p, m !! id = Some p → po_expiration_time p ≤ d_head_block_time s → id ∈ due s) → no_new_due s s'.
Proof.
  intros Ht Hm H. split; [done|]. intros id. rewrite elem_of_due, Ht, Hm. intros (p & Hp & Hle). by eapply H.
Qed.

Lemma settles_clock {A} (m : DB A) : keeps_clock m → settles m.
Proof.
  intros Hm s. pcall Hm. intros x s' E. injection E as Ht _ _ _ _ Hp.
  apply (no_new_due_step (d_proposals s)); [done|done|]. intros id p ? ?. apply elem_of_due. eauto.
Qed.

Lemma remove_proposal_settles id : settles (remove_proposal id).
Proof.
  intros s. apply post_remove. intros v Hv. apply (no_new_due_step (delete id (d_proposals s))); [done|done|]. intros k p Hp Hle.
  apply lookup_delete_Some in Hp as [_ Hp]. apply elem_of_due. eauto.
Qed.
Lemma modify_proposal_settles id f :
  (∀ p p', f p = Ok p' → po_expiration_time p' = po_expiration_time p) → settles (modify_proposal id f).
Proof.
  intros Hf s. apply post_modify. intros v v' Hv Hf'. apply (no_new_due_step (<[id:=v']> (d_proposals s))); [done|done|]. intros k p Hp Hle.
  apply elem_of_due. apply lookup_insert_Some in Hp as [[<- <-]|[_ Hp]]; [|by eauto].
  exists v. split; [done|]. by rewrite <- (Hf _ _ Hf').
Qed.
Lemma create_proposal_settles p s :
  d_head_block_time s < po_expiration_time p → post (create_proposal p) s (λ _, no_new_due s).
Proof.
  intros Hp. apply post_create. intros id -> Hid _. apply (no_new_due_step (<[ni_proposal (d_next_ids s):=p]> (d_proposals s))); [done|done|]. intros k q Hq Hle.
  apply elem_of_due. apply lookup_insert_Some in Hq as [[<- <-]|[_ Hq]]; [lia|by eauto].
Qed.

Section expiry.
Context {X : Ext} {P : Packing} {N : NthElement} {K : KeyAddresses} {C : ContractMachine}.

Lemma apply_settles {Op E F} {Ev : Evaluator Op E F} ts op i e :
  keeps_clock (ev_convert_fee ts i) → keeps_clock (ev_pay_fee ts i) →
  (∀ f, settles (ev_do_apply i f op e)) → settles (apply ts op i e).
Proof.
  intros Hc Hp Ha. unfold apply. apply settles_bind; [by apply settles_clock|]. intros _.
  apply settles_bind; [by apply settles_clock|]. intros f. apply settles_bind; [apply Ha|]. intros r.
  apply settles_clock. frame.
Qed.
Lemma start_evaluate_settles {Op E F} {Ev : Evaluator Op E F} ts op :
  (∀ i, keeps_clock (ev_do_evaluate ts i op)) →
  (∀ i, keeps_clock (ev_convert_fee ts i)) → (∀ i, keeps_clock (ev_pay_fee ts i)) →
  (∀ i f e, settles (ev_do_apply i f op e)) → settles (start_evaluate ts op).
Proof.
  intros He Hc Hp Ha. unfold start_evaluate. apply settles_bind; [|intros; by apply apply_settles].
  apply settles_clock. unfold evaluate, prepare_fee, detail_is_authorized_asset. frame.
Qed.

Lemma prepare_fee_clock a x : keeps_clock (prepare_fee a x).
Proof. unfold prepare_fee, detail_is_authorized_asset. frame. Qed.

(** A proposal is created with an expiration to come. *)
Lemma proposal_create_settles ts (o : proposal_create_operation operation) : settles (start_evaluate ts o).
Proof.
  intros s. unfold start_evaluate. apply post_bind.
  apply (post_mono _ _ (λ _ s1, no_new_due s s1 ∧ d_head_block_time s < prc_expiration_time o)).
  - unfold evaluate. apply post_bind. apply (post_mono _ _ (λ _ s1, no_new_due s s1)).
    { apply settles_clock, prepare_fee_clock. }
    intros i s1 H1. dstep. dstep. apply post_bind. apply (post_mono _ _ (λ _ s2, no_new_due s1 s2)).
    { apply settles_clock. frame. }
    intros b s2 H2. destruct b; [|dstep]. apply post_bind. simpl ev_do_evaluate. unfold proposal_create_do_evaluate.
    repeat first [dstep|intros ? _; cbv beta]. btrue. destruct H1 as [Ht1 Hd1], H2 as [Ht2 Hd2]. unfold no_new_due. split_and!; [congruence|set_solver|lia].
  - intros [i e] s1 [Hs1 Hlt]. simpl. eapply (post_mono _ _ (λ _ s2, no_new_due s1 s2)).
    2: { intros r s2 H2. by transitivity s1. }
    destruct Hs1 as [Ht _]. unfold apply. apply post_bind. simpl ev_convert_fee.
    pcall (settles_clock _ (convert_fee_clock ts i)). intros u s2 H2. apply post_bind. simpl ev_pay_fee.
    pcall (settles_clock _ (generic_pay_fee_clock ts i)). intros f s3 H3. apply post_bind. simpl ev_do_apply.
    unfold proposal_create_do_apply. apply post_bind. pcall create_proposal_settles.
    { simpl. destruct H2, H3. lia. }
    intros id s4 H4. dstep. eapply (post_mono _ _ (λ _ s2, no_new_due s4 s2)); [apply settles_clock; frame|].
    intros r s5 H5. transitivity s2; [done|]. transitivity s3; [done|]. by transitivity s4.
Qed.

(** Operations, with what executes the proposals *)
Section with_push.
Context (push_proposal : Z → DB unit).
#[local] Set Default Proof Using "Type*".
Hypothesis push_settles : ∀ id, settles (push_proposal id).

Lemma proposal_update_settles i f o e : settles (proposal_update_do_apply push_proposal i f o e).
Proof.
  unfold proposal_update_do_apply. apply settles_bind; [apply modify_proposal_settles; by intros p p' [= <-]|].
  intros _. apply settles_bind; [apply settles_clock; frame|]. intros p.
  destruct (bool_decide _); [apply settles_clock; frame|].
  apply settles_bind; [apply settles_clock, keeps_reads, reads_is_authorized|]. intros authorized.
  apply settles_bind; [|intros; apply settles_clock; frame]. destruct authorized; [|apply settles_clock; frame].
  intros s u s'. unfold try_push. destruct (push_proposal _ s) as [[u1 s1]|e1] eqn:E.
  - intros [= <- <-]. apply (push_settles _ s u1 s1 E).
  - destruct (is_fc_exception e1); [by intros [= _ <-]|done].
Qed.

Lemma evaluate_operation_settles ts op : settles (evaluate_operation push_proposal ts op).
Proof.
  destruct (on_proposal op) eqn:Hop; [|by apply settles_clock, evaluate_operation_clock].
  destruct op; try discriminate Hop; simpl; [apply proposal_create_settles| |];
    apply start_evaluate_settles; intros; simpl;
    try first [apply convert_fee_clock|apply generic_pay_fee_clock]; try frame.
  - apply proposal_update_settles.
  - apply settles_bind; [apply remove_proposal_settles|]. intros. apply settles_clock. frame.
Qed.

Lemma apply_operation_settles ts op : settles (apply_operation push_proposal ts op).
Proof.
  apply settles_bind; [apply settles_clock; frame|]. intros. apply evaluate_operation_settles.
Qed.
Lemma apply_proposed_settles skip id ops : settles (apply_proposed push_proposal skip id ops).
Proof.
  unfold apply_proposed. induction ops as [|op ops IH]; cbn [for_each]; [apply settles_clock; frame|].
  apply settles_bind; [|intros; apply IH].
  apply settles_bind; [apply apply_operation_settles|]. intros. apply settles_clock. frame.
Qed.
End with_push.

Lemma push_proposal_settles fuel skip : ∀ depth id, settles (push_proposal fuel skip depth id).
Proof.
  induction fuel as [|fuel IH]; intros depth id; simpl; [apply settles_clock; frame|]. unfold get_gov.
  apply settles_bind; [apply settles_clock; frame|]. intros p.
  apply settles_bind; [apply settles_clock; frame|]. intros w. destruct (depth <? _); simpl; [|apply settles_clock, keeps_reads, reads_fail].
  apply settles_bind; [by apply apply_proposed_settles|]. intros. apply remove_proposal_settles.
Qed.
Lemma push_settles skip id : settles (push skip id).
Proof. intros s. apply push_proposal_settles. Qed.

(** ** The loop over the proposals *)

Lemma expire_proposal_settles skip id p : settles (expire_proposal skip id p).
Proof.
  unfold expire_proposal. apply settles_bind; [apply settles_clock, keeps_reads, reads_is_authorized|].
  intros []; [|apply remove_proposal_settles]. intros s u s'. destruct (push skip id s) as [[u1 s1]|e1] eqn:E.
  - intros [= <- <-]. apply (push_settles skip id s u1 s1 E).
  - destruct (is_fc_exception e1); [|done]. apply remove_proposal_settles.
Qed.

Lemma remove_proposal_removes id s : post (remove_proposal id) s (λ _ s', id ∉ due s').
Proof.
  apply post_remove. intros v _. rewrite elem_of_due. intros (p & Hp & _).
  change (delete id (d_proposals s) !! id = Some p) in Hp. by apply lookup_delete_Some in Hp as [].
Qed.
Lemma push_removes skip id s : post (push skip id) s (λ _ s', id ∉ due s').
Proof.
  unfold push, nesting_fuel. cbn [push_proposal]. unfold get_gov. intros u s'. revert u s'.
  apply post_bind. intros p s1 _. apply post_bind. intros w s2 _. apply post_require. intros _.
  apply post_bind. intros [] s3 _. apply remove_proposal_removes.
Qed.
Lemma expire_proposal_removes skip id p s : post (expire_proposal skip id p) s (λ _ s', id ∉ due s').
Proof.
  unfold expire_proposal. apply post_bind. intros b s1 _. destruct b; [|apply remove_proposal_removes].
  intros u s'. destruct (push skip id s1) as [[u1 s2]|e1] eqn:E.
  - intros [= <- <-]. apply (push_removes skip id s1 u1 s2 E).
  - destruct (is_fc_exception e1); [|done]. apply remove_proposal_removes.
Qed.

(** Each pass makes the proposals that are due fewer. *)
Lemma expire_proposal_fewer skip id p s :
  id ∈ due s → post (expire_proposal skip id p) s (λ _ s', (size (due s') < size (due s))%nat).
Proof.
  intros Hid u s' E. pose proof (expire_proposal_removes _ _ _ _ _ _ E).
  destruct (expire_proposal_settles _ _ _ _ _ _ E) as [_ Hsub]. apply subset_size. set_solver.
Qed.

Lemma clear_proposals_fuel skip f1 : ∀ f2 s, (size (due s) < f1)%nat → (size (due s) < f2)%nat →
  clear_proposals f1 skip s = clear_proposals f2 skip s.
Proof.
  induction f1 as [|f1 IH]; intros [|f2] s H1 H2; [lia..|]. simpl. unfold bind, head_block_time, gets.
  destruct (first_by _ _) as [[id p]|] eqn:E; [|done]. apply first_by_some in E as [Hid _].
  destruct (po_expiration_time p <=? d_head_block_time s) eqn:Hdue; [|done]. btrue.
  destruct (expire_proposal skip id p s) as [[u s1]|e] eqn:Hrun; [|done].
  assert (size (due s1) < size (due s))%nat; [|apply IH; lia].
  apply (expire_proposal_fewer skip id p s) in Hrun; [done|]. apply elem_of_due. eauto.
Qed.

(** The passes of the loop up to some point. *)
Inductive clearing (skip : bool) : database → database → Prop :=
  | clearing_start s : clearing skip s s
  | clearing_pass s id p s1 s2 :
      first_by po_expiration_time (d_proposals s) = Some (id, p) → po_expiration_time p ≤ d_head_block_time s →
      expire_proposal skip id p s = Ok (tt, s1) → clearing skip s1 s2 → clearing skip s s2.

(** Only a proposal can stop the loop before its end. *)
Lemma clear_proposals_error skip fuel e : ∀ s, (size (due s) < fuel)%nat → clear_proposals fuel skip s = Err e →
  ∃ s1 id p, clearing skip s s1 ∧ id ∈ due s1 ∧ expire_proposal skip id p s1 = Err e.
Proof.
  induction fuel as [|fuel IH]; intros s Hf; [lia|]. simpl. unfold bind, head_block_time, gets.
  destruct (first_by _ _) as [[id p]|] eqn:E; [|done]. pose proof E as [Hid _]%first_by_some.
  destruct (po_expiration_time p <=? d_head_block_time s) eqn:Hdue; [|done]. btrue.
  assert (id ∈ due s) as Hin by (apply elem_of_due; eauto).
  destruct (expire_proposal skip id p s) as [[[] s1]|e'] eqn:Hrun.
  - pose proof (expire_proposal_fewer skip id p s Hin _ _ Hrun). intros (s2 & k & q & Hs2 & ?)%IH; [|simpl in *; lia].
    exists s2, k, q. split; [by eapply clearing_pass|done].
  - intros [= ->]. exists s, id, p. split; [constructor|done].
Qed.

Lemma clear_proposals_clears skip fuel : ∀ s, post (clear_proposals fuel skip) s (λ _ s', due s' = ∅).
Proof.
  induction fuel as [|fuel IH]; intros s; simpl; [dstep|]. do 4 dstep.
  destruct (first_by _ _) as [[id p]|] eqn:E.
  - apply first_by_some in E as [Hid Hmin]. dstep; [|dstep].
    + apply post_bind. intros u s1 _. apply IH.
    + btrue. apply leibniz_equiv, equiv_empty. intros k (q & Hq & Hle)%elem_of_due. specialize (Hmin k q Hq). lia.
  - apply first_by_none in E. dstep. apply leibniz_equiv, equiv_empty. intros k (q & Hq & _)%elem_of_due.
    by rewrite E in Hq.
Qed.

Lemma due_size s : (size (due s) ≤ size (d_proposals s))%nat.
Proof. unfold due. rewrite size_dom. apply map_subseteq_size, map_filter_subseteq. Qed.

(** ** The nesting of proposals *)

(** Two steps that agree and do not change the epoch, before two that agree as
    long as it does not change. *)
Lemma bind_agree_both {A B} (m m' : DB A) (k k' : A → DB B) s :
  m s = m' s → keeps_epoch m → (∀ x s1, epoch s1 = epoch s → k x s1 = k' x s1) → bind m k s = bind m' k' s.
Proof.
  intros E Hm Hk. unfold bind. rewrite <- E. destruct (m s) as [[x s1]|] eqn:E1; [|done]. apply Hk, (Hm _ _ _ E1).
Qed.
Lemma bind_agree {A B} (m : DB A) (k k' : A → DB B) s :
  keeps_epoch m → (∀ x s1, epoch s1 = epoch s → k x s1 = k' x s1) → bind m k s = bind m k' s.
Proof. by apply bind_agree_both. Qed.

Lemma bind_gets {S A B} (f : S → A) (k : A → M S B) s : bind (gets f) k s = k (f s) s.
Proof. done. Qed.

Section agree.
Context (p1 p2 : Z → DB unit) (e : Z * Z * gset Z * (Z * Z)).
#[local] Set Default Proof Using "Type*".
Hypothesis p1_epoch : ∀ id, keeps_epoch (p1 id).
Hypothesis agree : ∀ id s, epoch s = e → p1 id s = p2 id s.

Lemma proposal_update_agree i f o x s :
  epoch s = e → proposal_update_do_apply p1 i f o x s = proposal_update_do_apply p2 i f o x s.
Proof.
  intros Hs. unfold proposal_update_do_apply. apply bind_agree; [unfold modify_proposal; frame|]. intros _ s1 H1.
  apply bind_agree; [frame|]. intros p s2 H2. destruct (bool_decide _); [done|].
  apply bind_agree; [apply keeps_reads, reads_is_authorized|]. intros b s3 H3. unfold bind.
  destruct b; [|done]. unfold try_push. rewrite agree; [done|]. congruence.
Qed.

Lemma evaluate_operation_agree ts op s :
  epoch s = e → evaluate_operation p1 ts op s = evaluate_operation p2 ts op s.
Proof.
  intros Hs. destruct op; simpl; try done. unfold start_evaluate. apply bind_agree.
  { apply clock_epoch. unfold evaluate, prepare_fee, detail_is_authorized_asset. simpl ev_do_evaluate. frame. }
  intros r s1 H1. unfold apply. simpl ev_convert_fee. simpl ev_pay_fee. simpl ev_do_apply.
  apply bind_agree; [apply clock_epoch; frame|]. intros u s2 H2.
  apply bind_agree; [apply clock_epoch; frame|]. intros f s3 H3. unfold bind.
  rewrite proposal_update_agree; [done|]. congruence.
Qed.

Lemma apply_proposed_agree skip id ops : ∀ s,
  epoch s = e → apply_proposed p1 skip id ops s = apply_proposed p2 skip id ops s.
Proof.
  unfold apply_proposed. induction ops as [|op ops IH]; intros s Hs; [done|]. cbn [for_each].
  assert (keeps_epoch (apply_operation p1 (proposal_context skip) op)) as Hop by by apply apply_operation_epoch.
  apply bind_agree_both.
  - apply bind_agree_both; [|done|done]. unfold apply_operation, bind. simpl. by apply evaluate_operation_agree.
  - apply keeps_bind; [done|]. intros. frame.
  - intros _ s1 H1. apply IH. congruence.
Qed.
End agree.

Definition deepest (s : database) : Z := Z.of_nat (size (gv_active_witnesses (d_governance s))) * 2.

Lemma push_proposal_fuel skip f1 : ∀ f2 depth id s, 0 ≤ depth ≤ deepest s →
  deepest s - depth < Z.of_nat f1 → deepest s - depth < Z.of_nat f2 →
  push_proposal f1 skip depth id s = push_proposal f2 skip depth id s.
Proof.
  induction f1 as [|f1 IH]; intros [|f2] depth id s Hd H1 H2; [lia..|]. simpl. unfold get_gov.
  apply bind_agree; [frame|]. intros p s1 E1.
  rewrite !(bind_gets (λ s, gv_active_witnesses (d_governance s))). unfold require. destruct (depth <? _) eqn:Hlt; [|done].
  assert (∀ s', epoch s' = epoch s1 → deepest s' = deepest s) as Hdeep.
  { intros s' E. unfold epoch in *. unfold deepest. congruence. }
  specialize (Hdeep s1 eq_refl) as Hs1. apply Z.ltb_lt in Hlt. fold (deepest s1) in Hlt.
  apply bind_agree_both; [|apply apply_proposed_epoch, push_proposal_epoch|done].
  apply (apply_proposed_agree _ _ (epoch s1)); [apply push_proposal_epoch| |done].
  intros id' s' E%Hdeep. apply IH; rewrite ?E; lia.
Qed.

(** C29. The loop over the expired proposals and the nesting of proposals end: more
    passes than the model allows change no result, for every database; a loop
    that fails was stopped by a proposal it reached, never by its own passes; and
    a loop that returns leaves no expired proposal. *)
Theorem proposal_loops_end (skip : bool) (s : database) (fuel : nat) :
  ((size (d_proposals s) < fuel)%nat → clear_proposals fuel skip s = clear_expired_proposals skip s) ∧
  (∀ id, (nesting_fuel s ≤ fuel)%nat → push_proposal fuel skip 0 id s = push skip id s) ∧
  (∀ e, clear_expired_proposals skip s = Err e →
    ∃ s1 id p, clearing skip s s1 ∧ id ∈ due s1 ∧ expire_proposal skip id p s1 = Err e) ∧
  (∀ s', clear_expired_proposals skip s = Ok (tt, s') →
    ∀ id p, d_proposals s' !! id = Some p → d_head_block_time s' < po_expiration_time p).
Proof.
  pose proof (due_size s) as Hsize. split_and!.
  - intros Hf. apply clear_proposals_fuel; lia.
  - intros id Hf. unfold nesting_fuel in Hf. unfold push, nesting_fuel.
    apply push_proposal_fuel; unfold deepest; lia.
  - intros e. apply clear_proposals_error. lia.
  - intros s' Hrun id p Hp. apply clear_proposals_clears in Hrun. apply Z.lt_nge. intros Hle.
    assert (id ∈ due s') as Hin by (apply elem_of_due; eauto). rewrite Hrun in Hin. set_solver.
Qed.
End expiry.

(** ** The loops of the market *)


(** *** Computations that never run out of fuel *)
Definition rends {A} (r : res A) : Prop := r ≠ Err OutOfFuel.
Definition ends {A} (m : DB A) : Prop := ∀ s, rends (m s).

Lemma rends_bind {A B} (r : res A) (k : A → res B) : rends r → (∀ x, rends (k x)) → rends (rbind r k).
Proof. intros Hr Hk. destruct r as [x|e]; simpl; [apply Hk|]. intros [= ->]. by apply Hr. Qed.
Lemma ends_bind {A B} (m : DB A) (k : A → DB B) : ends m → (∀ x, ends (k x)) → ends (bind m k).
Proof.
  intros Hm Hk s. unfold bind. specialize (Hm s). destruct (m s) as [[x s']|e]; [apply Hk|]. intros [= ->]. by apply Hm.
Qed.
Lemma ends_at_bind {A B} (m : DB A) (k : A → DB B) s Q :
  rends (m s) → post m s Q → (∀ x s', Q x s' → rends (k x s')) → rends (bind m k s).
Proof.
  intros Hm Hp Hk. unfold bind. destruct (m s) as [[x s']|e] eqn:E; [by apply Hk, Hp|]. intros [= ->]. by apply Hm.
Qed.
Lemma ends_lift {A} (r : res A) : rends r → ends (lift r).
Proof. intros Hr s. unfold lift. destruct r; [done|]. intros [= ->]. by apply Hr. Qed.
Lemma ends_modify {V} (proj : database → gmap Z V) upd id f : (∀ v, rends (f v)) → ends (modify_in proj upd id f).
Proof.
  intros Hf s. unfold modify_in. destruct (proj s !! id) as [v|]; [|done]. specialize (Hf v).
  destruct (f v); [done|]. intros [= ->]. by apply Hf.
Qed.
Lemma ends_get {V} (proj : database → gmap Z V) id : ends (get_from proj id).
Proof. intros s. unfold get_from. by destruct (proj s !! id). Qed.
Lemma ends_remove {V} (proj : database → gmap Z V) upd id : ends (remove_from proj upd id).
Proof. intros s. unfold remove_from. by destruct (proj s !! id). Qed.
Lemma ends_create {V} (proj : database → gmap Z V) upd next set_next ok v : ends (create_in proj upd next set_next ok v).
Proof. intros s. unfold create_in. by case_match. Qed.

Lemma rends_of_option {A} e (o : option A) : e ≠ OutOfFuel → rends (of_option e o).
Proof. intros He. destruct o; [done|]. by intros [= ->]. Qed.
Lemma rends_safe `{Ext} z : rends (safe z).
Proof. by apply rends_of_option. Qed.
Create HintDb fuel.
Ltac fuel_step :=
  first
    [ assumption
    | solve [auto 1 with fuel nocore]

    | apply rends_safe
    | apply rends_bind; [|intros]
    | apply ends_bind; [|intros]
    | apply ends_lift
    | match goal with |- rends (of_option _ _) => by apply rends_of_option end
    | progress (unfold require_r, require)
    | apply ends_get | apply ends_remove | apply ends_create
    | apply ends_modify; intros
    | match goal with
      | |- rends (Ok _) => discriminate
      | |- rends (Err _) => discriminate
      | |- ends (ret _) => intros ?; discriminate
      | |- ends (fail _) => intros ?; discriminate
      | |- ends (head_block_time) => intros ?; discriminate
      | |- ends (next_maintenance_time) => intros ?; discriminate
      | |- ends (global_parameters) => intros ?; discriminate
      | |- ends (gets _) => intros ?; discriminate
      | |- ends (push_applied_operation _) => intros ?; discriminate
      | |- ends (put _) => intros ?; discriminate
      | |- rends (let '(_, _) := ?x in _) => destruct x
      | |- ends (let '(_, _) := ?x in _) => destruct x
      | |- rends (if ?b then _ else _) => destruct b
      | |- ends (if ?b then _ else _) => destruct b
      | |- rends (match ?x with _ => _ end) => destruct x
      | |- ends (match ?x with _ => _ end) => destruct x
      end ].
Ltac fuel_free := repeat fuel_step.

Section ends.
Context {X : Ext} {P : Packing}.

Lemma asset_mul_ends a p : rends (asset_mul a p).
Proof. unfold asset_mul. fuel_free. Qed.
Lemma round_up_ends a p : rends (multiply_and_round_up a p).
Proof. unfold multiply_and_round_up. fuel_free. Qed.
Lemma asset_div_ends a b : rends (asset_div a b).
Proof. unfold asset_div. fuel_free. Qed.
Lemma asset_sub_ends a b : rends (asset_sub a b).
Proof. unfold asset_sub. fuel_free. Qed.
Lemma asset_add_ends a b : rends (asset_add a b).
Proof. unfold asset_add. fuel_free. Qed.
Lemma asset_lt_ends a b : rends (asset_lt a b).
Proof. unfold asset_lt. fuel_free. Qed.
#[local] Hint Resolve asset_lt_ends : fuel.
Lemma asset_le_ends a b : rends (asset_le a b).
Proof. unfold asset_le. fuel_free. Qed.
Lemma calc_fee_ends s op : rends (calc_fee s op).
Proof.
  assert (∀ k, rends (op_calculate_fee op k)) as Hop.
  { intros k. destruct op, k; simpl; unfold calculate_data_fee; fuel_free. }
  unfold calc_fee. destruct (cget s op) as [k|]; [|apply Hop]. pose proof (Hop k) as Hk.
  destruct (op_calculate_fee op k) as [|e]; [done|]. destruct e; try done; apply Hop.
Qed.
End ends.

(** *** What a step takes off an index *)

(** The computation takes [c x] objects off an index of size [n] when it returns [x]. *)
Definition takes {A} (n : database → nat) (c : A → nat) (m : DB A) : Prop :=
  ∀ s, post m s (λ x s', n s = (n s' + c x)%nat).
Notation limit_count := (λ s, size (d_limits s)).
Notation call_count := (λ s, size (d_calls s)).
Notation bid_count := (λ s, size (d_bids s)).
Notation takes_one n := (takes n (λ _, 1%nat)).
Notation takes_if n := (takes n Nat.b2n).

Lemma takes_after {A B} n c (m : DB A) (k : A → DB B) : keeps n m → (∀ x, takes n c (k x)) → takes n c (bind m k).
Proof.
  intros Hm Hk s. apply post_bind. pcall Hm. intros x s1 E1. simpl. pcall Hk. intros r s2 E2. congruence.
Qed.
Lemma takes_then {A} n c (m : DB A) : takes_one n m → c true = 1%nat → takes n c (bind m (λ _, ret true)).
Proof. intros Hm Hc s. apply post_bind. pcall Hm. intros x s1 E1. apply post_ret. by rewrite Hc. Qed.
Lemma takes_require {A} n c b (k : DB A) : takes n c k → takes n c (require b k).
Proof. intros Hk s. dstep. apply Hk. Qed.
Lemma takes_false n : takes_if n (ret false).
Proof. intros s. apply post_ret. simpl. lia. Qed.
Lemma takes_remove {V} (proj : database → gmap Z V) upd id :
  (∀ m s, proj (upd m s) = m) → takes_one (λ s, size (proj s)) (remove_from proj upd id).
Proof.
  intros Hu s. apply post_remove. intros v Hv. rewrite Hu, map_size_delete, Hv.
  assert (size (proj s) ≠ 0%nat); [|simpl; lia]. rewrite map_size_ne_0_lookup. eauto.
Qed.
Lemma keeps_modify_size {V} (proj : database → gmap Z V) upd id f :
  (∀ m s, proj (upd m s) = m) → keeps (λ s, size (proj s)) (modify_in proj upd id f).
Proof. intros Hu s. apply post_modify. intros v v' Hv _. rewrite Hu. by apply map_size_insert_Some. Qed.
Ltac taking :=
  repeat first
    [ solve [auto with frames]
    | apply takes_false
    | apply takes_remove; done
    | apply takes_require
    | lazymatch goal with |- takes _ _ (bind _ (λ _, ret true)) => apply takes_then; [|done] end
    | apply takes_after; [first [apply keeps_modify_size; done | solve [frame]]|intros ?]
    | match goal with
      | |- takes _ _ (let _ := _ in _) => cbv zeta
      | |- takes _ _ (let '(_, _) := ?x in _) => destruct x
      | |- takes _ _ (if ?b then _ else _) => destruct b
      end ].

Section takes.
Context {X : Ext} {P : Packing}.

Lemma cancel_limit_order_takes id v b : takes_one limit_count (cancel_limit_order id v b).
Proof. unfold cancel_limit_order, deduct_cancel_fee. taking. Qed.
Lemma cancel_bid_takes id v : takes_one bid_count (cancel_bid id v).
Proof. unfold cancel_bid. taking. Qed.
#[local] Hint Resolve cancel_limit_order_takes : frames.
Lemma maybe_cull_takes id : takes_if limit_count (maybe_cull_small_order id).
Proof.
  unfold maybe_cull_small_order. taking.
Qed.
#[local] Hint Resolve maybe_cull_takes : frames.
Lemma fill_limit_order_takes id p r c fp mk : takes_if limit_count (fill_limit_order id p r c fp mk).
Proof. unfold fill_limit_order, pay_market_fees, pay_order. taking. Qed.
Lemma fill_call_order_takes id p r fp mk : takes_if call_count (fill_call_order id p r fp mk).
Proof.
  unfold fill_call_order. taking. destruct (bool_decide _); taking.
Qed.
Lemma match_limit_limit_takes taker maker p s :
  post (match_limit_limit taker maker p) s (λ r s', r = 2 → (size (d_limits s') < size (d_limits s))%nat).
Proof.
  unfold match_limit_limit. repeat dstep. intros [[[usd_receives core_receives] cull]|] _; [|by dstep].
  dstep. apply post_bind. pcall fill_limit_order_takes. intros t s1 E1. apply post_bind. pcall fill_limit_order_takes.
  intros m s2 E2. dstep. dstep. intros Hr. destruct t, m; try discriminate Hr. simpl in *. lia.
Qed.
End takes.

(** *** The loops *)
Lemma ends_at {A} (m : DB A) s : ends m → rends (m s).
Proof. done. Qed.
Lemma bind_get {V B} (proj : database → gmap Z V) id v (k : V → DB B) s :
  proj s !! id = Some v → bind (get_from proj id) k s = k v s.
Proof. intros Hid. unfold bind, get_from. by rewrite Hid. Qed.
(** A step that is left out. *)
Lemma ends_skip {A B} (b : bool) (m : DB A) x (k : A → DB B) :
  b = false → ends (k x) → ends (bind (if b then m else ret x) k).
Proof. by intros ->. Qed.
(** A step that does not change the state. *)
Lemma ends_at_reads {A B} (m : DB A) (k : A → DB B) s :
  reads m → ends m → (∀ x, rends (k x s)) → rends (bind m k s).
Proof. intros Hr Hm Hk. eapply ends_at_bind; [apply Hm|apply Hr|]. by intros x s' ->. Qed.

Lemma ends_then {A B} (m : DB A) (k : A → DB B) s : rends (m s) → (∀ x, ends (k x)) → rends (bind m k s).
Proof. intros Hm Hk. eapply (ends_at_bind _ _ _ (λ _ _, True)); [done|done|]. intros. apply Hk. Qed.
Lemma ends_at_require {A} (b : bool) (k : DB A) s : rends (k s) → rends (require b k s).
Proof. by destruct b. Qed.
Ltac ends_read :=
  first
    [ apply ends_at_require
    | lazymatch goal with |- rends (bind (gets calls_fuel) _ _) => fail | |- rends (bind (gets bids_fuel) _ _) => fail | _ => idtac end;
      apply ends_at_reads; [solve_reads|solve [fuel_free]|intros ?] ].

Section loops.
Context {X : Ext} {P : Packing}.

Lemma unit_mul c : 0 ≤ c ≤ GRAPHENE_MAX_SHARE_SUPPLY →
  asset_mul (mk_asset c CORE) (unit_price CORE) = Ok (mk_asset c CORE).
Proof.
  intros Hc. unfold asset_mul. simpl. unfold GRAPHENE_MAX_SHARE_SUPPLY in *.
  rewrite Z.div_1_r, Z.mul_1_r. rewrite !(u128_small c) by lia. by rewrite (proj2 (Z.leb_le c _)) by lia.
Qed.
Lemma calculate_fee_ends s op : rends (calculate_fee s op (unit_price CORE)).
Proof.
  unfold calculate_fee. apply rends_bind; [apply calc_fee_ends|]. intros b. unfold require_r.
  destruct (Z.leb_spec (fc_u128 (fc_u128 (u64 b) * fs_scale s) / GRAPHENE_100_PERCENT) GRAPHENE_MAX_SHARE_SUPPLY) as [Hmax|]; [|done].
  assert (0 ≤ fc_u128 (fc_u128 (u64 b) * fs_scale s) / GRAPHENE_100_PERCENT) as H0.
  { apply Z.div_pos; [apply fc_u128_range|]. unfold GRAPHENE_100_PERCENT. lia. }
  rewrite to_uint64_small by (unfold GRAPHENE_MAX_SHARE_SUPPLY in *; lia). unfold i64_of_u64.
  rewrite (proj2 (Z.leb_le _ (2 ^ 63 - 1))) by (unfold GRAPHENE_MAX_SHARE_SUPPLY in *; lia).
  cbn [raise_fee]. rewrite unit_mul by lia. cbn [rbind]. rewrite unit_mul by lia. cbn [rbind].
  unfold asset_lt. simpl. rewrite Z.ltb_irrefl. simpl. by destruct (_ <=? _).
Qed.
#[local] Hint Resolve asset_mul_ends round_up_ends asset_div_ends asset_sub_ends asset_add_ends asset_lt_ends asset_le_ends calculate_fee_ends : fuel.

Lemma asset_ge_ends a b : rends (asset_ge a b).
Proof. unfold asset_ge. fuel_free. Qed.
#[local] Hint Resolve asset_ge_ends : fuel.
Lemma adjust_balance_ends acct x : ends (adjust_balance acct x).
Proof. unfold adjust_balance, ab_adjust_balance, asset_neg. fuel_free. Qed.
Lemma pay_market_fees_ends x : ends (pay_market_fees x).
Proof. unfold pay_market_fees, get_asset, modify_dynamic. fuel_free. Qed.
Lemma statistics_ends acct f : (∀ v, rends (f v)) → ends (modify_statistics_of acct f).
Proof. intros Hf. unfold modify_statistics_of, get_account, modify_statistics. by fuel_free. Qed.
Lemma dynamic_ends a f : (∀ v, rends (f v)) → ends (modify_dynamic_of a f).
Proof. intros Hf. unfold modify_dynamic_of, get_asset, modify_dynamic. by fuel_free. Qed.
Lemma pay_fee_ends x y st : rends (pay_fee x y st).
Proof. unfold pay_fee. fuel_free. Qed.
#[local] Hint Resolve adjust_balance_ends pay_market_fees_ends statistics_ends dynamic_ends pay_fee_ends : fuel.
Lemma deduct_cancel_fee_ends id o b : ends (deduct_cancel_fee id o b).
Proof. unfold deduct_cancel_fee, global_parameters. fuel_free. Qed.
#[local] Hint Resolve deduct_cancel_fee_ends : fuel.
Lemma cancel_limit_order_ends id v b : ends (cancel_limit_order id v b).
Proof. unfold cancel_limit_order, get_limit, remove_limit, push_applied_operation. fuel_free. Qed.
#[local] Hint Resolve cancel_limit_order_ends : fuel.
Lemma fill_limit_order_ends id p r c fp mk : ends (fill_limit_order id p r c fp mk).
Proof. unfold fill_limit_order, maybe_cull_small_order, pay_order, lo_amount_to_receive. fuel_free. Qed.
#[local] Hint Resolve fill_limit_order_ends : fuel.
Lemma match_limit_limit_ends taker maker p : ends (match_limit_limit taker maker p).
Proof. unfold match_limit_limit, limit_amounts. fuel_free. Qed.
Lemma cancel_bid_ends id v : ends (cancel_bid id v).
Proof. unfold cancel_bid. fuel_free. Qed.

(** A call order that gives up its whole debt: its call price is not computed again. *)
Lemma fill_call_order_ends id call pays fp mk s :
  d_calls s !! id = Some call → rends (fill_call_order id pays (get_debt call) fp mk s).
Proof.
  intros Hid. unfold fill_call_order, get_call. rewrite (bind_get _ id call) by done. cbv beta.
  apply ends_at. unfold reduce_call_order. simpl amount.
  repeat first [apply ends_skip; [by rewrite Z.eqb_refl, andb_false_r|] | fuel_step].
Qed.

Lemma settle_calls_end fuel : ∀ early p itr call_end gathered s, (size (d_calls s) < fuel)%nat →
  rends (settle_calls fuel early p itr call_end gathered s).
Proof.
  induction fuel as [|fuel IH]; intros early p itr call_end gathered s Hf; [lia|]. simpl.
  destruct (bool_decide _); [done|]. destruct itr as [order|]; [|done].
  unfold get_call. destruct (d_calls s !! order) as [call|] eqn:Hcall.
  2: { unfold bind, get_from. by rewrite Hcall. }
  rewrite (bind_get _ order call) by done. unfold asset_gt. cbv zeta. do 4 ends_read.
  eapply ends_at_bind; [by apply fill_call_order_ends|apply fill_call_order_takes|].
  intros [] s1 Hs1; simpl; [|done]. apply IH. simpl in Hs1. lia.
Qed.

Lemma cancel_bids_end fuel : ∀ a itr s, (size (d_bids s) < fuel)%nat → rends (cancel_bids fuel a itr s).
Proof.
  induction fuel as [|fuel IH]; intros a [id|] s Hf; [lia..| |done]. simpl. unfold get_bid.
  ends_read. destruct (_ =? a); [|done]. ends_read.
  eapply ends_at_bind; [apply cancel_bid_ends|apply cancel_bid_takes|]. intros u s1 Hs1. apply IH. simpl in Hs1. lia.
Qed.

Lemma match_limits_end fuel : ∀ id continue itr limit_end s, (size (d_limits s) < fuel)%nat →
  rends (match_limits fuel id continue itr limit_end s).
Proof.
  induction fuel as [|fuel IH]; intros id continue itr limit_end s Hf; [lia|]. simpl. unfold get_limit.
  destruct (bool_decide _); [done|].
  do 2 ends_read. destruct (continue _); [|done]. ends_read.
  eapply ends_at_bind; [apply match_limit_limit_ends|apply match_limit_limit_takes|]. intros r s1 Hs1.
  destruct (Z.eqb_spec r 2) as [Hr|]; [|done]. apply IH. specialize (Hs1 Hr). lia.
Qed.

(** C30. The loops over the book that do not depend on margin calls end, whatever the
    database: matching a new order with the limit orders of the other side, a global
    settlement and the cancellation of the bids of an asset never need more passes
    than there are orders. *)
Theorem book_loops_end (s : database) :
  (∀ order_id continue itr limit_end,
     match_limits (book_fuel s) order_id continue itr limit_end s ≠ Err OutOfFuel) ∧
  (∀ mia settlement_price, globally_settle_asset mia settlement_price s ≠ Err OutOfFuel) ∧
  (∀ mia, cancel_bids_and_revive_mpa mia s ≠ Err OutOfFuel).
Proof.
  split_and!.
  - intros. apply match_limits_end. unfold book_fuel. lia.
  - intros mia p. unfold globally_settle_asset, price_min, price_max. repeat ends_read. rewrite bind_gets.
    apply ends_then; [apply settle_calls_end; unfold calls_fuel; lia|]. intros gathered. fuel_free.
  - intros mia. unfold cancel_bids_and_revive_mpa, price_max. repeat ends_read. rewrite bind_gets.
    apply ends_then; [apply cancel_bids_end; unfold bids_fuel; lia|]. intros u. fuel_free.
Qed.
End loops.

(** Two proposals that have expired: alice approved that she pays carol, nobody
    that bob does; and one that is still open. *)
Definition proposed (time : Z) (from to : Z) (approved : gset Z) : proposal_object :=
  mk_proposal time None
    (mk_transaction 0 0 time [op_transfer (mk_transfer (mk_asset 20 CORE) from to (mk_asset 50 USD) None)])
    {[ from ]} approved ∅ ∅ ∅ alice.
Definition sample_expired : database :=
  set_d_proposals {[ 4 := proposed (sample_time - 5) alice carol {[ alice ]};
                     5 := proposed sample_time bob carol ∅;
                     6 := proposed (sample_time + 1) bob carol ∅ ]} sample.

Lemma proposal_loops_end_witness :
  ∃ s', clear_proposals 10 false sample_expired = Ok (tt, s') ∧
    ab_balance <$> d_balances s' !! (carol, USD) = Some 50 ∧ dom (d_proposals s') = {[ 6 ]} ∧
    (∀ id p, d_proposals s' !! id = Some p → sample_time < po_expiration_time p).
Proof.
  destruct (proposal_loops_end false sample_expired 10) as (Hfuel & _ & _ & Hnone).
  rewrite Hfuel by (vm_compute; lia).
  destruct (clear_expired_proposals false sample_expired) as [[[] s']|] eqn:E; [|vm_compute in E; discriminate E].
  exists s'. specialize (Hnone s' eq_refl).
  assert (d_head_block_time s' = sample_time ∧ ab_balance <$> d_balances s' !! (carol, USD) = Some 50 ∧ dom (d_proposals s') = {[ 6 ]}) as (Ht & Ha & Hd).
  { clear Hnone. vm_compute in E. injection E as <-. vm_compute. repeat split; reflexivity. }
  rewrite Ht in Hnone. done.
Defined.
